(* ===== verification/_CoqProject ===== *)
-Q . S2P
Prelude.v
SpscRing.v
CString.v
OsMem.v
HugeAlloc.v
NumaUtil.v
NumaInfo.v
PoolIface.v
BufferPool.v
FreeStackConc.v
Crc32.v
TcpHeader.v
RecvBitmap.v
UnackedQueue.v
Rdtsc.v
TcpSession.v
TcpInv.v
TcpOps.v
TcpProtocol.v
TcpCorrect.v
TcpRobust.v
PacketParser.v
Rss.v
BatchProcessor.v
LatencyHistogram.v
PacketRing.v
PerfCounters.v
WorkerPool.v
Pipeline.v
Capture.v
MultiQueue.v
PktGen.v
PerfBaseline.v
