(* ===== verification/Prelude.v ===== *)
(** * uxnet: a verification development

    uxnet is a userspace networking stack in C++: a memory-mapped packet ring, a
    pool of packet buffers on huge pages, a lock-free queue per core, a packet
    parser with batched dispatch, a small reliable transport (TCP-Lite) and the
    measuring tools around them.  This library models the sources under
    src/include, src/src and src/tools and proves what makes each part correct,
    alone and composed.

    ** How the code is read

    An integer of width [w] is a [Z] and is wrapped with [u8], [u16], [u32],
    [u64] or [i32] where the source's type wraps.  Memory is a list of bytes and
    a pointer an offset into it; [aget], [aset], [rd_bytes] and [wr_bytes] are
    accesses, and [None] is undefined behaviour: an access out of range, a failed
    assertion, a conversion that does not fit, or a loop that did not finish
    within its fuel.  So a theorem that an operation is [Some] is a theorem that
    it is memory-safe and ends.  Exceptions are the left side of a sum.  Doubles
    are the standard library's executable IEEE 754 binary64 numbers.

    A class of the source is a record with its members; a method is a function on
    it.  Threads are program counters; a step of a thread accesses shared memory
    at most once, and executions interleave steps arbitrarily.  Atomic accesses
    are sequentially consistent; [spsc_race_free] is the fact that makes this
    adequate for the plain memory of the queue.

    What is not in the repository is a parameter with its documented behaviour:
    memory mapping ([OsMem], [OsMemSpec]), the packet socket ([RingOs],
    [RingOsSpec]), the UDP socket of the generator ([UdpOs], [UdpOsSpec]),
    hardware counters ([PerfOs], [PerfOsSpec], [PerfAbi]), file contents, directory
    listings, clock and counter readings.  Each has an instance with which the
    theorems are applied.  The interface between the pool and its users is
    [PoolOps] with its contract [PoolSpec] and [PoolBytes] (PoolIface.v): the
    users' theorems are proved against it and BufferPool.v discharges it.

    ** The files

    - Prelude.v: integers, memory, option and list lemmas, tactics and hints.
    - SpscRing.v (include/spsc_ring.h): [push] and [pop] alone and as the steps of
      a producer and a consumer.  Every interleaving is a run of a bounded queue;
      no access leaves the array or races.
    - CString.v: the text functions of the C and C++ libraries in use.
    - OsMem.v: [mmap] and [munmap].
    - HugeAlloc.v (huge_alloc.h, huge_alloc.cpp): the registry over the kernel's
      mappings; what [allocate] and [deallocate] do on every branch, and that they
      undo each other; [available_huge_pages] always reports zero.
    - NumaUtil.v (numa_util.h, numa_util.cpp): parsers of /sys and /proc, and which
      mapping [verify_allocation_node] compares with.
    - NumaInfo.v (tools/numa_info.cpp): the report, character by character; it has
      one section per node when the node numbers have no gap.
    - PoolIface.v, BufferPool.v (buffer_pool.h, buffer_pool.cpp): the pool, its
      free stack, constructor and destructor.  Every buffer is free or held;
      buffers do not overlap; two error paths that leave mappings behind.
    - FreeStackConc.v: [FreeStack] under any number of threads is a stack; no index
      is lost or duplicated.
    - Crc32.v, TcpHeader.v (tcp_lite.h, tcp_lite.cpp): the table-driven CRC is the
      bit-serial one; a header and its checksum are read back as they were
      written; error bursts of up to 32 bits, at any bit, in the fields, in the
      checksum or in the payload are detected when they leave the length field
      alone and do not straddle the border of the checksum.
    - RecvBitmap.v, UnackedQueue.v: the receive window is a set and the
      unacknowledged queue a map, across sequence-number wrap-around.
    - Rdtsc.v (rdtsc.h): calibration and conversion of the time-stamp counter.
    - TcpSession.v: [TcpLiteSession], every method.  TcpInv.v and TcpOps.v: its
      invariant, and that every method preserves it.  TcpProtocol.v: two sessions
      and a network that loses, repeats, reorders and damages packets.
      TcpCorrect.v: the bytes delivered are a prefix of the bytes sent; no
      operation is undefined; unacknowledged packets are kept; rounds without loss
      deliver everything and get everything acknowledged; a destroyed session leaks
      nothing.  TcpRobust.v: one session against any peer; forged packets whose
      length field is within the packet neither make an operation undefined nor
      take a member out of the range of its type, and lose no buffer; one whose
      length field reaches behind the pool is read out of bounds.
    - PacketParser.v (packet_parser.h): exactly which bytes [parse] reads; parsing
      a well-formed frame gives its fields back; a damaged IPv4 header is rejected.
    - Rss.v (rss_distributor.h, rss_distributor.cpp): the hash loop is the Toeplitz
      hash; [submit] appends to the queue of the flow.
    - BatchProcessor.v (batch_processor.h, batch_processor.cpp): what one round
      dispatches, flushes and releases.
    - LatencyHistogram.v, PerfCounters.v (perf_counters.h, perf_counters.cpp):
      buckets, percentiles and printed rows; the life of a set of counters.
    - PacketRing.v (packet_ring.h, packet_ring.cpp): construction without leaks on
      every failure; the ring shared with the kernel is a queue of frames.
    - WorkerPool.v (worker_pool.h, worker_pool.cpp): a worker's loop in steps, the
      statistics and the stop flag.
    - Pipeline.v (multiqueue_capture.cpp): kernel, capture thread and workers
      composed over the theorems of their parts.  In every interleaving the
      callback of a queue sees the frames pushed to it, in order and unchanged, a
      frame whose headers lie in it is in the queue of its flow, and every buffer is in exactly one place; after
      [stop] every worker exits.
    - MultiQueue.v: the program around the pipeline.  The constructors establish
      what Pipeline.v assumes; the counters of the callback, the figures printed and
      the final statistics are exact; every exit gives back what was opened, except
      that a pool whose second region cannot be allocated leaves its first mapped.
    - Capture.v (capture.cpp), PktGen.v (tools/pkt_gen.cpp), PerfBaseline.v
      (tools/perf_baseline.cpp): these programs from the command line to the exit.
      The lines of the first are due to the bytes of the frames; the second sends
      each packet right after its deadline; the third works over both of its
      regions.  They end, and they close what they opened, except that the
      generator leaves its socket open when the address is bad and the benchmark
      its first region mapped when the second cannot be allocated.

    ** Bounds and fuel

    [pump_loop] and [deliver_loop] take 257 rounds, one more than the window of 256
    packets that bounds them; [count_received] takes 256; the CRC and the hash
    loops are structural.  [fold_carry] takes two rounds: the first leaves at most
    17 bits of a 32-bit sum.  [meminfo_loop] takes one round more than the text
    has characters.  [tcp_total] and the component lemmas prove that these suffice.
    [wait_until] and [calibrate_wait] poll a counter and a clock that advance; the
    theorem takes more polls than the last deadline and than the reading at which
    100 ms have passed.  The stop flag is read every 1000 iterations of at most four
    steps, hence the 4000 of [workers_stop].

    Two sessions are followed for fewer than 2^31 - 512 packets a side: sequence
    numbers have 32 bits and the protocol has no limit on the age of a packet.  The
    theorems on the window and the queue have no such bound.  A compare-and-swap of
    the free stack is assumed to see fewer than 2^32 updates since its load.

    Frames are assumed to lie in their ring slot, as the kernel writes them, and
    pool buffers to have at least 78 bytes, what the parser may read of any frame
    (80 in capture.cpp, which also reads the UDP length).  TcpRobust.v, and
    the damaged packets of TcpProtocol.v, assume that the length field of a packet
    is within the packet, which [on_packet_received] does not check;
    [on_packet_overread] is what happens otherwise.

    ** Not modelled

    Text sent to the terminal except for the figures in it (numa_info.cpp is
    modelled with its text); prefetching and pauses; the memory orders weaker than
    sequential consistency; the failure of standard containers and of [std::thread]
    to get memory; the UDP socket behind [udp_transmit] other than as the packets
    handed to it; destructors of standard containers.  Declarations in the headers
    are modelled where their methods are defined.  The benchmarks and tests are
    clients of the code, not part of it. *)

From stdpp Require Import base list_numbers gmap numbers sets option list.

#[local] Open Scope Z_scope.

(** ** Fixed-width integers

    A C++ unsigned integer of width [w] is a [Z] in [0, 2^w); arithmetic is
    written on [Z] and wrapped where the source's type wraps. *)

Definition u8 (z : Z) : Z := z mod 2 ^ 8.
Definition u16 (z : Z) : Z := z mod 2 ^ 16.
Definition u32 (z : Z) : Z := z mod 2 ^ 32.
Definition u64 (z : Z) : Z := z mod 2 ^ 64.

(** [static_cast<int32_t>] of a 32-bit value (two's complement). *)
Definition i32 (z : Z) : Z := (z + 2 ^ 31) mod 2 ^ 32 - 2 ^ 31.

Definition is_u8 (z : Z) : Prop := 0 <= z < 2 ^ 8.
Definition is_u16 (z : Z) : Prop := 0 <= z < 2 ^ 16.
Definition is_u32 (z : Z) : Prop := 0 <= z < 2 ^ 32.
Definition is_u64 (z : Z) : Prop := 0 <= z < 2 ^ 64.

(** ** Checked array accesses

    [aget] and [aset] are [a[i]] and [a[i] = x] on an array of known extent;
    [None] is an access outside of it. *)

Definition aget {A} (l : list A) (i : Z) : option A :=
  if 0 <=? i then l !! Z.to_nat i else None.

Definition aset {A} (l : list A) (i : Z) (x : A) : option (list A) :=
  if (0 <=? i) && (i <? Z.of_nat (length l))
  then Some (<[Z.to_nat i := x]> l) else None.

(** [rd_bytes m off n] are the [n] bytes at offset [off] of the memory [m];
    [wr_bytes m off bs] is [memcpy(m + off, bs)]. *)
Definition rd_bytes (m : list Z) (off n : Z) : option (list Z) :=
  if (0 <=? off) && (0 <=? n) && (off + n <=? Z.of_nat (length m))
  then Some (take (Z.to_nat n) (drop (Z.to_nat off) m)) else None.

Definition wr_bytes (m : list Z) (off : Z) (bs : list Z) : option (list Z) :=
  if (0 <=? off) && (off + Z.of_nat (length bs) <=? Z.of_nat (length m))
  then Some (list_inserts (Z.to_nat off) bs m) else None.

(** ** Little-endian byte strings (the host byte order of the target) *)

Fixpoint le_bytes (n : nat) (z : Z) : list Z :=
  match n with
  | O => []
  | S n => z mod 256 :: le_bytes n (z / 256)
  end.

Fixpoint le_num (l : list Z) : Z :=
  match l with
  | [] => 0
  | b :: l => b + 256 * le_num l
  end.

Definition bytes_ok (l : list Z) : Prop := Forall is_u8 l.

(** ** Tactics *)

(** Linear arithmetic with [/] and [mod] turned into their equations. *)
Ltac dmlia := Z.to_euclidean_division_equations; lia.

(** Unfolds the fixed-width casts and range predicates, then [dmlia]. *)
Ltac word :=
  unfold u8, u16, u32, u64, i32, is_u8, is_u16, is_u32, is_u64 in *; dmlia.

(** Runs the first computation of a sequence, whose result is [H]. *)
Lemma bind_red {A B} (x : option A) (f : A -> option B) a : x = Some a -> (x ≫= f) = f a.
Proof. by intros ->. Qed.

Ltac bind_with H := rewrite (bind_red _ _ _ H); cbv beta iota.

Create HintDb uxnet.

(** ** Fixed-width integers: lemmas *)

Lemma u8_range z : is_u8 (u8 z).
Proof. word. Qed.

Lemma u16_range z : is_u16 (u16 z).
Proof. word. Qed.

Lemma u32_range z : is_u32 (u32 z).
Proof. word. Qed.

Lemma u64_range z : is_u64 (u64 z).
Proof. word. Qed.

Lemma u32_id z : is_u32 z -> u32 z = z.
Proof. intros ?. by apply Z.mod_small. Qed.

Lemma u64_id z : is_u64 z -> u64 z = z.
Proof. intros ?. by apply Z.mod_small. Qed.

Lemma u32_add_l a b : u32 (u32 a + b) = u32 (a + b).
Proof. unfold u32. by rewrite Zplus_mod_idemp_l. Qed.

Lemma u32_sub a b : u32 (u32 a - u32 b) = u32 (a - b).
Proof. unfold u32. by rewrite Zminus_mod_idemp_l, Zminus_mod_idemp_r. Qed.

Lemma u64_add_l a b : u64 (u64 a + b) = u64 (a + b).
Proof. unfold u64. by rewrite Zplus_mod_idemp_l. Qed.

Lemma u64_sub a b : u64 (u64 a - u64 b) = u64 (a - b).
Proof. unfold u64. by rewrite Zminus_mod_idemp_l, Zminus_mod_idemp_r. Qed.

Lemma i32_id z : -2 ^ 31 <= z < 2 ^ 31 -> i32 z = z.
Proof. intros ?. word. Qed.

Lemma i32_u32 z : i32 (u32 z) = i32 z.
Proof. unfold i32, u32. by rewrite Zplus_mod_idemp_l. Qed.

(** The serial-number comparison of the code: for two counters less than
    [2^31] apart, the signed difference of their 32-bit projections is their
    difference. *)
Lemma i32_seq_diff a b : -2 ^ 31 <= a - b < 2 ^ 31 -> i32 (u32 (u32 a - u32 b)) = a - b.
Proof. intros ?. rewrite u32_sub, i32_u32. by apply i32_id. Qed.

Lemma u32_inj_near a b : -2 ^ 32 < a - b < 2 ^ 32 -> u32 a = u32 b -> a = b.
Proof. word. Qed.

Lemma lxor_pow2 a b k : 0 <= k -> 0 <= a < 2 ^ k -> 0 <= b < 2 ^ k -> 0 <= Z.lxor a b < 2 ^ k.
Proof.
  intros Hk Ha Hb. assert (0 <= Z.lxor a b) by (apply Z.lxor_nonneg; lia). split; [done|].
  destruct (decide (Z.lxor a b = 0)) as [->|]; [lia|]. apply Z.log2_lt_pow2; [lia|].
  pose proof (Z.log2_lxor a b ltac:(lia) ltac:(lia)).
  assert (forall x, 0 <= x < 2 ^ k -> Z.log2 x < k \/ x = 0) as Hl.
  { intros x Hx. destruct (decide (x = 0)); [by right|]. left. apply Z.log2_lt_pow2; lia. }
  destruct (Hl a Ha) as [?| ->], (Hl b Hb) as [?| ->]; rewrite ?Z.lxor_0_l, ?Z.lxor_0_r in *; lia.
Qed.

Lemma lxor_u32 a b : is_u32 a -> is_u32 b -> is_u32 (Z.lxor a b).
Proof. by apply lxor_pow2. Qed.

(** A counter printed as differences: they add up to its last value. *)
Lemma sum_deltas (l : list Z) last total :
  u64 (foldr Z.add 0 l) = last -> u64 (foldr Z.add 0 (l ++ [u64 (total - last)])) = u64 total.
Proof.
  intros <-. rewrite <-(u64_sub total), u64_sub. assert (forall x, foldr Z.add 0 (l ++ [x]) = foldr Z.add 0 l + x) as ->.
  { intros x. induction l as [|y l IH]; simpl; lia. }
  unfold u64. rewrite Zminus_mod_idemp_r, Zplus_mod_idemp_r. f_equal. lia.
Qed.

Lemma u64_inj_near a b : -2 ^ 64 < a - b < 2 ^ 64 -> u64 a = u64 b -> a = b.
Proof. word. Qed.

Lemma land_mask k x : 0 <= k -> Z.land x (2 ^ k - 1) = x mod 2 ^ k.
Proof. intros. rewrite <-Z.land_ones, Z.ones_equiv by done. f_equal; lia. Qed.

Lemma mod_pow2_narrow j k x : 0 <= j <= k -> (x mod 2 ^ k) mod 2 ^ j = x mod 2 ^ j.
Proof.
  intros. apply Z.mod_mod_divide.
  exists (2 ^ (k - j)). rewrite <-Z.pow_add_r by lia. f_equal; lia.
Qed.

(** [n != 0 && (n & (n - 1)) == 0] is the power-of-two test. *)
Lemma pow2_test n : 0 <= n -> n <> 0 -> Z.land n (n - 1) = 0 -> n = 2 ^ Z.log2 n.
Proof.
  intros ?? Hl. assert (0 < n) as Hn by lia. destruct (Z.log2_spec n Hn) as [Hlo Hhi].
  destruct (decide (n = 2 ^ Z.log2 n)) as [|Hne]; [done|].
  assert (Z.testbit n (Z.log2 n) = true) by (apply Z.bit_log2; lia).
  assert (Z.log2 (n - 1) = Z.log2 n) as Hlog
    by (apply Z.log2_unique; [apply Z.log2_nonneg|lia]).
  assert (Z.testbit (n - 1) (Z.log2 n) = true).
  { rewrite <-Hlog. apply Z.bit_log2.
    pose proof (Z.pow_pos_nonneg 2 (Z.log2 n)). pose proof (Z.log2_nonneg n). lia. }
  assert (Z.testbit (Z.land n (n - 1)) (Z.log2 n) = true) as Hb
    by (rewrite Z.land_spec; by apply andb_true_iff).
  by rewrite Hl, Z.bits_0 in Hb.
Qed.

#[export] Hint Resolve u8_range u16_range u32_range u64_range : uxnet.

(** ** Array accesses: lemmas *)

Lemma aget_Some {A} (l : list A) i x : aget l i = Some x <-> 0 <= i /\ l !! Z.to_nat i = Some x.
Proof. unfold aget. destruct (Z.leb_spec 0 i); [tauto|]. split; [done|intros []; lia]. Qed.

Lemma aget_is_Some {A} (l : list A) i : 0 <= i < Z.of_nat (length l) -> is_Some (aget l i).
Proof.
  intros [? ?]. unfold aget. destruct (Z.leb_spec 0 i); [|lia].
  apply lookup_lt_is_Some. lia.
Qed.

Lemma aset_Some {A} (l : list A) i x :
  0 <= i < Z.of_nat (length l) -> aset l i x = Some (<[Z.to_nat i := x]> l).
Proof.
  intros [? ?]. unfold aset.
  destruct (Z.leb_spec 0 i), (Z.ltb_spec i (Z.of_nat (length l))); simpl; done || lia.
Qed.

Lemma aset_inv {A} (l l' : list A) i x :
  aset l i x = Some l' -> 0 <= i < Z.of_nat (length l) /\ l' = <[Z.to_nat i := x]> l.
Proof.
  unfold aset. destruct (Z.leb_spec 0 i), (Z.ltb_spec i (Z.of_nat (length l)));
    simpl; intros; simplify_eq; done.
Qed.

Lemma aget_insert {A} (l : list A) i j x :
  0 <= i < Z.of_nat (length l) ->
  aget (<[Z.to_nat i := x]> l) j = if decide (i = j) then Some x else aget l j.
Proof.
  intros Hi. unfold aget. case_decide as Hij; destruct (Z.leb_spec 0 j); subst; try done; try lia.
  - apply list_lookup_insert_eq. lia.
  - apply list_lookup_insert_ne. lia.
Qed.

Lemma aget_range {A} (l : list A) i x : aget l i = Some x -> 0 <= i < Z.of_nat (length l).
Proof. rewrite aget_Some. intros [? Hl]. apply lookup_lt_Some in Hl. lia. Qed.

Lemma aget_app {A} (l r : list A) i x : aget l i = Some x -> aget (l ++ r) i = Some x.
Proof. rewrite !aget_Some. intros [? Hx]. split; [done|]. by apply lookup_app_l_Some. Qed.

Lemma rd_bytes_Some m off n :
  0 <= off -> 0 <= n -> off + n <= Z.of_nat (length m) ->
  rd_bytes m off n = Some (take (Z.to_nat n) (drop (Z.to_nat off) m)).
Proof. intros. unfold rd_bytes. rewrite !(proj2 (Z.leb_le _ _)) by lia. done. Qed.

Lemma rd_bytes_app pre x post off n :
  Z.of_nat (length pre) = off -> Z.of_nat (length x) = n -> rd_bytes (pre ++ x ++ post) off n = Some x.
Proof.
  intros <- <-. rewrite rd_bytes_Some by (rewrite ?length_app; lia).
  by rewrite !Nat2Z.id, drop_app_length, take_app_length.
Qed.

Lemma wr_bytes_Some m off bs :
  0 <= off -> off + Z.of_nat (length bs) <= Z.of_nat (length m) ->
  wr_bytes m off bs = Some (list_inserts (Z.to_nat off) bs m).
Proof. intros. unfold wr_bytes. rewrite !(proj2 (Z.leb_le _ _)) by lia. done. Qed.

(** ** Little-endian byte strings: lemmas *)

Lemma wr_bytes_ok m off bs m' : bytes_ok m -> bytes_ok bs -> wr_bytes m off bs = Some m' -> bytes_ok m'.
Proof.
  intros Hm Hbs. unfold wr_bytes. case_match; [|done]. intros [= <-]. apply Forall_lookup. intros i x Hx.
  apply list_lookup_inserts_Some in Hx as [[_ Hx]|Hx]; [by eapply Forall_lookup_1 in Hx|].
  destruct Hx as (_ & _ & Hx). by eapply Forall_lookup_1 in Hx.
Qed.

Lemma length_le_bytes n z : length (le_bytes n z) = n.
Proof. revert z. induction n; intros; simpl; auto. Qed.

Lemma le_bytes_ok n z : bytes_ok (le_bytes n z).
Proof. revert z. induction n; intros; constructor; [word|apply IHn]. Qed.

Lemma le_num_bytes n z : 0 <= z < 256 ^ Z.of_nat n -> le_num (le_bytes n z) = z.
Proof.
  revert z. induction n as [|n IH]; intros z Hz; [simpl in *; lia|].
  rewrite Nat2Z.inj_succ, Z.pow_succ_r in Hz by lia.
  cbn [le_bytes le_num]. rewrite IH by (split; [apply Z.div_pos|apply Z.div_lt_upper_bound]; lia).
  dmlia.
Qed.

Lemma le_bytes_num l : bytes_ok l -> le_bytes (length l) (le_num l) = l.
Proof.
  induction 1 as [|b l Hb Hl IH]; [done|]. unfold is_u8 in Hb. cbn [length le_bytes le_num].
  replace ((b + 256 * le_num l) mod 256) with b by dmlia.
  replace ((b + 256 * le_num l) / 256) with (le_num l) by dmlia. by rewrite IH.
Qed.

Lemma le_num_range l : bytes_ok l -> 0 <= le_num l < 256 ^ Z.of_nat (length l).
Proof.
  induction 1 as [|b l Hb Hl IH]; [simpl; lia|]. unfold is_u8 in Hb. cbn [length le_num].
  rewrite Nat2Z.inj_succ, Z.pow_succ_r; lia.
Qed.

Lemma le_num_app l k : le_num (l ++ k) = le_num l + 2 ^ (8 * Z.of_nat (length l)) * le_num k.
Proof.
  induction l as [|b l IH]; cbn [app length le_num]; [change (2 ^ (8 * Z.of_nat 0)) with 1; lia|].
  rewrite IH, Nat2Z.inj_succ. replace (8 * Z.succ (Z.of_nat (length l))) with (8 + 8 * Z.of_nat (length l)) by lia.
  rewrite Z.pow_add_r by lia. change (2 ^ 8) with 256. lia.
Qed.

(** The bits of the bytes one after the other. *)
Lemma le_num_bits l k i :
  bytes_ok l -> 0 <= i ->
  Z.testbit (le_num (l ++ k)) i =
    if i <? 8 * Z.of_nat (length l) then Z.testbit (le_num l) i
    else Z.testbit (le_num k) (i - 8 * Z.of_nat (length l)).
Proof.
  intros Hl Hi. pose proof (le_num_range l Hl) as Hr. rewrite le_num_app.
  change 256 with (2 ^ 8) in Hr. rewrite <-Z.pow_mul_r in Hr by lia.
  set (n := 8 * Z.of_nat (length l)) in *. assert (0 <= n) by lia. destruct (Z.ltb_spec i n).
  - rewrite <-(Z.mod_pow2_bits_low _ n) by lia. rewrite Z.mul_comm, Z_mod_plus_full.
    by rewrite Z.mod_small by done.
  - replace i with ((i - n) + n) at 1 by lia. rewrite <-Z.div_pow2_bits by lia.
    rewrite Z.mul_comm, Z.div_add, Z.div_small by lia. f_equal; lia.
Qed.

(** ** Lists *)

Lemma lookup_snoc {A} (l : list A) (x : A) (i : nat) :
  (l ++ [x]) !! i = if decide (i = length l) then Some x else l !! i.
Proof.
  case_decide as Hi; subst; [by rewrite list_lookup_middle|].
  destruct (decide (i < length l)%nat); [by rewrite lookup_app_l|].
  rewrite (lookup_ge_None_2 l) by lia. apply lookup_ge_None_2. rewrite length_app. simpl. lia.
Qed.

(** The element of a circular array of size [n] that holds index [k]. *)
Lemma mod_window_inj n h i j :
  0 < n -> 0 <= i < n -> 0 <= j < n -> (h + i) mod n = (h + j) mod n -> i = j.
Proof.
  intros ??? Heq. assert ((i - j) mod n = 0) as Hd.
  { replace (i - j) with ((h + i) - (h + j)) by lia.
    rewrite Zminus_mod, Heq, Z.sub_diag. apply Z.mod_0_l; lia. }
  apply Z.mod_divide in Hd; [|lia]. destruct Hd as [c Hc].
  assert (c < 1) by nia. assert (-1 < c) by nia. assert (c = 0) as -> by lia. lia.
Qed.

(** Distinct indices below [n] are at most [n]. *)
Lemma NoDup_range_length (l : list Z) (n : Z) :
  0 <= n -> NoDup l -> (forall i, i ∈ l -> 0 <= i < n) -> Z.of_nat (length l) <= n.
Proof.
  intros Hn Hnd Hr. assert (l ⊆+ seqZ 0 n) as Hs.
  { apply NoDup_submseteq; [done|]. intros i Hi. apply elem_of_seqZ. specialize (Hr i Hi). lia. }
  apply submseteq_length in Hs. rewrite length_seqZ in Hs. lia.
Qed.

(** [omap] of a function that is injective on the elements it keeps. *)
Lemma NoDup_omap_inj {A B} (f : A -> option B) (l : list A) :
  (forall i j x y z, l !! i = Some x -> l !! j = Some y -> f x = Some z -> f y = Some z -> i = j) ->
  NoDup (omap f l).
Proof.
  induction l as [|x l IH]; intros Hinj; [constructor|].
  assert (NoDup (omap f l)) as Hl.
  { apply IH. intros i j y y' z Hi Hj Hy Hy'. pose proof (Hinj (S i) (S j) y y' z Hi Hj Hy Hy'). lia. }
  simpl. destruct (f x) as [z|] eqn:Hx; [|done]. apply NoDup_cons. split; [|done].
  intros (y & Hin & Hy)%list_elem_of_omap. apply list_elem_of_lookup in Hin as [j Hj].
  pose proof (Hinj 0%nat (S j) x y z eq_refl Hj Hx Hy). lia.
Qed.

Lemma take_length_take {A} (n : nat) (l : list A) : take (length (take n l)) l = take n l.
Proof.
  rewrite length_take. destruct (decide (n <= length l)%nat); [by rewrite Nat.min_l|].
  by rewrite Nat.min_r, !take_ge by lia.
Qed.

(** ** Regions of a flat memory *)

Lemma inserts_middle (k : nat) (bs l : list Z) :
  (k + length bs <= length l)%nat ->
  list_inserts k bs l = take k l ++ bs ++ drop (k + length bs) l.
Proof.
  intros Hl. apply list_eq. intros i. destruct (decide (i < k)%nat).
  { rewrite list_lookup_inserts_lt, lookup_app_l, lookup_take_lt by (rewrite ?length_take; lia). done. }
  rewrite (lookup_app_r (take k l)) by (rewrite length_take; lia). rewrite length_take, Nat.min_l by lia.
  destruct (decide (i < k + length bs)%nat).
  - rewrite list_lookup_inserts, lookup_app_l by lia. done.
  - rewrite list_lookup_inserts_ge, lookup_app_r, lookup_drop by lia. f_equal. lia.
Qed.

Lemma region_inserts_ne (bk xs : list Z) (o o' n : nat) :
  (o' + n <= o \/ o + length xs <= o')%nat ->
  take n (drop o' (list_inserts o xs bk)) = take n (drop o' bk).
Proof.
  intros Hd. apply list_eq. intros i. rewrite !lookup_take, !lookup_drop.
  case_decide; [|done]. destruct Hd.
  - apply list_lookup_inserts_lt. lia.
  - apply list_lookup_inserts_ge. lia.
Qed.

Lemma region_inserts_eq (bk xs : list Z) (o off n : nat) :
  (off + length xs <= n)%nat -> (o + n <= length bk)%nat ->
  take n (drop o (list_inserts (o + off) xs bk)) = list_inserts off xs (take n (drop o bk)).
Proof.
  intros Hx Hb. apply list_eq. intros i. rewrite !lookup_take, !lookup_drop.
  destruct (decide (i < n)%nat) as [Hi|Hi]; [|symmetry; apply lookup_ge_None_2;
    rewrite length_inserts, length_take, length_drop; lia].
  destruct (decide (i < off)%nat).
  { rewrite !list_lookup_inserts_lt, lookup_take_lt, lookup_drop by lia. done. }
  destruct (decide (off + length xs <= i)%nat).
  { rewrite !list_lookup_inserts_ge, lookup_take_lt, lookup_drop by lia. done. }
  rewrite !list_lookup_inserts; rewrite ?length_take, ?length_drop; try lia. f_equal. lia.
Qed.

(** Replacing one list of a concatenation. *)
Lemma concat_insert {A} (qs : list (list A)) i q :
  qs !! i = Some q -> exists R, concat qs ≡ₚ q ++ R /\ forall q', concat (<[i := q']> qs) ≡ₚ q' ++ R.
Proof.
  intros Hi. exists (concat (take i qs) ++ concat (drop (S i) qs)). pose proof (lookup_lt_Some _ _ _ Hi). split.
  - rewrite <-(take_drop_middle qs i q Hi) at 1. rewrite concat_app. simpl. rewrite !app_assoc. by rewrite (Permutation_app_comm (concat _)).
  - intros q'. rewrite insert_take_drop by done. rewrite concat_app. simpl. rewrite !app_assoc.
    by rewrite (Permutation_app_comm (concat _)).
Qed.
