(* ===== verification/SpscRing.v ===== *)
(** * The single-producer/single-consumer ring (include/spsc_ring.h)

    [ring] is the object's state, [push], [pop], [empty] and [size] are its
    operations run alone; [prod_step] and [cons_step] are the same two methods
    cut at their loads and stores, so that [exec] interleaves one producer and
    one consumer.  The memory orders of the source are read as sequentially
    consistent accesses; [step_race_free] is the fact that makes that reading
    adequate for the unsynchronised [slots_] array. *)

From S2P Require Import Prelude.
From stdpp Require Import base list list_numbers option.
#[local] Open Scope Z_scope.

Section spsc.
Context {T : Type}.

(** [static_assert(N != 0 && (N & (N - 1)) == 0)], for a [size_t] [N]. *)
Definition ring_size_ok (N : Z) : bool :=
  (0 <=? N) && (N <? 2 ^ 64) && negb (N =? 0) && (Z.land N (N - 1) =? 0).

Record ring := mkRing { head_ : Z; tail_ : Z; slots_ : list T }.

(** A default-constructed ring; [slots_] is left as the memory was. *)
Definition ring_init (garbage : list T) : ring := mkRing 0 0 garbage.

Context (N : Z).

Definition push (r : ring) (item : T) : option (bool * ring) :=
  let tail := tail_ r in
  let head := head_ r in
  if u64 (tail - head) =? N then Some (false, r)
  else
    slots ← aset (slots_ r) (Z.land tail (N - 1)) item;
    Some (true, mkRing head (u64 (tail + 1)) slots).

(** The popped item is returned; [None] inside is the [false] return. *)
Definition pop (r : ring) : option (option T * ring) :=
  let head := head_ r in
  let tail := tail_ r in
  if head =? tail then Some (None, r)
  else
    item ← aget (slots_ r) (Z.land head (N - 1));
    Some (Some item, mkRing (u64 (head + 1)) tail (slots_ r)).

Definition empty (r : ring) : bool := head_ r =? tail_ r.

Definition size (r : ring) : Z := u64 (tail_ r - head_ r).

(** ** The two threads

    A program counter per thread, one constructor per point between two
    accesses of shared memory, carrying the locals that are live there. *)

Inductive prod_pc :=
| PIdle
| PTail (item : T) (tail : Z)
| PHead (item : T) (tail head : Z)
| PSlot (item : T) (tail : Z).

Inductive cons_pc :=
| CIdle
| CHead (head : Z)
| CTail (head tail : Z)
| CSlot (head : Z) (item : T).

Record conc := mkConc { shared : ring; prod : prod_pc; cons : cons_pc }.

(** What the two methods do, at the access where each takes effect. *)
Inductive event :=
| EPush (item : T)
| EPushFull (item : T)
| EPop (item : T)
| EPopEmpty.

(** The next access of the producer; [x] is the argument of the next call. *)
Definition prod_step (x : T) (s : conc) : option (list event * conc) :=
  let r := shared s in
  match prod s with
  | PIdle => Some ([], mkConc r (PTail x (tail_ r)) (cons s))
  | PTail item tail =>
      Some (if u64 (tail - head_ r) =? N then [EPushFull item] else [],
            mkConc r (PHead item tail (head_ r)) (cons s))
  | PHead item tail head =>
      if u64 (tail - head) =? N then Some ([], mkConc r PIdle (cons s))
      else
        slots ← aset (slots_ r) (Z.land tail (N - 1)) item;
        Some ([], mkConc (mkRing (head_ r) (tail_ r) slots) (PSlot item tail) (cons s))
  | PSlot item tail =>
      Some ([EPush item],
            mkConc (mkRing (head_ r) (u64 (tail + 1)) (slots_ r)) PIdle (cons s))
  end.

Definition cons_step (s : conc) : option (list event * conc) :=
  let r := shared s in
  match cons s with
  | CIdle => Some ([], mkConc r (prod s) (CHead (head_ r)))
  | CHead head =>
      Some (if head =? tail_ r then [EPopEmpty] else [],
            mkConc r (prod s) (CTail head (tail_ r)))
  | CTail head tail =>
      if head =? tail then Some ([], mkConc r (prod s) CIdle)
      else
        item ← aget (slots_ r) (Z.land head (N - 1));
        Some ([], mkConc r (prod s) (CSlot head item))
  | CSlot head item =>
      Some ([EPop item],
            mkConc (mkRing (u64 (head + 1)) (tail_ r) (slots_ r)) (prod s) CIdle)
  end.

Inductive step : conc -> list event -> conc -> Prop :=
| step_prod x s evs s' : prod_step x s = Some (evs, s') -> step s evs s'
| step_cons s evs s' : cons_step s = Some (evs, s') -> step s evs s'.

Inductive exec : conc -> list event -> conc -> Prop :=
| exec_nil s : exec s [] s
| exec_snoc s tr s' evs s'' : exec s tr s' -> step s' evs s'' -> exec s (tr ++ evs) s''.

Definition conc_init (garbage : list T) : conc := mkConc (ring_init garbage) PIdle CIdle.

(** A schedule: [Some x] lets the producer move, [None] the consumer. *)
Fixpoint run_sched (sch : list (option T)) (tr : list event) (s : conc) :
    option (list event * conc) :=
  match sch with
  | [] => Some (tr, s)
  | c :: sch =>
      '(evs, s') ← match c with Some x => prod_step x s | None => cons_step s end;
      run_sched sch (tr ++ evs) s'
  end.

(** ** The contract: a bounded FIFO queue *)

Inductive queue_step : list T -> event -> list T -> Prop :=
| q_push q x : Z.of_nat (length q) < N -> queue_step q (EPush x) (q ++ [x])
| q_push_full q x : Z.of_nat (length q) = N -> queue_step q (EPushFull x) q
| q_pop q x : queue_step (x :: q) (EPop x) q
| q_pop_empty : queue_step [] EPopEmpty [].

Inductive queue_run : list T -> list event -> list T -> Prop :=
| qr_nil q : queue_run q [] q
| qr_snoc q tr q' e q'' :
    queue_run q tr q' -> queue_step q' e q'' -> queue_run q (tr ++ [e]) q''.

(** The items that went in and the items that came out, in order. *)
Definition pushed (tr : list event) : list T :=
  omap (fun e => match e with EPush x => Some x | _ => None end) tr.

Definition popped (tr : list event) : list T :=
  omap (fun e => match e with EPop x => Some x | _ => None end) tr.

(** ** The representation invariant

    [ring_rep r H q]: the ring holds the queue [q] whose first element has
    the unbounded index [H]; the [size_t] cursors are the projections of [H]
    and [H + length q]. *)

Record ring_rep (r : ring) (H : Z) (q : list T) : Prop := {
  rep_H : 0 <= H;
  rep_head : head_ r = u64 H;
  rep_tail : tail_ r = u64 (H + Z.of_nat (length q));
  rep_len : Z.of_nat (length q) <= N;
  rep_slots : Z.of_nat (length (slots_ r)) = N;
  rep_at : forall (i : nat) x, q !! i = Some x ->
    slots_ r !! Z.to_nat ((H + Z.of_nat i) mod N) = Some x
}.

Definition holds (r : ring) (q : list T) : Prop := exists H, ring_rep r H q.

(** What the two program counters know of the queue, [Tl] being the unbounded
    index of the next push. *)
Definition prod_inv (r : ring) (H : Z) (q : list T) (pc : prod_pc) : Prop :=
  let Tl := H + Z.of_nat (length q) in
  match pc with
  | PIdle => True
  | PTail _ t => t = tail_ r
  | PHead _ t h => t = tail_ r /\ exists Hp, h = u64 Hp /\ 0 <= Hp <= H /\ Tl - Hp <= N
  | PSlot x t => t = tail_ r /\ Z.of_nat (length q) < N /\
                 slots_ r !! Z.to_nat (Tl mod N) = Some x
  end.

Definition cons_inv (r : ring) (H : Z) (q : list T) (pc : cons_pc) : Prop :=
  match pc with
  | CIdle => True
  | CHead h => h = head_ r
  | CTail h t => h = head_ r /\
                 exists Tc, t = u64 Tc /\ H <= Tc <= H + Z.of_nat (length q)
  | CSlot h x => h = head_ r /\ q !! 0%nat = Some x
  end.

Record conc_inv (s : conc) (H : Z) (q : list T) : Prop := {
  ci_rep : ring_rep (shared s) H q;
  ci_prod : prod_inv (shared s) H q (prod s);
  ci_cons : cons_inv (shared s) H q (cons s)
}.

(** ** Lemmas *)

Context (HN : ring_size_ok N = true).

Lemma ring_size_pow2 : exists k, 0 <= k < 64 /\ N = 2 ^ k.
Proof.
  unfold ring_size_ok in HN. rewrite !andb_true_iff, negb_true_iff in HN.
  destruct HN as [[[H1 H2] H3] H4]. rewrite Z.leb_le in H1. rewrite Z.ltb_lt in H2.
  rewrite Z.eqb_neq in H3. rewrite Z.eqb_eq in H4. exists (Z.log2 N).
  split; [|by apply pow2_test]. split; [apply Z.log2_nonneg|].
  apply Z.log2_lt_pow2; lia.
Qed.

Lemma ring_size_bounds : 0 < N < 2 ^ 64.
Proof.
  destruct ring_size_pow2 as (k & Hk & ->). split; [apply Z.pow_pos_nonneg; lia|].
  apply Z.pow_lt_mono_r; lia.
Qed.

(** The mask selects the slot of the unbounded index. *)
Lemma slot_index k : Z.land (u64 k) (N - 1) = k mod N.
Proof.
  destruct ring_size_pow2 as (j & Hj & ->). rewrite land_mask by lia.
  unfold u64. apply mod_pow2_narrow; lia.
Qed.

Lemma slot_bound k : 0 <= k mod N < N.
Proof. apply Z.mod_pos_bound, ring_size_bounds. Qed.

Lemma slot_in_range r H q k :
  ring_rep r H q -> 0 <= Z.land (u64 k) (N - 1) < Z.of_nat (length (slots_ r)).
Proof. intros R. rewrite slot_index, (rep_slots _ _ _ R). apply slot_bound. Qed.

Lemma rep_size r H q : ring_rep r H q -> u64 (tail_ r - head_ r) = Z.of_nat (length q).
Proof.
  intros R. rewrite (rep_head _ _ _ R), (rep_tail _ _ _ R), u64_sub.
  pose proof (rep_len _ _ _ R). pose proof ring_size_bounds.
  replace (H + Z.of_nat (length q) - H) with (Z.of_nat (length q)) by lia.
  apply u64_id. unfold is_u64. lia.
Qed.

Lemma rep_empty r H q : ring_rep r H q -> (head_ r =? tail_ r) = true <-> q = [].
Proof.
  intros R. rewrite Z.eqb_eq, (rep_head _ _ _ R), (rep_tail _ _ _ R).
  pose proof (rep_len _ _ _ R). pose proof ring_size_bounds. split.
  - intros Hu. apply u64_inj_near in Hu; [|lia]. apply length_zero_iff_nil. lia.
  - intros ->. simpl. f_equal. lia.
Qed.

(** Writing the slot of the next index leaves the stored queue alone. *)
Lemma rep_write r H q x t :
  ring_rep r H q -> Z.of_nat (length q) < N -> t = tail_ r ->
  exists sl, aset (slots_ r) (Z.land t (N - 1)) x = Some sl /\
    ring_rep (mkRing (head_ r) (tail_ r) sl) H q /\
    sl !! Z.to_nat ((H + Z.of_nat (length q)) mod N) = Some x.
Proof.
  intros R Hlt ->. eexists. split.
  { rewrite (rep_tail _ _ _ R). apply aset_Some. by eapply slot_in_range. }
  rewrite slot_index. pose proof (slot_bound (H + Z.of_nat (length q))) as Hb.
  pose proof (rep_slots _ _ _ R) as Hs. split.
  - split; simpl; try apply R; [by rewrite length_insert; apply R|].
    intros i y Hi. pose proof (lookup_lt_Some _ _ _ Hi).
    rewrite list_lookup_insert_ne; [by apply R|]. intros Heq.
    pose proof (slot_bound (H + Z.of_nat i)).
    apply Z2Nat.inj in Heq; [|lia..]. apply mod_window_inj in Heq; lia.
  - apply list_lookup_insert_eq. lia.
Qed.

(** Publishing the tail appends what the next slot holds. *)
Lemma rep_publish r H q x :
  ring_rep r H q -> Z.of_nat (length q) < N ->
  slots_ r !! Z.to_nat ((H + Z.of_nat (length q)) mod N) = Some x ->
  ring_rep (mkRing (head_ r) (u64 (tail_ r + 1)) (slots_ r)) H (q ++ [x]).
Proof.
  intros R Hlt Hx. split; simpl; try apply R; rewrite ?length_app; simpl; [|lia|].
  - rewrite (rep_tail _ _ _ R), u64_add_l. f_equal. lia.
  - intros i y. rewrite lookup_snoc. case_decide as Hi; [|apply R].
    intros [= <-]. by subst i.
Qed.

(** The slot of the head index holds the front of the queue. *)
Lemma rep_front r H x q :
  ring_rep r H (x :: q) -> aget (slots_ r) (Z.land (head_ r) (N - 1)) = Some x.
Proof.
  intros R. rewrite (rep_head _ _ _ R), slot_index. apply aget_Some.
  split; [apply slot_bound|]. rewrite <-(Z.add_0_r H). by apply (rep_at _ _ _ R 0%nat).
Qed.

Lemma rep_advance r H x q :
  ring_rep r H (x :: q) -> ring_rep (mkRing (u64 (head_ r + 1)) (tail_ r) (slots_ r)) (H + 1) q.
Proof.
  intros R. pose proof (rep_len _ _ _ R) as Hl. simpl in Hl. split; simpl; try apply R.
  - pose proof (rep_H _ _ _ R). lia.
  - rewrite (rep_head _ _ _ R), u64_add_l. done.
  - rewrite (rep_tail _ _ _ R). simpl. f_equal. lia.
  - lia.
  - intros i y Hi. replace (H + 1 + Z.of_nat i) with (H + Z.of_nat (S i)) by lia.
    by apply (rep_at _ _ _ R).
Qed.

(** ** The methods run alone *)

Lemma ring_init_holds garbage :
  Z.of_nat (length garbage) = N -> holds (ring_init garbage) [].
Proof. intros Hg. exists 0. pose proof ring_size_bounds. split; simpl; done || lia. Qed.

Lemma push_spec_lemma r q x :
  holds r q ->
  exists r', push r x = Some (Z.of_nat (length q) <? N, r') /\
    holds r' (if Z.of_nat (length q) <? N then q ++ [x] else q).
Proof.
  intros [H R]. unfold push. rewrite (rep_size _ _ _ R).
  pose proof (rep_len _ _ _ R). destruct (Z.eqb_spec (Z.of_nat (length q)) N) as [E|E].
  - rewrite (proj2 (Z.ltb_ge _ _)) by lia. exists r. split; [done|]. by exists H.
  - rewrite (proj2 (Z.ltb_lt _ _)) by lia.
    destruct (rep_write _ _ _ x _ R ltac:(lia) eq_refl) as (sl & -> & R' & Hx). simpl.
    eexists. split; [done|]. exists H.
    by apply (rep_publish _ _ _ _ R' ltac:(lia)) in Hx.
Qed.

Lemma pop_spec_lemma r q :
  holds r q ->
  exists r', pop r = Some (head q, r') /\ holds r' (tail q).
Proof.
  intros [H R]. unfold pop. destruct q as [|x q].
  - rewrite (proj2 (rep_empty _ _ _ R)) by done. exists r. split; [done|]. by exists H.
  - destruct (head_ r =? tail_ r) eqn:E; [by apply (rep_empty _ _ _ R) in E|].
    rewrite (rep_front _ _ _ _ R). simpl. eexists. split; [done|].
    exists (H + 1). by eapply rep_advance.
Qed.

(** ** Interleavings *)

Lemma queue_run_one q e q' : queue_step q e q' -> queue_run q [e] q'.
Proof. intros. apply (qr_snoc q [] q e q'); [constructor|done]. Qed.

Lemma prod_step_inv x s H q evs s' :
  conc_inv s H q -> prod_step x s = Some (evs, s') ->
  exists q', conc_inv s' H q' /\ queue_run q evs q'.
Proof.
  intros [R P C] Hs. unfold prod_step in Hs. destruct s as [r p c]; simpl in *.
  pose proof (rep_len _ _ _ R) as Hlen.
  destruct p as [|y t|y t h|y t]; simpl in P; simplify_eq.
  - exists q. split; [by split|constructor].
  - exists q. rewrite (rep_size _ _ _ R). split.
    + split; simpl; [done| |done]. split; [done|]. exists H.
      rewrite (rep_head _ _ _ R). pose proof (rep_H _ _ _ R). repeat split; lia.
    + destruct (Z.eqb_spec (Z.of_nat (length q)) N); [|constructor].
      apply queue_run_one; constructor. done.
  - destruct P as [-> (Hp & -> & Hp1 & Hp2)]. exists q.
    destruct (Z.eqb_spec (u64 (tail_ r - u64 Hp)) N) as [E|E]; simplify_eq.
    { split; [by split|constructor]. }
    assert (Z.of_nat (length q) < N) as Hlt.
    { rewrite (rep_tail _ _ _ R), u64_sub, u64_id in E; [lia|].
      pose proof ring_size_bounds. unfold is_u64. lia. }
    destruct (rep_write _ _ _ y _ R Hlt eq_refl) as (sl & Hsl & R' & Hx).
    rewrite Hsl in Hs. simplify_eq/=. split; [|constructor].
    split; simpl; [done|done|]. destruct c; simpl in *; done.
  - destruct P as (-> & Hlt & Hx). exists (q ++ [y]). split.
    + split; simpl; [by apply rep_publish|done|].
      destruct c as [|h|h t|h z]; simpl in *; try done.
      * destruct C as [-> (Tc & -> & ?)]. split; [done|]. exists Tc.
        rewrite length_app. simpl. split; [done|lia].
      * destruct C as [-> C]. split; [done|]. by apply lookup_app_l_Some.
    + apply queue_run_one; constructor. done.
Qed.

Lemma cons_step_inv s H q evs s' :
  conc_inv s H q -> cons_step s = Some (evs, s') ->
  exists H' q', conc_inv s' H' q' /\ queue_run q evs q'.
Proof.
  intros [R P C] Hs. unfold cons_step in Hs. destruct s as [r p c]; simpl in *.
  destruct c as [|h|h t|h y]; simpl in C; simplify_eq.
  - exists H, q. split; [by split|constructor].
  - exists H, q. split.
    + split; simpl; [done|done|]. split; [done|]. eexists. split; [apply R|lia].
    + destruct (head_ r =? tail_ r) eqn:E; [|constructor].
      apply (rep_empty _ _ _ R) in E as ->. apply queue_run_one; constructor.
  - destruct C as [-> (Tc & -> & HTc)]. exists H, q.
    destruct (Z.eqb_spec (head_ r) (u64 Tc)) as [E|E]; simplify_eq.
    { split; [by split|constructor]. }
    destruct q as [|z q].
    { simpl in HTc. rewrite (rep_head _ _ _ R) in E. by replace Tc with H in E by lia. }
    rewrite (rep_front _ _ _ _ R) in Hs. simplify_eq/=. split; [by split|constructor].
  - destruct C as [-> Hy]. destruct q as [|z q]; simplify_eq/=. exists (H + 1), q. split.
    + split; simpl; [by eapply rep_advance| |done].
      destruct p as [|x t|x t h|x t]; simpl in *; try done.
      * destruct P as [-> (Hp & -> & ? & ?)]. split; [done|]. exists Hp. repeat split; lia.
      * destruct P as (-> & ? & Hx). split; [done|]. split; [lia|].
        by replace (H + 1 + Z.of_nat (length q)) with (H + Z.of_nat (S (length q))) by lia.
    + apply queue_run_one; constructor.
Qed.

Lemma queue_run_app q tr q' tr' q'' :
  queue_run q tr q' -> queue_run q' tr' q'' -> queue_run q (tr ++ tr') q''.
Proof.
  intros R1 R2. induction R2; [by rewrite app_nil_r|].
  rewrite app_assoc. econstructor; eauto.
Qed.

Lemma exec_inv garbage tr s :
  Z.of_nat (length garbage) = N -> exec (conc_init garbage) tr s ->
  exists H q, conc_inv s H q /\ queue_run [] tr q.
Proof.
  intros Hg Hex. remember (conc_init garbage) as s0 eqn:Hs0.
  induction Hex as [|s0 tr s1 evs s2 Hex IH Hst]; subst.
  - destruct (ring_init_holds _ Hg) as [H R]. exists H, [].
    split; [by split|constructor].
  - destruct (IH eq_refl) as (H & q & Hinv & Hrun).
    destruct Hst as [x s evs s' Hp|s evs s' Hc].
    + destruct (prod_step_inv _ _ _ _ _ _ Hinv Hp) as (q' & ? & ?).
      exists H, q'. eauto using queue_run_app.
    + destruct (cons_step_inv _ _ _ _ _ Hinv Hc) as (H' & q' & ? & ?).
      exists H', q'. eauto using queue_run_app.
Qed.

(** A run of the contract: what was popped, then what is queued, is what was
    pushed. *)
Lemma queue_run_fifo tr q : queue_run [] tr q -> pushed tr = popped tr ++ q.
Proof.
  intros R. remember [] as q0 eqn:Hq0. induction R as [|q0 tr q e q' R IH St]; [by subst|].
  specialize (IH Hq0). unfold pushed, popped in *. rewrite !omap_app, IH.
  inversion St; subst; simpl; rewrite ?app_nil_r, <-?app_assoc; done.
Qed.

Lemma queue_run_bound tr q : queue_run [] tr q -> Z.of_nat (length q) <= N.
Proof.
  pose proof ring_size_bounds. intros R. remember [] as q0 eqn:Hq0.
  induction R as [|q0 tr q e q' R IH St]; [subst; simpl; lia|]. specialize (IH Hq0).
  inversion St; subst; rewrite ?length_app; simpl in *; lia.
Qed.

Lemma inv_prod_enabled s H q x : conc_inv s H q -> is_Some (prod_step x s).
Proof.
  intros [R P C]. unfold prod_step. destruct (prod s) as [|y t|y t h|y t]; simpl in P; try done.
  destruct P as [-> _]. case_match; [done|]. rewrite (rep_tail _ _ _ R).
  rewrite aset_Some by (by eapply slot_in_range). done.
Qed.

Lemma inv_cons_enabled s H q : conc_inv s H q -> is_Some (cons_step s).
Proof.
  intros [R P C]. unfold cons_step. destruct (cons s) as [|h|h t|h y]; simpl in C; try done.
  destruct C as [-> _]. case_match; [done|]. rewrite (rep_head _ _ _ R).
  destruct (aget_is_Some (slots_ (shared s)) (Z.land (u64 H) (N - 1))) as [z ->]; [|done].
  by eapply slot_in_range.
Qed.

Lemma inv_race_free s H q x t h h' t' :
  conc_inv s H q -> prod s = PHead x t h -> u64 (t - h) <> N ->
  cons s = CTail h' t' -> h' <> t' -> Z.land t (N - 1) <> Z.land h' (N - 1).
Proof.
  intros [R P C] EP HtN EC Hht. rewrite EP in P. rewrite EC in C. simpl in P, C.
  destruct P as [-> (Hp & -> & ? & ?)], C as [-> (Tc & -> & ?)].
  pose proof ring_size_bounds. pose proof (rep_len _ _ _ R).
  rewrite (rep_tail _ _ _ R), u64_sub, u64_id in HtN by (unfold is_u64; lia).
  rewrite (rep_head _ _ _ R) in Hht |- *. rewrite (rep_tail _ _ _ R), !slot_index.
  rewrite <-(Z.add_0_r H) at 2. intros Heq. apply mod_window_inj in Heq; [|lia..].
  apply Hht. f_equal. lia.
Qed.

Lemma run_sched_exec sch s0 tr s tr' s' :
  exec s0 tr s -> run_sched sch tr s = Some (tr', s') -> exec s0 tr' s'.
Proof.
  revert tr s. induction sch as [|c sch IH]; intros tr s Hex Hrun; simplify_eq/=; [done|].
  destruct c as [x|]; apply bind_Some in Hrun as ([evs s1] & Hst & Hrun);
    eapply IH; [|exact Hrun| |exact Hrun];
    (eapply exec_snoc; [exact Hex|]); by econstructor.
Qed.
End spsc.

(** ** Properties *)

(** C5: every interleaving of one producer and one consumer is a run of the
    bounded FIFO queue of capacity [N]: each successful or failed [push] and
    [pop] takes effect at one of its own accesses, and when both methods are
    between calls the ring holds exactly that queue. *)
Theorem spsc_linearizable {T} (N : Z) (garbage : list T) tr s :
  ring_size_ok N = true -> Z.of_nat (length garbage) = N ->
  exec N (conc_init garbage) tr s ->
  exists q, queue_run N [] tr q /\
    (prod s = PIdle -> cons s = CIdle -> holds N (shared s) q).
Proof.
  intros HN Hg Hex. destruct (exec_inv N HN garbage tr s Hg Hex) as (H & q & Hi & Hr).
  exists q. split; [done|]. intros _ _. exists H. apply Hi.
Qed.

(** Nothing is lost, duplicated or reordered: what the consumer has popped
    is a prefix of what the producer has pushed, and at most [N] items are in
    between. *)
Theorem spsc_fifo {T} (N : Z) (garbage : list T) tr s :
  ring_size_ok N = true -> Z.of_nat (length garbage) = N ->
  exec N (conc_init garbage) tr s ->
  exists q, pushed tr = popped tr ++ q /\ Z.of_nat (length q) <= N.
Proof.
  intros HN Hg Hex. destruct (exec_inv N HN garbage tr s Hg Hex) as (H & q & Hi & Hr).
  exists q. eauto using queue_run_fifo, queue_run_bound.
Qed.

(** C21: in every reachable state the next access of each thread is inside
    [slots_], and when the producer is about to write a slot while the consumer
    is about to read one, the two slots differ (no data race on [slots_]). *)
Theorem spsc_race_free {T} (N : Z) (garbage : list T) tr s :
  ring_size_ok N = true -> Z.of_nat (length garbage) = N ->
  exec N (conc_init garbage) tr s ->
  (forall x, is_Some (prod_step N x s)) /\ is_Some (cons_step N s) /\
  (forall x t h h' t', prod s = PHead x t h -> u64 (t - h) <> N ->
    cons s = CTail h' t' -> h' <> t' -> Z.land t (N - 1) <> Z.land h' (N - 1)).
Proof.
  intros HN Hg Hex. destruct (exec_inv N HN garbage tr s Hg Hex) as (H & q & Hi & _).
  split_and!; eauto using inv_prod_enabled, inv_cons_enabled, inv_race_free.
Qed.

(** [push] run alone refines the bounded queue: it appends and returns
    [true] when there is room, and returns [false] leaving the queue alone when
    there is not; it never writes outside [slots_]. *)
Theorem push_refines {T} (N : Z) (r : ring) (q : list T) (x : T) :
  ring_size_ok N = true -> holds N r q ->
  exists r', push N r x = Some (Z.of_nat (length q) <? N, r') /\
    holds N r' (if Z.of_nat (length q) <? N then q ++ [x] else q) /\
    size r' = Z.of_nat (length q) + (if Z.of_nat (length q) <? N then 1 else 0).
Proof.
  intros HN Hq. destruct (push_spec_lemma N HN r q x Hq) as (r' & Hp & Hh).
  exists r'. split_and!; [done..|]. destruct Hh as [H R].
  unfold size. rewrite (rep_size N HN _ _ _ R). case_match; rewrite ?length_app; simpl; lia.
Qed.

(** [pop] run alone refines the bounded queue: it returns the oldest item,
    or nothing exactly when the queue (and so [empty]) is empty. *)
Theorem pop_refines {T} (N : Z) (r : ring) (q : list T) :
  ring_size_ok N = true -> holds N r q ->
  exists r', pop N r = Some (head q, r') /\ holds N r' (tail q) /\
    (empty r = true <-> q = []).
Proof.
  intros HN Hq. destruct (pop_spec_lemma N HN r q Hq) as (r' & Hp & Hh).
  exists r'. split_and!; [done..|]. destruct Hq as [H R]. by apply (rep_empty N HN _ _ _ R).
Qed.

(** ** Witnesses *)

(** A ring of two slots: three pushes (the last finds the ring full) with a
    pop that overlaps them. *)
Definition demo_sched : list (option Z) :=
  replicate 4 (Some 7) ++ [None] ++ replicate 4 (Some 8) ++ replicate 3 (Some 9) ++
  [None; None; None].

Definition demo_trace : list event := [EPush 7; EPush 8; EPushFull 9; EPop 7].

Definition demo_state : conc :=
  mkConc (mkRing 1 2 [7; 8]) PIdle CIdle.

Lemma demo_exec : exec 2 (conc_init [0; 0]) demo_trace demo_state.
Proof. apply (run_sched_exec 2 demo_sched _ [] (conc_init [0; 0])); [constructor|reflexivity]. Defined.

Lemma demo_holds : holds 2 (mkRing 1 2 [7; 8]) [8].
Proof.
  exists 1. split; simpl; try done; try lia. intros i x Hi.
  destruct i as [|i]; simplify_eq/=. done.
Qed.

Lemma spsc_linearizable_witness :
  exists q, queue_run 2 [] demo_trace q /\
    (prod demo_state = PIdle -> cons demo_state = CIdle -> holds 2 (shared demo_state) q).
Proof.
  apply (spsc_linearizable 2 [0; 0] demo_trace demo_state); [reflexivity|reflexivity|].
  exact demo_exec.
Defined.

Lemma spsc_fifo_witness : exists q, [7; 8] = [7] ++ q /\ Z.of_nat (length q) <= 2.
Proof.
  apply (spsc_fifo 2 [0; 0] demo_trace demo_state); [reflexivity|reflexivity|].
  exact demo_exec.
Defined.

Lemma spsc_race_free_witness : is_Some (cons_step 2 demo_state).
Proof.
  apply (spsc_race_free 2 [0; 0] demo_trace demo_state); [reflexivity|reflexivity|].
  exact demo_exec.
Defined.

Lemma push_refines_witness :
  exists r', push 2 (mkRing 1 2 [7; 8]) 9 = Some (true, r') /\ holds 2 r' [8; 9] /\ size r' = 2.
Proof. apply (push_refines 2 (mkRing 1 2 [7; 8]) [8] 9); [reflexivity|exact demo_holds]. Defined.

Lemma pop_refines_witness :
  exists r', pop 2 (mkRing 1 2 [7; 8]) = Some (Some 8, r') /\ holds 2 r' [] /\
    (empty (mkRing 1 2 [7; 8]) = true <-> [8] = []).
Proof. apply (pop_refines 2 (mkRing 1 2 [7; 8]) [8]); [reflexivity|exact demo_holds]. Defined.
