(* ===== verification/CString.v ===== *)
(** * The libc and iostream text functions the sources call

    Character-level models of [std::isspace], [std::isdigit], the formatted
    extractions [stream >> word], [stream >> size_t] and [stream >> int],
    [std::strtoull(_, _, 16)] and [std::strtol(_, _, 10)], and [std::atoi] and
    [std::atoll] (C locale).  A stream
    or a C string is the list of the characters that remain. *)

From S2P Require Import Prelude.
From Stdlib Require Import Ascii String.
From stdpp Require Import base list list_numbers option.
#[local] Open Scope Z_scope.

Definition code (c : ascii) : Z := Z.of_nat (nat_of_ascii c).

Definition isspace (c : ascii) : bool :=
  ((9 <=? code c) && (code c <=? 13)) || (code c =? 32).

Definition isdigit (c : ascii) : bool := (48 <=? code c) && (code c <=? 57).

(** The value of a digit in bases up to 16, [None] for any other character. *)
Definition digit_val (c : ascii) : option Z :=
  if isdigit c then Some (code c - 48)
  else if (97 <=? code c) && (code c <=? 102) then Some (code c - 87)
  else if (65 <=? code c) && (code c <=? 70) then Some (code c - 55)
  else None.

Definition is_digit_of (base : Z) (c : ascii) : bool :=
  match digit_val c with Some v => v <? base | None => false end.

(** The longest prefix whose characters satisfy [p], and the rest. *)
Fixpoint span (p : ascii -> bool) (s : list ascii) : list ascii * list ascii :=
  match s with
  | c :: s' => if p c then let '(a, b) := span p s' in (c :: a, b) else ([], s)
  | [] => ([], [])
  end.

Definition skip_ws (s : list ascii) : list ascii := snd (span isspace s).

Definition digits_val (base : Z) (ds : list ascii) : Z :=
  fold_left (fun acc c => acc * base + default 0 (digit_val c)) ds 0.

(** An optional sign; [true] for a minus. *)
Definition get_sign (s : list ascii) : bool * list ascii :=
  match s with
  | "+"%char :: r => (false, r)
  | "-"%char :: r => (true, r)
  | _ => (false, s)
  end.

(** [stream >> std::string]: [None] when the stream fails (nothing left). *)
Definition get_word (s : list ascii) : option (list ascii * list ascii) :=
  match span (fun c => negb (isspace c)) (skip_ws s) with
  | ([], _) => None
  | (w, r) => Some (w, r)
  end.

(** The decimal integer extracted from a stream, with its sign. *)
Definition get_decimal (s : list ascii) : option (Z * list ascii) :=
  let '(neg, s1) := get_sign (skip_ws s) in
  match span isdigit s1 with
  | ([], _) => None
  | (ds, r) => let n := digits_val 10 ds in Some (if neg : bool then - n else n, r)
  end.

(** [stream >> size_t]: out-of-range values make the stream fail, a minus sign
    negates modulo [2^64]. *)
Definition get_size_t (s : list ascii) : option (Z * list ascii) :=
  '(n, r) ← get_decimal s;
  if Z.abs n <? 2 ^ 64 then Some (u64 n, r) else None.

(** [stream >> int]. *)
Definition get_int (s : list ascii) : option (Z * list ascii) :=
  '(n, r) ← get_decimal s;
  if (- 2 ^ 31 <=? n) && (n <? 2 ^ 31) then Some (n, r) else None.

(** [strtoull(s, nullptr, 16)]: 0 when there is no number, saturating. *)
Definition strtoull16 (s : list ascii) : Z :=
  let '(neg, s1) := get_sign (skip_ws s) in
  let s2 := match s1 with
            | "0"%char :: x :: c :: r =>
                if ((code x =? 120) || (code x =? 88)) && is_digit_of 16 c then c :: r else s1
            | _ => s1
            end in
  let n := digits_val 16 (fst (span (is_digit_of 16) s2)) in
  if 2 ^ 64 <=? n then 2 ^ 64 - 1 else if neg : bool then u64 (- n) else n.

(** [strtol(s, &end, 10)]: the value, saturating, and [end] ([s] itself when
    there is no number). *)
Definition strtol10 (s : list ascii) : Z * list ascii :=
  let '(neg, s1) := get_sign (skip_ws s) in
  match span isdigit s1 with
  | ([], _) => (0, s)
  | (ds, r) =>
      let n := digits_val 10 ds in
      (if neg : bool then Z.max (- n) (- 2 ^ 63) else Z.min n (2 ^ 63 - 1), r)
  end.

(** [std::atoi] and [std::atoll]: the leading decimal number, 0 when there is
    none; a value that the type cannot represent is undefined. *)
Definition leading_decimal (s : list ascii) : Z :=
  let '(neg, s1) := get_sign (skip_ws s) in
  let n := digits_val 10 (fst (span isdigit s1)) in
  if neg : bool then - n else n.

Definition atoi (s : list ascii) : option Z :=
  let n := leading_decimal s in
  if (- 2 ^ 31 <=? n) && (n <? 2 ^ 31) then Some n else None.

Definition atoll (s : list ascii) : option Z :=
  let n := leading_decimal s in
  if (- 2 ^ 63 <=? n) && (n <? 2 ^ 63) then Some n else None.

(** [s.c_str()] read as a C string: up to the first NUL. *)
Definition c_str (s : list ascii) : list ascii := fst (span (fun c => negb (code c =? 0)) s).

(** A string literal of the source. *)
Abbreviation lit s := (list_ascii_of_string s%string).

(** ** Lemmas *)

Lemma span_app p a b :
  Forall (fun c => p c = true) a -> match b with [] => True | c :: _ => p c = false end ->
  span p (a ++ b) = (a, b).
Proof.
  induction 1 as [|c a Hc Ha IH]; intros Hb; simpl.
  - destruct b as [|c b]; simpl; [done|]. by rewrite Hb.
  - by rewrite Hc, IH.
Qed.

Lemma span_length p s : length s = (length (fst (span p s)) + length (snd (span p s)))%nat.
Proof.
  induction s as [|c s IH]; simpl; [done|]. destruct (p c); simpl; [|done].
  destruct (span p s); simpl in *. lia.
Qed.

Lemma skip_ws_length s : (length (skip_ws s) <= length s)%nat.
Proof. unfold skip_ws. pose proof (span_length isspace s). lia. Qed.

(** A word is taken off the stream whole when white space follows it. *)
Lemma get_word_app ws w r :
  Forall (fun c => isspace c = true) ws -> Forall (fun c => isspace c = false) w -> w <> [] ->
  match r with [] => True | c :: _ => isspace c = true end ->
  get_word (ws ++ w ++ r) = Some (w, r).
Proof.
  intros Hws Hw Hne Hr. unfold get_word, skip_ws. destruct w as [|c w]; [done|].
  inversion Hw as [|? ? Hc Hw']; subst.
  rewrite (span_app isspace ws) by (done || simpl; by rewrite Hc). simpl snd.
  rewrite (span_app _ (c :: w) r); [done| |].
  - eapply Forall_impl; [|exact Hw]. simpl. intros ? ->. done.
  - destruct r; [done|]. by rewrite Hr.
Qed.

Lemma get_word_length s w r : get_word s = Some (w, r) -> (length r < length s)%nat.
Proof.
  unfold get_word. pose proof (skip_ws_length s).
  pose proof (span_length (fun c => negb (isspace c)) (skip_ws s)) as Hl.
  destruct (span _ (skip_ws s)) as [[|c a] b]; [done|]. intros [= <- <-]. simpl in *. lia.
Qed.

Lemma digit_val_nonneg c : 0 <= default 0 (digit_val c).
Proof. unfold digit_val, isdigit. repeat case_match; simpl; lia. Qed.

Lemma digits_val_nonneg ds : 0 <= digits_val 10 ds.
Proof.
  unfold digits_val. assert (forall acc, 0 <= acc ->
    0 <= fold_left (fun a c => a * 10 + default 0 (digit_val c)) ds acc) as Hf; [|by apply Hf].
  induction ds as [|c ds IH]; intros acc Hacc; simpl; [done|].
  apply IH. pose proof (digit_val_nonneg c). lia.
Qed.

(** A run of digits is taken off the stream whole. *)
Lemma get_size_t_app ws ds r :
  Forall (fun c => isspace c = true) ws -> Forall (fun c => isdigit c = true) ds -> ds <> [] ->
  digits_val 10 ds < 2 ^ 64 -> match r with [] => True | c :: _ => isdigit c = false end ->
  get_size_t (ws ++ ds ++ r) = Some (digits_val 10 ds, r).
Proof.
  intros Hws Hds Hne Hlt Hr. destruct ds as [|d ds]; [done|].
  inversion Hds as [|? ? Hd Hds']; subst.
  assert (isspace d = false /\ d <> "+"%char /\ d <> "-"%char) as (Hsp & Hp & Hm).
  { unfold isspace, isdigit in *. split; [lia|]. by split; intros ->. }
  unfold get_size_t, get_decimal, skip_ws.
  rewrite (span_app isspace ws) by (done || simpl; by rewrite Hsp). cbn [snd].
  assert (get_sign ((d :: ds) ++ r) = (false, (d :: ds) ++ r)) as ->.
  { simpl. destruct d as [[] [] [] [] [] [] [] []]; done. }
  rewrite (span_app isdigit (d :: ds) r) by done. cbn [mbind option_bind].
  assert (0 <= digits_val 10 (d :: ds)) by apply digits_val_nonneg.
  rewrite (proj2 (Z.ltb_lt _ _)) by lia. by rewrite u64_id.
Qed.

Lemma get_size_t_length s n r : get_size_t s = Some (n, r) -> (length r <= length s)%nat.
Proof.
  unfold get_size_t, get_decimal. destruct (get_sign (skip_ws s)) as [neg s1] eqn:Es.
  assert (length s1 <= length s)%nat.
  { pose proof (skip_ws_length s). unfold get_sign in Es.
    repeat case_match; simplify_eq/=; lia. }
  pose proof (span_length isdigit s1) as Hl.
  destruct (span isdigit s1) as [[|d ds] r']; simpl in *; [done|].
  case_match; intros; simplify_eq; lia.
Qed.
