(* ===== verification/OsMem.v ===== *)
(** * The memory-mapping interface of the kernel

    [mmap] and [munmap] are not part of the repository: [OsMem] is their
    signature as the sources use it and [OsMemSpec] the documented behaviour
    the sources rely on (mmap(2), "Huge page (Huge TLB) mappings").  [toy_os]
    is a kernel that satisfies the specification. *)

From S2P Require Import Prelude.
From stdpp Require Import base list gmap option.
#[local] Open Scope Z_scope.

(** A live anonymous mapping: its page-rounded length, and whether its pages
    are huge ([MAP_HUGETLB]). *)
Record mapping := mkMapping { m_len : Z; m_huge : bool }.

Definition huge_page : Z := 2 ^ 21.
Definition small_page : Z := 2 ^ 12.

(** [len] rounded up to whole pages. *)
Definition page_len (huge : bool) (len : Z) : Z :=
  let pg := if huge then huge_page else small_page in
  (len + pg - 1) / pg * pg.

(** [mmap len huge os] is [mmap(nullptr, len, PROT_READ | PROT_WRITE, flags,
    -1, 0)] with [MAP_HUGETLB] when [huge]; [None] is [MAP_FAILED].
    [munmap p len os] returns whether the call succeeded.  [live] is the set of
    live mappings, by address. *)
Class OsMem (Os : Type) := {
  mmap : Z -> bool -> Os -> option Z * Os;
  munmap : Z -> Z -> Os -> bool * Os;
  live : Os -> gmap Z mapping
}.

Class OsMemSpec (Os : Type) `{OsMem Os} := {
  (** A failed [mmap] maps nothing. *)
  mmap_failed len huge o o' : mmap len huge o = (None, o') -> live o' = live o;
  (** A successful [mmap] returns a fresh, page-aligned, non-null address. *)
  mmap_mapped len huge o p o' : mmap len huge o = (Some p, o') ->
    p <> 0 /\ p mod (if huge then huge_page else small_page) = 0 /\ live o !! p = None /\
    live o' = <[p := mkMapping (page_len huge len) huge]> (live o);
  (** Unmapping a whole mapping succeeds; for huge pages the length must be a
      multiple of the huge page size. *)
  munmap_done p len o m : live o !! p = Some m -> page_len (m_huge m) len = m_len m ->
    (m_huge m = true -> len mod huge_page = 0) ->
    exists o', munmap p len o = (true, o') /\ live o' = delete p (live o);
  (** [EINVAL]: a length that is not a multiple of the huge page size. *)
  munmap_einval p len o m : live o !! p = Some m -> m_huge m = true ->
    len mod huge_page <> 0 ->
    exists o', munmap p len o = (false, o') /\ live o' = live o
}.

(** ** A kernel for the witnesses

    Addresses are handed out in increasing order; [toy_huge] huge pages and
    [toy_small] bytes of regular pages are free. *)

Record toy_os := mkToy {
  toy_next : Z; toy_huge : Z; toy_small : Z; toy_live : gmap Z mapping }.

Definition toy_mmap (len : Z) (huge : bool) (o : toy_os) : option Z * toy_os :=
  let n := page_len huge len in
  if (len <=? 0) || (huge && (toy_huge o <? n / huge_page))
     || (negb huge && (toy_small o <? n))
     || bool_decide (is_Some (toy_live o !! toy_next o)) || negb (0 <? toy_next o)
     || negb (toy_next o mod huge_page =? 0)
  then (None, o)
  else (Some (toy_next o),
        mkToy (toy_next o + page_len true n)
              (if huge then toy_huge o - n / huge_page else toy_huge o)
              (if huge then toy_small o else toy_small o - n)
              (<[toy_next o := mkMapping n huge]> (toy_live o))).

Definition toy_munmap (p len : Z) (o : toy_os) : bool * toy_os :=
  match toy_live o !! p with
  | Some m =>
      if (m_huge m && negb (len mod huge_page =? 0)) || negb (page_len (m_huge m) len =? m_len m)
      then (false, o)
      else (true, mkToy (toy_next o)
                        (if m_huge m then toy_huge o + m_len m / huge_page else toy_huge o)
                        (if m_huge m then toy_small o else toy_small o + m_len m)
                        (delete p (toy_live o)))
  | None => (false, o)
  end.

#[export] Instance toy_os_mem : OsMem toy_os :=
  {| mmap := toy_mmap; munmap := toy_munmap; live := toy_live |}.

Definition toy_boot (huge_pages small_bytes : Z) : toy_os :=
  mkToy huge_page huge_pages small_bytes ∅.

#[export] Instance toy_os_spec : OsMemSpec toy_os.
Proof.
  split; simpl; unfold toy_mmap, toy_munmap.
  - intros len huge o o'. case_match; intros; by simplify_eq.
  - intros len huge o p o'. case_match eqn:E; intros; simplify_eq.
    rewrite !orb_false_iff, !negb_false_iff, Z.ltb_lt, Z.eqb_eq, bool_decide_eq_false in E.
    destruct E as [[[[[_ _] _] Hfresh] Hpos] Hal]. split_and!; simpl; [lia| | |done].
    + destruct huge; [done|]. unfold huge_page, small_page in *. dmlia.
    + by apply eq_None_not_Some.
  - intros p len o m -> Hlen Hh. rewrite Hlen, Z.eqb_refl, orb_false_r.
    destruct (m_huge m); simpl; [rewrite Hh by done; simpl|]; eexists; done.
  - intros p len o m -> -> Hne. simpl. rewrite (proj2 (Z.eqb_neq _ _) Hne). eexists; done.
Qed.
