(* ===== verification/HugeAlloc.v ===== *)
(** * The huge-page allocator (include/huge_alloc.h, src/huge_alloc.cpp)

    The process-wide registry is a finite map; [heap] pairs it with the kernel.
    Exceptions are the left injection of a sum.  The mutex makes each registry
    access atomic, and each operation accesses the registry once, so operations
    are functions on the heap.  Messages to [stderr] are not modelled. *)

From S2P Require Import Prelude CString OsMem.
From Stdlib Require Import Ascii String.
From stdpp Require Import base list gmap option.
#[local] Open Scope Z_scope.

Definition HUGE_PAGE_SIZE : Z := 2 * 1024 * 1024.
Definition REGULAR_PAGE_SIZE : Z := 4096.

Definition round_up (bytes multiple : Z) : Z :=
  if bytes =? 0 then multiple
  else u64 (u64 (u64 (bytes + multiple) - 1) / multiple * multiple).

(** [read_meminfo_field]: the loop [while (meminfo >> name >> value >> unit)]
    over the text of /proc/meminfo.  Every turn consumes characters, so the
    length of the text is enough fuel. *)
Fixpoint meminfo_loop (fuel : nat) (key s : list ascii) : Z :=
  match fuel with
  | O => 0
  | S fuel =>
      match get_word s with
      | None => 0
      | Some (name, s) =>
          match get_size_t s with
          | None => 0
          | Some (value, s) =>
              match get_word s with
              | None => 0
              | Some (_, s) =>
                  if bool_decide (name = key) then value else meminfo_loop fuel key s
              end
          end
      end
  end.

Definition read_meminfo_field (key meminfo : list ascii) : Z :=
  meminfo_loop (S (length meminfo)) key meminfo.

Definition available_huge_pages (meminfo : list ascii) : Z :=
  read_meminfo_field (lit "HugePages_Free:") meminfo.

Definition total_huge_pages (meminfo : list ascii) : Z :=
  read_meminfo_field (lit "HugePages_Total:") meminfo.

Record AllocationInfo := mkInfo { bytes : Z; info_is_huge : bool }.

(** The [std::runtime_error]s thrown. *)
Inductive alloc_error :=
| HugeMmapFailed
| FallbackMmapFailed
| UntrackedPointer
| MunmapFailed.

Record AllocStats := mkStats {
  huge_count : Z; huge_bytes : Z; reg_count : Z; reg_bytes : Z }.

Section heap.
Context {Os : Type} `{OsMemSpec Os}.

Record heap := mkHeap { os : Os; registry : gmap Z AllocationInfo }.

Definition allocate (n : Z) (force_huge : bool) (h : heap) : (alloc_error + Z) * heap :=
  let len := round_up n HUGE_PAGE_SIZE in
  match mmap len true (os h) with
  | (Some p, o) => (inr p, mkHeap o (<[p := mkInfo len true]> (registry h)))
  | (None, o) =>
      if force_huge then (inl HugeMmapFailed, mkHeap o (registry h))
      else
        match mmap len false o with
        | (None, o) => (inl FallbackMmapFailed, mkHeap o (registry h))
        | (Some p, o) => (inr p, mkHeap o (<[p := mkInfo len false]> (registry h)))
        end
  end.

(** [0] is the null pointer. *)
Definition deallocate (p : Z) (h : heap) : option alloc_error * heap :=
  if p =? 0 then (None, h)
  else
    match registry h !! p with
    | None => (Some UntrackedPointer, h)
    | Some info =>
        let reg := delete p (registry h) in
        match munmap p (bytes info) (os h) with
        | (true, o) => (None, mkHeap o reg)
        | (false, o) => (Some MunmapFailed, mkHeap o reg)
        end
    end.

Definition is_huge (p : Z) (h : heap) : bool :=
  match registry h !! p with Some info => info_is_huge info | None => false end.

(** The totals [print_stats] prints. *)
Definition print_stats (h : heap) : AllocStats :=
  map_fold (fun _ info st =>
    if info_is_huge info
    then mkStats (u64 (huge_count st + 1)) (u64 (huge_bytes st + bytes info))
                 (reg_count st) (reg_bytes st)
    else mkStats (huge_count st) (huge_bytes st)
                 (u64 (reg_count st + 1)) (u64 (reg_bytes st + bytes info)))
    (mkStats 0 0 0 0) (registry h).

(** Every registered block is a live mapping of exactly the registered length. *)
Definition heap_ok (h : heap) : Prop :=
  forall p info, registry h !! p = Some info ->
    p <> 0 /\ bytes info mod HUGE_PAGE_SIZE = 0 /\
    live (os h) !! p = Some (mkMapping (bytes info) (info_is_huge info)).
End heap.
Arguments heap : clear implicits.

(** ** The text of /proc/meminfo

    Most lines are [name: number kB]; the [HugePages_*] counters have no unit. *)

Record mem_entry := mkEntry { e_name : list ascii; e_gap : list ascii; e_num : list ascii }.

Definition mem_entry_ok (e : mem_entry) : Prop :=
  e_name e <> [] /\ Forall (fun c => isspace c = false) (e_name e) /\
  e_gap e <> [] /\ Forall (fun c => isspace c = true) (e_gap e) /\
  e_num e <> [] /\ Forall (fun c => isdigit c = true) (e_num e) /\
  digits_val 10 (e_num e) < 2 ^ 64.

Definition newline : ascii := ascii_of_nat 10.

Definition kb_line (e : mem_entry) : list ascii :=
  e_name e ++ e_gap e ++ e_num e ++ lit " kB" ++ [newline].

Definition count_line (e : mem_entry) : list ascii :=
  e_name e ++ e_gap e ++ e_num e ++ [newline].

(** ** Lemmas *)

Lemma round_up_fits n :
  0 <= n <= 2 ^ 64 - HUGE_PAGE_SIZE ->
  let len := round_up n HUGE_PAGE_SIZE in
  len mod HUGE_PAGE_SIZE = 0 /\ Z.max n 1 <= len < Z.max n 1 + HUGE_PAGE_SIZE.
Proof.
  intros Hn. cbv zeta. unfold HUGE_PAGE_SIZE in *.
  assert (n <> 0 -> round_up n (2 * 1024 * 1024) =
          (n + 2 * 1024 * 1024 - 1) / (2 * 1024 * 1024) * (2 * 1024 * 1024)) as Hr.
  { intros. unfold round_up, u64. destruct (Z.eqb_spec n 0); [done|].
    replace (((n + 2 * 1024 * 1024) mod 2 ^ 64 - 1) mod 2 ^ 64)
      with (n + 2 * 1024 * 1024 - 1) by dmlia.
    apply Z.mod_small. dmlia. }
  destruct (decide (n = 0)) as [->|]; [by vm_compute|]. rewrite Hr by done. dmlia.
Qed.

Lemma round_up_wraps n :
  2 ^ 64 - HUGE_PAGE_SIZE < n < 2 ^ 64 -> round_up n HUGE_PAGE_SIZE = 0.
Proof.
  intros Hn. unfold round_up, HUGE_PAGE_SIZE, u64 in *.
  destruct (Z.eqb_spec n 0); [lia|].
  replace ((n + 2 * 1024 * 1024) mod 2 ^ 64) with (n + 2 * 1024 * 1024 - 2 ^ 64) by dmlia.
  rewrite (Z.mod_small (_ - 1)) by lia. rewrite Z.div_small by lia. done.
Qed.

Lemma page_len_multiple huge len : len mod HUGE_PAGE_SIZE = 0 -> page_len huge len = len.
Proof.
  unfold HUGE_PAGE_SIZE, page_len, huge_page, small_page. intros Hm. destruct huge; dmlia.
Qed.

Section heap_lemmas.
Context {Os : Type} `{OsMemSpec Os}.
Implicit Types h : heap Os.

(** The registered length is a whole number of huge pages, whatever was asked. *)
Lemma round_up_multiple n : 0 <= n < 2 ^ 64 -> round_up n HUGE_PAGE_SIZE mod HUGE_PAGE_SIZE = 0.
Proof.
  intros Hn. destruct (decide (n <= 2 ^ 64 - HUGE_PAGE_SIZE)).
  - apply round_up_fits; lia.
  - rewrite round_up_wraps by lia. done.
Qed.

Lemma heap_ok_insert h o p len huge :
  heap_ok h -> len mod HUGE_PAGE_SIZE = 0 -> p <> 0 ->
  live o = <[p := mkMapping len huge]> (live (os h)) ->
  heap_ok (mkHeap o (<[p := mkInfo len huge]> (registry h))).
Proof.
  intros Hok Hlen Hp Hl q info. simpl. rewrite Hl.
  destruct (decide (p = q)) as [->|Hne]; [|rewrite !lookup_insert_ne by done; apply Hok].
  rewrite !lookup_insert_eq. by intros [= <-].
Qed.

(** What a successful [mmap] of a registered length gives. *)
Lemma mmap_registered n huge o p o' :
  0 <= n < 2 ^ 64 -> let len := round_up n HUGE_PAGE_SIZE in
  mmap len huge o = (Some p, o') ->
  p <> 0 /\ live o !! p = None /\ live o' = <[p := mkMapping len huge]> (live o).
Proof.
  intros Hn len Hm. apply mmap_mapped in Hm as (? & _ & ? & Hl).
  by rewrite page_len_multiple in Hl by (by apply round_up_multiple).
Qed.

(** A successful allocation, whichever attempt succeeded. *)
Lemma allocate_inr n force h p h' :
  0 <= n < 2 ^ 64 -> allocate n force h = (inr p, h') ->
  exists huge, p <> 0 /\ live (os h) !! p = None /\
    registry h' = <[p := mkInfo (round_up n HUGE_PAGE_SIZE) huge]> (registry h) /\
    live (os h') = <[p := mkMapping (round_up n HUGE_PAGE_SIZE) huge]> (live (os h)).
Proof.
  intros Hn Ha. unfold allocate in Ha.
  destruct (mmap _ true (os h)) as [[q|] o1] eqn:E1; simplify_eq.
  - apply mmap_registered in E1 as (? & ? & ?); eauto.
  - apply mmap_failed in E1. destruct force; [done|].
    destruct (mmap _ false o1) as [[q|] o2] eqn:E2; simplify_eq.
    apply mmap_registered in E2 as (? & ? & ?); [|done]. rewrite <-E1. eauto.
Qed.

Lemma allocate_inl n force h e h' :
  allocate n force h = (inl e, h') ->
  registry h' = registry h /\ live (os h') = live (os h) /\
  e = if force then HugeMmapFailed else FallbackMmapFailed.
Proof.
  unfold allocate. destruct (mmap _ true (os h)) as [[q|] o1] eqn:E1; [done|].
  apply mmap_failed in E1. destruct force; [by intros [= <- <-]|].
  destruct (mmap _ false o1) as [[q|] o2] eqn:E2; intros; simplify_eq.
  apply mmap_failed in E2. split_and!; simpl; congruence.
Qed.

(** Freeing a registered block unmaps it. *)
Lemma deallocate_registered h p info :
  heap_ok h -> registry h !! p = Some info ->
  exists h', deallocate p h = (None, h') /\ heap_ok h' /\
    registry h' = delete p (registry h) /\ live (os h') = delete p (live (os h)).
Proof.
  intros Hok Er. destruct (Hok p info Er) as (Hp & Hm & Hl).
  destruct (munmap_done p (bytes info) (os h) _ Hl) as (o' & Hu & Ho');
    [by apply page_len_multiple|intros _; exact Hm|].
  unfold deallocate. rewrite (proj2 (Z.eqb_neq _ _) Hp), Er, Hu. eexists. split; [done|].
  split_and!; [|done|done]. intros q info'. simpl. intros Hq.
  rewrite lookup_delete_Some in Hq. destruct Hq as [Hne Hq].
  rewrite Ho', lookup_delete_ne by done. by apply Hok.
Qed.

(** An address the kernel does not have mapped is not registered. *)
Lemma heap_ok_fresh h p : heap_ok h -> live (os h) !! p = None -> registry h !! p = None.
Proof.
  intros Hok Hf. destruct (registry h !! p) eqn:E; [|done].
  apply Hok in E as (_ & _ & E). congruence.
Qed.

Lemma allocate_heap_ok n force h r h' :
  heap_ok h -> 0 <= n < 2 ^ 64 -> allocate n force h = (r, h') -> heap_ok h'.
Proof.
  intros Hok Hn Ha. destruct r as [e|p].
  - apply allocate_inl in Ha as (Hr & Hl & _). intros q info. rewrite Hr, Hl. apply Hok.
  - apply allocate_inr in Ha as (huge & Hp & Hf & Hr & Hl); [|done]. destruct h' as [o' reg'].
    simpl in *. subst reg'. apply heap_ok_insert; auto using round_up_multiple.
Qed.
End heap_lemmas.

(** ** The reader of /proc/meminfo *)

Lemma isdigit_not_space c : isdigit c = true -> isspace c = false.
Proof. unfold isdigit, isspace. lia. Qed.

Lemma gap_starts_space ws r :
  ws <> [] -> Forall (fun c => isspace c = true) ws ->
  match ws ++ r with [] => True | c :: _ => isspace c = true end.
Proof. intros ? Hws. destruct Hws; done. Qed.

(** One turn of the loop on [name number], up to the unit. *)
Lemma get_entry pre e s :
  Forall (fun c => isspace c = true) pre -> mem_entry_ok e ->
  match s with [] => True | c :: _ => isdigit c = false end ->
  get_word (pre ++ e_name e ++ e_gap e ++ e_num e ++ s) =
    Some (e_name e, e_gap e ++ e_num e ++ s) /\
  get_size_t (e_gap e ++ e_num e ++ s) = Some (digits_val 10 (e_num e), s).
Proof.
  intros Hpre (? & ? & Hg & Hgs & ? & ? & ?) Hs. split.
  - apply get_word_app; [done..|by apply gap_starts_space].
  - by apply get_size_t_app.
Qed.

Lemma meminfo_loop_kb_line fuel pre key e s :
  Forall (fun c => isspace c = true) pre -> mem_entry_ok e -> e_name e <> key ->
  meminfo_loop (S fuel) key (pre ++ kb_line e ++ s) = meminfo_loop fuel key (newline :: s).
Proof.
  intros Hpre He Hne. cbn [meminfo_loop]. unfold kb_line. rewrite <-!app_assoc.
  change ([newline] ++ s) with (newline :: s).
  destruct (get_entry pre e (lit " kB" ++ newline :: s) Hpre He) as [-> ->]; [done|].
  change (lit " kB" ++ newline :: s) with ([" "%char] ++ lit "kB" ++ newline :: s).
  rewrite get_word_app; [|by repeat constructor|by repeat constructor|done|done].
  by rewrite bool_decide_eq_false_2.
Qed.

Lemma meminfo_loop_kb_lines fuel pre key es s :
  Forall (fun c => isspace c = true) pre ->
  Forall (fun e => mem_entry_ok e /\ e_name e <> key) es ->
  (length es <= fuel)%nat -> exists pre', Forall (fun c => isspace c = true) pre' /\
    meminfo_loop fuel key (pre ++ concat (map kb_line es) ++ s) =
    meminfo_loop (fuel - length es) key (pre' ++ s).
Proof.
  intros Hpre Hes. revert fuel pre Hpre.
  induction Hes as [|e es [He Hne] Hes IH]; intros fuel pre Hpre Hf; simpl.
  { exists pre. by rewrite Nat.sub_0_r. }
  destruct fuel as [|fuel]; simpl in Hf; [lia|]. rewrite <-app_assoc, meminfo_loop_kb_line by done.
  destruct (IH fuel [newline]) as (pre' & ? & Heq); [by repeat constructor|lia|].
  by exists pre'.
Qed.

(** A counter without a unit swallows the name of the next line. *)
Lemma meminfo_loop_counters fuel pre key e1 e2 e3 s :
  Forall (fun c => isspace c = true) pre ->
  mem_entry_ok e1 -> mem_entry_ok e2 -> mem_entry_ok e3 ->
  match e_name e3 with c :: _ => isdigit c = false /\ c <> "+"%char /\ c <> "-"%char | [] => False end ->
  e_name e1 <> key ->
  meminfo_loop fuel key (pre ++ count_line e1 ++ count_line e2 ++ count_line e3 ++ s) = 0.
Proof.
  intros Hpre He1 He2 He3 H3 Hne. destruct fuel as [|fuel]; [done|]. cbn [meminfo_loop].
  unfold count_line at 1. rewrite <-!app_assoc.
  change ([newline] ++ ?x) with (newline :: x).
  destruct (get_entry pre e1 (newline :: count_line e2 ++ count_line e3 ++ s) Hpre He1)
    as [-> ->]; [done|].
  destruct He2 as (? & ? & ? & ? & ? & Hd & ?).
  unfold count_line at 1. rewrite <-!app_assoc.
  change (newline :: e_name e2 ++ ?x) with ([newline] ++ e_name e2 ++ x).
  rewrite get_word_app; [|by repeat constructor|done|done|by apply gap_starts_space].
  rewrite bool_decide_eq_false_2 by done. destruct fuel as [|fuel]; [done|]. cbn [meminfo_loop].
  rewrite get_word_app; [|done|by eapply Forall_impl; [apply isdigit_not_space|]|done|done].
  assert (get_size_t ([newline] ++ count_line e3 ++ s) = None) as ->; [|done].
  destruct He3 as (_ & Hn3 & _). unfold count_line, get_size_t, get_decimal, skip_ws.
  destruct (e_name e3) as [|c n3]; [done|]. destruct H3 as (Hc & Hp & Hm).
  inversion Hn3; subst. rewrite <-!app_assoc, (span_app isspace [newline]); simpl; [|by repeat constructor|done].
  destruct c as [[] [] [] [] [] [] [] []]; try done; simpl; by rewrite ?Hc.
Qed.

(** The fuel of [read_meminfo_field] is enough: more does not change the result. *)
Lemma meminfo_loop_fuel f1 f2 key s :
  (length s < f1)%nat -> (length s < f2)%nat -> meminfo_loop f1 key s = meminfo_loop f2 key s.
Proof.
  revert f2 s. induction f1 as [|f1 IH]; intros f2 s H1 H2; [lia|].
  destruct f2 as [|f2]; [lia|]. cbn [meminfo_loop].
  destruct (get_word s) as [[w s1]|] eqn:E1; [|done]. apply get_word_length in E1.
  destruct (get_size_t s1) as [[n s2]|] eqn:E2; [|done]. apply get_size_t_length in E2.
  destruct (get_word s2) as [[u s3]|] eqn:E3; [|done]. apply get_word_length in E3.
  case_match; [done|]. apply IH; lia.
Qed.

Lemma kb_lines_length es : (length es <= length (concat (map kb_line es)))%nat.
Proof.
  induction es as [|e es IH]; simpl; [lia|]. unfold kb_line at 1.
  rewrite !length_app. simpl. lia.
Qed.

(** ** Properties *)

(** What a call promises that got the mapping [p] of [len] bytes: a fresh block,
    registered with the length and page kind it was mapped with. *)
Definition granted {Os} `{OsMem Os} (h : heap Os) (len p : Z) (huge : bool) (o : Os)
    (r : (alloc_error + Z) * heap Os) : Prop :=
  r.1 = inr p /\ os r.2 = o /\ heap_ok r.2 /\ p <> 0 /\ live (os h) !! p = None /\
  registry r.2 = <[p := mkInfo len huge]> (registry h) /\
  live (os r.2) = <[p := mkMapping len huge]> (live (os h)) /\ is_huge p r.2 = huge.

(** And a call that throws [e]: nothing is mapped or registered. *)
Definition refused {Os} `{OsMem Os} (h : heap Os) (e : alloc_error) (o : Os)
    (r : (alloc_error + Z) * heap Os) : Prop :=
  r.1 = inl e /\ os r.2 = o /\ heap_ok r.2 /\ registry r.2 = registry h /\
  live (os r.2) = live (os h).

(** C33: [allocate] on every outcome of its system calls.  The length asked for
    is the request rounded up to whole huge pages.  When the kernel grants huge
    pages the block is theirs; when it refuses them, [force_huge] throws the
    huge-page error without trying further, and otherwise regular pages of the
    same length are asked for: if they are granted the call succeeds with a
    block registered as not huge, if not it throws the fallback error.  A call
    that throws changes neither the registry nor the live mappings, and the
    registry stays in step with the kernel. *)
Theorem allocate_correct {Os} `{OsMemSpec Os} (n : Z) (force : bool) (h : heap Os) :
  heap_ok h -> 0 <= n <= 2 ^ 64 - HUGE_PAGE_SIZE ->
  exists len, Z.max n 1 <= len < Z.max n 1 + HUGE_PAGE_SIZE /\ len mod HUGE_PAGE_SIZE = 0 /\
    (forall p o, mmap len true (os h) = (Some p, o) -> granted h len p true o (allocate n force h)) /\
    (forall o, mmap len true (os h) = (None, o) -> force = true ->
       refused h HugeMmapFailed o (allocate n force h)) /\
    (forall o o' p, mmap len true (os h) = (None, o) -> force = false ->
       mmap len false o = (Some p, o') -> granted h len p false o' (allocate n force h)) /\
    (forall o o', mmap len true (os h) = (None, o) -> force = false ->
       mmap len false o = (None, o') -> refused h FallbackMmapFailed o' (allocate n force h)).
Proof.
  intros Hok Hn. exists (round_up n HUGE_PAGE_SIZE). pose proof (round_up_fits n Hn) as [Hm Hr].
  assert (0 <= n < 2 ^ 64) as Hn' by (unfold HUGE_PAGE_SIZE in *; lia).
  assert (heap_ok (allocate n force h).2) as Hok'
    by (apply (allocate_heap_ok n force h (allocate n force h).1); [done..|apply surjective_pairing]).
  unfold allocate, granted, refused, is_huge in *. split_and!; [lia|lia|done|..].
  - intros p o E. rewrite E in *. apply mmap_registered in E as (? & ? & ?); [|done].
    split_and!; try done. simpl. by rewrite lookup_insert_eq.
  - intros o E ->. rewrite E in *. by apply mmap_failed in E.
  - intros o o' p E -> E2. rewrite E, E2 in *. apply mmap_failed in E.
    apply mmap_registered in E2 as (? & ? & Hl); [|done]. rewrite E in *.
    split_and!; try done. simpl. by rewrite lookup_insert_eq.
  - intros o o' E -> E2. rewrite E, E2 in *. apply mmap_failed in E, E2.
    split_and!; try done. simpl. congruence.
Qed.

(** C34: [deallocate] on every branch: a null pointer is ignored, an unknown one
    is refused, a registered one is unmapped with exactly its mapped length (so
    [munmap] cannot fail) and forgotten, so freeing it again is refused. *)
Theorem deallocate_correct {Os} `{OsMemSpec Os} (p : Z) (h h' : heap Os) e :
  heap_ok h -> deallocate p h = (e, h') ->
  heap_ok h' /\
  match registry h !! p with
  | Some info => e = None /\ registry h' = delete p (registry h) /\
      live (os h') = delete p (live (os h)) /\ deallocate p h' = (Some UntrackedPointer, h')
  | None => h' = h /\ e = if p =? 0 then None else Some UntrackedPointer
  end.
Proof.
  intros Hok Hd. destruct (registry h !! p) as [info|] eqn:Er.
  - destruct (deallocate_registered h p info Hok Er) as (h1 & Hd1 & Hok1 & Hr1 & Hl1).
    rewrite Hd1 in Hd. simplify_eq. split_and!; [done..|].
    unfold deallocate. destruct (Hok p info Er) as (Hp & _).
    by rewrite (proj2 (Z.eqb_neq _ _) Hp), Hr1, lookup_delete_eq.
  - unfold deallocate in Hd. rewrite Er in Hd. destruct (Z.eqb_spec p 0); simplify_eq; done.
Qed.

(** A block that was allocated and then freed leaves no trace: the registry
    and the live mappings are those before the allocation. *)
Theorem allocate_deallocate {Os} `{OsMemSpec Os} (n : Z) (force : bool) (h h' : heap Os) p :
  heap_ok h -> 0 <= n < 2 ^ 64 -> allocate n force h = (inr p, h') ->
  exists h'', deallocate p h' = (None, h'') /\
    registry h'' = registry h /\ live (os h'') = live (os h).
Proof.
  intros Hok Hn Ha. pose proof (allocate_heap_ok _ _ _ _ _ Hok Hn Ha) as Hok'.
  apply allocate_inr in Ha as (huge & Hp & Hf & Hr & Hl); [|done].
  destruct (deallocate_registered h' p (mkInfo (round_up n HUGE_PAGE_SIZE) huge))
    as (h'' & Hd & _ & Hr' & Hl'); [done|by rewrite Hr, lookup_insert_eq|].
  exists h''. split; [done|]. rewrite Hr', Hl', Hr, Hl, !delete_insert_id; try done.
  by apply heap_ok_fresh.
Qed.

(** C38: [available_huge_pages] returns 0 on every /proc/meminfo of the kernel's
    format, however many huge pages are free: the counters have no unit, so the
    three-word loop takes the name [HugePages_Free:] for the unit of
    [HugePages_Total:] and stops at the next line. *)
Theorem available_huge_pages_zero (es : list mem_entry) (total free rsvd : mem_entry) (rest : list ascii) :
  Forall (fun e => mem_entry_ok e /\ e_name e <> lit "HugePages_Free:") es ->
  mem_entry_ok total -> mem_entry_ok free -> mem_entry_ok rsvd ->
  e_name total = lit "HugePages_Total:" -> e_name free = lit "HugePages_Free:" ->
  e_name rsvd = lit "HugePages_Rsvd:" ->
  available_huge_pages (concat (map kb_line es) ++
    count_line total ++ count_line free ++ count_line rsvd ++ rest) = 0.
Proof.
  intros Hes Ht Hf Hr Et Ef Er. unfold available_huge_pages, read_meminfo_field.
  set (fuel := S _). set (s := count_line free ++ _).
  destruct (meminfo_loop_kb_lines fuel [] (lit "HugePages_Free:") es (count_line total ++ s))
    as (pre & Hpre & Heq); [done|done| |].
  { pose proof (kb_lines_length es). subst fuel. rewrite length_app. lia. }
  rewrite app_nil_l in Heq. rewrite Heq. apply meminfo_loop_counters; [done..| |].
  - rewrite Er. simpl. done.
  - rewrite Et. done.
Qed.

(** ** Witnesses *)

(** A machine with four free huge pages and nothing else, empty registry. *)
Definition demo_heap : heap toy_os := mkHeap (toy_boot 4 0) ∅.

Lemma demo_heap_ok : heap_ok demo_heap.
Proof. intros p info Hp. done. Qed.

(** No free huge page, eight megabytes of regular pages: the fallback. *)
Definition demo_small : heap toy_os := mkHeap (toy_boot 0 (8 * 1024 * 1024)) ∅.

Lemma allocate_correct_witness :
  exists o, granted demo_small (3 * HUGE_PAGE_SIZE) huge_page false o (allocate 5000000 false demo_small).
Proof.
  destruct (allocate_correct 5000000 false demo_small) as (len & Hr & Hm & _ & _ & Hf & _);
    [intros p info Hp; done|unfold HUGE_PAGE_SIZE; lia|].
  assert (len = 3 * HUGE_PAGE_SIZE) as -> by (unfold HUGE_PAGE_SIZE in *; dmlia).
  eexists. eapply Hf; [vm_compute; reflexivity|reflexivity|vm_compute; reflexivity].
Defined.

(** A heap with one block of regular pages. *)
Definition demo_block : heap toy_os := (allocate 5000000 false demo_small).2.

Lemma demo_block_ok : heap_ok demo_block.
Proof.
  apply (allocate_heap_ok 5000000 false demo_small (allocate 5000000 false demo_small).1);
    [intros p info Hp; done|lia|apply surjective_pairing].
Qed.

Lemma deallocate_correct_witness :
  exists e h', deallocate huge_page demo_block = (e, h') /\ heap_ok h' /\ e = None /\
    deallocate huge_page h' = (Some UntrackedPointer, h').
Proof.
  destruct (deallocate huge_page demo_block) as [e h'] eqn:E. exists e, h'. split; [done|].
  destruct (deallocate_correct huge_page demo_block h' e demo_block_ok E) as [Hok Hb].
  replace (registry demo_block !! huge_page) with (Some (mkInfo (3 * HUGE_PAGE_SIZE) false)) in Hb
    by (vm_compute; reflexivity).
  destruct Hb as (He & _ & _ & Hd). split_and!; done.
Defined.

Lemma allocate_deallocate_witness :
  exists p h' h'', allocate 1 false demo_heap = (inr p, h') /\ deallocate p h' = (None, h'') /\
    registry h'' = ∅.
Proof.
  destruct (allocate 1 false demo_heap) as [[e|p] h'] eqn:E; [vm_compute in E; congruence|].
  destruct (allocate_deallocate 1 false demo_heap h' p demo_heap_ok ltac:(lia) E)
    as (h'' & Hd & Hr & _).
  exists p, h', h''. split_and!; [done|done|exact Hr].
Defined.

Definition demo_entry (name num : string) : mem_entry :=
  mkEntry (list_ascii_of_string name) (lit "    ") (list_ascii_of_string num).

Lemma available_huge_pages_zero_witness :
  available_huge_pages
    (lit "MemTotal:    16384 kB" ++ [newline] ++ lit "HugePages_Total:    512" ++ [newline] ++
     lit "HugePages_Free:    512" ++ [newline] ++ lit "HugePages_Rsvd:    0" ++ [newline]) = 0.
Proof.
  apply (available_huge_pages_zero [demo_entry "MemTotal:" "16384"]
    (demo_entry "HugePages_Total:" "512") (demo_entry "HugePages_Free:" "512")
    (demo_entry "HugePages_Rsvd:" "0") []);
  repeat match goal with
  | |- Forall _ _ => constructor
  | |- mem_entry_ok _ => repeat split
  | |- _ /\ _ => split
  end; done.
Defined.
