(* ===== verification/NumaUtil.v ===== *)
(** * NUMA helpers (include/numa_util.h, src/numa_util.cpp)

    Directory listings and file contents are arguments ([None] when they cannot
    be opened); the kernel's memory calls are those of [OsMem], with [mbind] as
    a further argument whose result the source ignores. *)

From S2P Require Import Prelude CString OsMem.
From Stdlib Require Import Ascii String.
From stdpp Require Import base list gmap option pretty.
#[local] Open Scope Z_scope.

Definition read_int_file (contents : option (list ascii)) (fallback : Z) : Z :=
  match contents with
  | Some s => match get_int s with Some (v, _) => v | None => fallback end
  | None => fallback
  end.

(** [strncmp(name, "node", 4) == 0 && isdigit(name[4])] *)
Definition is_node_dir (name : list ascii) : bool :=
  bool_decide (take 4 name = lit "node") &&
  match name !! 4%nat with Some c => isdigit c | None => false end.

Definition numa_node_count (dir : option (list (list ascii))) : Z :=
  match dir with
  | None => 1
  | Some names =>
      let count := Z.of_nat (length (List.filter is_node_dir names)) in
      if 0 <? count then count else 1
  end.

Definition package_path (cpu : Z) : list ascii :=
  lit "/sys/devices/system/cpu/cpu" ++ list_ascii_of_string (pretty cpu) ++
  lit "/topology/physical_package_id".

Definition cpu_to_node (fs : list ascii -> option (list ascii)) (cpu : Z) : Z :=
  read_int_file (fs (package_path cpu)) 0.

(** [getcpu] is the CPU number the system call reports, [None] on failure. *)
Definition current_numa_node (fs : list ascii -> option (list ascii)) (getcpu : option Z) : Z :=
  match getcpu with Some cpu => cpu_to_node fs cpu | None => 0 end.

Section allocate.
Context {Os : Type} `{OsMem Os} (mbind : Z -> Z -> Z -> Os -> Os).

(** The null pointer is [0]; [None] is the undefined shift [1UL << node] of a
    node outside [0, 64). *)
Definition allocate_on_node (n node : Z) (o : Os) : option (Z * Os) :=
  let '(p, o1) := mmap n true o in
  let '(p, o2) := match p with Some _ => (p, o1) | None => mmap n false o1 end in
  match p with
  | None => Some (0, o2)
  | Some p =>
      if node =? -1 then Some (p, o2)
      else if (0 <=? node) && (node <? 64) then Some (p, mbind p n (Z.shiftl 1 node) o2)
      else None
  end.
End allocate.

(** The first loop of [verify_allocation_node]: the line of the mapping that
    starts closest below the pointer. *)
Definition best_line_step (target : Z) (best : option (Z * list ascii)) (line : list ascii) :
    option (Z * list ascii) :=
  let start := strtoull16 line in
  if (start <=? target) &&
     match best with None => true | Some (best_start, _) => best_start <? start end
  then Some (start, line) else best.

Definition best_line (maps : list (list ascii)) (target : Z) : option (Z * list ascii) :=
  fold_left (best_line_step target) maps None.

(** [N<node>=<pages>] at the text that follows an [N]. *)
Definition node_field (s : list ascii) : option (Z * Z) :=
  match s with
  | c :: _ =>
      if isdigit c then
        let '(node, eq) := strtol10 s in
        match eq with
        | "="%char :: r => Some (i32 node, fst (strtol10 r))
        | _ => None
        end
      else None
  | [] => None
  end.

(** The second loop: every [N] of the line, keeping the node with most pages. *)
Fixpoint scan_nodes (s : list ascii) (best_pages best_node : Z) : Z :=
  match s with
  | [] => best_node
  | c :: r =>
      if bool_decide (c = "N"%char) then
        match node_field r with
        | Some (node, pages) =>
            if best_pages <? pages then scan_nodes r pages node
            else scan_nodes r best_pages best_node
        | None => scan_nodes r best_pages best_node
        end
      else scan_nodes r best_pages best_node
  end.

Definition verify_allocation_node (maps : list (list ascii)) (ptr expected_node : Z) : bool :=
  match best_line maps ptr with
  | None => false
  | Some (_, line) => scan_nodes line (-1) (-1) =? expected_node
  end.

(** ** Specification *)

(** All [(node, pages)] fields of a line, in order. *)
Fixpoint node_fields (s : list ascii) : list (Z * Z) :=
  match s with
  | [] => []
  | c :: r =>
      (if bool_decide (c = "N"%char) then option_list (node_field r) else []) ++ node_fields r
  end.

(** The mapping a pointer belongs to: the one with the greatest start at or
    below it, the first of those in the file. *)
Definition owning_line (maps : list (list ascii)) (ptr : Z) (line : list ascii) : Prop :=
  exists l1 l2, maps = l1 ++ line :: l2 /\ strtoull16 line <= ptr /\
    (forall l, l ∈ l1 -> strtoull16 l <= ptr -> strtoull16 l < strtoull16 line) /\
    (forall l, l ∈ l2 -> strtoull16 l <= ptr -> strtoull16 l <= strtoull16 line).

(** [n] is the first node with the most pages, [-1] when no field counts. *)
Definition main_node (fields : list (Z * Z)) (n : Z) : Prop :=
  (exists f1 pages f2, fields = f1 ++ (n, pages) :: f2 /\ -1 < pages /\
    (forall f, f ∈ f1 -> snd f < pages) /\ (forall f, f ∈ f2 -> snd f <= pages)) \/
  (n = -1 /\ forall f, f ∈ fields -> snd f <= -1).

(** ** Lemmas *)

Lemma best_line_owning maps ptr :
  match best_line maps ptr with
  | Some (st, line) => st = strtoull16 line /\ owning_line maps ptr line
  | None => forall l, l ∈ maps -> ptr < strtoull16 l
  end.
Proof.
  unfold best_line. induction maps as [|l maps IH] using rev_ind; [by intros l ?%elem_of_nil|].
  rewrite fold_left_app. simpl. unfold best_line_step at 1.
  destruct (fold_left _ maps None) as [[st line]|]; simpl.
  - destruct IH as [-> (l1 & l2 & -> & Hle & H1 & H2)].
    destruct (Z.leb_spec (strtoull16 l) ptr), (Z.ltb_spec (strtoull16 line) (strtoull16 l)); simpl;
      (split; [done|]).
    1: { exists (l1 ++ line :: l2), []. split_and!; [done..| |by intros ? ?%elem_of_nil].
         intros l' Hl' Hp. rewrite elem_of_app, elem_of_cons in Hl'.
         destruct Hl' as [Hl'|[->|Hl']]; [specialize (H1 _ Hl' Hp)|..|specialize (H2 _ Hl' Hp)]; lia. }
    all: exists l1, (l2 ++ [l]); rewrite <-app_assoc; split_and!; [done..|];
      intros l' Hl' Hp; rewrite elem_of_app, list_elem_of_singleton in Hl';
      destruct Hl' as [Hl'| ->]; [by apply H2|lia].
  - destruct (Z.leb_spec (strtoull16 l) ptr); simpl.
    + split; [done|]. exists maps, []. split_and!; [done..| |by intros ? ?%elem_of_nil].
      intros l' Hl' ?. specialize (IH _ Hl'). lia.
    + intros l'. rewrite elem_of_app, list_elem_of_singleton. intros [?| ->]; auto.
Qed.

Lemma scan_nodes_best s bp bn :
  let n := scan_nodes s bp bn in
  (exists f1 pages f2, node_fields s = f1 ++ (n, pages) :: f2 /\ bp < pages /\
    (forall f, f ∈ f1 -> snd f < pages) /\ (forall f, f ∈ f2 -> snd f <= pages)) \/
  (n = bn /\ forall f, f ∈ node_fields s -> snd f <= bp).
Proof.
  cbv zeta. revert bp bn. induction s as [|c r IH]; intros bp bn; simpl.
  { right. split; [done|]. by intros ? ?%elem_of_nil. }
  case_bool_decide; simpl; [|apply IH].
  destruct (node_field r) as [[node pages]|]; simpl; [|apply IH].
  destruct (Z.ltb_spec bp pages) as [Hlt|Hge].
  - destruct (IH pages node) as [(f1 & pg & f2 & -> & Hp & H1 & H2)|[-> Hall]]; left.
    + exists ((node, pages) :: f1), pg, f2. split_and!; [done|lia| |done].
      intros f [->|Hf]%elem_of_cons; [done|auto].
    + exists [], pages, (node_fields r). split_and!; [done|lia|by intros ? ?%elem_of_nil|done].
  - destruct (IH bp bn) as [(f1 & pg & f2 & -> & Hp & H1 & H2)|[-> Hall]]; [left|right].
    + exists ((node, pages) :: f1), pg, f2. split_and!; [done|lia| |done].
      intros f [->|Hf]%elem_of_cons; [simpl; lia|auto].
    + split; [done|]. intros f [->|Hf]%elem_of_cons; [done|auto].
Qed.

Lemma main_node_unique fs n1 n2 : main_node fs n1 -> main_node fs n2 -> n1 = n2.
Proof.
  assert (forall n pages (f1 f2 : list (Z * Z)) m, -1 < pages ->
    (forall f, f ∈ f1 ++ (n, pages) :: f2 -> snd f <= -1) -> m = n) as Hcontra.
  { intros n pages f1 f2 m Hp Hall. specialize (Hall (n, pages)). simpl in Hall.
    assert (pages <= -1); [|lia]. apply Hall. set_solver. }
  intros [(f1 & pg & f2 & -> & Hp & H1 & H2)|[-> Ha]] [(g1 & qg & g2 & Heq & Hq & G1 & G2)|[-> Hb]].
  - apply app_eq_inv in Heq as [(k & -> & Hk)|(k & -> & Hk)]; destruct k as [|x k]; simplify_eq/=; try done.
    + exfalso. assert (qg < pg) by (apply (H1 (n2, qg)); set_solver).
      assert (pg <= qg) by (apply (G2 (n1, pg)); set_solver). lia.
    + exfalso. assert (pg < qg) by (apply (G1 (n1, pg)); set_solver).
      assert (qg <= pg) by (apply (H2 (n2, qg)); set_solver). lia.
  - symmetry. by eapply Hcontra.
  - rewrite Heq in Ha. by eapply Hcontra.
  - done.
Qed.

Lemma owning_line_unique maps ptr l1 l2 :
  owning_line maps ptr l1 -> owning_line maps ptr l2 -> l1 = l2.
Proof.
  intros (a1 & b1 & -> & Hl1 & A1 & B1) (a2 & b2 & Heq & Hl2 & A2 & B2).
  apply app_eq_inv in Heq as [(k & -> & Hk)|(k & -> & Hk)]; destruct k as [|x k]; simplify_eq/=; try done.
  - exfalso. assert (strtoull16 x < strtoull16 l1) by (apply A1; set_solver).
    assert (strtoull16 l1 <= strtoull16 x) by (apply B2; set_solver). lia.
  - exfalso. assert (strtoull16 x < strtoull16 l2) by (apply A2; set_solver).
    assert (strtoull16 l2 <= strtoull16 x) by (apply B1; set_solver). lia.
Qed.

(** ** Properties *)

(** C37: [verify_allocation_node] answers yes exactly when the mapping that
    starts closest at or below the pointer exists and the node of its
    [N<node>=<pages>] fields with the most pages (the first such, [-1] when
    there is none) is the expected one. *)
Theorem verify_allocation_node_correct (maps : list (list ascii)) (ptr expected : Z) :
  verify_allocation_node maps ptr expected = true <->
  exists line, owning_line maps ptr line /\ main_node (node_fields line) expected.
Proof.
  unfold verify_allocation_node. pose proof (best_line_owning maps ptr) as Hb.
  destruct (best_line maps ptr) as [[st line]|].
  - destruct Hb as [_ Hown]. pose proof (scan_nodes_best line (-1) (-1)) as Hs. cbv zeta in Hs.
    rewrite Z.eqb_eq. split; [intros <-; eauto|]. intros (line' & Hown' & Hm).
    rewrite (owning_line_unique _ _ _ _ Hown' Hown) in Hm. by eapply main_node_unique.
  - split; [done|]. intros (line & (l1 & l2 & -> & Hle & _) & _).
    specialize (Hb line). assert (ptr < strtoull16 line) by (apply Hb; set_solver). lia.
Qed.

(** The first field with the most pages wins, other words of the line do not
    count. *)
Example verify_allocation_node_example :
  verify_allocation_node
    [lit "00400000 default file=/bin/ls mapped=3 N0=3";
     lit "7f0000200000 bind:1 anon=512 dirty=512 N0=12 N1=500 kernelpagesize_kB=2048";
     lit "7f00ffe00000 default stack anon=3 N2=3"] (2 ^ 21 + 139637976727552 + 77) 1 = true.
Proof. vm_compute. reflexivity. Qed.
