(* ===== verification/NumaInfo.v ===== *)
(** * The NUMA report (tools/numa_info.cpp)

    The program prints the NUMA nodes of the machine with their CPUs and huge
    pages.  File contents and directory listings are arguments ([None] when they
    cannot be opened), as are the results of the two [getcpu] calls.  The output
    is modelled character by character; [snprintf] cuts its text to the buffer. *)

From S2P Require Import Prelude CString NumaUtil.
From Stdlib Require Import Ascii String.
From stdpp Require Import base numbers list_numbers option pretty list.
#[local] Open Scope Z_scope.

Definition nl : list ascii := [ascii_of_nat 10].

(** [%d] and [%u]. *)
Definition dec (n : Z) : list ascii := list_ascii_of_string (pretty n).

(** [snprintf] into a buffer of 128 characters. *)
Definition snprintf128 (s : list ascii) : list ascii := take 127 s.

Section report.
Context (fs : list ascii -> option (list ascii)) (ls : list ascii -> option (list (list ascii))).

(** [std::getline] of a stream that may have failed to open. *)
Definition read_line (path : list ascii) : list ascii :=
  match fs path with
  | Some text => fst (span (fun c => negb (code c =? 10)) text)
  | None => []
  end.

(** The loop over the directory entries. *)
Fixpoint hugepage_lines (dir : list ascii) (entries : list (list ascii)) : list ascii :=
  match entries with
  | [] => []
  | e :: entries =>
      if bool_decide (head e = Some "."%char) then hugepage_lines dir entries
      else
        let base := dir ++ lit "/" ++ e in
        let total := read_line (base ++ lit "/nr_hugepages") in
        let free := read_line (base ++ lit "/free_hugepages") in
        lit "    " ++ e ++ lit ": total=" ++ c_str total ++ lit " free=" ++ c_str free ++ nl ++ hugepage_lines dir entries
  end.

Definition print_node_hugepages (node : Z) : list ascii :=
  let dir := snprintf128 (lit "/sys/devices/system/node/node" ++ dec node ++ lit "/hugepages") in
  match ls dir with
  | None => []
  | Some entries => hugepage_lines dir entries
  end.

(** The body of the loop over the nodes. *)
Definition print_node (n : Z) : list ascii :=
  let path := snprintf128 (lit "/sys/devices/system/node/node" ++ dec n ++ lit "/cpulist") in
  let cpulist := read_line path in
  lit "node " ++ dec n ++ nl ++
  lit "  cpus               : " ++ (if bool_decide (cpulist = []) then lit "(none)" else c_str cpulist) ++ nl ++
  lit "  hugepages" ++ nl ++ print_node_hugepages n.

(** [for (int n = 0; n < nodes; ++n)], with [todo] iterations to go. *)
Fixpoint print_nodes (todo : nat) (n : Z) : list ascii :=
  match todo with
  | O => []
  | S todo => print_node n ++ print_nodes todo (n + 1)
  end.

Definition node_root : list ascii := lit "/sys/devices/system/node".

Definition print_top (nodes cpu node : Z) : list ascii :=
  lit "NUMA nodes           : " ++ dec nodes ++ nl ++
  lit "current CPU / node   : " ++ dec cpu ++ lit " / " ++ dec node ++ nl ++
  nl.

Definition print_warning (nodes : Z) : list ascii :=
  if 1 <? nodes then
    nl ++ lit "WARNING: " ++ dec nodes ++ lit " NUMA nodes present — cross-node memory access " ++
    lit "costs bandwidth and latency. Pin workers and pools per node." ++ nl
  else [].

(** [cpu1] and [cpu2] are what the two [getcpu] calls report. *)
Definition numa_info_main (cpu1 cpu2 : option Z) : list ascii :=
  let nodes := numa_node_count (ls node_root) in
  print_top nodes (default 0 cpu1) (current_numa_node fs cpu2) ++
  print_nodes (Z.to_nat nodes) 0 ++
  print_warning nodes.

(** ** What the report says *)

(** The name of a node's directory. *)
Definition node_name (n : Z) : list ascii := lit "node" ++ dec n.

(** The visible entries of a directory. *)
Definition visible (entries : list (list ascii)) : list (list ascii) :=
  filter (fun e => head e <> Some "."%char) entries.

(** The section due to the directory [d] of node [n]. *)
Definition section_of (n : Z) (d : list ascii) : list ascii :=
  let cpus := read_line (node_root ++ lit "/" ++ d ++ lit "/cpulist") in
  let dir := node_root ++ lit "/" ++ d ++ lit "/hugepages" in
  lit "node " ++ dec n ++ nl ++
  lit "  cpus               : " ++ (if decide (cpus = []) then lit "(none)" else c_str cpus) ++ nl ++
  lit "  hugepages" ++ nl ++
  concat ((fun e => lit "    " ++ e ++
    lit ": total=" ++ c_str (read_line (dir ++ lit "/" ++ e ++ lit "/nr_hugepages")) ++
    lit " free=" ++ c_str (read_line (dir ++ lit "/" ++ e ++ lit "/free_hugepages")) ++ nl) <$> visible (default [] (ls dir))).

Lemma hugepage_lines_spec dir entries :
  hugepage_lines dir entries =
  concat ((fun e => lit "    " ++ e ++
    lit ": total=" ++ c_str (read_line (dir ++ lit "/" ++ e ++ lit "/nr_hugepages")) ++
    lit " free=" ++ c_str (read_line (dir ++ lit "/" ++ e ++ lit "/free_hugepages")) ++ nl) <$> visible entries).
Proof.
  induction entries as [|e entries IH]; [done|]. cbn [hugepage_lines]. unfold visible. rewrite filter_cons.
  destruct (decide (head e = Some "."%char)) as [He|He].
  - rewrite bool_decide_eq_true_2 by done. rewrite decide_False by (intros Hn; by apply Hn). exact IH.
  - rewrite bool_decide_eq_false_2, decide_True by done. cbv zeta. rewrite IH.
    cbn [fmap list_fmap concat]. rewrite <-!app_assoc. done.
Qed.
End report.

(** ** No path is cut *)

Lemma length_ascii s : length (list_ascii_of_string s) = String.length s.
Proof. induction s; simpl; auto. Qed.

Lemma pretty_go_length k x s :
  (x < 10 ^ N.of_nat k)%N -> (String.length (pretty_N_go x s) <= k + String.length s)%nat.
Proof.
  revert x s. induction k as [|k IH]; intros x s Hx.
  - assert (x = 0%N) as -> by (simpl in Hx; lia). by rewrite pretty_N_go_0.
  - destruct (decide (x = 0%N)) as [->|]; [rewrite pretty_N_go_0; lia|]. rewrite pretty_N_go_step by lia.
    assert (x `div` 10 < 10 ^ N.of_nat k)%N as Hd.
    { apply N.Div0.div_lt_upper_bound. rewrite Nat2N.inj_succ, N.pow_succ_r' in Hx. done. }
    specialize (IH _ (String (pretty_N_char (x `mod` 10)) s) Hd). simpl in IH. lia.
Qed.

Lemma dec_length n : 0 <= n < 2 ^ 31 -> (length (dec n) <= 10)%nat.
Proof.
  intros Hn. unfold dec. rewrite length_ascii. destruct n as [|n|n]; [simpl; lia| |lia].
  unfold pretty, pretty_Z, pretty, pretty_positive, pretty, pretty_N. rewrite decide_False by done.
  pose proof (pretty_go_length 10 (Npos n) "") as Hl. simpl String.length in Hl. rewrite Nat.add_0_r in Hl. apply Hl.
  change (10 ^ N.of_nat 10)%N with 10000000000%N. lia.
Qed.

Lemma node_path_fits n tail :
  0 <= n < 2 ^ 31 -> (length tail <= 20)%nat ->
  snprintf128 (lit "/sys/devices/system/node/node" ++ dec n ++ tail) = node_root ++ lit "/" ++ node_name n ++ tail.
Proof.
  intros Hn Ht. pose proof (dec_length n Hn). unfold snprintf128. rewrite take_ge; [done|].
  rewrite !length_app. simpl. lia.
Qed.

Section correct.
Context (fs : list ascii -> option (list ascii)) (ls : list ascii -> option (list (list ascii))).

Lemma print_node_spec n : 0 <= n < 2 ^ 31 -> print_node fs ls n = section_of fs ls n (node_name n).
Proof.
  intros Hn. unfold print_node, section_of, print_node_hugepages. rewrite !node_path_fits by (done || simpl; lia).
  cbv zeta. set (dir := node_root ++ lit "/" ++ node_name n ++ lit "/hugepages").
  assert (forall o, match o with None => [] | Some entries => hugepage_lines fs dir entries end =
    hugepage_lines fs dir (default [] o)) as -> by (by intros []).
  rewrite hugepage_lines_spec. destruct (decide _) as [Hc|Hc].
  - by rewrite bool_decide_eq_true_2.
  - by rewrite bool_decide_eq_false_2.
Qed.

Lemma print_nodes_spec k n :
  0 <= n -> n + Z.of_nat k < 2 ^ 31 ->
  print_nodes fs ls k n = concat ((fun i => section_of fs ls i (node_name i)) <$> seqZ n (Z.of_nat k)).
Proof.
  revert n. induction k as [|k IH]; intros n Hn Hk; [done|].
  rewrite seqZ_cons by lia. cbn [print_nodes fmap list_fmap concat]. rewrite print_node_spec, IH by lia.
  by replace (Z.pred (Z.of_nat (S k))) with (Z.of_nat k) by lia.
Qed.
End correct.

(** C36: when the nodes are numbered from 0 without a gap, the report has one
    section per node directory, in the order of the numbers, with the first line
    of its cpulist and the counts of each of its visible huge-page sizes; no path
    is cut by its buffer, and the warning is printed exactly when there are
    several nodes. *)
Theorem numa_info_complete (fs : list ascii -> option (list ascii)) (ls : list ascii -> option (list (list ascii)))
    (names : list (list ascii)) (k : Z) (cpu1 cpu2 : option Z) :
  ls node_root = Some names -> 0 < k < 2 ^ 31 -> List.filter is_node_dir names ≡ₚ (node_name <$> seqZ 0 k) ->
  exists top sections warning,
    numa_info_main fs ls cpu1 cpu2 = top ++ concat sections ++ warning /\ Z.of_nat (length sections) = k /\
    (forall d, d ∈ names -> is_node_dir d = true ->
       exists n, d = node_name n /\ sections !! Z.to_nat n = Some (section_of fs ls n d)) /\
    (warning = [] <-> k = 1).
Proof.
  intros Hls Hk Hp. assert (numa_node_count (ls node_root) = k) as Hc.
  { assert (length (List.filter is_node_dir names) = Z.to_nat k) as Hl by (by rewrite Hp, length_fmap, length_seqZ).
    rewrite Hls. unfold numa_node_count. rewrite Hl. destruct (Z.ltb_spec 0 (Z.of_nat (Z.to_nat k))); lia. }
  unfold numa_info_main. rewrite Hc. cbv zeta. rewrite print_nodes_spec, Z2Nat.id by lia.
  eexists _, _, _. split; [reflexivity|].
  split; [rewrite length_fmap, length_seqZ; lia|]. split.
  - intros d Hd Hn. assert (d ∈ node_name <$> seqZ 0 k) as Hin.
    { rewrite <-Hp, list_elem_of_In, filter_In, <-list_elem_of_In. done. }
    apply list_elem_of_fmap in Hin as (n & -> & Hin). apply elem_of_seqZ in Hin. exists n. split; [done|].
    rewrite list_lookup_fmap, lookup_seqZ_lt by lia. simpl. by rewrite Z2Nat.id by lia.
  - unfold print_warning. destruct (Z.ltb_spec 1 k); split; try done; lia.
Qed.

#[local] Instance node_name_inj : Inj (=) (=) node_name.
Proof.
  intros n m Heq. apply (inj (app (lit "node"))) in Heq. apply (f_equal string_of_list_ascii) in Heq. unfold dec in Heq.
  rewrite !string_of_list_ascii_of_string in Heq. by apply (inj pretty).
Qed.

(** A machine with two nodes. *)
Definition demo_files (path : list ascii) : option (list ascii) :=
  if bool_decide (path = lit "/sys/devices/system/node/node0/cpulist") then Some (lit "0-3" ++ nl)
  else if bool_decide (path = lit "/sys/devices/system/node/node1/cpulist") then Some (lit "4-7" ++ nl)
  else if bool_decide (path = lit "/sys/devices/system/node/node1/hugepages/hugepages-2048kB/nr_hugepages") then Some (lit "16" ++ nl)
  else if bool_decide (path = lit "/sys/devices/system/node/node1/hugepages/hugepages-2048kB/free_hugepages") then Some (lit "9" ++ nl)
  else None.

Definition demo_dirs (path : list ascii) : option (list (list ascii)) :=
  if bool_decide (path = node_root) then Some [lit "."; lit "node1"; lit "online"; lit "node0"]
  else if bool_decide (path = lit "/sys/devices/system/node/node1/hugepages") then Some [lit "."; lit ".."; lit "hugepages-2048kB"]
  else None.

Lemma numa_info_complete_witness :
  exists top sections warning,
    numa_info_main demo_files demo_dirs (Some 5) (Some 5) = top ++ concat sections ++ warning /\
    sections !! 1%nat = Some (lit "node 1" ++ nl ++ lit "  cpus               : 4-7" ++ nl ++ lit "  hugepages" ++ nl ++
      lit "    hugepages-2048kB: total=16 free=9" ++ nl).
Proof.
  destruct (numa_info_complete demo_files demo_dirs [lit "."; lit "node1"; lit "online"; lit "node0"] 2 (Some 5) (Some 5))
    as (top & sections & warning & Ho & _ & Hs & _).
  - reflexivity.
  - lia.
  - vm_compute. apply perm_swap.
  - exists top, sections, warning. split; [exact Ho|]. destruct (Hs (lit "node1")) as (n & Hn & Hl); [right; left|reflexivity|].
    assert (n = 1) as -> by (apply (inj node_name); symmetry; exact Hn).
    etransitivity; [exact Hl|]. vm_compute. reflexivity.
Defined.

(** With a gap in the numbers the last node is not reported: the loop goes by the
    number of nodes. *)
Example numa_info_gap :
  numa_info_main
    (fun path => if bool_decide (path = lit "/sys/devices/system/node/node2/cpulist") then Some (lit "4-7") else None)
    (fun path => if bool_decide (path = node_root) then Some [lit "node0"; lit "node2"] else None) (Some 0) (Some 0) =
  lit "NUMA nodes           : 2" ++ nl ++ lit "current CPU / node   : 0 / 0" ++ nl ++ nl ++
  lit "node 0" ++ nl ++ lit "  cpus               : (none)" ++ nl ++ lit "  hugepages" ++ nl ++
  lit "node 1" ++ nl ++ lit "  cpus               : (none)" ++ nl ++ lit "  hugepages" ++ nl ++
  nl ++ lit "WARNING: 2 NUMA nodes present — cross-node memory access costs bandwidth and latency. Pin workers and pools per node." ++ nl.
Proof. vm_compute. reflexivity. Qed.
