(* ===== verification/PoolIface.v ===== *)
(** * What the buffer pool promises to its clients

    The batch processor, the workers, the capture loop and the TCP-Lite session
    all hold [BufferDescriptor] pointers of a pool they share.  [PoolOps] is the
    signature they use and [PoolSpec] the contract their theorems are proved
    against; BufferPool.v discharges it.  A descriptor pointer is the index of
    the descriptor.  [None] is undefined behaviour or a failed assertion. *)

From S2P Require Import Prelude.
From stdpp Require Import base list gmap option.
#[local] Open Scope Z_scope.

Class PoolOps (P : Type) := {
  (** [acquire()]: [None] inside is the null pointer. *)
  acquire : P -> option (option Z * P);
  (** [release(buf)] *)
  release : Z -> P -> option P;
  (** The memory [buf->data] points to, up to the end of its region. *)
  buf_mem : Z -> P -> option (list Z);
  (** [buf->len], [buf->capacity] *)
  buf_len : Z -> P -> option Z;
  buf_capacity : Z -> P -> option Z;
  (** [memcpy(buf->data + off, bs, |bs|)] *)
  buf_store : Z -> Z -> list Z -> P -> option P;
  (** [buf->len = n] *)
  buf_set_len : Z -> Z -> P -> option P
}.

(** [pool_ok p held]: [held] are the buffers currently handed out.
    [content p b] are the [buf_size p] bytes of buffer [b]. *)
Class PoolSpec (P : Type) `{PoolOps P} := {
  pool_ok : P -> gset Z -> Prop;
  buf_size : P -> Z;
  pool_cap : P -> Z;
  content : P -> Z -> list Z;

  (** A free buffer is handed out while there is one, and only then. *)
  acquire_ok p held : pool_ok p held ->
    exists r p', acquire p = Some (r, p') /\
      buf_size p' = buf_size p /\ pool_cap p' = pool_cap p /\
      match r with
      | Some b => b ∉ held /\ pool_ok p' ({[b]} ∪ held) /\ Z.of_nat (size held) < pool_cap p
      | None => pool_ok p' held /\ Z.of_nat (size held) = pool_cap p
      end /\
      (forall b, b ∈ held -> content p' b = content p b /\ buf_len b p' = buf_len b p);

  (** Releasing a held buffer makes it available and touches no other. *)
  release_ok p held b : pool_ok p held -> b ∈ held ->
    exists p', release b p = Some p' /\
      buf_size p' = buf_size p /\ pool_cap p' = pool_cap p /\
      pool_ok p' (held ∖ {[b]}) /\
      (forall b', b' ∈ held -> b' <> b ->
        content p' b' = content p b' /\ buf_len b' p' = buf_len b' p);

  buf_mem_ok p held b : pool_ok p held -> b ∈ held ->
    exists m, buf_mem b p = Some m /\ take (Z.to_nat (buf_size p)) m = content p b /\
      Z.of_nat (length (content p b)) = buf_size p;

  buf_capacity_ok p held b : pool_ok p held -> b ∈ held ->
    buf_capacity b p = Some (buf_size p);

  buf_len_ok p held b : pool_ok p held -> b ∈ held -> is_Some (buf_len b p);

  (** A store inside the buffer changes those bytes only. *)
  buf_store_ok p held b off bs : pool_ok p held -> b ∈ held ->
    0 <= off -> off + Z.of_nat (length bs) <= buf_size p ->
    exists p', buf_store b off bs p = Some p' /\
      buf_size p' = buf_size p /\ pool_cap p' = pool_cap p /\ pool_ok p' held /\
      content p' b = list_inserts (Z.to_nat off) bs (content p b) /\
      (forall b', b' ∈ held -> buf_len b' p' = buf_len b' p /\
        (b' <> b -> content p' b' = content p b'));

  buf_set_len_ok p held b n : pool_ok p held -> b ∈ held ->
    exists p', buf_set_len b n p = Some p' /\
      buf_size p' = buf_size p /\ pool_cap p' = pool_cap p /\ pool_ok p' held /\
      buf_len b p' = Some n /\
      (forall b', b' ∈ held -> content p' b' = content p b' /\
        (b' <> b -> buf_len b' p' = buf_len b' p))
}.

(** The memory of a pool holds bytes, and stays so when bytes are stored. *)
Class PoolBytes (P : Type) `{PoolSpec P} := {
  pool_bytes : P -> Prop;
  acquire_bytes p r p' : pool_bytes p -> acquire p = Some (r, p') -> pool_bytes p';
  release_bytes p b p' : pool_bytes p -> release b p = Some p' -> pool_bytes p';
  store_bytes p b off bs p' : pool_bytes p -> bytes_ok bs -> buf_store b off bs p = Some p' -> pool_bytes p';
  set_len_bytes p b n p' : pool_bytes p -> buf_set_len b n p = Some p' -> pool_bytes p';
  content_bytes p b : pool_bytes p -> bytes_ok (content p b)
}.

(** Two states of a pool that agree on its dimensions and on the buffers [X]. *)
Record pool_frame {P} `{PoolSpec P} (p p' : P) (X : gset Z) : Prop := {
  pf_size : buf_size p' = buf_size p;
  pf_cap : pool_cap p' = pool_cap p;
  pf_same : forall b, b ∈ X -> content p' b = content p b /\ buf_len b p' = buf_len b p
}.

Section frame.
Context {P : Type} `{PoolSpec P}.
Implicit Types (p : P) (X held : gset Z).

Lemma pool_frame_refl p X : pool_frame p p X.
Proof. by split. Qed.

Lemma pool_frame_trans p p' p'' X : pool_frame p p' X -> pool_frame p' p'' X -> pool_frame p p'' X.
Proof.
  intros [? ? F1] [? ? F2]. split; [congruence|congruence|]. intros b Hb.
  destruct (F1 b Hb), (F2 b Hb). split; congruence.
Qed.

Lemma pool_frame_mono p p' X Y : pool_frame p p' X -> Y ⊆ X -> pool_frame p p' Y.
Proof. intros [? ? F] HY. split; [done|done|]. intros b Hb. apply F, HY, Hb. Qed.

(** [acquire], [release], stores and length updates as frames. *)
Lemma acquire_frame p held :
  pool_ok p held ->
  (exists p', acquire p = Some (None, p') /\ pool_ok p' held /\ pool_frame p p' held /\
     Z.of_nat (size held) = pool_cap p) \/
  (exists b p', acquire p = Some (Some b, p') /\ b ∉ held /\ pool_ok p' ({[b]} ∪ held) /\
     pool_frame p p' held /\ Z.of_nat (size held) < pool_cap p).
Proof.
  intros Hok. destruct (acquire_ok p held Hok) as (r & p' & Ha & Hs & Hc & Hr & Hf). destruct r as [b|].
  - right. destruct Hr as (? & ? & ?). exists b, p'. split_and!; [done..|by split|done].
  - left. destruct Hr. exists p'. split_and!; [done..|by split|done].
Qed.

Lemma release_frame p held b :
  pool_ok p held -> b ∈ held ->
  exists p', release b p = Some p' /\ pool_ok p' (held ∖ {[b]}) /\ pool_frame p p' (held ∖ {[b]}).
Proof.
  intros Hok Hb. destruct (release_ok p held b Hok Hb) as (p' & Hr & Hs & Hc & Hok' & Hf).
  exists p'. split_and!; [done..|]. split; [done|done|].
  intros b' [? ?%not_elem_of_singleton]%elem_of_difference. by apply Hf.
Qed.

Lemma store_frame p held b off bs :
  pool_ok p held -> b ∈ held -> 0 <= off -> off + Z.of_nat (length bs) <= buf_size p ->
  exists p', buf_store b off bs p = Some p' /\ pool_ok p' held /\ pool_frame p p' (held ∖ {[b]}) /\
    content p' b = list_inserts (Z.to_nat off) bs (content p b) /\ buf_len b p' = buf_len b p.
Proof.
  intros Hok Hb Ho Hl.
  destruct (buf_store_ok p held b off bs Hok Hb Ho Hl) as (p' & Hr & Hs & Hc & Hok' & Hct & Hf).
  exists p'. split_and!; [done|done| |done|by apply Hf]. split; [done|done|].
  intros b' [Hb' ?%not_elem_of_singleton]%elem_of_difference. destruct (Hf b' Hb') as [? Hct']. auto.
Qed.

Lemma set_len_frame p held b n :
  pool_ok p held -> b ∈ held ->
  exists p', buf_set_len b n p = Some p' /\ pool_ok p' held /\ pool_frame p p' (held ∖ {[b]}) /\
    content p' b = content p b /\ buf_len b p' = Some n.
Proof.
  intros Hok Hb.
  destruct (buf_set_len_ok p held b n Hok Hb) as (p' & Hr & Hs & Hc & Hok' & Hl & Hf).
  exists p'. split_and!; [done|done| |by apply Hf|done]. split; [done|done|].
  intros b' [Hb' ?%not_elem_of_singleton]%elem_of_difference. destruct (Hf b' Hb') as [? Hct']. auto.
Qed.

(** Reading bytes of a held buffer. *)
Lemma read_held p held b off n :
  pool_ok p held -> b ∈ held -> 0 <= off -> 0 <= n -> off + n <= buf_size p ->
  exists m, buf_mem b p = Some m /\
    rd_bytes m off n = Some (take (Z.to_nat n) (drop (Z.to_nat off) (content p b))).
Proof.
  intros Hok Hb Ho Hn Hs. destruct (buf_mem_ok p held b Hok Hb) as (m & Hm & Ht & Hl).
  exists m. split; [done|]. rewrite <-Ht in Hl |- *. rewrite length_take in Hl.
  rewrite rd_bytes_Some by lia. f_equal. apply list_eq. intros i. rewrite !lookup_take, !lookup_drop.
  case_decide; [|done]. rewrite lookup_take_lt by lia. done.
Qed.
End frame.
