(* ===== verification/BufferPool.v ===== *)
(** * The buffer pool (include/buffer_pool.h, src/buffer_pool.cpp)

    [FreeStack] is the Treiber stack threaded through the descriptors,
    [BufferPool] the pool over one flat backing region.  Here the operations
    run alone (a compare-and-swap that nobody interferes with succeeds);
    FreeStackConc.v interleaves them.  A descriptor pointer is its index. *)

From S2P Require Import Prelude OsMem HugeAlloc NumaUtil PoolIface.
From stdpp Require Import base list_numbers gmap option list.
#[local] Open Scope Z_scope.

(** [data] is the offset into the backing region, [next] the free-list link
    kept in the first four padding bytes. *)
Record BufferDescriptor := mkDesc {
  data : Z; len : Z; capacity : Z; pool_index : Z; next : Z }.

Definition kEmpty : Z := 0xFFFFFFFF.

Definition pack (gen index : Z) : Z := Z.lor (Z.shiftl gen 32) index.
Definition gen_of (v : Z) : Z := u32 (Z.shiftr v 32).
Definition index_of (v : Z) : Z := u32 v.

Definition set_next (d : BufferDescriptor) (n : Z) : BufferDescriptor :=
  mkDesc (data d) (len d) (capacity d) (pool_index d) n.
Definition set_len (d : BufferDescriptor) (n : Z) : BufferDescriptor :=
  mkDesc (data d) n (capacity d) (pool_index d) (next d).

Record FreeStack := mkFreeStack { top_ : Z; size_ : Z }.

Definition FreeStack_init : FreeStack := mkFreeStack (pack 0 kEmpty) 0.

(** The descriptors are shared with the pool, so they are passed and returned. *)
Definition fs_push (ds : list BufferDescriptor) (fs : FreeStack) (index : Z) :
    option (list BufferDescriptor * FreeStack) :=
  let old := top_ fs in
  d ← aget ds index;
  ds ← aset ds index (set_next d (index_of old));
  let neu := pack (u32 (gen_of old + 1)) index in
  Some (ds, mkFreeStack neu (u32 (size_ fs + 1))).

Definition fs_pop (ds : list BufferDescriptor) (fs : FreeStack) : option (Z * FreeStack) :=
  let old := top_ fs in
  let index := index_of old in
  if index =? kEmpty then Some (kEmpty, fs)
  else
    d ← aget ds index;
    let neu := pack (u32 (gen_of old + 1)) (next d) in
    Some (index, mkFreeStack neu (u32 (size_ fs - 1))).

(** [approx_size] *)
Definition approx_size (fs : FreeStack) : Z := size_ fs.

Record BufferPool := mkPool {
  buffer_size_ : Z;
  buffer_count_ : Z;
  numa_node_ : Z;
  backing_addr : Z;
  descriptors_addr : Z;
  backing_ : list Z;
  descriptors_ : list BufferDescriptor;
  free_stack_ : FreeStack;
  total_acquires_ : Z;
  total_releases_ : Z;
  total_exhausted_ : Z
}.

(** The fields the operations change. *)
Definition with_stack (p : BufferPool) (ds : list BufferDescriptor) (fs : FreeStack)
    (acq rel exh : Z) : BufferPool :=
  mkPool (buffer_size_ p) (buffer_count_ p) (numa_node_ p) (backing_addr p)
    (descriptors_addr p) (backing_ p) ds fs acq rel exh.
Definition with_descriptors (p : BufferPool) (ds : list BufferDescriptor) : BufferPool :=
  with_stack p ds (free_stack_ p) (total_acquires_ p) (total_releases_ p) (total_exhausted_ p).
Definition with_backing (p : BufferPool) (bk : list Z) : BufferPool :=
  mkPool (buffer_size_ p) (buffer_count_ p) (numa_node_ p) (backing_addr p)
    (descriptors_addr p) bk (descriptors_ p) (free_stack_ p)
    (total_acquires_ p) (total_releases_ p) (total_exhausted_ p).

Definition pool_acquire (p : BufferPool) : option (option Z * BufferPool) :=
  '(index, fs) ← fs_pop (descriptors_ p) (free_stack_ p);
  if index =? kEmpty then
    Some (None, with_stack p (descriptors_ p) fs (total_acquires_ p) (total_releases_ p)
                  (u64 (total_exhausted_ p + 1)))
  else
    Some (Some index, with_stack p (descriptors_ p) fs (u64 (total_acquires_ p + 1))
                        (total_releases_ p) (total_exhausted_ p)).

Definition pool_release (b : Z) (p : BufferPool) : option BufferPool :=
  d ← aget (descriptors_ p) b;
  if pool_index d <? buffer_count_ p then
    ds ← aset (descriptors_ p) b (set_len d 0);
    '(ds, fs) ← fs_push ds (free_stack_ p) (pool_index d);
    Some (with_stack p ds fs (total_acquires_ p) (u64 (total_releases_ p + 1))
            (total_exhausted_ p))
  else None.

(** [free_count], [capacity], [buffer_size]. *)
Definition free_count (p : BufferPool) : Z := approx_size (free_stack_ p).
Definition pool_capacity (p : BufferPool) : Z := buffer_count_ p.
Definition pool_buffer_size (p : BufferPool) : Z := buffer_size_ p.

(** Accesses through a descriptor pointer. *)
Definition pool_mem (b : Z) (p : BufferPool) : option (list Z) :=
  d ← aget (descriptors_ p) b;
  rd_bytes (backing_ p) (data d) (Z.of_nat (length (backing_ p)) - data d).
Definition pool_len (b : Z) (p : BufferPool) : option Z :=
  d ← aget (descriptors_ p) b; Some (len d).
Definition pool_buf_capacity (b : Z) (p : BufferPool) : option Z :=
  d ← aget (descriptors_ p) b; Some (capacity d).
Definition pool_store (b off : Z) (bs : list Z) (p : BufferPool) : option BufferPool :=
  d ← aget (descriptors_ p) b;
  bk ← wr_bytes (backing_ p) (data d + off) bs;
  Some (with_backing p bk).
Definition pool_set_len (b n : Z) (p : BufferPool) : option BufferPool :=
  d ← aget (descriptors_ p) b;
  ds ← aset (descriptors_ p) b (set_len d n);
  Some (with_descriptors p ds).

#[export] Instance pool_ops : PoolOps BufferPool := {|
  acquire := pool_acquire; release := pool_release; buf_mem := pool_mem;
  buf_len := pool_len; buf_capacity := pool_buf_capacity;
  buf_store := pool_store; buf_set_len := pool_set_len |}.

(** ** Construction and destruction *)

(** The exceptions of the constructor. *)
Inductive pool_error :=
| PoolZeroSize
| AllocateOnNodeFailed
| AllocateThrew (e : alloc_error).

(** An anonymous mapping is zero-filled. *)
Definition zero_desc : BufferDescriptor := mkDesc 0 0 0 0 0.

(** The constructor's loop: [n] descriptors from [i] on. *)
Fixpoint init_descriptors (n : nat) (i bs : Z) (ds : list BufferDescriptor) (fs : FreeStack) :
    option (list BufferDescriptor * FreeStack) :=
  match n with
  | O => Some (ds, fs)
  | S n =>
      d ← aget ds i;
      ds ← aset ds i (mkDesc (u64 (i * bs)) 0 (u32 bs) (u32 i) (next d));
      '(ds, fs) ← fs_push ds fs (u32 i);
      init_descriptors n (i + 1) bs ds fs
  end.

Section ctor.
Context {Os : Type} `{OsMem Os} (mbind : Z -> Z -> Z -> Os -> Os).

Definition alloc_region (n node : Z) (h : heap Os) : option ((pool_error + Z) * heap Os) :=
  if negb (node =? -1) then
    '(p, o) ← allocate_on_node mbind n node (os h);
    Some (if p =? 0 then inl AllocateOnNodeFailed else inr p, mkHeap o (registry h))
  else
    match allocate n false h with
    | (inl e, h) => Some (inl (AllocateThrew e), h)
    | (inr p, h) => Some (inr p, h)
    end.

(** The result of [munmap] is ignored on the NUMA path. *)
Definition free_region (p n node : Z) (h : heap Os) : option alloc_error * heap Os :=
  if p =? 0 then (None, h)
  else if negb (node =? -1) then (None, mkHeap (snd (munmap p n (os h))) (registry h))
  else deallocate p h.

Definition new_BufferPool (buffer_size buffer_count numa_node : Z) (h : heap Os) :
    option ((pool_error + BufferPool) * heap Os) :=
  if (buffer_size =? 0) || (buffer_count =? 0) then Some (inl PoolZeroSize, h)
  else
    let backing_bytes := u64 (buffer_size * buffer_count) in
    let descriptor_bytes := u64 (buffer_count * 64) in
    '(r, h) ← alloc_region backing_bytes numa_node h;
    match r with
    | inl e => Some (inl e, h)
    | inr backing =>
        '(r, h) ← alloc_region descriptor_bytes numa_node h;
        match r with
        | inl e => Some (inl e, h)
        | inr descriptors =>
            '(ds, fs) ← init_descriptors (Z.to_nat buffer_count) 0 buffer_size
                          (replicate (Z.to_nat (descriptor_bytes / 64)) zero_desc)
                          FreeStack_init;
            Some (inr (mkPool buffer_size buffer_count numa_node backing descriptors
                         (replicate (Z.to_nat backing_bytes) 0) ds fs 0 0 0), h)
        end
    end.

(** [~BufferPool]; [None] is an exception leaving the destructor. *)
Definition delete_BufferPool (p : BufferPool) (h : heap Os) : option (heap Os) :=
  let backing_bytes := u64 (buffer_size_ p * buffer_count_ p) in
  let descriptor_bytes := u64 (buffer_count_ p * 64) in
  match free_region (backing_addr p) backing_bytes (numa_node_ p) h with
  | (Some _, _) => None
  | (None, h) =>
      match free_region (descriptors_addr p) descriptor_bytes (numa_node_ p) h with
      | (Some _, _) => None
      | (None, h) => Some h
      end
  end.
End ctor.

(** ** Invariants *)

(** The free list that starts at [i]. *)
Fixpoint chain (ds : list BufferDescriptor) (i : Z) (fl : list Z) : Prop :=
  match fl with
  | [] => i = kEmpty
  | j :: fl => i = j /\ exists d, aget ds j = Some d /\ chain ds (next d) fl
  end.

(** [fs] is the stack of the indices [fl] of a pool of [n] descriptors. *)
Record stack_rep (ds : list BufferDescriptor) (fs : FreeStack) (fl : list Z) : Prop := {
  sr_chain : chain ds (index_of (top_ fs)) fl;
  sr_nodup : NoDup fl;
  sr_range : forall i, i ∈ fl -> 0 <= i < Z.of_nat (length ds);
  sr_count : Z.of_nat (length ds) <= kEmpty;
  sr_size : size_ fs = Z.of_nat (length fl)
}.

(** A descriptor of buffer [i] of [bs] bytes. *)
Definition desc_ok (bs i : Z) (d : BufferDescriptor) : Prop :=
  data d = i * bs /\ capacity d = bs /\ pool_index d = i.

Record pool_inv (p : BufferPool) (fl : list Z) (held : gset Z) : Prop := {
  pi_stack : stack_rep (descriptors_ p) (free_stack_ p) fl;
  pi_count : Z.of_nat (length (descriptors_ p)) = buffer_count_ p;
  pi_size : 0 < buffer_size_ p < 2 ^ 32;
  pi_backing : Z.of_nat (length (backing_ p)) = buffer_size_ p * buffer_count_ p;
  pi_desc : forall i d, aget (descriptors_ p) i = Some d -> desc_ok (buffer_size_ p) i d;
  pi_part : forall i, 0 <= i < buffer_count_ p <-> i ∈ fl \/ i ∈ held;
  pi_disj : forall i, i ∈ fl -> i ∉ held
}.

Definition bufpool_ok (p : BufferPool) (held : gset Z) : Prop := exists fl, pool_inv p fl held.

(** The bytes of a buffer. *)
Definition pool_content (p : BufferPool) (b : Z) : list Z :=
  take (Z.to_nat (buffer_size_ p)) (drop (Z.to_nat (b * buffer_size_ p)) (backing_ p)).

(** ** The packed head *)

Lemma index_of_pack g i : is_u32 i -> index_of (pack g i) = i.
Proof.
  intros Hi. unfold index_of, pack, u32. rewrite <-Z.land_ones, Z.land_lor_distr_l by lia.
  rewrite !Z.land_ones, Z.shiftl_mul_pow2, Z.mod_mul by lia. simpl.
  by apply Z.mod_small.
Qed.

Lemma gen_of_pack g i : is_u32 g -> is_u32 i -> gen_of (pack g i) = g.
Proof.
  intros Hg Hi. unfold gen_of, pack. rewrite Z.shiftr_lor, Z.shiftr_shiftl_l by lia.
  rewrite Z.sub_diag, Z.shiftl_0_r, (Z.shiftr_div_pow2 i), (Z.div_small i), Z.lor_0_r by (lia || done).
  by apply u32_id.
Qed.

Lemma pack_inj g i g' i' :
  is_u32 g -> is_u32 i -> is_u32 g' -> is_u32 i' -> pack g i = pack g' i' -> g = g' /\ i = i'.
Proof.
  intros Hg Hi Hg' Hi' Heq. split.
  - by rewrite <-(gen_of_pack g i), Heq, gen_of_pack.
  - by rewrite <-(index_of_pack g i), Heq, index_of_pack.
Qed.

(** ** The free list *)

Lemma chain_frame ds ds' i fl :
  (forall j d, j ∈ fl -> aget ds j = Some d -> exists d', aget ds' j = Some d' /\ next d' = next d) ->
  chain ds i fl -> chain ds' i fl.
Proof.
  revert i. induction fl as [|j fl IH]; intros i Hf; simpl; [done|].
  intros [-> (d & Hd & Hc)]. split; [done|].
  destruct (Hf j d) as (d' & Hd' & Hn); [set_solver|done|]. exists d'. split; [done|].
  rewrite Hn. apply IH; [|done]. intros k e Hk. apply Hf. set_solver.
Qed.

(** A free list starts with an index or the empty mark: a 32-bit value. *)
Lemma chain_u32 ds i fl :
  chain ds i fl -> Z.of_nat (length ds) <= kEmpty -> is_u32 i.
Proof.
  unfold kEmpty, is_u32. destruct fl as [|j fl]; simpl; [intros ->; unfold kEmpty; lia|].
  intros [-> (d & Hd & _)] ?. apply aget_range in Hd. lia.
Qed.

Lemma sr_length ds fs fl : stack_rep ds fs fl -> Z.of_nat (length fl) <= Z.of_nat (length ds).
Proof. intros S. apply NoDup_range_length; [lia|apply S..]. Qed.

Lemma fs_push_ok ds fs fl i d :
  stack_rep ds fs fl -> aget ds i = Some d -> i ∉ fl ->
  exists fs', fs_push ds fs i = Some (<[Z.to_nat i := set_next d (index_of (top_ fs))]> ds, fs') /\
    stack_rep (<[Z.to_nat i := set_next d (index_of (top_ fs))]> ds) fs' (i :: fl).
Proof.
  intros S Hd Hi. pose proof (aget_range _ _ _ Hd) as Hr. pose proof (sr_count _ _ _ S) as Hc.
  assert (NoDup (i :: fl)) as Hnd by (apply NoDup_cons_2; [done|apply S]).
  unfold fs_push. rewrite Hd. simpl. rewrite aset_Some by done. simpl. eexists. split; [done|].
  split; simpl; rewrite ?length_insert; try done.
  - unfold kEmpty, index_of in *. rewrite index_of_pack by (unfold is_u32; lia). split; [done|].
    exists (set_next d (index_of (top_ fs))). rewrite aget_insert, decide_True by done.
    split; [done|]. simpl. eapply chain_frame; [|apply S]. intros j e Hj He.
    exists e. rewrite aget_insert by done. case_decide; [subst; done|]. done.
  - intros j [->|Hj]%elem_of_cons; [done|]. by apply S.
  - assert (Z.of_nat (length (i :: fl)) <= Z.of_nat (length ds)).
    { apply NoDup_range_length; [lia|done|]. intros j [->|Hj]%elem_of_cons; [done|by apply S]. }
    rewrite (sr_size _ _ _ S), u32_id; simpl in *; [lia|]. unfold is_u32, kEmpty in *. lia.
Qed.

Lemma fs_pop_ok ds fs fl :
  stack_rep ds fs fl ->
  match fl with
  | [] => fs_pop ds fs = Some (kEmpty, fs)
  | i :: fl => exists fs', fs_pop ds fs = Some (i, fs') /\ stack_rep ds fs' fl
  end.
Proof.
  intros S. pose proof (sr_chain _ _ _ S) as Hch. pose proof (sr_length _ _ _ S) as Hlen.
  pose proof (sr_count _ _ _ S) as Hc. unfold fs_pop.
  destruct fl as [|i fl]; simpl in Hch; [by rewrite Hch|].
  destruct Hch as [-> (d & Hd & Hch)]. pose proof (aget_range _ _ _ Hd) as Hr.
  destruct (Z.eqb_spec i kEmpty); [lia|]. rewrite Hd. simpl. eexists. split; [done|].
  split; simpl; [| | |done|].
  - rewrite index_of_pack; [done|]. by eapply chain_u32.
  - exact (NoDup_cons_1_2 _ _ (sr_nodup _ _ _ S)).
  - intros j Hj. apply (sr_range _ _ _ S). set_solver.
  - rewrite (sr_size _ _ _ S), u32_id; simpl in *; [lia|]. unfold is_u32, kEmpty in *. lia.
Qed.

(** ** The pool *)

(** Every buffer is free or handed out. *)
Lemma pool_inv_size p fl held :
  pool_inv p fl held -> Z.of_nat (size held) + Z.of_nat (length fl) = buffer_count_ p.
Proof.
  intros I. assert (elements held ++ fl ≡ₚ seqZ 0 (buffer_count_ p)) as Hp.
  { apply NoDup_Permutation.
    - apply NoDup_app. split_and!; [apply NoDup_elements| |apply (pi_stack _ _ _ I)].
      intros x Hx Hx'. apply elem_of_elements in Hx. by apply (pi_disj _ _ _ I) in Hx'.
    - apply NoDup_seqZ.
    - intros x. rewrite elem_of_app, elem_of_elements, elem_of_seqZ.
      pose proof (pi_part _ _ _ I x). rewrite Z.add_0_l. tauto. }
  apply Permutation_length in Hp. rewrite length_app, length_seqZ in Hp.
  change (length (elements held)) with (size held) in Hp.
  pose proof (pi_count _ _ _ I). lia.
Qed.

Lemma pool_inv_held p fl held b :
  pool_inv p fl held -> b ∈ held ->
  exists d, aget (descriptors_ p) b = Some d /\ desc_ok (buffer_size_ p) b d /\
    0 <= b < buffer_count_ p.
Proof.
  intros I Hb. assert (0 <= b < buffer_count_ p) as Hr by (apply (pi_part _ _ _ I); auto).
  destruct (aget_is_Some (descriptors_ p) b) as [d Hd]; [by rewrite (pi_count _ _ _ I)|].
  exists d. split_and!; [done|by apply (pi_desc _ _ _ I)|lia..].
Qed.

(** Changing one descriptor, its placement kept, keeps the free list when its
    link is kept. *)
Lemma stack_rep_update ds fs fl b d d' :
  stack_rep ds fs fl -> aget ds b = Some d -> next d' = next d ->
  stack_rep (<[Z.to_nat b := d']> ds) fs fl.
Proof.
  intros S Hd Hn. pose proof (aget_range _ _ _ Hd).
  split; rewrite ?length_insert; try apply S. eapply chain_frame; [|apply S].
  intros j e Hj He. rewrite aget_insert by done. case_decide; subst; [|by exists e].
  exists d'. split; [done|]. congruence.
Qed.

Lemma pool_acquire_inv p fl held :
  pool_inv p fl held ->
  match fl with
  | [] => pool_acquire p =
      Some (None, with_stack p (descriptors_ p) (free_stack_ p) (total_acquires_ p)
                    (total_releases_ p) (u64 (total_exhausted_ p + 1)))
  | b :: fl => exists fs,
      pool_acquire p = Some (Some b, with_stack p (descriptors_ p) fs
        (u64 (total_acquires_ p + 1)) (total_releases_ p) (total_exhausted_ p)) /\
      pool_inv (with_stack p (descriptors_ p) fs
        (u64 (total_acquires_ p + 1)) (total_releases_ p) (total_exhausted_ p)) fl ({[b]} ∪ held)
  end.
Proof.
  intros I. pose proof (fs_pop_ok _ _ _ (pi_stack _ _ _ I)) as Hpop. unfold pool_acquire.
  destruct fl as [|b fl]; [by rewrite Hpop|]. destruct Hpop as (fs & -> & S). simpl.
  destruct (Z.eqb_spec b kEmpty) as [->|_].
  { pose proof (sr_range _ _ _ (pi_stack _ _ _ I) kEmpty ltac:(set_solver)).
    pose proof (sr_count _ _ _ S). lia. }
  exists fs. split; [done|]. split; simpl; try apply I; [done| |].
  - intros i. rewrite (pi_part _ _ _ I i). set_solver.
  - intros i Hi. pose proof (pi_disj _ _ _ I i). pose proof (sr_nodup _ _ _ (pi_stack _ _ _ I)) as Hnd.
    apply NoDup_cons_1_1 in Hnd. set_solver.
Qed.

Lemma pool_release_inv p fl held b :
  pool_inv p fl held -> b ∈ held ->
  exists ds fs, pool_release b p =
      Some (with_stack p ds fs (total_acquires_ p) (u64 (total_releases_ p + 1)) (total_exhausted_ p)) /\
    (forall j, j <> b -> aget ds j = aget (descriptors_ p) j) /\
    pool_inv (with_stack p ds fs (total_acquires_ p) (u64 (total_releases_ p + 1)) (total_exhausted_ p))
      (b :: fl) (held ∖ {[b]}).
Proof.
  intros I Hb. destruct (pool_inv_held _ _ _ _ I Hb) as (d & Hd & Hok & Hr).
  pose proof Hok as (_ & _ & Hpi). pose proof (aget_range _ _ _ Hd) as Hl.
  unfold pool_release. rewrite Hd. simpl. rewrite Hpi, (proj2 (Z.ltb_lt _ _)) by lia.
  rewrite aset_Some by done. simpl. set (ds1 := <[Z.to_nat b := set_len d 0]> (descriptors_ p)).
  assert (aget ds1 b = Some (set_len d 0)) as Hd1 by (subst ds1; by rewrite aget_insert, decide_True).
  destruct (fs_push_ok ds1 (free_stack_ p) fl b (set_len d 0)) as (fs & -> & S); [|done| |].
  { eapply stack_rep_update; [apply I|done|done]. }
  { intros Hi. by apply (pi_disj _ _ _ I) in Hi. }
  simpl. eexists _, fs. split; [done|]. set (d2 := set_next _ _) in *.
  assert (forall j, aget (<[Z.to_nat b := d2]> ds1) j =
    if decide (b = j) then Some d2 else aget (descriptors_ p) j) as Hget.
  { intros j. subst ds1. rewrite aget_insert by (by rewrite length_insert).
    case_decide; [done|]. by rewrite aget_insert, decide_False. }
  split; [intros j Hj; by rewrite Hget, decide_False|]. split; simpl; try apply I; [done| | | |].
  - subst ds1. rewrite !length_insert. apply I.
  - intros i e. rewrite Hget. case_decide; [|apply I]. intros [= <-]. subst i. exact Hok.
  - intros i. rewrite (pi_part _ _ _ I i). destruct (decide (i = b)); set_solver.
  - intros i [->|Hi]%elem_of_cons; [set_solver|]. pose proof (pi_disj _ _ _ I i Hi). set_solver.
Qed.

(** ** The contract of PoolIface.v *)

Lemma bufpool_acquire_ok p held :
  bufpool_ok p held ->
  exists r p', pool_acquire p = Some (r, p') /\
    buffer_size_ p' = buffer_size_ p /\ buffer_count_ p' = buffer_count_ p /\
    match r with
    | Some b => b ∉ held /\ bufpool_ok p' ({[b]} ∪ held) /\ Z.of_nat (size held) < buffer_count_ p
    | None => bufpool_ok p' held /\ Z.of_nat (size held) = buffer_count_ p
    end /\
    (forall b, b ∈ held -> pool_content p' b = pool_content p b /\ pool_len b p' = pool_len b p).
Proof.
  intros [fl I]. pose proof (pool_acquire_inv _ _ _ I) as Ha. pose proof (pool_inv_size _ _ _ I) as Hs.
  destruct fl as [|b fl]; [|destruct Ha as (fs & Ha & I')]; simpl in Hs;
    (eexists _, _; split; [exact Ha|]; split; [done|]; split; [done|]; split; [|done]).
  - split; [|lia]. exists []. split; simpl; apply I.
  - split_and!; [|by exists fl|lia]. apply (pi_disj _ _ _ I). set_solver.
Qed.

Lemma bufpool_release_ok p held b :
  bufpool_ok p held -> b ∈ held ->
  exists p', pool_release b p = Some p' /\
    buffer_size_ p' = buffer_size_ p /\ buffer_count_ p' = buffer_count_ p /\
    bufpool_ok p' (held ∖ {[b]}) /\
    (forall b', b' ∈ held -> b' <> b ->
      pool_content p' b' = pool_content p b' /\ pool_len b' p' = pool_len b' p).
Proof.
  intros [fl I] Hb. destruct (pool_release_inv _ _ _ _ I Hb) as (ds & fs & Hr & Hds & I').
  eexists. split; [exact Hr|]. split_and!; [done|done|by exists (b :: fl)|].
  intros b' _ Hne. split; [done|]. unfold pool_len. simpl. by rewrite Hds.
Qed.

(** The region of a held buffer lies inside the backing memory. *)
Lemma held_region p fl held b :
  pool_inv p fl held -> b ∈ held ->
  0 <= b * buffer_size_ p /\ b * buffer_size_ p + buffer_size_ p <= Z.of_nat (length (backing_ p)).
Proof.
  intros I Hb. destruct (pool_inv_held _ _ _ _ I Hb) as (_ & _ & _ & Hr).
  rewrite (pi_backing _ _ _ I). pose proof (pi_size _ _ _ I). nia.
Qed.

Lemma bufpool_mem_ok p held b :
  bufpool_ok p held -> b ∈ held ->
  exists m, pool_mem b p = Some m /\ take (Z.to_nat (buffer_size_ p)) m = pool_content p b /\
    Z.of_nat (length (pool_content p b)) = buffer_size_ p.
Proof.
  intros [fl I] Hb. destruct (pool_inv_held _ _ _ _ I Hb) as (d & Hd & (Hdata & _ & _) & _).
  destruct (held_region _ _ _ _ I Hb) as [H0 H1]. pose proof (pi_size _ _ _ I).
  unfold pool_mem. rewrite Hd. simpl. rewrite Hdata, rd_bytes_Some by lia.
  eexists. split; [done|]. unfold pool_content.
  rewrite length_take, length_drop. split; [|lia].
  rewrite take_take, Nat.min_l; [done|]. lia.
Qed.

Lemma bufpool_store_ok p held b off bs :
  bufpool_ok p held -> b ∈ held ->
  0 <= off -> off + Z.of_nat (length bs) <= buffer_size_ p ->
  exists p', pool_store b off bs p = Some p' /\
    buffer_size_ p' = buffer_size_ p /\ buffer_count_ p' = buffer_count_ p /\ bufpool_ok p' held /\
    pool_content p' b = list_inserts (Z.to_nat off) bs (pool_content p b) /\
    (forall b', b' ∈ held -> pool_len b' p' = pool_len b' p /\
      (b' <> b -> pool_content p' b' = pool_content p b')).
Proof.
  intros [fl I] Hb Hoff Hlen. destruct (pool_inv_held _ _ _ _ I Hb) as (d & Hd & (Hdata & _ & _) & _).
  destruct (held_region _ _ _ _ I Hb) as [H0 H1]. pose proof (pi_size _ _ _ I).
  unfold pool_store. rewrite Hd. simpl. rewrite Hdata, wr_bytes_Some by lia. simpl.
  eexists. split; [done|]. split_and!; [done|done| | |].
  - exists fl. split; simpl; rewrite ?length_inserts; apply I.
  - unfold pool_content. simpl. rewrite Z2Nat.inj_add by lia. apply region_inserts_eq; lia.
  - intros b' Hb'. split; [done|]. intros Hne. unfold pool_content. simpl.
    destruct (pool_inv_held _ _ _ _ I Hb') as (_ & _ & _ & Hr').
    destruct (pool_inv_held _ _ _ _ I Hb) as (_ & _ & _ & Hr).
    apply region_inserts_ne. destruct (decide (b' < b)); [left|right]; nia.
Qed.

Lemma bufpool_set_len_ok p held b n :
  bufpool_ok p held -> b ∈ held ->
  exists p', pool_set_len b n p = Some p' /\
    buffer_size_ p' = buffer_size_ p /\ buffer_count_ p' = buffer_count_ p /\ bufpool_ok p' held /\
    pool_len b p' = Some n /\
    (forall b', b' ∈ held -> pool_content p' b' = pool_content p b' /\
      (b' <> b -> pool_len b' p' = pool_len b' p)).
Proof.
  intros [fl I] Hb. destruct (pool_inv_held _ _ _ _ I Hb) as (d & Hd & Hok & _).
  pose proof (aget_range _ _ _ Hd) as Hr. unfold pool_set_len. rewrite Hd. simpl.
  rewrite aset_Some by done. simpl. eexists. split; [done|]. split_and!; [done|done| | |].
  - exists fl. split; simpl; rewrite ?length_insert; try apply I.
    + eapply stack_rep_update; [apply I|done|done].
    + intros i e. rewrite aget_insert by done. case_decide; [|apply I].
      intros [= <-]. by subst i.
  - unfold pool_len. simpl. by rewrite aget_insert, decide_True.
  - intros b' Hb'. split; [done|]. intros Hne. unfold pool_len. simpl.
    by rewrite aget_insert, decide_False.
Qed.

#[export] Program Instance pool_spec : PoolSpec BufferPool := {|
  pool_ok := bufpool_ok; buf_size := buffer_size_; pool_cap := buffer_count_;
  content := pool_content;
  acquire_ok := bufpool_acquire_ok; release_ok := bufpool_release_ok;
  buf_mem_ok := bufpool_mem_ok; buf_store_ok := bufpool_store_ok;
  buf_set_len_ok := bufpool_set_len_ok |}.
Next Obligation.
  intros p held b [fl I] Hb. destruct (pool_inv_held _ _ _ _ I Hb) as (d & Hd & (_ & Hc & _) & _).
  simpl. unfold pool_buf_capacity. rewrite Hd. simpl. by rewrite Hc.
Qed.
Next Obligation.
  intros p held b [fl I] Hb. destruct (pool_inv_held _ _ _ _ I Hb) as (d & Hd & _).
  simpl. unfold pool_len. by rewrite Hd.
Qed.

#[export] Program Instance pool_bytes_spec : PoolBytes BufferPool := {| pool_bytes p := bytes_ok (backing_ p) |}.
Next Obligation.
  simpl. unfold pool_acquire. intros p r p' Hp Ha. apply bind_Some in Ha as ([i fs] & _ & Ha).
  case_match; by simplify_eq.
Qed.
Next Obligation.
  simpl. unfold pool_release. intros p b p' Hp Ha. apply bind_Some in Ha as (d & _ & Ha).
  case_match; [|done]. apply bind_Some in Ha as (ds & _ & Ha). apply bind_Some in Ha as ([ds' fs] & _ & Ha). by simplify_eq.
Qed.
Next Obligation.
  simpl. unfold pool_store. intros p b off bs p' Hp Hbs Ha. apply bind_Some in Ha as (d & _ & Ha).
  apply bind_Some in Ha as (bk & Hw & Ha). injection Ha as <-. exact (wr_bytes_ok _ _ _ _ Hp Hbs Hw).
Qed.
Next Obligation.
  simpl. unfold pool_set_len. intros p b n p' Hp Ha. apply bind_Some in Ha as (d & _ & Ha).
  apply bind_Some in Ha as (ds & _ & Ha). by simplify_eq.
Qed.
Next Obligation. simpl. intros p b Hp. unfold pool_content. by apply Forall_take, Forall_drop. Qed.

(** ** Construction *)

Lemma init_descriptors_ok (n : nat) (i bs : Z) ds fs fl :
  stack_rep ds fs fl -> 0 <= i -> i + Z.of_nat n = Z.of_nat (length ds) ->
  0 < bs < 2 ^ 32 -> bs * Z.of_nat (length ds) < 2 ^ 64 ->
  (forall j, j ∈ fl <-> 0 <= j < i) ->
  (forall j d, aget ds j = Some d -> j < i -> desc_ok bs j d) ->
  exists ds' fs' fl', init_descriptors n i bs ds fs = Some (ds', fs') /\
    length ds' = length ds /\ stack_rep ds' fs' fl' /\
    (forall j, j ∈ fl' <-> 0 <= j < Z.of_nat (length ds)) /\
    (forall j d, aget ds' j = Some d -> desc_ok bs j d).
Proof.
  revert i ds fs fl. induction n as [|n IH]; intros i ds fs fl S Hi Hn Hbs Hov Hfl Hd.
  { exists ds, fs, fl. simpl. split_and!; [done..| |].
    - intros j. rewrite Hfl. lia.
    - intros j d Hj. pose proof (aget_range _ _ _ Hj). apply Hd; [done|lia]. }
  cbn [init_descriptors]. pose proof (sr_count _ _ _ S) as Hc. unfold kEmpty in Hc.
  assert (0 <= i < Z.of_nat (length ds)) as Hir by lia.
  destruct (aget_is_Some ds i) as [d Hdi]; [done|]. rewrite Hdi. simpl.
  rewrite aset_Some by done. simpl. rewrite (u32_id i), (u32_id bs), (u64_id (i * bs));
    [|unfold is_u64; nia|unfold is_u32; lia..].
  set (ds1 := <[Z.to_nat i := mkDesc (i * bs) 0 bs i (next d)]> ds).
  assert (aget ds1 i = Some (mkDesc (i * bs) 0 bs i (next d))) as Hd1
    by (subst ds1; by rewrite aget_insert, decide_True).
  destruct (fs_push_ok ds1 fs fl i (mkDesc (i * bs) 0 bs i (next d))) as (fs' & -> & S'); [|exact Hd1| |].
  { eapply stack_rep_update; [done|done|done]. }
  { rewrite Hfl. lia. }
  simpl. set (d2 := set_next _ _) in *.
  assert (length (<[Z.to_nat i := d2]> ds1) = length ds) as Hlen by (subst ds1; by rewrite !length_insert).
  destruct (IH (i + 1) (<[Z.to_nat i := d2]> ds1) fs' (i :: fl)) as (ds' & fs'' & fl' & H1 & H2 & H3 & H4 & H5);
    rewrite ?Hlen; try done; try lia.
  - intros j. rewrite elem_of_cons, Hfl. lia.
  - intros j e. subst ds1. rewrite aget_insert by (by rewrite length_insert).
    case_decide; [intros [= <-] _; by subst j|]. rewrite aget_insert, decide_False by done.
    intros. apply Hd; [done|lia].
  - exists ds', fs'', fl'. rewrite Hlen in H2, H4. done.
Qed.

Section ctor_lemmas.
Context {Os : Type} `{OsMemSpec Os} (mbind : Z -> Z -> Z -> Os -> Os).

(** A pool of sane dimensions is initialised whatever the allocator returned. *)
Lemma new_BufferPool_cases bs count node h r h' :
  0 < bs < 2 ^ 32 -> 0 < count <= kEmpty -> bs * count < 2 ^ 64 ->
  new_BufferPool mbind bs count node h = Some (r, h') ->
  match r with
  | inr p => bufpool_ok p ∅ /\ free_count p = count /\ buffer_size_ p = bs /\
      buffer_count_ p = count /\ total_acquires_ p = 0 /\ total_releases_ p = 0 /\
      total_exhausted_ p = 0
  | inl e => e <> PoolZeroSize
  end.
Proof.
  intros Hbs Hc Hov. unfold new_BufferPool.
  rewrite (proj2 (Z.eqb_neq bs 0)), (proj2 (Z.eqb_neq count 0)) by lia. simpl.
  assert (forall n h r h', alloc_region mbind n node h = Some (inl r, h') -> r <> PoolZeroSize) as Hnz.
  { intros n h0 r0 h0'. unfold alloc_region. destruct (negb _).
    - destruct (allocate_on_node _ _ _ _) as [[p o]|]; simpl; [|done]. case_match; intros; by simplify_eq.
    - destruct (allocate _ _ _) as [[e|p] h1]; intros; by simplify_eq. }
  destruct (alloc_region mbind (u64 (bs * count)) node h) as [[[e|pb] h1]|] eqn:E1; simpl; [|..|done].
  { intros [= <- <-]. eauto. }
  destruct (alloc_region mbind (u64 (count * 64)) node h1) as [[[e|pd] h2]|] eqn:E2; simpl; [|..|done].
  { intros [= <- <-]. eauto. }
  rewrite (u64_id (bs * count)), (u64_id (count * 64)), Z.div_mul
    by (unfold is_u64, kEmpty in *; nia).
  destruct (init_descriptors_ok (Z.to_nat count) 0 bs (replicate (Z.to_nat count) zero_desc)
    FreeStack_init []) as (ds & fs & fl & -> & Hl & S & Hfl & Hd);
    rewrite ?length_replicate in *; try lia.
  - split; simpl; rewrite ?length_replicate; try done; try lia; [constructor|set_solver].
  - intros j. split; [set_solver|lia].
  - intros j d Hj ?. apply aget_range in Hj. lia.
  - simpl. intros [= <- <-].
    assert (bufpool_ok (mkPool bs count node pb pd (replicate (Z.to_nat (bs * count)) 0) ds fs 0 0 0) ∅) as Hok.
    { exists fl. split; simpl; rewrite ?length_replicate; try done; try lia.
      intros i. rewrite Hfl. split; [left; lia|]. intros [?|?]; [lia|set_solver]. }
    split_and!; try done. destruct Hok as [fl' I].
    pose proof (pool_inv_size _ _ _ I) as Hs. rewrite size_empty in Hs. simpl in Hs.
    unfold free_count, approx_size. simpl.
    pose proof (sr_size _ _ _ (pi_stack _ _ _ I)) as Hz. simpl in Hz. lia.
Qed.

(** The program's use of a pool: it was constructed, and every buffer released
    is one that is held.  [a], [r], [e] count the calls of each kind. *)
Inductive pool_reach (bs count node : Z) : BufferPool -> gset Z -> nat -> nat -> nat -> Prop :=
| pr_new h h' p : new_BufferPool mbind bs count node h = Some (inr p, h') ->
    pool_reach bs count node p ∅ 0 0 0
| pr_acquire p held a r e b p' : pool_reach bs count node p held a r e ->
    pool_acquire p = Some (Some b, p') -> pool_reach bs count node p' ({[b]} ∪ held) (S a) r e
| pr_exhausted p held a r e p' : pool_reach bs count node p held a r e ->
    pool_acquire p = Some (None, p') -> pool_reach bs count node p' held a r (S e)
| pr_release p held a r e b p' : pool_reach bs count node p held a r e -> b ∈ held ->
    pool_release b p = Some p' -> pool_reach bs count node p' (held ∖ {[b]}) a (S r) e.

Record pool_account (bs count : Z) (p : BufferPool) (held : gset Z) (a r e : nat) : Prop := {
  pa_ok : bufpool_ok p held;
  pa_size : buffer_size_ p = bs;
  pa_count : buffer_count_ p = count;
  pa_free : free_count p = count - Z.of_nat (size held);
  pa_held : a = (r + size held)%nat;
  pa_acquires : total_acquires_ p = u64 (Z.of_nat a);
  pa_releases : total_releases_ p = u64 (Z.of_nat r);
  pa_exhausted : total_exhausted_ p = u64 (Z.of_nat e)
}.

Lemma inv_free_count p fl held :
  pool_inv p fl held -> free_count p = buffer_count_ p - Z.of_nat (size held).
Proof.
  intros I. pose proof (pool_inv_size _ _ _ I). unfold free_count, approx_size.
  rewrite (sr_size _ _ _ (pi_stack _ _ _ I)). lia.
Qed.

Lemma u64_succ (n : nat) : u64 (u64 (Z.of_nat n) + 1) = u64 (Z.of_nat (S n)).
Proof. rewrite u64_add_l. f_equal. lia. Qed.

Lemma pool_reach_account bs count node p held a r e :
  0 < bs < 2 ^ 32 -> 0 < count <= kEmpty -> bs * count < 2 ^ 64 ->
  pool_reach bs count node p held a r e -> pool_account bs count p held a r e.
Proof.
  intros Hbs Hc Hov Hr.
  induction Hr as [h h' p Hn|p held a r e b p' Hr [[fl I]] Ha|p held a r e p' Hr [[fl I]] Ha
                  |p held a r e b p' Hr [[fl I]] Hb Ha].
  - apply new_BufferPool_cases in Hn as (Hok & ? & ? & ? & ? & ? & ?); [|done..].
    split; try done. rewrite size_empty. lia.
  - pose proof (pool_acquire_inv _ _ _ I) as Hq. destruct fl as [|b' fl]; [congruence|].
    destruct Hq as (fs & Hq & I'). rewrite Hq in Ha. simplify_eq.
    assert (b ∉ held) as Hnb by (apply (pi_disj _ _ _ I); set_solver).
    split; simpl; try done; [by exists fl| | |by rewrite pa_acquires0, u64_succ].
    + by rewrite (inv_free_count _ _ _ I').
    + rewrite size_union, size_singleton by set_solver. lia.
  - pose proof (pool_acquire_inv _ _ _ I) as Hq. destruct fl as [|b' fl];
      [|destruct Hq as (fs & Hq & _); congruence]. rewrite Hq in Ha. simplify_eq.
    split; simpl; try done; [exists []; split; simpl; apply I|by rewrite pa_exhausted0, u64_succ].
  - destruct (pool_release_inv _ _ _ _ I Hb) as (ds & fs & Hq & _ & I'). rewrite Hq in Ha. simplify_eq.
    assert (size (held ∖ {[b]}) = size held - 1)%nat as Hsz.
    { rewrite size_difference, size_singleton by set_solver. done. }
    assert (size held <> 0)%nat by (intros Hz; apply size_empty_inv in Hz; set_solver).
    split; simpl; try done; [by exists (b :: fl)| | |by rewrite pa_releases0, u64_succ].
    + by rewrite (inv_free_count _ _ _ I').
    + lia.
Qed.
End ctor_lemmas.

Lemma alloc_region_heap {Os} `{OsMem Os} (mbind : Z -> Z -> Z -> Os -> Os) n (h : heap Os) :
  alloc_region mbind n (-1) h =
  Some (match allocate n false h with
        | (inl e, h) => (inl (AllocateThrew e), h)
        | (inr p, h) => (inr p, h)
        end).
Proof. unfold alloc_region. simpl. by destruct (allocate n false h) as [[e|p] h']. Qed.

(** ** Properties *)

(** C8: the accounts of a pool in use.  After any sequence of construction,
    [acquire] and [release] of held buffers: every buffer is free or held and
    not both, [free_count] is the capacity less what is held, the three
    statistics count the calls (modulo [2^64]); the next [acquire] returns a
    buffer nobody holds, or null exactly when all are held; and no call reads
    or writes outside the descriptor array. *)
Theorem pool_accounting {Os} `{OsMemSpec Os} mbind (bs count node : Z)
    (p : BufferPool) (held : gset Z) (a r e : nat) :
  0 < bs < 2 ^ 32 -> 0 < count <= kEmpty -> bs * count < 2 ^ 64 ->
  pool_reach mbind bs count node p held a r e ->
  pool_account bs count p held a r e /\
  (exists res p', pool_acquire p = Some (res, p') /\
    match res with
    | Some b => b ∉ held /\ 0 <= b < count
    | None => Z.of_nat (size held) = count
    end) /\
  (forall b, b ∈ held -> is_Some (pool_release b p)).
Proof.
  intros Hbs Hc Hov Hr. pose proof (pool_reach_account _ _ _ _ _ _ _ _ _ Hbs Hc Hov Hr) as A.
  split; [done|]. destruct (pa_ok _ _ _ _ _ _ _ A) as [fl I]. split.
  - destruct (bufpool_acquire_ok p held (ex_intro _ fl I)) as (res & p' & Ha & _ & _ & Hres & _).
    exists res, p'. split; [done|]. rewrite (pa_count _ _ _ _ _ _ _ A) in Hres.
    destruct res as [b|]; [|by destruct Hres]. destruct Hres as (Hb & _ & _). split; [done|].
    pose proof (pool_acquire_inv _ _ _ I) as Hq. destruct fl as [|b' fl]; [congruence|].
    destruct Hq as (fs & Hq & _). rewrite Hq in Ha. simplify_eq.
    rewrite <-(pa_count _ _ _ _ _ _ _ A). apply (pi_part _ _ _ I). set_solver.
  - intros b Hb. destruct (pool_release_inv _ _ _ _ I Hb) as (ds & fs & -> & _). done.
Qed.

(** C35: a held buffer is private: while it is held, neither [acquire], nor the
    [release] of another buffer, nor a store into another buffer that stays
    inside its capacity changes its bytes. *)
Theorem pool_isolation (p : BufferPool) (held : gset Z) (b b' off : Z) (bs : list Z) :
  bufpool_ok p held -> b ∈ held -> b' ∈ held -> b <> b' ->
  0 <= off -> off + Z.of_nat (length bs) <= buffer_size_ p ->
  (exists r p', pool_acquire p = Some (r, p') /\ pool_content p' b = pool_content p b) /\
  (exists p', pool_release b' p = Some p' /\ pool_content p' b = pool_content p b) /\
  (exists p', pool_store b' off bs p = Some p' /\ pool_content p' b = pool_content p b /\
    pool_content p' b' = list_inserts (Z.to_nat off) bs (pool_content p b')).
Proof.
  intros Hok Hb Hb' Hne Hoff Hlen. split_and!.
  - destruct (bufpool_acquire_ok p held Hok) as (r & p' & ? & _ & _ & _ & Hf).
    exists r, p'. split; [done|]. by apply Hf.
  - destruct (bufpool_release_ok p held b' Hok Hb') as (p' & ? & _ & _ & _ & Hf).
    exists p'. split; [done|]. by apply Hf.
  - destruct (bufpool_store_ok p held b' off bs Hok Hb' Hoff Hlen) as (p' & ? & _ & _ & _ & ? & Hf).
    exists p'. split_and!; [done| |done]. by apply Hf.
Qed.

(** What the destructor depends on; no operation changes it. *)
Definition regions (p : BufferPool) : Z * Z * Z * Z * Z :=
  (buffer_size_ p, buffer_count_ p, numa_node_ p, backing_addr p, descriptors_addr p).

Lemma acquire_regions p r p' : pool_acquire p = Some (r, p') -> regions p' = regions p.
Proof. unfold pool_acquire. intros Ha. apply bind_Some in Ha as ([i fs] & _ & Ha). case_match; by simplify_eq. Qed.

Lemma release_regions p b p' : pool_release b p = Some p' -> regions p' = regions p.
Proof.
  unfold pool_release. intros Ha. apply bind_Some in Ha as (d & _ & Ha). case_match; [|done].
  apply bind_Some in Ha as (ds & _ & Ha). apply bind_Some in Ha as ([ds' fs] & _ & Ha). by simplify_eq.
Qed.

Lemma store_regions p b off bs p' : pool_store b off bs p = Some p' -> regions p' = regions p.
Proof.
  unfold pool_store. intros Ha. apply bind_Some in Ha as (d & _ & Ha). apply bind_Some in Ha as (bk & _ & Ha). by simplify_eq.
Qed.

Lemma set_len_regions p b n p' : pool_set_len b n p = Some p' -> regions p' = regions p.
Proof.
  unfold pool_set_len. intros Ha. apply bind_Some in Ha as (d & _ & Ha). apply bind_Some in Ha as (ds & _ & Ha). by simplify_eq.
Qed.

(** Fresh memory is zero-filled. *)
Lemma new_pool_bytes {Os} `{OsMem Os} mbind bs count node (h h' : heap Os) p :
  new_BufferPool mbind bs count node h = Some (inr p, h') -> bytes_ok (backing_ p).
Proof.
  unfold new_BufferPool. case_match; [done|]. intros Hn. apply bind_Some in Hn as ([[e|pb] h1] & _ & Hn); [done|].
  apply bind_Some in Hn as ([[e|pd] h2] & _ & Hn); [done|]. apply bind_Some in Hn as ([ds fs] & _ & Hn). simplify_eq. simpl.
  by apply Forall_replicate.
Qed.

(** With both allocations the constructor returns a pool. *)
Lemma new_pool_allocates {Os} `{OsMemSpec Os} mbind (bs count : Z) (h h1 h2 : heap Os) pb pd :
  0 < bs < 2 ^ 32 -> 0 < count <= kEmpty -> bs * count < 2 ^ 64 ->
  allocate (u64 (bs * count)) false h = (inr pb, h1) -> allocate (u64 (count * 64)) false h1 = (inr pd, h2) ->
  exists p, new_BufferPool mbind bs count (-1) h = Some (inr p, h2).
Proof.
  intros Hbs Hc Hov E1 E2. unfold new_BufferPool. rewrite (proj2 (Z.eqb_neq bs 0)), (proj2 (Z.eqb_neq count 0)) by lia. simpl.
  rewrite alloc_region_heap, E1. simpl. rewrite alloc_region_heap, E2. simpl.
  rewrite (u64_id (count * 64)), Z.div_mul by (unfold is_u64, kEmpty in *; lia).
  destruct (init_descriptors_ok (Z.to_nat count) 0 bs (replicate (Z.to_nat count) zero_desc)
    FreeStack_init []) as (ds & fs & fl & -> & _); rewrite ?length_replicate in *; try lia; [| | |by eexists].
  - split; simpl; rewrite ?length_replicate; try done; try lia; [constructor|set_solver].
  - intros j. split; [set_solver|lia].
  - intros j d Hj ?. apply aget_range in Hj. lia.
Qed.

(** Without a NUMA node the constructor returns or throws. *)
Lemma new_pool_total {Os} `{OsMemSpec Os} mbind (bs count : Z) (h : heap Os) :
  0 < bs < 2 ^ 32 -> 0 < count <= kEmpty -> bs * count < 2 ^ 64 -> is_Some (new_BufferPool mbind bs count (-1) h).
Proof.
  intros Hbs Hc Hov. destruct (allocate (u64 (bs * count)) false h) as [[e|pb] h1] eqn:E1; [|destruct (allocate (u64 (count * 64)) false h1) as [[e|pd] h2] eqn:E2].
  3: { destruct (new_pool_allocates mbind bs count h h1 h2 pb pd) as [p ->]; done. }
  all: unfold new_BufferPool; rewrite (proj2 (Z.eqb_neq bs 0)), (proj2 (Z.eqb_neq count 0)) by lia; simpl.
  - by rewrite alloc_region_heap, E1.
  - rewrite alloc_region_heap, E1. simpl. by rewrite alloc_region_heap, E2.
Qed.

(** When the constructor throws, either the first region was refused and nothing
    changed, or the second one was and exactly the first stays mapped and
    registered. *)
Lemma new_pool_throws {Os} `{OsMemSpec Os} mbind (bs count : Z) (h h' : heap Os) e :
  0 < bs -> 0 < count -> new_BufferPool mbind bs count (-1) h = Some (inl e, h') ->
  e = AllocateThrew FallbackMmapFailed /\
  (registry h' = registry h /\ live (os h') = live (os h) \/
   exists pb huge, let len := round_up (u64 (bs * count)) HUGE_PAGE_SIZE in
     live (os h) !! pb = None /\ registry h' = <[pb := mkInfo len huge]> (registry h) /\
     live (os h') = <[pb := mkMapping len huge]> (live (os h))).
Proof.
  intros Hbs Hc. unfold new_BufferPool. rewrite (proj2 (Z.eqb_neq bs 0)), (proj2 (Z.eqb_neq count 0)) by lia. simpl.
  rewrite alloc_region_heap. simpl. destruct (allocate (u64 (bs * count)) false h) as [[e1|pb] h1] eqn:E1.
  { intros [= <- <-]. apply allocate_inl in E1 as (? & ? & ->). eauto. }
  rewrite alloc_region_heap. simpl. destruct (allocate (u64 (count * 64)) false h1) as [[e2|pd] h2] eqn:E2.
  - intros [= <- <-]. apply allocate_inl in E2 as (-> & -> & ->). split; [done|]. right.
    apply allocate_inr in E1 as (g1 & _ & Hf1 & -> & ->); [|apply u64_range]. by exists pb, g1.
  - intros [[ds fs] [_ [=]]]%bind_Some.
Qed.

(** Destroying a pool after any use. *)
Lemma new_pool_delete {Os} `{OsMemSpec Os} mbind (bs count : Z) (h h' : heap Os) p p' :
  heap_ok h -> new_BufferPool mbind bs count (-1) h = Some (inr p, h') -> regions p' = regions p ->
  exists h'', delete_BufferPool p' h' = Some h'' /\
    registry h'' = registry h /\ live (os h'') = live (os h).
Proof.
  intros Hok Hnew Hreg. revert Hnew Hreg. unfold new_BufferPool. case_match; [done|]. rewrite alloc_region_heap. simpl.
  destruct (allocate (u64 (bs * count)) false h) as [[e|pb] h1] eqn:E1; [done|].
  rewrite alloc_region_heap. simpl.
  destruct (allocate (u64 (count * 64)) false h1) as [[e|pd] h2] eqn:E2; [done|].
  destruct (init_descriptors _ _ _ _ _) as [[ds fs]|]; simpl; [|done]. intros [= <- <-] Hreg.
  unfold regions in Hreg. simpl in Hreg. injection Hreg as Eb Ec En Ea Ed.
  pose proof (allocate_heap_ok _ _ _ _ _ Hok (u64_range _) E1) as Hok1.
  pose proof (allocate_heap_ok _ _ _ _ _ Hok1 (u64_range _) E2) as Hok2.
  apply allocate_inr in E1 as (g1 & Hp1 & Hf1 & Hr1 & Hl1); [|apply u64_range].
  apply allocate_inr in E2 as (g2 & Hp2 & Hf2 & Hr2 & Hl2); [|apply u64_range].
  assert (pd <> pb) as Hne by (intros ->; by rewrite Hl1, lookup_insert_eq in Hf2).
  destruct (deallocate_registered h2 pb (mkInfo (round_up (u64 (bs * count)) HUGE_PAGE_SIZE) g1))
    as (h3 & Hd3 & Hok3 & Hr3 & Hl3);
    [done|by rewrite Hr2, lookup_insert_ne, Hr1, lookup_insert_eq by done|].
  destruct (deallocate_registered h3 pd (mkInfo (round_up (u64 (count * 64)) HUGE_PAGE_SIZE) g2))
    as (h4 & Hd4 & _ & Hr4 & Hl4);
    [done|by rewrite Hr3, lookup_delete_ne, Hr2, lookup_insert_eq by done|].
  exists h4. unfold delete_BufferPool, free_region. rewrite Eb, Ec, En, Ea, Ed. simpl.
  rewrite (proj2 (Z.eqb_neq _ _) Hp1), (proj2 (Z.eqb_neq _ _) Hp2), Hd3, Hd4. split; [done|].
  rewrite Hr4, Hl4, Hr3, Hl3, Hr2, Hl2, Hr1, Hl1.
  assert (registry h !! pb = None) by (eapply heap_ok_fresh; eauto).
  assert (registry h1 !! pd = None) as Hn by (eapply heap_ok_fresh; eauto).
  rewrite Hr1, lookup_insert_ne in Hn by done. rewrite Hl1, lookup_insert_ne in Hf2 by done.
  rewrite !(delete_insert_ne _ pb pd), !delete_insert_eq by done.
  by rewrite !(delete_id _ pb), !(delete_id _ pd) by done.
Qed.

(** The pool's memory comes back: destroying a pool built without a NUMA
    node leaves the registry and the live mappings as before construction. *)
Theorem new_delete_pool {Os} `{OsMemSpec Os} mbind (bs count : Z) (h h' : heap Os) p :
  heap_ok h -> new_BufferPool mbind bs count (-1) h = Some (inr p, h') ->
  exists h'', delete_BufferPool p h' = Some h'' /\
    registry h'' = registry h /\ live (os h'') = live (os h).
Proof. intros Hok Hn. by eapply new_pool_delete. Qed.

(** C39: when the second allocation of the constructor fails, the exception
    leaves the first region mapped and registered although no pool owns it. *)
Theorem new_BufferPool_leaks {Os} `{OsMemSpec Os} mbind (bs count : Z) (h h1 h2 : heap Os) pb e :
  heap_ok h -> bs <> 0 -> count <> 0 ->
  allocate (u64 (bs * count)) false h = (inr pb, h1) ->
  allocate (u64 (count * 64)) false h1 = (inl e, h2) ->
  new_BufferPool mbind bs count (-1) h = Some (inl (AllocateThrew e), h2) /\
  live (os h) !! pb = None /\ is_Some (live (os h2) !! pb) /\ is_Some (registry h2 !! pb).
Proof.
  intros Hok Hb Hc E1 E2. split.
  - unfold new_BufferPool. rewrite (proj2 (Z.eqb_neq _ _) Hb), (proj2 (Z.eqb_neq _ _) Hc). simpl.
    rewrite alloc_region_heap, E1. simpl. rewrite alloc_region_heap, E2. done.
  - apply allocate_inr in E1 as (g1 & Hp1 & Hf1 & Hr1 & Hl1); [|apply u64_range].
    apply allocate_inl in E2 as (Hr2 & Hl2 & _). rewrite Hr2, Hl2, Hr1, Hl1.
    split; [done|]. rewrite !lookup_insert_eq. by split.
Qed.

(** C40: a pool placed on a NUMA node over huge pages is never given back when
    its size is not a whole number of huge pages: the destructor unmaps with the
    unrounded length, which the kernel refuses, and ignores the error. *)
Theorem numa_pool_not_unmapped {Os} `{OsMemSpec Os} (p : BufferPool) (h : heap Os) mb md :
  numa_node_ p <> -1 -> backing_addr p <> 0 -> descriptors_addr p <> 0 ->
  live (os h) !! backing_addr p = Some mb -> m_huge mb = true ->
  live (os h) !! descriptors_addr p = Some md -> m_huge md = true ->
  u64 (buffer_size_ p * buffer_count_ p) mod huge_page <> 0 ->
  u64 (buffer_count_ p * 64) mod huge_page <> 0 ->
  exists h', delete_BufferPool p h = Some h' /\ live (os h') = live (os h).
Proof.
  intros Hn Hb Hd Lb Gb Ld Gd Mb Md. unfold delete_BufferPool, free_region.
  rewrite (proj2 (Z.eqb_neq _ _) Hn), (proj2 (Z.eqb_neq _ _) Hb), (proj2 (Z.eqb_neq _ _) Hd). simpl.
  destruct (munmap_einval _ _ _ _ Lb Gb Mb) as (o1 & -> & H1). simpl. rewrite <-H1 in Ld.
  destruct (munmap_einval _ _ _ _ Ld Gd Md) as (o2 & -> & H2). simpl.
  eexists. split; [done|]. simpl. by rewrite H2.
Qed.

(** ** Witnesses *)

Definition no_mbind (p n mask : Z) (o : toy_os) : toy_os := o.

(** Three buffers of two bytes on a machine with [huge] free huge pages. *)
Definition demo_new (huge node : Z) : option ((pool_error + BufferPool) * heap toy_os) :=
  new_BufferPool no_mbind 2 3 node (mkHeap (toy_boot huge 0) ∅).

Definition demo_pool : BufferPool :=
  Eval vm_compute in match demo_new 4 (-1) with
                     | Some (inr p, _) => p
                     | _ => mkPool 0 0 0 0 0 [] [] FreeStack_init 0 0 0
                     end.

Definition demo_pool2 : BufferPool :=
  Eval vm_compute in match pool_acquire demo_pool with
                     | Some (_, p) => match pool_acquire p with Some (_, p) => p | None => p end
                     | None => demo_pool
                     end.

Lemma demo_reach : pool_reach no_mbind 2 3 (-1) demo_pool2 ({[1]} ∪ ({[2]} ∪ ∅)) 2 0 0.
Proof.
  destruct (demo_new 4 (-1)) as [[[e|p] h']|] eqn:E; [vm_compute in E; discriminate E| |vm_compute in E; discriminate E].
  assert (p = demo_pool) as -> by (vm_compute in E; injection E; intros _ <-; reflexivity).
  destruct (pool_acquire demo_pool) as [[r1 p1]|] eqn:E1; [|vm_compute in E1; discriminate E1].
  assert (r1 = Some 2) as -> by (vm_compute in E1; congruence).
  apply (pr_acquire _ _ _ _ p1 ({[2]} ∪ ∅) 1 0 0 1 demo_pool2).
  - apply (pr_acquire _ _ _ _ demo_pool ∅ 0 0 0 2 p1); [|exact E1]. eapply pr_new. exact E.
  - vm_compute in E1. injection E1 as <-. reflexivity.
Qed.

Lemma pool_accounting_witness :
  pool_account 2 3 demo_pool2 ({[1]} ∪ ({[2]} ∪ ∅)) 2 0 0 /\
  (exists res p', pool_acquire demo_pool2 = Some (res, p') /\
    match res with
    | Some b => b ∉ ({[1]} ∪ ({[2]} ∪ ∅) : gset Z) /\ 0 <= b < 3
    | None => Z.of_nat (size ({[1]} ∪ ({[2]} ∪ ∅) : gset Z)) = 3
    end) /\
  (forall b, b ∈ ({[1]} ∪ ({[2]} ∪ ∅) : gset Z) -> is_Some (pool_release b demo_pool2)).
Proof.
  apply (pool_accounting no_mbind 2 3 (-1) demo_pool2 ({[1]} ∪ ({[2]} ∪ ∅)) 2 0 0);
    [lia|unfold kEmpty; lia|lia|exact demo_reach].
Defined.

Lemma pool_isolation_witness :
  exists p', pool_store 1 0 [7; 8] demo_pool2 = Some p' /\
    pool_content p' 2 = pool_content demo_pool2 2.
Proof.
  assert (bufpool_ok demo_pool2 ({[1]} ∪ ({[2]} ∪ ∅))) as Hok.
  { eapply pa_ok, pool_reach_account; [| | |exact demo_reach]; unfold kEmpty; lia. }
  destruct (pool_isolation demo_pool2 ({[1]} ∪ ({[2]} ∪ ∅)) 2 1 0 [7; 8] Hok
    ltac:(set_solver) ltac:(set_solver) ltac:(lia) ltac:(lia) ltac:(simpl; lia))
    as (_ & _ & p' & Hs & Hc & _).
  exists p'. split; assumption.
Defined.

Lemma new_delete_pool_witness :
  exists p h' h'', demo_new 4 (-1) = Some (inr p, h') /\ delete_BufferPool p h' = Some h'' /\
    live (os h'') = ∅.
Proof.
  destruct (demo_new 4 (-1)) as [[[e|p] h']|] eqn:E;
    [vm_compute in E; discriminate E| |vm_compute in E; discriminate E].
  destruct (new_delete_pool no_mbind 2 3 (mkHeap (toy_boot 4 0) ∅) h' p) as (h'' & Hd & _ & Hl).
  - intros q info Hq. discriminate Hq.
  - exact E.
  - exists p, h', h''. split; [reflexivity|]. split; [exact Hd|exact Hl].
Defined.

Lemma new_BufferPool_leaks_witness :
  exists e h', demo_new 1 (-1) = Some (inl e, h') /\ is_Some (live (os h') !! 2097152).
Proof.
  destruct (allocate (u64 (2 * 3)) false (mkHeap (toy_boot 1 0) ∅)) as [r h1] eqn:E1.
  destruct (allocate (u64 (3 * 64)) false h1) as [r2 h2] eqn:E2.
  assert (r = inr 2097152) as -> by (vm_compute in E1; congruence).
  assert (exists e, r2 = inl e) as [e ->].
  { vm_compute in E1. injection E1 as <-. vm_compute in E2. injection E2 as <- _. eauto. }
  destruct (new_BufferPool_leaks no_mbind 2 3 (mkHeap (toy_boot 1 0) ∅) h1 h2 2097152 e)
    as (Hn & _ & Hl & _); [intros q info Hq; discriminate Hq|lia|lia|exact E1|exact E2|].
  exists (AllocateThrew e), h2. split; [exact Hn|exact Hl].
Defined.

Definition demo_numa : BufferPool * heap toy_os :=
  Eval vm_compute in match demo_new 4 0 with
                     | Some (inr p, h) => (p, h)
                     | _ => (demo_pool, mkHeap (toy_boot 0 0) ∅)
                     end.

Lemma numa_pool_not_unmapped_witness :
  demo_new 4 0 = Some (inr (fst demo_numa), snd demo_numa) /\
  exists h', delete_BufferPool (fst demo_numa) (snd demo_numa) = Some h' /\
    live (os h') = live (os (snd demo_numa)).
Proof.
  split; [vm_compute; reflexivity|].
  apply (numa_pool_not_unmapped (fst demo_numa) (snd demo_numa)
    (mkMapping 2097152 true) (mkMapping 2097152 true)); vm_compute; congruence.
Defined.
