(* ===== verification/FreeStackConc.v ===== *)
(** * The free stack under concurrency (src/buffer_pool.cpp, FreeStack)

    [FreeStack::push] and [FreeStack::pop] cut at their accesses of shared
    memory and interleaved by any number of threads.  [compare_exchange_weak]
    may fail spuriously.  A thread starts a [push] only with an index the
    clients hold.  The atomics are read as sequentially consistent.

    The generation counter has 32 bits: a compare-and-swap is modelled under the
    assumption ([cas_fresh]) that fewer than [2^32] successful updates happened
    since the thread loaded the head it compares with.  [ver] and [loaded] are
    ghost counters that only state this assumption. *)

From S2P Require Import Prelude OsMem BufferPool.
From stdpp Require Import base list_numbers gmap option list.
#[local] Open Scope Z_scope.

(** Where a thread is, with its live locals. *)
Inductive pc :=
| Idle
| PushLoop (index old : Z)
| PushCas (index old : Z)
| PushSize
| PopLoop (old : Z)
| PopCas (old index nxt : Z)
| PopSize (index : Z).

Record thread := mkThread { at_pc : pc; loaded : Z }.

Record fsconc := mkFs {
  f_ds : list BufferDescriptor;
  f_top : Z;
  f_size : Z;
  f_threads : list thread;
  f_held : gset Z;
  ver : Z
}.

Inductive sevent := SPush (index : Z) | SPop (index : Z) | SPopEmpty.

Definition put_thread (s : fsconc) (t : nat) (p : pc) (v : Z) : list thread :=
  <[t := mkThread p v]> (f_threads s).

(** Loading the head into [old] inside [pop]. *)
Definition load_event (top : Z) : list sevent :=
  if index_of top =? kEmpty then [SPopEmpty] else [].

(** The next access of thread [t].  [call] is what an idle thread calls
    ([Some i]: [push(i)], [None]: [pop()]); [fail] is a spurious failure of the
    weak compare-and-swap. *)
Definition tstep (t : nat) (call : option Z) (fail : bool) (s : fsconc) :
    option (list sevent * fsconc) :=
  th ← f_threads s !! t;
  let top := f_top s in
  match at_pc th with
  | Idle =>
      match call with
      | Some i =>
          if bool_decide (i ∈ f_held s) then
            Some ([], mkFs (f_ds s) top (f_size s) (put_thread s t (PushLoop i top) (ver s))
                        (f_held s ∖ {[i]}) (ver s))
          else None
      | None =>
          Some (load_event top,
                mkFs (f_ds s) top (f_size s) (put_thread s t (PopLoop top) (ver s))
                     (f_held s) (ver s))
      end
  | PushLoop index old =>
      d ← aget (f_ds s) index;
      ds ← aset (f_ds s) index (set_next d (index_of old));
      Some ([], mkFs ds top (f_size s) (put_thread s t (PushCas index old) (loaded th))
                  (f_held s) (ver s))
  | PushCas index old =>
      let neu := pack (u32 (gen_of old + 1)) index in
      if (top =? old) && negb fail then
        Some ([SPush index],
              mkFs (f_ds s) neu (f_size s) (put_thread s t PushSize (ver s))
                   (f_held s) (ver s + 1))
      else
        Some ([], mkFs (f_ds s) top (f_size s) (put_thread s t (PushLoop index top) (ver s))
                    (f_held s) (ver s))
  | PushSize =>
      Some ([], mkFs (f_ds s) top (u32 (f_size s + 1)) (put_thread s t Idle (ver s))
                  (f_held s) (ver s))
  | PopLoop old =>
      let index := index_of old in
      if index =? kEmpty then
        Some ([], mkFs (f_ds s) top (f_size s) (put_thread s t Idle (ver s)) (f_held s) (ver s))
      else
        d ← aget (f_ds s) index;
        Some ([], mkFs (f_ds s) top (f_size s)
                    (put_thread s t (PopCas old index (next d)) (loaded th)) (f_held s) (ver s))
  | PopCas old index nxt =>
      let neu := pack (u32 (gen_of old + 1)) nxt in
      if (top =? old) && negb fail then
        Some ([SPop index],
              mkFs (f_ds s) neu (f_size s) (put_thread s t (PopSize index) (ver s))
                   (f_held s) (ver s + 1))
      else
        Some (load_event top,
              mkFs (f_ds s) top (f_size s) (put_thread s t (PopLoop top) (ver s))
                   (f_held s) (ver s))
  | PopSize index =>
      Some ([], mkFs (f_ds s) top (u32 (f_size s - 1)) (put_thread s t Idle (ver s))
                  ({[index]} ∪ f_held s) (ver s))
  end.

(** Fewer than [2^32] updates since the head was loaded. *)
Definition cas_fresh (t : nat) (s : fsconc) : Prop :=
  match f_threads s !! t with
  | Some th => match at_pc th with
               | PushCas _ _ | PopCas _ _ _ => ver s - loaded th < 2 ^ 32
               | _ => True
               end
  | None => True
  end.

#[export] Instance cas_fresh_dec t s : Decision (cas_fresh t s).
Proof.
  unfold cas_fresh. destruct (f_threads s !! t) as [[p v]|]; [|apply _]. destruct p; apply _.
Defined.

Inductive fs_exec : fsconc -> list sevent -> fsconc -> Prop :=
| fx_nil s : fs_exec s [] s
| fx_snoc s tr s' t call fail evs s'' : fs_exec s tr s' -> cas_fresh t s' ->
    tstep t call fail s' = Some (evs, s'') -> fs_exec s (tr ++ evs) s''.

(** [k] idle threads around a pool whose buffers [held] are handed out. *)
Definition fs_start (p : BufferPool) (held : gset Z) (k : nat) : fsconc :=
  let fs := free_stack_ p in
  mkFs (descriptors_ p) (top_ fs) (size_ fs) (replicate k (mkThread Idle (gen_of (top_ fs))))
    held (gen_of (top_ fs)).

(** The access of a [next] link a thread makes in its next step: [true] is a
    write.  The links are plain memory. *)
Definition next_access (s : fsconc) (t : nat) : option (bool * Z) :=
  th ← f_threads s !! t;
  match at_pc th with
  | PushLoop index _ => Some (true, index)
  | PopLoop old => if index_of old =? kEmpty then None else Some (false, index_of old)
  | _ => None
  end.

(** A schedule: which thread moves, what it calls when idle, and whether its
    weak compare-and-swap fails spuriously. *)
Fixpoint fs_sched (sc : list (nat * option Z * bool)) (s : fsconc) :
    option (list sevent * fsconc) :=
  match sc with
  | [] => Some ([], s)
  | (t, call, fail) :: sc =>
      if decide (cas_fresh t s) then
        '(evs, s') ← tstep t call fail s;
        '(tr, s'') ← fs_sched sc s';
        Some (evs ++ tr, s'')
      else None
  end.

(** ** The contract: a LIFO stack *)

Inductive stack_step : list Z -> sevent -> list Z -> Prop :=
| ss_push st i : stack_step st (SPush i) (i :: st)
| ss_pop st i : stack_step (i :: st) (SPop i) st
| ss_pop_empty : stack_step [] SPopEmpty [].

Inductive stack_run : list Z -> list sevent -> list Z -> Prop :=
| sr_nil st : stack_run st [] st
| sr_snoc st tr st' e st'' :
    stack_run st tr st' -> stack_step st' e st'' -> stack_run st (tr ++ [e]) st''.

(** ** Invariants *)

(** The index a thread has taken from the clients or the stack and not yet
    passed on. *)
Definition flight (th : thread) : option Z :=
  match at_pc th with
  | PushLoop i _ | PushCas i _ | PopSize i => Some i
  | _ => None
  end.

(** The effect on [size_] a thread still owes. *)
Definition owed (th : thread) : Z :=
  match at_pc th with PushSize => 1 | PopSize _ => -1 | _ => 0 end.

Definition flights (s : fsconc) : list Z := omap flight (f_threads s).
Definition owed_sum (ths : list thread) : Z := foldr (fun th acc => owed th + acc) 0 ths.

(** A head value loaded at version [v]. *)
Definition old_ok (s : fsconc) (old v : Z) : Prop :=
  0 <= v <= ver s /\ (exists i, old = pack (u32 v) i /\
    (i = kEmpty \/ 0 <= i < Z.of_nat (length (f_ds s)))) /\ (v = ver s -> old = f_top s).

Definition link (s : fsconc) (i : Z) : option Z := next <$> aget (f_ds s) i.

Definition thread_ok (s : fsconc) (th : thread) : Prop :=
  match at_pc th with
  | Idle | PushSize | PopSize _ => True
  | PushLoop i old => old_ok s old (loaded th)
  | PushCas i old => old_ok s old (loaded th) /\ link s i = Some (index_of old)
  | PopLoop old => old_ok s old (loaded th)
  | PopCas old i n => old_ok s old (loaded th) /\ i = index_of old /\ i <> kEmpty /\
      (loaded th = ver s -> link s i = Some n)
  end.

Record fs_inv (s : fsconc) (fl : list Z) : Prop := {
  fi_chain : chain (f_ds s) (index_of (f_top s)) fl;
  fi_part : fl ++ elements (f_held s) ++ flights s ≡ₚ seqZ 0 (Z.of_nat (length (f_ds s)));
  fi_count : Z.of_nat (length (f_ds s)) <= kEmpty;
  fi_ver : 0 <= ver s;
  fi_top : f_top s = pack (u32 (ver s)) (index_of (f_top s));
  fi_threads : forall t th, f_threads s !! t = Some th -> thread_ok s th;
  fi_size : f_size s = u32 (Z.of_nat (length fl) - owed_sum (f_threads s))
}.

(** ** Thread bookkeeping *)

Lemma omap_put {A B} (f : A -> option B) (l : list A) (t : nat) (x : A) :
  l !! t = Some x -> exists rest, omap f l ≡ₚ option_list (f x) ++ rest /\
    forall y, omap f (<[t := y]> l) ≡ₚ option_list (f y) ++ rest.
Proof.
  intros Hx. pose proof (lookup_lt_Some _ _ _ Hx) as Hlt.
  exists (omap f (take t l) ++ omap f (drop (S t) l)). split.
  - rewrite <-(take_drop_middle l t x Hx) at 1. rewrite omap_app. simpl.
    destruct (f x); simpl; [by rewrite Permutation_middle|done].
  - intros y. rewrite insert_take_drop by done. rewrite omap_app. simpl.
    destruct (f y); simpl; [by rewrite Permutation_middle|done].
Qed.

Lemma owed_sum_put ths t th th' :
  ths !! t = Some th -> owed_sum (<[t := th']> ths) = owed_sum ths - owed th + owed th'.
Proof.
  revert t. induction ths as [|x ths IH]; intros [|t] Ht; simplify_eq/=; [lia|].
  fold (owed_sum ths). unfold owed_sum in *. simpl. rewrite (IH t Ht). lia.
Qed.

Lemma elements_remove (X : gset Z) i : i ∈ X -> elements X ≡ₚ i :: elements (X ∖ {[i]}).
Proof.
  intros Hi. rewrite <-elements_union_singleton by set_solver. f_equiv.
  intros x. destruct (decide (x = i)); set_solver.
Qed.

Lemma thread_ok_same s s' th :
  f_ds s' = f_ds s -> f_top s' = f_top s -> ver s' = ver s -> thread_ok s th -> thread_ok s' th.
Proof.
  intros Hd Ht Hv. unfold thread_ok, old_ok, link. by rewrite Hd, Ht, Hv.
Qed.

(** After a successful update, every head loaded before is stale. *)
Lemma thread_ok_stale s s' th :
  f_ds s' = f_ds s -> ver s' = ver s + 1 -> thread_ok s th -> thread_ok s' th.
Proof.
  intros Hd Hv. unfold thread_ok, old_ok, link. rewrite Hd, Hv.
  destruct (at_pc th); try done; intuition lia.
Qed.

(** The step of a thread that writes neither the links nor the head. *)
Lemma inv_quiet s fl t th th' held size :
  fs_inv s fl -> f_threads s !! t = Some th ->
  elements held ++ option_list (flight th') ≡ₚ elements (f_held s) ++ option_list (flight th) ->
  size = u32 (f_size s + owed th - owed th') -> thread_ok s th' ->
  fs_inv (mkFs (f_ds s) (f_top s) size (<[t := th']> (f_threads s)) held (ver s)) fl.
Proof.
  intros I Ht Hp Hs Hok. destruct (omap_put flight _ _ _ Ht) as (rest & Hr & Hput).
  split; simpl; try apply I.
  - rewrite <-(fi_part _ _ I). f_equiv. unfold flights. simpl. rewrite Hput, Hr, !app_assoc.
    by rewrite Hp.
  - intros t' th'' Hl. apply list_lookup_insert_Some in Hl as [(<- & <- & _)|(_ & Hl)].
    + by eapply thread_ok_same; [..|exact Hok].
    + eapply thread_ok_same; [..|by eapply I]; done.
  - rewrite Hs, (fi_size _ _ I), (owed_sum_put _ _ _ _ Ht).
    rewrite <-Z.add_sub_assoc, u32_add_l. f_equal. lia.
Qed.

(** A loaded head that is compared equal in time is the current head. *)
Lemma old_current s fl old v :
  fs_inv s fl -> old_ok s old v -> f_top s = old -> ver s - v < 2 ^ 32 -> v = ver s.
Proof.
  intros I (Hv & (i & -> & Hi) & _) Heq Hfresh. rewrite (fi_top _ _ I) in Heq.
  apply pack_inj in Heq as [Hg _]; [|apply u32_range|apply u32_range|apply u32_range|].
  - apply u32_inj_near in Hg; lia.
  - pose proof (fi_count _ _ I). unfold is_u32, kEmpty in *. lia.
Qed.

(** The head that is loaded now. *)
Lemma load_ok s fl : fs_inv s fl -> old_ok s (f_top s) (ver s).
Proof.
  intros I. pose proof (fi_ver _ _ I). split; [lia|]. split; [|done].
  exists (index_of (f_top s)). split; [apply I|]. pose proof (fi_chain _ _ I) as Hc.
  destruct fl as [|j fl]; simpl in Hc; [by left|]. destruct Hc as [-> (d & Hd & _)].
  right. by eapply aget_range.
Qed.

Lemma stack_run_one st e st' : stack_step st e st' -> stack_run st [e] st'.
Proof. intros. apply (sr_snoc st [] st e st'); [constructor|done]. Qed.

Lemma stack_run_app st tr st' tr' st'' :
  stack_run st tr st' -> stack_run st' tr' st'' -> stack_run st (tr ++ tr') st''.
Proof.
  intros R1 R2. induction R2; [by rewrite app_nil_r|].
  rewrite app_assoc. econstructor; eauto.
Qed.

Lemma load_event_run s fl : fs_inv s fl -> stack_run fl (load_event (f_top s)) fl.
Proof.
  intros I. unfold load_event. destruct (Z.eqb_spec (index_of (f_top s)) kEmpty) as [E|]; [|constructor].
  pose proof (fi_chain _ _ I) as Hc. destruct fl as [|j fl].
  - apply stack_run_one. constructor.
  - simpl in Hc. destruct Hc as [Hj (d & Hd & _)]. apply aget_range in Hd.
    pose proof (fi_count _ _ I). lia.
Qed.

(** An index in flight is neither free nor another thread's. *)
Lemma flight_unique s fl t th i :
  fs_inv s fl -> f_threads s !! t = Some th -> flight th = Some i ->
  i ∉ fl /\ 0 <= i < Z.of_nat (length (f_ds s)) /\
  (forall t' th', f_threads s !! t' = Some th' -> t' <> t -> flight th' <> Some i).
Proof.
  intros I Ht Hf. assert (NoDup (fl ++ elements (f_held s) ++ flights s)) as Hnd.
  { rewrite (fi_part _ _ I). apply NoDup_seqZ. }
  assert (i ∈ flights s) as Hi by (apply list_elem_of_omap; exists th; eauto using list_elem_of_lookup_2).
  apply NoDup_app in Hnd as (_ & Hd & Hnd). apply NoDup_app in Hnd as (_ & _ & Hnd). split_and!.
  - intros Hfl. apply (Hd i Hfl). set_solver.
  - assert (i ∈ seqZ 0 (Z.of_nat (length (f_ds s)))) as Hs.
    { rewrite <-(fi_part _ _ I). set_solver. }
    apply elem_of_seqZ in Hs. lia.
  - assert (i ∈ seqZ 0 (Z.of_nat (length (f_ds s)))) as Hs.
    { rewrite <-(fi_part _ _ I). set_solver. }
    apply elem_of_seqZ in Hs. lia.
  - intros t' th' Ht' Hne Hf'. destruct (omap_put flight _ _ _ Ht) as (rest & Hr & Hput).
    unfold flights in Hnd. rewrite Hr, Hf in Hnd. simpl in Hnd. apply NoDup_cons in Hnd as [Hni _].
    apply Hni. specialize (Hput (mkThread Idle 0)). simpl in Hput. rewrite <-Hput.
    apply list_elem_of_omap. exists th'. split; [|done].
    apply (list_elem_of_lookup_2 _ t'). by rewrite list_lookup_insert_ne.
Qed.

(** ** The steps *)

(** [next_of(descriptors_[index]) = index_of(old)] by the thread that has
    [index] in flight. *)
Lemma inv_push_write s fl t th i old d :
  fs_inv s fl -> f_threads s !! t = Some th -> at_pc th = PushLoop i old ->
  aget (f_ds s) i = Some d ->
  fs_inv (mkFs (<[Z.to_nat i := set_next d (index_of old)]> (f_ds s)) (f_top s) (f_size s)
            (put_thread s t (PushCas i old) (loaded th)) (f_held s) (ver s)) fl.
Proof.
  intros I Ht Hpc Hd. pose proof (aget_range _ _ _ Hd) as Hr.
  assert (flight th = Some i) as Hf by (unfold flight; by rewrite Hpc).
  destruct (flight_unique _ _ _ _ _ I Ht Hf) as (Hfl & _ & Hother).
  pose proof (fi_threads _ _ I _ _ Ht) as Hok. unfold thread_ok in Hok. rewrite Hpc in Hok.
  destruct (omap_put flight _ _ _ Ht) as (rest & Hrest & Hput).
  split; simpl; rewrite ?length_insert; try apply I.
  - eapply chain_frame; [|apply I]. intros j e Hj He. exists e.
    rewrite aget_insert, decide_False by (done || by intros ->). done.
  - rewrite <-(fi_part _ _ I). do 2 f_equiv. unfold flights, put_thread. simpl.
    by rewrite Hput, Hrest, Hf.
  - intros t' th' Hl. apply list_lookup_insert_Some in Hl as [(<- & <- & _)|(Hne & Hl)].
    { unfold thread_ok, old_ok, link. simpl. rewrite length_insert, aget_insert, decide_True by done.
      by split. }
    pose proof (fi_threads _ _ I _ _ Hl) as Hok'. specialize (Hother _ _ Hl (not_eq_sym Hne)).
    unfold thread_ok, old_ok, link, flight in *. simpl. rewrite length_insert.
    destruct (at_pc th') as [|j o|j o| |o|o j n|j]; try done.
    + rewrite aget_insert, decide_False by (done || congruence). done.
    + destruct Hok' as (Hold & -> & Hnk & Hlk). split_and!; try apply Hold; [done..|].
      intros Hv. rewrite aget_insert by done. rewrite decide_False; [by apply Hlk|].
      destruct Hold as (_ & _ & Htop). rewrite (Htop Hv). intros ->. apply Hfl.
      pose proof (fi_chain _ _ I) as Hc. destruct fl as [|k fl]; simpl in Hc.
      * rewrite (Htop Hv) in Hnk. congruence.
      * destruct Hc as [-> _]. set_solver.
  - rewrite (fi_size _ _ I). unfold put_thread. rewrite (owed_sum_put _ _ _ _ Ht).
    unfold owed. rewrite Hpc. simpl. f_equal. lia.
Qed.

(** A successful compare-and-swap that replaces the head: the new free list and
    the new set of indices in flight. *)
Lemma inv_cas s fl fl' t th th' i :
  fs_inv s fl -> f_threads s !! t = Some th -> is_u32 i ->
  chain (f_ds s) i fl' ->
  fl' ++ option_list (flight th') ≡ₚ fl ++ option_list (flight th) ->
  Z.of_nat (length fl') - owed th' = Z.of_nat (length fl) - owed th ->
  (forall s', thread_ok s' th') ->
  fs_inv (mkFs (f_ds s) (pack (u32 (gen_of (f_top s) + 1)) i) (f_size s)
            (<[t := th']> (f_threads s)) (f_held s) (ver s + 1)) fl'.
Proof.
  intros I Ht Hi Hc Hp Ho Hok. destruct (omap_put flight _ _ _ Ht) as (rest & Hr & Hput).
  assert (gen_of (f_top s) = u32 (ver s)) as Hg.
  { rewrite (fi_top _ _ I). apply gen_of_pack; apply u32_range. }
  split; simpl; try apply I.
  - by rewrite index_of_pack.
  - rewrite <-(fi_part _ _ I). unfold flights. simpl. rewrite Hput, Hr.
    rewrite (Permutation_app_comm (elements _)), (Permutation_app_comm (elements (f_held s)) (_ ++ rest)).
    rewrite <-!app_assoc, (app_assoc fl'), (app_assoc fl), Hp. done.
  - pose proof (fi_ver _ _ I). lia.
  - by rewrite index_of_pack, Hg, u32_add_l.
  - intros t' th'' Hl. apply list_lookup_insert_Some in Hl as [(<- & <- & _)|(_ & Hl)]; [apply Hok|].
    eapply thread_ok_stale; [..|by eapply I]; done.
  - rewrite (fi_size _ _ I), (owed_sum_put _ _ _ _ Ht). f_equal. lia.
Qed.

(** The compare-and-swap of [push] succeeds. *)
Lemma inv_cas_push s fl t i v :
  fs_inv s fl -> f_threads s !! t = Some (mkThread (PushCas i (f_top s)) v) ->
  link s i = Some (index_of (f_top s)) ->
  fs_inv (mkFs (f_ds s) (pack (u32 (gen_of (f_top s) + 1)) i) (f_size s)
            (put_thread s t PushSize (ver s)) (f_held s) (ver s + 1)) (i :: fl).
Proof.
  intros I Ht Hlink. destruct (flight_unique _ _ _ _ i I Ht eq_refl) as (_ & Hr & _).
  pose proof (fi_count _ _ I). unfold link in Hlink.
  destruct (aget (f_ds s) i) as [d|] eqn:Hd; simplify_eq/=. unfold kEmpty in *.
  eapply (inv_cas _ _ _ _ _ (mkThread PushSize (ver s))); [done|done|unfold is_u32; lia| |..]; simpl.
  - split; [done|]. exists d. split; [done|]. rewrite Hlink. apply I.
  - rewrite app_nil_r. by rewrite Permutation_app_comm.
  - unfold owed. simpl. lia.
  - done.
Qed.

(** The compare-and-swap of [pop] succeeds. *)
Lemma inv_cas_pop s fl t v n :
  fs_inv s fl ->
  f_threads s !! t = Some (mkThread (PopCas (f_top s) (index_of (f_top s)) n) v) ->
  ver s - v < 2 ^ 32 ->
  exists fl', fl = index_of (f_top s) :: fl' /\
    fs_inv (mkFs (f_ds s) (pack (u32 (gen_of (f_top s) + 1)) n) (f_size s)
              (put_thread s t (PopSize (index_of (f_top s))) (ver s)) (f_held s) (ver s + 1)) fl'.
Proof.
  intros I Ht Hfr. pose proof (fi_threads _ _ I _ _ Ht) as (Hold & _ & Hnk & Hlink).
  pose proof (old_current _ _ _ _ I Hold eq_refl Hfr) as Hv. specialize (Hlink Hv).
  pose proof (fi_chain _ _ I) as Hc. destruct fl as [|j fl]; simpl in Hc; [done|].
  destruct Hc as [Hj (d & Hd & Hc)]. unfold link in Hlink. rewrite Hj in Hlink |- *.
  rewrite Hd in Hlink. injection Hlink as <-. exists fl. split; [done|].
  eapply (inv_cas _ (j :: fl) _ _ _ (mkThread (PopSize j) (ver s))); [done|done| |done|..]; simpl.
  - eapply chain_u32; [done|apply I].
  - rewrite app_nil_r. by rewrite Permutation_app_comm.
  - unfold owed. simpl. lia.
  - done.
Qed.

Lemma tstep_inv s fl t call fail evs s' :
  fs_inv s fl -> cas_fresh t s -> tstep t call fail s = Some (evs, s') ->
  exists fl', fs_inv s' fl' /\ stack_run fl evs fl'.
Proof.
  intros I Hfr Hs. unfold tstep in Hs. apply bind_Some in Hs as (th & Ht & Hs).
  unfold cas_fresh in Hfr. rewrite Ht in Hfr. pose proof (fi_threads _ _ I _ _ Ht) as Hok.
  pose proof (load_ok _ _ I) as Hload. unfold thread_ok in Hok. destruct th as [p v]; simpl in *.
  assert (u32 (f_size s) = f_size s) as Hsz.
  { rewrite (fi_size _ _ I). unfold u32. by rewrite Zmod_mod. }
  destruct p as [|i old|i old| |old|old i n|i].
  - destruct call as [i|].
    + case_bool_decide as Hi; simplify_eq. exists fl. split; [|constructor].
      eapply inv_quiet; [done..| |by rewrite Z.add_0_r, Z.sub_0_r|done]. simpl.
      rewrite (elements_remove _ _ Hi), app_nil_r. by rewrite Permutation_app_comm.
    + simplify_eq. exists fl. split; [|by apply load_event_run].
      eapply inv_quiet; [done..|by rewrite Z.add_0_r, Z.sub_0_r|done].
  - apply bind_Some in Hs as (d & Hd & Hs). pose proof (aget_range _ _ _ Hd).
    rewrite aset_Some in Hs by done. simplify_eq/=. exists fl. split; [|constructor].
    by apply (inv_push_write _ _ _ (mkThread (PushLoop i old) v)).
  - destruct Hok as [Hold Hlink]. destruct (Z.eqb_spec (f_top s) old) as [Htop|]; simpl in Hs.
    1: destruct fail; simpl in Hs.
    1,3: simplify_eq; exists fl; split; [|constructor];
      eapply inv_quiet; [done..|by rewrite Z.add_0_r, Z.sub_0_r|done].
    simplify_eq. exists (i :: fl). split; [|apply stack_run_one; constructor].
    by eapply inv_cas_push.
  - simplify_eq. exists fl. split; [|constructor].
    eapply inv_quiet; [done..|unfold owed; simpl; f_equal; lia|done].
  - destruct (Z.eqb_spec (index_of old) kEmpty) as [E|E].
    { simplify_eq. exists fl. split; [|constructor].
      eapply inv_quiet; [done..|by rewrite Z.add_0_r, Z.sub_0_r|done]. }
    apply bind_Some in Hs as (d & Hd & Hs). simplify_eq/=. exists fl. split; [|constructor].
    eapply inv_quiet; [done..|by rewrite Z.add_0_r, Z.sub_0_r|]. simpl. split_and!; try done.
    intros _. simpl. unfold link. by rewrite Hd.
  - destruct Hok as (Hold & -> & Hnk & Hlink). destruct (Z.eqb_spec (f_top s) old) as [Htop|]; simpl in Hs.
    1: destruct fail; simpl in Hs.
    1,3: simplify_eq; exists fl; split; [|by apply load_event_run];
      eapply inv_quiet; [done..|by rewrite Z.add_0_r, Z.sub_0_r|done].
    simplify_eq. destruct (inv_cas_pop s fl t v n) as (fl' & -> & I'); [done..|].
    exists fl'. split; [done|]. apply stack_run_one. constructor.
  - simplify_eq. exists fl. split; [|constructor].
    eapply inv_quiet; [done..| |unfold owed; simpl; f_equal; lia|done]. simpl.
    destruct (flight_unique _ _ _ _ i I Ht eq_refl) as (_ & Hr & _).
    rewrite elements_union_singleton, app_nil_r; [by rewrite Permutation_app_comm|].
    assert (NoDup (fl ++ elements (f_held s) ++ flights s)) as Hnd.
    { rewrite (fi_part _ _ I). apply NoDup_seqZ. }
    apply NoDup_app in Hnd as (_ & _ & Hnd). apply NoDup_app in Hnd as (_ & Hd & _).
    intros Hi. apply (Hd i); [by apply elem_of_elements|]. apply list_elem_of_omap.
    exists (mkThread (PopSize i) v). eauto using list_elem_of_lookup_2.
Qed.

Lemma fs_exec_inv s fl tr s' :
  fs_inv s fl -> fs_exec s tr s' -> exists fl', fs_inv s' fl' /\ stack_run fl tr fl'.
Proof.
  intros I R. induction R as [|s tr s' t call fail evs s'' R IH Hf Hs].
  - exists fl. split; [done|constructor].
  - destruct (IH I) as (fl1 & I1 & R1). destruct (tstep_inv _ _ _ _ _ _ _ I1 Hf Hs) as (fl2 & I2 & R2).
    exists fl2. split; [done|]. by eapply stack_run_app.
Qed.

Lemma pack_unpack v : is_u64 v -> v = pack (u32 (gen_of v)) (index_of v).
Proof.
  intros Hv. unfold is_u64 in Hv. unfold pack, gen_of, index_of, u32.
  rewrite Zmod_mod, Z.shiftr_div_pow2, (Z.mod_small (v / _)) by (lia || dmlia).
  apply Z.bits_inj'. intros n Hn. rewrite Z.lor_spec, Z.shiftl_spec by lia.
  destruct (decide (n < 32)).
  - rewrite Z.mod_pow2_bits_low, (Z.testbit_neg_r _ (n - 32)) by lia. done.
  - rewrite Z.mod_pow2_bits_high, orb_false_r, Z.div_pow2_bits by lia. f_equal. lia.
Qed.

Lemma idle_threads k v :
  omap flight (replicate k (mkThread Idle v)) = [] /\ owed_sum (replicate k (mkThread Idle v)) = 0.
Proof. induction k as [|k [IH1 IH2]]; simpl; auto. Qed.

Lemma fs_start_inv p fl held k :
  pool_inv p fl held -> is_u64 (top_ (free_stack_ p)) -> fs_inv (fs_start p held k) fl.
Proof.
  intros I Ht. pose proof (pi_stack _ _ _ I) as S. pose proof (sr_length _ _ _ S) as Hl.
  destruct (idle_threads k (gen_of (top_ (free_stack_ p)))) as [Hf Ho].
  split; simpl; try by apply S.
  - unfold flights. simpl. rewrite Hf, app_nil_r. apply NoDup_Permutation.
    + apply NoDup_app. split_and!; [apply S| |apply NoDup_elements].
      intros x Hx. rewrite elem_of_elements. by eapply pi_disj.
    + apply NoDup_seqZ.
    + intros x. rewrite elem_of_app, elem_of_elements, elem_of_seqZ.
      rewrite <-(pi_part _ _ _ I x), (pi_count _ _ _ I). lia.
  - apply u32_range.
  - by apply pack_unpack.
  - intros t th Hth. apply lookup_replicate in Hth as [-> _]. done.
  - rewrite (sr_size _ _ _ S), Ho, Z.sub_0_r. symmetry. apply u32_id.
    pose proof (sr_count _ _ _ S). unfold is_u32, kEmpty in *. lia.
Qed.

(** No reachable access is outside of the descriptor array. *)
Lemma tstep_enabled s fl t th call fail :
  fs_inv s fl -> f_threads s !! t = Some th ->
  (at_pc th = Idle -> forall i, call = Some i -> i ∈ f_held s) ->
  is_Some (tstep t call fail s).
Proof.
  intros I Ht Hcall. pose proof (fi_threads _ _ I _ _ Ht) as Hok. unfold thread_ok, tstep in *.
  rewrite Ht. simpl. destruct (at_pc th) as [|i old|i old| |old|old i n|i] eqn:Hpc; try (case_match; eauto; fail); eauto.
  - destruct call as [i|]; [|eauto]. rewrite bool_decide_true by eauto. eauto.
  - assert (flight th = Some i) as Hf by (unfold flight; by rewrite Hpc).
    destruct (flight_unique _ _ _ _ i I Ht Hf) as (_ & Hr & _).
    destruct (aget_is_Some _ _ Hr) as [d ->]. simpl. rewrite aset_Some by done. eauto.
  - destruct (Z.eqb_spec (index_of old) kEmpty) as [|Hne]; [eauto|].
    destruct Hok as (_ & (i & -> & Hi) & _). pose proof (fi_count _ _ I). unfold kEmpty in *.
    rewrite index_of_pack in * by (unfold is_u32; lia).
    destruct (aget_is_Some (f_ds s) i) as [d ->]; [lia|]. eauto.
Qed.

Lemma fs_sched_exec sc s0 tr0 s tr s' :
  fs_exec s0 tr0 s -> fs_sched sc s = Some (tr, s') -> fs_exec s0 (tr0 ++ tr) s'.
Proof.
  revert tr0 s tr. induction sc as [|[[t call] fail] sc IH]; intros tr0 s tr R Hs; simpl in Hs.
  { simplify_eq. by rewrite app_nil_r. }
  case_decide as Hf; [|done]. apply bind_Some in Hs as ([evs s1] & H1 & Hs).
  apply bind_Some in Hs as ([tr1 s2] & H2 & Hs). simplify_eq. rewrite app_assoc.
  eapply IH; [|exact H2]. by eapply fx_snoc.
Qed.

(** ** Properties *)

(** C6: the free stack is linearizable.  Start any number of threads on a pool
    in a quiescent state; in every interleaving of their pushes and pops, with
    spurious failures of the compare-and-swap, the sequence of the completed
    updates (and of the pops that found the stack empty) is a run of a LIFO
    stack that starts as the pool's free list, and the free list in memory is
    at every moment the contents of that stack.  In particular the generation
    counter rules out the ABA problem. *)
Theorem free_stack_linearizable (p : BufferPool) (held : gset Z) (k : nat) tr s :
  bufpool_ok p held -> is_u64 (top_ (free_stack_ p)) -> fs_exec (fs_start p held k) tr s ->
  exists fl fl', chain (descriptors_ p) (index_of (top_ (free_stack_ p))) fl /\
    stack_run fl tr fl' /\ chain (f_ds s) (index_of (f_top s)) fl'.
Proof.
  intros [fl I] Ht R. destruct (fs_exec_inv _ _ _ _ (fs_start_inv _ _ _ k I Ht) R) as (fl' & I' & R').
  exists fl, fl'. split_and!; [apply I|done|apply I'].
Qed.

(** C10: in every interleaving, every buffer index is at every moment in exactly
    one place (on the free list, with a client, or with one thread in the middle
    of a push or pop), [size_] is the length of the free list as soon as no
    thread owes it an update, and no thread can get stuck on an access outside
    of the descriptor array. *)
Theorem free_stack_partition (p : BufferPool) (held : gset Z) (k : nat) tr s :
  bufpool_ok p held -> is_u64 (top_ (free_stack_ p)) -> fs_exec (fs_start p held k) tr s ->
  (exists fl, chain (f_ds s) (index_of (f_top s)) fl /\
    fl ++ elements (f_held s) ++ flights s ≡ₚ seqZ 0 (Z.of_nat (length (f_ds s))) /\
    f_size s = u32 (Z.of_nat (length fl) - owed_sum (f_threads s))) /\
  (forall t th call fail, f_threads s !! t = Some th ->
    (at_pc th = Idle -> forall i, call = Some i -> i ∈ f_held s) ->
    is_Some (tstep t call fail s)).
Proof.
  intros [fl I] Ht R. destruct (fs_exec_inv _ _ _ _ (fs_start_inv _ _ _ k I Ht) R) as (fl' & I' & _).
  split; [|eauto using tstep_enabled]. exists fl'. split_and!; apply I'.
Qed.

(** ** Witnesses *)

(** Thread 0 is preempted in a [pop] of buffer 2 before it reads the link;
    thread 1 pops 2, gives it to its client and pushes it back; thread 0's
    compare-and-swap then fails on the generation and it retries. *)
Definition aba_schedule : list (nat * option Z * bool) :=
  [(0%nat, None, false); (0%nat, None, false);
   (1%nat, None, false); (1%nat, None, false); (1%nat, None, false); (1%nat, None, false);
   (1%nat, Some 2, false); (1%nat, None, false); (1%nat, None, false); (1%nat, None, false);
   (0%nat, None, false); (0%nat, None, false); (0%nat, None, true);
   (0%nat, None, false); (0%nat, None, false); (0%nat, None, false)].

Definition aba_start : fsconc := fs_start demo_pool ∅ 2.

Definition aba_end : list sevent * fsconc :=
  Eval vm_compute in match fs_sched aba_schedule aba_start with
                     | Some r => r
                     | None => ([], aba_start)
                     end.

Lemma aba_exec : fs_exec aba_start (fst aba_end) (snd aba_end).
Proof.
  apply (fs_sched_exec aba_schedule aba_start [] aba_start); [constructor|].
  vm_compute. reflexivity.
Qed.

Lemma demo_pool_ok : bufpool_ok demo_pool ∅.
Proof.
  destruct (demo_new 4 (-1)) as [[[e|p] h']|] eqn:E; [vm_compute in E; discriminate E| |vm_compute in E; discriminate E].
  assert (p = demo_pool) as <- by (vm_compute in E; injection E; intros _ <-; reflexivity).
  assert (0 < 3 <= kEmpty) as Hc by (unfold kEmpty; lia).
  pose proof (new_BufferPool_cases no_mbind 2 3 (-1) _ (inr p) h' ltac:(lia) Hc ltac:(lia) E) as Hp.
  exact (proj1 Hp).
Qed.

Lemma free_stack_linearizable_witness :
  fst aba_end = [SPop 2; SPush 2; SPop 2] /\
  exists fl fl', chain (descriptors_ demo_pool) 2 fl /\ stack_run fl (fst aba_end) fl'.
Proof.
  split; [reflexivity|].
  destruct (free_stack_linearizable demo_pool ∅ 2 (fst aba_end) (snd aba_end)) as (fl & fl' & H1 & H2 & _).
  - exact demo_pool_ok.
  - vm_compute. split; congruence.
  - exact aba_exec.
  - exists fl, fl'. split; assumption.
Defined.

Lemma free_stack_partition_witness :
  exists fl, fl ++ elements (f_held (snd aba_end)) ++ flights (snd aba_end) ≡ₚ [0; 1; 2].
Proof.
  destruct (free_stack_partition demo_pool ∅ 2 (fst aba_end) (snd aba_end)) as ((fl & _ & Hp & _) & _).
  - exact demo_pool_ok.
  - vm_compute. split; congruence.
  - exact aba_exec.
  - exists fl. exact Hp.
Defined.

(** The links are plain memory and are raced on: there is an execution, of
    two threads on a pool of three buffers, that reaches a state in which one
    thread is about to read the link of a buffer in [pop] while the other is
    about to write the same link in [push]. *)
Theorem free_stack_link_race :
  exists tr s, fs_exec aba_start tr s /\
    next_access s 0 = Some (false, 2) /\ next_access s 1 = Some (true, 2).
Proof.
  destruct (fs_sched (take 1 aba_schedule ++ take 5 (drop 2 aba_schedule)) aba_start)
    as [[tr s]|] eqn:E; [|vm_compute in E; discriminate E].
  exists tr, s. split; [|vm_compute in E; injection E as <- <-; vm_compute; done].
  apply (fs_sched_exec _ aba_start [] aba_start) in E; [done|constructor].
Qed.
