(* ===== verification/Crc32.v ===== *)
(** * CRC-32 (src/tcp_lite.cpp, [crc_table] and [crc32_seg])

    The table-driven checksum over two segments, its bit-serial reference, and
    what it detects. *)

From S2P Require Import Prelude.
From stdpp Require Import base list_numbers option list.
#[local] Open Scope Z_scope.

Definition poly : Z := 0xEDB88320.

(** [c = (c & 1) ? (0xEDB88320u ^ (c >> 1)) : (c >> 1)] *)
Definition crc_bit (c : Z) : Z :=
  if Z.land c 1 =? 0 then Z.shiftr c 1 else Z.lxor poly (Z.shiftr c 1).

Definition crc_table : list Z := (fun i => Nat.iter 8 crc_bit i) <$> seqZ 0 256.

(** One of the two loops of [crc32_seg]: [None] is a read outside of the table. *)
Fixpoint crc_loop (bs : list Z) (crc : Z) : option Z :=
  match bs with
  | [] => Some crc
  | b :: bs =>
      t ← aget crc_table (Z.land (Z.lxor crc b) 0xFF);
      crc_loop bs (Z.lxor t (Z.shiftr crc 8))
  end.

Definition crc32_seg (h p : list Z) : option Z :=
  crc ← crc_loop h 0xFFFFFFFF;
  crc ← crc_loop p crc;
  Some (Z.lxor crc 0xFFFFFFFF).

(** ** The reference: a 32-bit shift register fed with the message bits, least
    significant bit of each byte first. *)

Definition bits_of (b : Z) : list bool := Z.testbit b <$> seqZ 0 8.

Definition reg_step (c : Z) (bit : bool) : Z :=
  if xorb (Z.testbit c 0) bit then Z.lxor poly (Z.shiftr c 1) else Z.shiftr c 1.

Definition crc32_ref (msg : list Z) : Z :=
  Z.lxor (foldl reg_step 0xFFFFFFFF (msg ≫= bits_of)) 0xFFFFFFFF.

(** The state after one byte. *)
Definition crc_byte (c b : Z) : Z := Nat.iter 8 crc_bit (Z.lxor c b).

(** ** The register is linear and invertible *)

Lemma land_1_testbit c : (Z.land c 1 =? 0) = negb (Z.testbit c 0).
Proof.
  change 1 with (Z.ones 1). rewrite Z.land_ones, Z.bit0_odd by lia. change (2 ^ 1) with 2.
  rewrite Zmod_odd. by destruct (Z.odd c).
Qed.

Lemma crc_bit_lxor a b : crc_bit (Z.lxor a b) = Z.lxor (crc_bit a) (crc_bit b).
Proof.
  unfold crc_bit. rewrite !land_1_testbit, Z.lxor_spec, Z.shiftr_lxor.
  destruct (Z.testbit a 0), (Z.testbit b 0); simpl.
  - rewrite (Z.lxor_comm poly (Z.shiftr b 1)), Z.lxor_assoc, <-(Z.lxor_assoc (Z.shiftr a 1)).
    by rewrite (Z.lxor_comm poly), !Z.lxor_assoc, Z.lxor_nilpotent, Z.lxor_0_r.
  - by rewrite Z.lxor_assoc.
  - rewrite <-!Z.lxor_assoc. by rewrite (Z.lxor_comm poly).
  - done.
Qed.

Lemma iter_crc_lxor n a b :
  Nat.iter n crc_bit (Z.lxor a b) = Z.lxor (Nat.iter n crc_bit a) (Nat.iter n crc_bit b).
Proof. induction n as [|n IH]; [done|]. simpl. by rewrite IH, crc_bit_lxor. Qed.

(** Zero low bits are shifted out. *)
Lemma iter_crc_shift n x : Nat.iter n crc_bit (Z.shiftl x (Z.of_nat n)) = x.
Proof.
  revert x. induction n as [|n IH]; intros x; [apply Z.shiftl_0_r|].
  rewrite Nat.iter_succ_r. rewrite Nat2Z.inj_succ, <-Z.add_1_l, Z.add_comm, <-Z.shiftl_shiftl by lia.
  unfold crc_bit at 2. rewrite land_1_testbit, Z.shiftl_spec_low by lia. simpl.
  rewrite Z.shiftr_shiftl_l, Z.sub_diag, Z.shiftl_0_r by lia. apply IH.
Qed.

Lemma crc_bit_u32 c : is_u32 c -> is_u32 (crc_bit c).
Proof.
  intros Hc. assert (is_u32 (Z.shiftr c 1)) by (rewrite Z.shiftr_div_pow2 by lia; word).
  unfold crc_bit. case_match; [done|]. apply lxor_u32; [unfold is_u32, poly; lia|done].
Qed.

Lemma iter_crc_u32 n c : is_u32 c -> is_u32 (Nat.iter n crc_bit c).
Proof. intros Hc. induction n; simpl; [done|]. by apply crc_bit_u32. Qed.

(** The top bit of the polynomial is set, so a step can be undone. *)
Lemma crc_bit_zero c : is_u32 c -> crc_bit c = 0 -> c = 0.
Proof.
  intros Hc. unfold crc_bit. rewrite land_1_testbit.
  assert (Z.shiftr c 1 < 2 ^ 31) by (rewrite Z.shiftr_div_pow2 by lia; word).
  destruct (Z.testbit c 0) eqn:Hb; simpl; intros Hz.
  - apply Z.lxor_eq in Hz. unfold poly in Hz. lia.
  - rewrite Z.shiftr_div_pow2 in Hz by lia. rewrite Z.bit0_odd in Hb.
    assert (c mod 2 = 0) by (rewrite Zmod_odd, Hb; done). word.
Qed.

Lemma iter_crc_inj n a b :
  is_u32 a -> is_u32 b -> Nat.iter n crc_bit a = Nat.iter n crc_bit b -> a = b.
Proof.
  intros Ha Hb Heq. apply Z.lxor_eq. pose proof (lxor_u32 a b Ha Hb) as Hx.
  assert (Nat.iter n crc_bit (Z.lxor a b) = 0) as Hz by (by rewrite iter_crc_lxor, Heq, Z.lxor_nilpotent).
  clear Heq. induction n as [|n IH]; [done|]. simpl in Hz.
  apply IH, crc_bit_zero; [by apply iter_crc_u32|done].
Qed.

(** ** The table *)

Lemma crc_table_lookup i : 0 <= i < 256 -> aget crc_table i = Some (Nat.iter 8 crc_bit i).
Proof.
  intros Hi. apply aget_Some. split; [lia|]. unfold crc_table.
  rewrite list_lookup_fmap, lookup_seqZ_lt by lia. simpl. by rewrite Z2Nat.id by lia.
Qed.

(** Eight steps of the register through the table. *)
Lemma crc_table_step c b :
  is_u8 b ->
  aget crc_table (Z.land (Z.lxor c b) 0xFF) =
    Some (Nat.iter 8 crc_bit (Z.land (Z.lxor c b) 0xFF)) /\
  Z.lxor (Nat.iter 8 crc_bit (Z.land (Z.lxor c b) 0xFF)) (Z.shiftr c 8) = crc_byte c b.
Proof.
  intros Hb. change 0xFF with (Z.ones 8). split.
  { apply crc_table_lookup. rewrite Z.land_ones by lia. apply Z.mod_pos_bound. lia. }
  rewrite <-(iter_crc_shift 8 (Z.shiftr c 8)), <-iter_crc_lxor. unfold crc_byte. f_equal.
  apply Z.bits_inj'. intros n Hn. rewrite !Z.lxor_spec, Z.land_spec, Z.lxor_spec.
  rewrite Z.shiftl_spec, Z.testbit_ones_nonneg by lia. destruct (Z.ltb_spec n 8).
  - rewrite (Z.testbit_neg_r _ (n - 8)), andb_true_r, xorb_false_r by lia. done.
  - rewrite Z.shiftr_spec, Z.sub_add, andb_false_r, xorb_false_l by lia.
    assert (Z.testbit b n = false) as ->; [|by rewrite xorb_false_r].
    unfold is_u8 in Hb. destruct (decide (b = 0)) as [->|]; [apply Z.bits_0|].
    apply Z.bits_above_log2; [lia|]. assert (Z.log2 b < 8) by (apply Z.log2_lt_pow2; lia). lia.
Qed.

Lemma crc_loop_eq bs c : bytes_ok bs -> crc_loop bs c = Some (foldl crc_byte c bs).
Proof.
  intros Hbs. revert c. induction Hbs as [|b bs Hb _ IH]; intros c; [done|].
  simpl. destruct (crc_table_step c b Hb) as [-> <-]. simpl. apply IH.
Qed.

Lemma crc32_seg_eq h p :
  bytes_ok h -> bytes_ok p ->
  crc32_seg h p = Some (Z.lxor (foldl crc_byte 0xFFFFFFFF (h ++ p)) 0xFFFFFFFF).
Proof.
  intros Hh Hp. unfold crc32_seg. rewrite crc_loop_eq by done. simpl.
  rewrite crc_loop_eq by done. simpl. by rewrite foldl_app.
Qed.

Lemma crc_byte_u32 c b : is_u32 c -> is_u8 b -> is_u32 (crc_byte c b).
Proof. intros. apply iter_crc_u32, lxor_u32; [done|word]. Qed.

Lemma crc_fold_u32 bs c : bytes_ok bs -> is_u32 c -> is_u32 (foldl crc_byte c bs).
Proof.
  intros Hbs. revert c. induction Hbs as [|b bs Hb _ IH]; intros c Hc; [done|].
  simpl. apply IH. by apply crc_byte_u32.
Qed.

(** The bytes of a message enter the register like one number. *)
Lemma crc_fold_word bs c :
  bytes_ok bs -> foldl crc_byte c bs = Nat.iter (8 * length bs) crc_bit (Z.lxor c (le_num bs)).
Proof.
  intros Hbs. revert c. induction Hbs as [|b bs Hb Hbs IH]; intros c.
  { simpl. by rewrite Z.lxor_0_r. }
  cbn [foldl length le_num]. rewrite IH, <-mult_n_Sm, Nat.iter_add. f_equal. unfold crc_byte.
  assert (b + 256 * le_num bs = Z.lxor b (Z.shiftl (le_num bs) 8)) as ->.
  { rewrite Z.shiftl_mul_pow2 by lia. rewrite <-Z.add_nocarry_lxor; [lia|].
    apply Z.bits_inj'. intros n Hn. rewrite Z.land_spec, Z.bits_0.
    destruct (decide (n < 8)).
    - by rewrite Z.mul_pow2_bits_low, andb_false_r by lia.
    - unfold is_u8 in Hb. destruct (decide (b = 0)) as [->|]; [by rewrite Z.bits_0|].
      assert (Z.log2 b < 8) by (apply Z.log2_lt_pow2; lia). by rewrite Z.bits_above_log2 by lia. }
  rewrite <-Z.lxor_assoc, !iter_crc_lxor. f_equal. symmetry. apply (iter_crc_shift 8).
Qed.

(** The bits of an error are a number, least significant bit of each byte
    first: the order in which they enter the register. *)
Lemma iter_crc_burst n D s : 0 < D < 2 ^ 32 -> 0 <= s < Z.of_nat n -> Nat.iter n crc_bit (Z.shiftl D s) <> 0.
Proof.
  intros HD Hs Hz. replace n with ((n - Z.to_nat s) + Z.to_nat s)%nat in Hz by lia.
  rewrite Nat.iter_add in Hz. rewrite <-(Z2Nat.id s) in Hz at 3 by lia. rewrite iter_crc_shift in Hz.
  assert (Nat.iter (n - Z.to_nat s) crc_bit 0 = 0) as H0.
  { generalize (n - Z.to_nat s)%nat. clear. induction n; [done|]. simpl. by rewrite IHn. }
  rewrite <-H0 in Hz. apply iter_crc_inj in Hz; unfold is_u32; lia.
Qed.

(** Two messages of the same length whose bits differ by a burst of at most
    32 bits, at any bit offset, have different checksums. *)
Lemma crc_burst m m' c D s :
  bytes_ok m -> bytes_ok m' -> length m = length m' -> 0 < D < 2 ^ 32 -> 0 <= s ->
  le_num m' = Z.lxor (le_num m) (Z.shiftl D s) -> foldl crc_byte c m <> foldl crc_byte c m'.
Proof.
  intros Hm Hm' Hl HD Hs E. pose proof (le_num_range m Hm) as Hr. pose proof (le_num_range m' Hm') as Hr'.
  assert (s < Z.of_nat (8 * length m)) as Hsl.
  { assert (Z.shiftl D s = Z.lxor (le_num m) (le_num m')) as E2
      by (by rewrite E, <-Z.lxor_assoc, Z.lxor_nilpotent, Z.lxor_0_l).
    rewrite <-Hl in Hr'. replace (256 ^ Z.of_nat (length m)) with (2 ^ Z.of_nat (8 * length m)) in *
      by (rewrite Nat2Z.inj_mul, Z.pow_mul_r by lia; done).
    pose proof (lxor_pow2 _ _ (Z.of_nat (8 * length m)) ltac:(lia) Hr Hr') as Hx.
    rewrite <-E2, Z.shiftl_mul_pow2 in Hx by lia. apply (Z.pow_lt_mono_r_iff 2); [lia..|].
    assert (0 < 2 ^ s) by (by apply Z.pow_pos_nonneg). nia. }
  rewrite !crc_fold_word, <-Hl, E, <-Z.lxor_assoc by done. rewrite (iter_crc_lxor _ _ (Z.shiftl D s)).
  intros Heq. apply (iter_crc_burst _ D s HD (conj Hs Hsl)).
  rewrite <-(Z.lxor_0_r (Nat.iter _ _ (Z.lxor c _))) in Heq at 1.
  apply (f_equal (Z.lxor (Nat.iter (8 * length m) crc_bit (Z.lxor c (le_num m))))) in Heq.
  by rewrite <-!Z.lxor_assoc, Z.lxor_nilpotent, !Z.lxor_0_l in Heq.
Qed.

(** ** The reference *)

Lemma reg_step_bit c (bit : bool) : reg_step c bit = crc_bit (Z.lxor c (Z.b2z bit)).
Proof.
  unfold reg_step, crc_bit. rewrite land_1_testbit, Z.lxor_spec, Z.shiftr_lxor.
  replace (Z.shiftr (Z.b2z bit) 1) with 0 by (by destruct bit).
  replace (Z.testbit (Z.b2z bit) 0) with bit by (by destruct bit).
  rewrite Z.lxor_0_r. by destruct (Z.testbit c 0), bit.
Qed.

Lemma testbit_shift_seq b n :
  0 <= n -> Z.testbit b <$> seqZ 1 n = Z.testbit (Z.shiftr b 1) <$> seqZ 0 n.
Proof.
  intros Hn. apply list_eq. intros i. rewrite !list_lookup_fmap. destruct (decide (Z.of_nat i < n)).
  - rewrite !lookup_seqZ_lt by lia. simpl. rewrite Z.shiftr_spec by lia. do 2 f_equal. lia.
  - by rewrite !lookup_seqZ_ge by lia.
Qed.

Lemma reg_steps_byte c b : is_u8 b -> foldl reg_step c (bits_of b) = crc_byte c b.
Proof.
  intros Hb. assert (forall n b c, 0 <= b < 2 ^ Z.of_nat n ->
    foldl reg_step c (Z.testbit b <$> seqZ 0 (Z.of_nat n)) = Nat.iter n crc_bit (Z.lxor c b)) as H.
  { clear. induction n as [|n IH]; intros b c Hb.
    { simpl in *. assert (b = 0) as -> by lia. simpl. by rewrite Z.lxor_0_r. }
    rewrite seqZ_cons by lia. rewrite Nat2Z.inj_succ, Z.pow_succ_r in Hb by lia.
    rewrite fmap_cons. cbn [foldl]. replace (Z.pred (Z.of_nat (S n))) with (Z.of_nat n) by lia.
    change (Z.succ 0) with 1. rewrite (testbit_shift_seq b (Z.of_nat n)) by lia.
    rewrite IH by (rewrite Z.shiftr_div_pow2 by lia; dmlia).
    rewrite Nat.iter_succ_r. f_equal. rewrite reg_step_bit, !crc_bit_lxor, Z.lxor_assoc. f_equal.
    unfold crc_bit. rewrite !land_1_testbit. by destruct (Z.testbit b 0). }
  unfold bits_of. change 8 with (Z.of_nat 8). apply H. exact Hb.
Qed.

Lemma crc32_ref_eq msg :
  bytes_ok msg -> crc32_ref msg = Z.lxor (foldl crc_byte 0xFFFFFFFF msg) 0xFFFFFFFF.
Proof.
  intros Hm. unfold crc32_ref. f_equal. generalize 0xFFFFFFFF.
  induction Hm as [|b bs Hb _ IH]; intros c; [done|].
  rewrite bind_cons, foldl_app, reg_steps_byte by done. apply IH.
Qed.

Lemma lxor_inj_r a b k : Z.lxor a k = Z.lxor b k -> a = b.
Proof.
  intros Heq. apply (f_equal (fun z => Z.lxor z k)) in Heq.
  by rewrite !Z.lxor_assoc, Z.lxor_nilpotent, !Z.lxor_0_r in Heq.
Qed.

(** ** Properties *)

(** C27: the table-driven routine never reads outside of its table and computes
    the bit-serial CRC-32 (reflected polynomial 0xEDB88320, initial value and
    final XOR 0xFFFFFFFF) of the two segments one after the other. *)
Theorem crc32_seg_reference (h p : list Z) :
  bytes_ok h -> bytes_ok p -> crc32_seg h p = Some (crc32_ref (h ++ p)).
Proof.
  intros Hh Hp. rewrite crc32_seg_eq, crc32_ref_eq by (done || by apply Forall_app). done.
Qed.

(** The standard check value: "123456789" in two segments. *)
Lemma crc32_seg_reference_witness :
  crc32_ref [49; 50; 51; 52; 53; 54; 55; 56; 57] = 0xCBF43926 /\
  crc32_seg [49; 50; 51; 52] [53; 54; 55; 56; 57] =
    Some (crc32_ref ([49; 50; 51; 52] ++ [53; 54; 55; 56; 57])).
Proof.
  split; [vm_compute; reflexivity|].
  apply crc32_seg_reference; repeat constructor; unfold is_u8; lia.
Defined.
