(* ===== verification/TcpHeader.v ===== *)
(** * The TCP-Lite header (include/tcp_lite.h, src/tcp_lite.cpp TcpLiteHeader)

    The packed 16-byte header in host (little-endian) byte order, its
    constructors and its checksum. *)

From S2P Require Import Prelude Crc32.
From stdpp Require Import base list_numbers option list.
#[local] Open Scope Z_scope.

Definition TCP_SYN : Z := 1.
Definition TCP_ACK : Z := 2.
Definition TCP_FIN : Z := 4.
Definition TCP_RST : Z := 8.

Definition TCP_LITE_WINDOW : Z := 256.
Definition TCP_LITE_MAX_PAYLOAD : Z := 1024.

Record TcpLiteHeader := mkHeader {
  seq_num : Z; ack_num : Z; flags : Z; payload_len : Z; checksum : Z }.

(** The bytes of the object, and the object at 16 bytes of memory. *)
Definition header_bytes (h : TcpLiteHeader) : list Z :=
  le_bytes 4 (seq_num h) ++ le_bytes 4 (ack_num h) ++ le_bytes 2 (flags h) ++
  le_bytes 2 (payload_len h) ++ le_bytes 4 (checksum h).

Definition header_of (bs : list Z) : TcpLiteHeader :=
  mkHeader (le_num (take 4 bs)) (le_num (take 4 (drop 4 bs))) (le_num (take 2 (drop 8 bs)))
    (le_num (take 2 (drop 10 bs))) (le_num (take 4 (drop 12 bs))).

Definition sizeof_header : Z := 16.
Definition TCP_LITE_MTU : Z := sizeof_header + TCP_LITE_MAX_PAYLOAD.

Definition set_checksum (h : TcpLiteHeader) (c : Z) : TcpLiteHeader :=
  mkHeader (seq_num h) (ack_num h) (flags h) (payload_len h) c.

(** [payload] are the [len] bytes the pointer argument points to. *)
Definition compute_checksum (h : TcpLiteHeader) (payload : list Z) : option TcpLiteHeader :=
  let h := set_checksum h 0 in
  c ← crc32_seg (header_bytes h) payload;
  Some (set_checksum h c).

Definition verify_checksum (h : TcpLiteHeader) (payload : list Z) : option bool :=
  let tmp := set_checksum h 0 in
  c ← crc32_seg (header_bytes tmp) payload;
  Some (c =? checksum h).

Definition make_syn (seq : Z) : option TcpLiteHeader :=
  compute_checksum (mkHeader seq 0 TCP_SYN 0 0) [].

Definition make_ack (seq ack : Z) : option TcpLiteHeader :=
  compute_checksum (mkHeader seq ack TCP_ACK 0 0) [].

Definition make_data (seq ack len : Z) : TcpLiteHeader := mkHeader seq ack TCP_ACK len 0.

(** ** Well-formed headers *)

Record header_ok (h : TcpLiteHeader) : Prop := {
  ho_seq : is_u32 (seq_num h);
  ho_ack : is_u32 (ack_num h);
  ho_flags : is_u16 (flags h);
  ho_len : is_u16 (payload_len h);
  ho_sum : is_u32 (checksum h)
}.

Lemma length_header_bytes h : length (header_bytes h) = 16%nat.
Proof. unfold header_bytes. by rewrite !length_app, !length_le_bytes. Qed.

Lemma header_bytes_ok h : bytes_ok (header_bytes h).
Proof. unfold header_bytes. repeat apply Forall_app_2; apply le_bytes_ok. Qed.

(** A little-endian field of [n] bytes at offset [k]. *)
Lemma field_at (n k : nat) z pre post :
  length pre = k -> 0 <= z < 256 ^ Z.of_nat n ->
  le_num (take n (drop k (pre ++ le_bytes n z ++ post))) = z.
Proof.
  intros Hk Hz. rewrite drop_app_length' by done.
  rewrite take_app_length' by (by rewrite length_le_bytes). by apply le_num_bytes.
Qed.

Lemma header_of_bytes h rest : header_ok h -> header_of (header_bytes h ++ rest) = h.
Proof.
  intros [Hs Ha Hf Hl Hc]. destruct h as [s a f l c]. unfold header_of, header_bytes.
  cbn [seq_num ack_num flags payload_len checksum] in *. rewrite <-!app_assoc. f_equal.
  - apply (field_at 4 0 s []); [done|exact Hs].
  - apply (field_at 4 4 a (le_bytes 4 s)); [done|exact Ha].
  - rewrite app_assoc. apply field_at; [by rewrite length_app, !length_le_bytes|exact Hf].
  - rewrite 2!app_assoc. apply field_at; [by rewrite !length_app, !length_le_bytes|exact Hl].
  - rewrite 3!app_assoc. apply field_at; [by rewrite !length_app, !length_le_bytes|exact Hc].
Qed.

Lemma header_bytes_of bs : bytes_ok bs -> length bs = 16%nat -> header_bytes (header_of bs) = bs.
Proof.
  intros Hb Hl. assert (forall n k, (k + n <= 16)%nat ->
    le_bytes n (le_num (take n (drop k bs))) = take n (drop k bs)) as Hf.
  { intros n k Hk. pose proof (le_bytes_num (take n (drop k bs))) as H.
    rewrite length_take, length_drop, Nat.min_l in H by lia. by apply H, Forall_take, Forall_drop. }
  unfold header_bytes, header_of. cbn [seq_num ack_num flags payload_len checksum].
  rewrite <-(drop_0 bs) at 1. rewrite !Hf by lia. rewrite drop_0.
  do 16 (destruct bs as [|? bs]; [done|]). by destruct bs.
Qed.

Lemma header_of_ok bs : bytes_ok bs -> length bs = 16%nat -> header_ok (header_of bs).
Proof.
  intros Hb Hl. assert (forall n k, (k + n <= 16)%nat ->
    0 <= le_num (take n (drop k bs)) < 256 ^ Z.of_nat n) as Hf.
  { intros n k Hk. pose proof (le_num_range (take n (drop k bs))) as H.
    rewrite length_take, length_drop, Nat.min_l in H by lia. by apply H, Forall_take, Forall_drop. }
  split; simpl; [apply (Hf 4 0)%nat|apply (Hf 4 4)%nat|apply (Hf 2 8)%nat|apply (Hf 2 10)%nat|apply (Hf 4 12)%nat]; lia.
Qed.

(** ** The checksum *)

(** The checksum of the header with the field zeroed and the payload. *)
Definition packet_crc (h : TcpLiteHeader) (payload : list Z) : Z :=
  crc32_ref (header_bytes (set_checksum h 0) ++ payload).

Lemma crc32_ref_u32 m : bytes_ok m -> is_u32 (crc32_ref m).
Proof.
  intros Hm. rewrite crc32_ref_eq by done. apply lxor_u32; [|unfold is_u32; lia].
  apply crc_fold_u32; [done|unfold is_u32; lia].
Qed.

Lemma packet_crc_seg h p :
  bytes_ok p -> crc32_seg (header_bytes (set_checksum h 0)) p = Some (packet_crc h p).
Proof.
  intros Hp. unfold packet_crc. pose proof (header_bytes_ok (set_checksum h 0)) as Hb.
  rewrite crc32_seg_eq, crc32_ref_eq by (done || by apply Forall_app). done.
Qed.

Lemma packet_crc_u32 h p : bytes_ok p -> is_u32 (packet_crc h p).
Proof. intros Hp. apply crc32_ref_u32, Forall_app. split; [apply header_bytes_ok|done]. Qed.

Lemma compute_checksum_eq h p :
  bytes_ok p -> compute_checksum h p = Some (set_checksum h (packet_crc h p)).
Proof. intros Hp. unfold compute_checksum. by rewrite packet_crc_seg. Qed.

Lemma verify_checksum_eq h p :
  bytes_ok p -> verify_checksum h p = Some (packet_crc h p =? checksum h).
Proof. intros Hp. unfold verify_checksum. by rewrite packet_crc_seg. Qed.

Lemma set_checksum_ok h c : header_ok h -> is_u32 c -> header_ok (set_checksum h c).
Proof. intros [] ?. by split. Qed.

(** What the sender stored verifies at the receiver. *)
Lemma computed_verifies h p h' :
  bytes_ok p -> compute_checksum h p = Some h' -> verify_checksum h' p = Some true.
Proof.
  intros Hp Hc. rewrite compute_checksum_eq in Hc by done. simplify_eq.
  rewrite verify_checksum_eq by done. f_equal. apply Z.eqb_eq. done.
Qed.

(** The three parts of a packet on the wire. *)
Definition fields_bytes (h : TcpLiteHeader) : list Z :=
  le_bytes 4 (seq_num h) ++ le_bytes 4 (ack_num h) ++ le_bytes 2 (flags h) ++
  le_bytes 2 (payload_len h).

Lemma header_bytes_split h : header_bytes h = fields_bytes h ++ le_bytes 4 (checksum h).
Proof. unfold header_bytes, fields_bytes. by rewrite <-!app_assoc. Qed.

Lemma length_fields_bytes h : length (fields_bytes h) = 12%nat.
Proof. unfold fields_bytes. by rewrite !length_app, !length_le_bytes. Qed.

Lemma packet_crc_fields h p :
  packet_crc h p = crc32_ref (fields_bytes h ++ [0; 0; 0; 0] ++ p).
Proof.
  unfold packet_crc. rewrite header_bytes_split, <-app_assoc. destruct h. done.
Qed.

(** The check a receiver makes of the bytes of a packet: the header is read
    from its first 16 bytes and says how many of the bytes behind are payload. *)
Definition packet_check (pkt : list Z) : option bool :=
  let h := header_of (take 16 pkt) in
  verify_checksum h (take (Z.to_nat (payload_len h)) (drop 16 pkt)).

Section packet.
Context (pkt : list Z) (Hb : bytes_ok pkt).
Context (Hl : Z.of_nat (length pkt) = 16 + payload_len (header_of (take 16 pkt))).
Context (Hp : 0 <= payload_len (header_of (take 16 pkt))).

Lemma packet_parts :
  fields_bytes (header_of (take 16 pkt)) = take 12 pkt /\
  pkt = take 12 pkt ++ le_bytes 4 (checksum (header_of (take 16 pkt))) ++ drop 16 pkt.
Proof.
  assert (length (take 16 pkt) = 16)%nat as H16 by (rewrite length_take; lia).
  pose proof (header_bytes_of (take 16 pkt) (Forall_take _ _ _ Hb) H16) as E. rewrite header_bytes_split in E.
  assert (fields_bytes (header_of (take 16 pkt)) = take 12 pkt) as Ef.
  { rewrite <-(take_app_length (fields_bytes (header_of (take 16 pkt))) (le_bytes 4 (checksum (header_of (take 16 pkt))))).
    by rewrite E, length_fields_bytes, take_take. }
  split; [done|]. by rewrite <-Ef, app_assoc, E, take_drop.
Qed.

Lemma packet_check_eq :
  packet_check pkt =
    Some (crc32_ref (take 12 pkt ++ [0; 0; 0; 0] ++ drop 16 pkt) =? checksum (header_of (take 16 pkt))).
Proof.
  unfold packet_check. rewrite (take_ge (drop 16 pkt)) by (rewrite length_drop; lia).
  rewrite verify_checksum_eq by (by apply Forall_drop). by rewrite packet_crc_fields, (proj1 packet_parts).
Qed.

(** The bits of the packet: the covered fields, the checksum, the payload. *)
Lemma packet_bits i :
  0 <= i ->
  Z.testbit (le_num (take 12 pkt ++ [0; 0; 0; 0] ++ drop 16 pkt)) i =
    (if (96 <=? i) && (i <? 128) then false else Z.testbit (le_num pkt) i) /\
  Z.testbit (checksum (header_of (take 16 pkt))) i = (i <? 32) && Z.testbit (le_num pkt) (96 + i).
Proof.
  intros Hi. destruct packet_parts as [_ E]. assert (bytes_ok (take 12 pkt)) as Ht by (by apply Forall_take).
  assert (length (take 12 pkt) = 12)%nat as Hn by (rewrite length_take; lia).
  assert (header_ok (header_of (take 16 pkt))) as [_ _ _ _ Hc]
    by (apply header_of_ok; [by apply Forall_take|rewrite length_take; lia]).
  assert (forall j, 0 <= j -> Z.testbit (le_num pkt) j =
    if j <? 96 then Z.testbit (le_num (take 12 pkt)) j else
    if j - 96 <? 32 then Z.testbit (checksum (header_of (take 16 pkt))) (j - 96)
    else Z.testbit (le_num (drop 16 pkt)) (j - 96 - 32)) as Hbits.
  { intros j Hj. rewrite E at 1. rewrite le_num_bits, Hn by done. change (8 * Z.of_nat 12) with 96.
    destruct (Z.ltb_spec j 96); [done|]. rewrite le_num_bits, length_le_bytes by (apply le_bytes_ok || lia).
    by rewrite le_num_bytes by exact Hc. }
  split.
  - rewrite Hbits, le_num_bits, Hn by done. change (8 * Z.of_nat 12) with 96.
    destruct (Z.ltb_spec i 96), (Z.leb_spec 96 i); try lia; [done|].
    rewrite le_num_bits by (repeat constructor || lia). cbn [length andb]. change (8 * Z.of_nat 4) with 32.
    destruct (Z.ltb_spec (i - 96) 32), (Z.ltb_spec i 128); try lia; [apply Z.bits_0|done].
  - rewrite Hbits by lia. destruct (Z.ltb_spec (96 + i) 96); [lia|].
    replace (96 + i - 96) with i by lia. destruct (Z.ltb_spec i 32); [done|]. cbn [andb].
    destruct (decide (checksum (header_of (take 16 pkt)) = 0)) as [->|]; [apply Z.bits_0|].
    unfold is_u32 in Hc. apply Z.bits_above_log2; [lia|].
    apply Z.lt_le_trans with 32; [apply Z.log2_lt_pow2|]; lia.
Qed.
End packet.

(** The bytes the checksum is computed of. *)
Lemma covered_ok pkt : bytes_ok pkt -> bytes_ok (take 12 pkt ++ [0; 0; 0; 0] ++ drop 16 pkt).
Proof.
  intros Hq. repeat apply Forall_app_2; [by apply Forall_take| |by apply Forall_drop].
  repeat constructor; unfold is_u8; lia.
Qed.

(** An error burst [D] of [k] bits at bit [s] of a packet. *)
Section burst.
Context (pkt pkt' : list Z) (D s k : Z).
Context (Hb : bytes_ok pkt) (Hb' : bytes_ok pkt').
Context (Hl : Z.of_nat (length pkt) = 16 + payload_len (header_of (take 16 pkt))).
Context (Hl' : Z.of_nat (length pkt') = 16 + payload_len (header_of (take 16 pkt'))).
Context (Hp : 0 <= payload_len (header_of (take 16 pkt))).
Context (Hp' : 0 <= payload_len (header_of (take 16 pkt'))).
Context (Hlen : length pkt' = length pkt).
Context (E : le_num pkt' = Z.lxor (le_num pkt) (Z.shiftl D s)).
Context (HD : 0 < D < 2 ^ k) (Hk : 0 <= k) (Hs : 0 <= s).

Lemma burst_bits i :
  0 <= i -> ~ s <= i < s + k -> Z.testbit (le_num pkt') i = Z.testbit (le_num pkt) i.
Proof.
  intros Hi Hout. rewrite E, Z.lxor_spec, Z.shiftl_spec by done.
  replace (Z.testbit D (i - s)) with false; [apply xorb_false_r|]. symmetry. destruct (decide (i < s)).
  - apply Z.testbit_neg_r. lia.
  - apply Z.bits_above_log2; [lia|]. assert (Z.log2 D < k) by (apply Z.log2_lt_pow2; lia). lia.
Qed.

(** Outside of the checksum the burst hits what the checksum covers. *)
Lemma burst_covered :
  s + k <= 96 \/ 128 <= s ->
  checksum (header_of (take 16 pkt')) = checksum (header_of (take 16 pkt)) /\
  le_num (take 12 pkt' ++ [0; 0; 0; 0] ++ drop 16 pkt') =
    Z.lxor (le_num (take 12 pkt ++ [0; 0; 0; 0] ++ drop 16 pkt)) (Z.shiftl D s).
Proof.
  intros Hpos. split; apply Z.bits_inj'; intros i Hi.
  - rewrite (proj2 (packet_bits pkt' Hb' Hl' Hp' i Hi)), (proj2 (packet_bits pkt Hb Hl Hp i Hi)).
    destruct (Z.ltb_spec i 32); [|done]. cbn [andb]. apply burst_bits; lia.
  - rewrite Z.lxor_spec, (proj1 (packet_bits pkt' Hb' Hl' Hp' i Hi)), (proj1 (packet_bits pkt Hb Hl Hp i Hi)).
    destruct (Z.leb_spec 96 i), (Z.ltb_spec i 128); cbn [andb]; try by rewrite E, Z.lxor_spec.
    assert (Z.testbit (le_num pkt) i = Z.testbit (le_num pkt') i) as Hsame by (symmetry; apply burst_bits; lia).
    rewrite E, Z.lxor_spec in Hsame. by destruct (Z.testbit (le_num pkt) i), (Z.testbit (Z.shiftl D s) i).
Qed.

(** Inside the checksum it hits nothing else. *)
Lemma burst_checksum :
  96 <= s -> s + k <= 128 ->
  checksum (header_of (take 16 pkt')) <> checksum (header_of (take 16 pkt)) /\
  take 12 pkt' ++ [0; 0; 0; 0] ++ drop 16 pkt' = take 12 pkt ++ [0; 0; 0; 0] ++ drop 16 pkt.
Proof.
  intros H96 H128. split.
  - intros Heq. set (i := s - 96 + Z.log2 D). assert (Z.log2 D < k) by (apply Z.log2_lt_pow2; lia).
    pose proof (Z.log2_nonneg D). assert (0 <= i < 32) as Hi by lia. apply (f_equal (fun z => Z.testbit z i)) in Heq.
    rewrite (proj2 (packet_bits pkt' Hb' Hl' Hp' i (proj1 Hi))) in Heq.
    rewrite (proj2 (packet_bits pkt Hb Hl Hp i (proj1 Hi))) in Heq.
    rewrite (proj2 (Z.ltb_lt i 32)), E, Z.lxor_spec, Z.shiftl_spec in Heq by lia. cbn [andb] in Heq.
    replace (96 + i - s) with (Z.log2 D) in Heq by lia. rewrite Z.bit_log2 in Heq by lia.
    by destruct (Z.testbit (le_num pkt) (96 + i)).
  - rewrite <-(le_bytes_num _ (covered_ok pkt Hb)), <-(le_bytes_num _ (covered_ok pkt' Hb')).
    f_equal; [by rewrite !length_app, !length_take, !length_drop, Hlen|]. apply Z.bits_inj'. intros i Hi.
    rewrite (proj1 (packet_bits pkt' Hb' Hl' Hp' i Hi)), (proj1 (packet_bits pkt Hb Hl Hp i Hi)).
    destruct (Z.leb_spec 96 i), (Z.ltb_spec i 128); cbn [andb]; try done; apply burst_bits; lia.
Qed.
End burst.

(** ** Properties *)

(** A checksum that was computed verifies: for the data packets, for the
    acknowledgements and for the SYN packets the session builds. *)
Theorem checksum_roundtrip (h : TcpLiteHeader) (payload : list Z) (seq ack : Z) :
  bytes_ok payload ->
  (exists h', compute_checksum h payload = Some h' /\ verify_checksum h' payload = Some true /\
     seq_num h' = seq_num h /\ ack_num h' = ack_num h /\ flags h' = flags h /\
     payload_len h' = payload_len h /\ is_u32 (checksum h')) /\
  (exists h', make_ack seq ack = Some h' /\ verify_checksum h' [] = Some true) /\
  (exists h', make_syn seq = Some h' /\ verify_checksum h' [] = Some true).
Proof.
  intros Hp. assert (bytes_ok []) as H0 by constructor. split_and!.
  - eexists. rewrite compute_checksum_eq by done. split_and!; try done; [|by apply packet_crc_u32..].
    by eapply computed_verifies, compute_checksum_eq.
  - unfold make_ack. rewrite compute_checksum_eq by done. eexists. split; [done|].
    by eapply computed_verifies, compute_checksum_eq.
  - unfold make_syn. rewrite compute_checksum_eq by done. eexists. split; [done|].
    by eapply computed_verifies, compute_checksum_eq.
Qed.

(** C28: a packet whose checksum verifies is rejected after every error burst
    of at most 32 bits, at any bit offset, that leaves the length field and the
    length of the packet as they are and does not straddle the border of the
    checksum field: it lies in the fields before the checksum, in the
    checksum itself, or in the payload. *)
Theorem corruption_detected (pkt pkt' : list Z) (D s k : Z) :
  bytes_ok pkt -> bytes_ok pkt' -> length pkt' = length pkt ->
  Z.of_nat (length pkt) = 16 + payload_len (header_of (take 16 pkt)) ->
  payload_len (header_of (take 16 pkt')) = payload_len (header_of (take 16 pkt)) ->
  packet_check pkt = Some true ->
  le_num pkt' = Z.lxor (le_num pkt) (Z.shiftl D s) -> 0 < D < 2 ^ k -> 0 <= k <= 32 -> 0 <= s ->
  s + k <= 96 \/ 96 <= s /\ s + k <= 128 \/ 128 <= s ->
  packet_check pkt' = Some false.
Proof.
  intros Hb Hb' Hlen Hl Hpl Hv E HD Hk Hs Hpos. assert (0 <= payload_len (header_of (take 16 pkt))) as Hp
    by (apply le_num_range, Forall_take, Forall_drop, Forall_take, Hb).
  assert (Z.of_nat (length pkt') = 16 + payload_len (header_of (take 16 pkt'))) as Hl' by lia.
  rewrite packet_check_eq in Hv |- * by (done || lia). apply (inj Some), Z.eqb_eq in Hv.
  f_equal. apply Z.eqb_neq. destruct (decide (96 <= s /\ s + k <= 128)) as [[H96 H128]|Hout].
  - destruct (burst_checksum pkt pkt' D s k) as [Hc ->]; [done || lia..|].
    rewrite Hv. by apply not_eq_sym.
  - destruct (burst_covered pkt pkt' D s k) as [-> Em]; [done || lia..|]. rewrite <-Hv.
    rewrite !crc32_ref_eq by (by apply covered_ok). intros Heq%lxor_inj_r. symmetry in Heq. revert Heq.
    apply (crc_burst _ _ _ D s); try done; try (by apply covered_ok).
    + by rewrite !length_app, !length_take, !length_drop, Hlen.
    + split; [lia|]. apply Z.lt_le_trans with (2 ^ k); [lia|]. apply Z.pow_le_mono_r; lia.
Qed.

(** A data packet, and the same packet with a 12-bit burst that starts in the
    middle of its first payload byte. *)
Definition demo_packet : list Z :=
  Eval vm_compute in
    header_bytes (default (make_data 0 0 0) (compute_checksum (make_data 42 7 3) [1; 2; 3])) ++ [1; 2; 3].

Lemma corruption_detected_witness : packet_check (take 16 demo_packet ++ [0x91; 0xA2; 3]) = Some false.
Proof.
  apply (corruption_detected demo_packet (take 16 demo_packet ++ [0x91; 0xA2; 3]) 0xA09 132 12).
  - repeat constructor; unfold is_u8; lia.
  - repeat constructor; unfold is_u8; lia.
  - vm_compute. reflexivity.
  - vm_compute. reflexivity.
  - vm_compute. reflexivity.
  - vm_compute. reflexivity.
  - vm_compute. reflexivity.
  - lia.
  - lia.
  - lia.
  - right. right. lia.
Defined.
