(* ===== verification/RecvBitmap.v ===== *)
(** * The receive window (src/tcp_lite.cpp, RecvBitmap)

    [std::bitset<256>] is a [Z] below [2^256].  The contract is stated over
    unbounded packet numbers: the window starts at number [B] and the numbers
    in [R] have arrived; the code sees them modulo [2^32]. *)

From S2P Require Import Prelude TcpHeader.
From stdpp Require Import base list_numbers gmap option list.
#[local] Open Scope Z_scope.

Record RecvBitmap := mkBitmap { received_ : Z; base_seq_ : Z }.

Definition RecvBitmap_init : RecvBitmap := mkBitmap 0 0.

Definition mark_received (bm : RecvBitmap) (seq : Z) : bool * RecvBitmap :=
  let off := i32 (u32 (seq - base_seq_ bm)) in
  if off <? 0 then (false, bm)
  else if TCP_LITE_WINDOW <=? off then (false, bm)
  else if Z.testbit (received_ bm) off then (false, bm)
  else (true, mkBitmap (Z.setbit (received_ bm) off) (base_seq_ bm)).

(** [while (n < TCP_LITE_WINDOW && received_[n]) ++n;] with at most [fuel] rounds. *)
Fixpoint count_received (fuel : nat) (bits n : Z) : Z :=
  match fuel with
  | O => n
  | S fuel =>
      if (n <? TCP_LITE_WINDOW) && Z.testbit bits n
      then count_received fuel bits (n + 1) else n
  end.

(** The loop stops at [n = 256] at the latest. *)
Definition cumulative_ack (bm : RecvBitmap) : Z :=
  u32 (base_seq_ bm + count_received 256 (received_ bm) 0).

Definition advance (bm : RecvBitmap) (new_base : Z) : RecvBitmap :=
  let shift := u32 (new_base - base_seq_ bm) in
  if shift =? 0 then bm
  else if TCP_LITE_WINDOW <=? shift then mkBitmap 0 new_base
  else mkBitmap (Z.shiftr (received_ bm) shift) new_base.

Definition has (bm : RecvBitmap) (seq : Z) : bool :=
  let off := i32 (u32 (seq - base_seq_ bm)) in
  if (off <? 0) || (TCP_LITE_WINDOW <=? off) then false else Z.testbit (received_ bm) off.

(** ** The contract *)

Record window (B : Z) (R : gset Z) (bm : RecvBitmap) : Prop := {
  w_base : base_seq_ bm = u32 B;
  w_bits : 0 <= received_ bm < 2 ^ 256;
  w_mem : forall off, 0 <= off < 256 -> Z.testbit (received_ bm) off = bool_decide (B + off ∈ R);
  w_range : forall n, n ∈ R -> B <= n < B + 256
}.

(** Packet number [n] is within the reach of 32-bit comparisons from [B]. *)
Definition near (n B : Z) : Prop := -2 ^ 31 <= n - B < 2 ^ 31.

Lemma seq_off bm B R n : window B R bm -> near n B -> i32 (u32 (u32 n - base_seq_ bm)) = n - B.
Proof. intros W Hn. rewrite (w_base _ _ _ W). by apply i32_seq_diff. Qed.

Lemma window_init : window 0 ∅ RecvBitmap_init.
Proof. split; simpl; [done|lia| |set_solver]. intros. by rewrite Z.bits_0, bool_decide_false by set_solver. Qed.

Lemma setbit_256 x i : 0 <= x < 2 ^ 256 -> 0 <= i < 256 -> 0 <= Z.setbit x i < 2 ^ 256.
Proof.
  intros Hx Hi. assert (0 <= Z.setbit x i).
  { rewrite Z.setbit_spec'. apply Z.lor_nonneg. lia. }
  split; [done|]. destruct (decide (Z.setbit x i = 0)) as [->|]; [lia|]. apply Z.log2_lt_pow2; [lia|].
  rewrite Z.setbit_spec', Z.log2_lor by lia. apply Z.max_lub_lt; [|rewrite Z.log2_pow2; lia].
  destruct (decide (x = 0)) as [->|]; [done|]. apply Z.log2_lt_pow2; lia.
Qed.

Lemma has_ok B R bm n : window B R bm -> near n B -> has bm (u32 n) = bool_decide (n ∈ R).
Proof.
  intros W Hn. unfold has. rewrite (seq_off _ _ _ _ W Hn). unfold TCP_LITE_WINDOW.
  destruct (Z.ltb_spec (n - B) 0); simpl.
  { symmetry. apply bool_decide_false. intros ?%(w_range _ _ _ W). lia. }
  destruct (Z.leb_spec 256 (n - B)).
  { symmetry. apply bool_decide_false. intros ?%(w_range _ _ _ W). lia. }
  rewrite (w_mem _ _ _ W) by lia. by rewrite Zplus_minus.
Qed.

Lemma mark_received_ok B R bm n :
  window B R bm -> near n B ->
  mark_received bm (u32 n) = (false, bm) /\ (n < B \/ B + 256 <= n \/ n ∈ R) \/
  exists bm', mark_received bm (u32 n) = (true, bm') /\ B <= n < B + 256 /\ n ∉ R /\
    window B ({[n]} ∪ R) bm'.
Proof.
  intros W Hn. unfold mark_received. rewrite (seq_off _ _ _ _ W Hn). unfold TCP_LITE_WINDOW.
  destruct (Z.ltb_spec (n - B) 0); [left; split; [done|lia]|].
  destruct (Z.leb_spec 256 (n - B)); [left; split; [done|lia]|].
  rewrite (w_mem _ _ _ W), Zplus_minus by lia. case_bool_decide as HR; [left; by auto|].
  right. eexists. split_and!; [done|lia|lia|done|]. split; simpl.
  - apply W.
  - apply setbit_256; [apply W|lia].
  - intros off Hoff. destruct (decide (off = n - B)) as [->|Hne].
    + rewrite Z.setbit_eq, bool_decide_true by (lia || rewrite Zplus_minus; set_solver). done.
    + rewrite Z.setbit_neq, (w_mem _ _ _ W) by lia. apply bool_decide_ext.
      split; [set_solver|]. rewrite elem_of_union, elem_of_singleton. intros [?|?]; [lia|done].
  - intros k. rewrite elem_of_union, elem_of_singleton. intros [->|Hk]; [lia|by apply (w_range _ _ _ W)].
Qed.

(** The first number of the window that has not arrived. *)
Definition first_missing (B : Z) (R : gset Z) (f : Z) : Prop :=
  B <= f <= B + 256 /\ (forall n, B <= n < f -> n ∈ R) /\ f ∉ R.

Lemma count_received_ok B R bm fuel n :
  window B R bm -> 0 <= n <= 256 -> 256 - n <= Z.of_nat fuel ->
  (forall k, B <= k < B + n -> k ∈ R) ->
  first_missing B R (B + count_received fuel (received_ bm) n).
Proof.
  intros W. revert n. induction fuel as [|fuel IH]; intros n Hn Hf Hall; cbn [count_received].
  { split_and!; [lia|lia|done|]. intros ?%(w_range _ _ _ W). lia. }
  unfold TCP_LITE_WINDOW. destruct (Z.ltb_spec n 256); simpl.
  - rewrite (w_mem _ _ _ W) by lia. case_bool_decide.
    + apply IH; [lia|lia|]. intros k Hk. destruct (decide (k = B + n)) as [->|]; [done|]. apply Hall. lia.
    + split_and!; [lia|lia|done|done].
  - split_and!; [lia|lia|done|]. intros ?%(w_range _ _ _ W). lia.
Qed.

Lemma cumulative_ack_ok B R bm :
  window B R bm -> exists f, cumulative_ack bm = u32 f /\ first_missing B R f.
Proof.
  intros W. unfold cumulative_ack. rewrite (w_base _ _ _ W), u32_add_l. eexists. split; [done|].
  apply count_received_ok; [done|lia|lia|lia].
Qed.

Lemma advance_ok B B' R bm :
  window B R bm -> B <= B' < B + 2 ^ 32 -> window B' (filter (fun n => B' <= n) R) (advance bm (u32 B')).
Proof.
  intros W HB. unfold advance. rewrite (w_base _ _ _ W), u32_sub, (u32_id (B' - B)) by (unfold is_u32; lia).
  assert (forall n, n ∈ filter (fun n => B' <= n) R -> B' <= n < B' + 256) as Hr.
  { intros n [? Hn]%elem_of_filter. apply (w_range _ _ _ W) in Hn. lia. }
  destruct (Z.eqb_spec (B' - B) 0).
  { assert (B' = B) as -> by lia. assert (filter (fun n => B <= n) R = R) as ->; [|done].
    apply set_eq. intros n. rewrite elem_of_filter. split; [tauto|]. intros Hn. split; [|done].
    apply (w_range _ _ _ W) in Hn. lia. }
  unfold TCP_LITE_WINDOW. destruct (Z.leb_spec 256 (B' - B)); split; simpl; try done; try lia.
  - intros off Hoff. rewrite Z.bits_0, bool_decide_false; [done|].
    intros [_ Hn]%elem_of_filter. apply (w_range _ _ _ W) in Hn. lia.
  - rewrite Z.shiftr_div_pow2 by lia. pose proof (w_bits _ _ _ W).
    split; [apply Z.div_pos; lia|]. apply Z.div_lt_upper_bound; [lia|].
    assert (0 < 2 ^ (B' - B)) by lia. nia.
  - intros off Hoff. rewrite Z.shiftr_spec by lia. destruct (decide (off + (B' - B) < 256)).
    + rewrite (w_mem _ _ _ W) by lia. apply bool_decide_ext. rewrite elem_of_filter.
      replace (B + (off + (B' - B))) with (B' + off) by lia. split; [|tauto]. intros; split; [lia|done].
    + rewrite bool_decide_false.
      2:{ intros [_ Hn]%elem_of_filter. apply (w_range _ _ _ W) in Hn. lia. }
      pose proof (w_bits _ _ _ W). destruct (decide (received_ bm = 0)) as [->|]; [apply Z.bits_0|].
      apply Z.bits_above_log2; [lia|]. assert (Z.log2 (received_ bm) < 256) by (apply Z.log2_lt_pow2; lia). lia.
Qed.

(** ** Properties *)

(** C23: the bitmap implements a window over unbounded packet numbers, across
    the wrap-around of the 32-bit sequence numbers.  For every number within
    [2^31] of the base: [mark_received] accepts exactly the numbers of the
    window that had not arrived and records nothing else; [has] tells whether a
    number has arrived; [cumulative_ack] is the first number that has not; and
    [advance] moves the window forward and forgets exactly what it leaves
    behind. *)
Theorem recv_window_refines (B n B' : Z) (R : gset Z) (bm : RecvBitmap) :
  window B R bm -> near n B -> B <= B' < B + 2 ^ 32 ->
  (exists bm', mark_received bm (u32 n) =
      (bool_decide (B <= n < B + 256 /\ n ∉ R), bm') /\
    window B (if bool_decide (B <= n < B + 256 /\ n ∉ R) then {[n]} ∪ R else R) bm') /\
  has bm (u32 n) = bool_decide (n ∈ R) /\
  (exists f, cumulative_ack bm = u32 f /\ first_missing B R f) /\
  window B' (filter (fun k => B' <= k) R) (advance bm (u32 B')).
Proof.
  intros W Hn HB. split_and!; eauto using has_ok, cumulative_ack_ok, advance_ok.
  destruct (mark_received_ok _ _ _ _ W Hn) as [[-> Hc]|(bm' & -> & Hr & HnR & W')].
  - exists bm. rewrite bool_decide_false; [done|]. intros [? ?]. destruct Hc as [?|[?|?]]; [lia|lia|done].
  - exists bm'. by rewrite bool_decide_true.
Qed.

(** The base wraps: packet 2^32 has arrived, 2^32 - 1 is awaited. *)
Definition wrap_bitmap : RecvBitmap := snd (mark_received (mkBitmap 0 (2 ^ 32 - 1)) 0).

Lemma wrap_window : window (2 ^ 32 - 1) ({[2 ^ 32]} ∪ ∅) wrap_bitmap.
Proof.
  assert (window (2 ^ 32 - 1) ∅ (mkBitmap 0 (2 ^ 32 - 1))) as W0.
  { split; simpl; [done|lia| |set_solver]. intros. by rewrite Z.bits_0, bool_decide_false by set_solver. }
  assert (near (2 ^ 32) (2 ^ 32 - 1)) as Hn by (unfold near; lia).
  destruct (mark_received_ok _ _ _ (2 ^ 32) W0 Hn) as [[E _]|(bm' & E & _ & _ & W')].
  - vm_compute in E. discriminate E.
  - unfold wrap_bitmap. change 0 with (u32 (2 ^ 32)) at 2. rewrite E. exact W'.
Qed.

Lemma recv_window_refines_witness :
  cumulative_ack (snd (mark_received wrap_bitmap 4294967295)) = 1 /\
  (exists bm', mark_received wrap_bitmap (u32 (2 ^ 32 - 1)) = (true, bm')) /\
  has wrap_bitmap (u32 (2 ^ 32 - 1)) = false.
Proof.
  split; [reflexivity|].
  destruct (recv_window_refines (2 ^ 32 - 1) (2 ^ 32 - 1) (2 ^ 32) ({[2 ^ 32]} ∪ ∅) wrap_bitmap)
    as ((bm' & H1 & _) & H2 & _).
  - exact wrap_window.
  - unfold near. lia.
  - lia.
  - split; [|rewrite H2; vm_compute; reflexivity]. exists bm'. rewrite H1. f_equal; vm_compute; reflexivity.
Defined.
