(* ===== verification/UnackedQueue.v ===== *)
(** * The unacknowledged packets (src/tcp_lite.cpp, UnackedQueue)

    256 slots indexed by [seq & 255], each holding a buffer of the pool.  The
    contract is stated over unbounded packet numbers: a map from the packet
    numbers of a window of 256 to the buffer and the send time of each. *)

From S2P Require Import Prelude OsMem PoolIface BufferPool TcpHeader RecvBitmap.
From stdpp Require Import base list_numbers gmap option list.
#[local] Open Scope Z_scope.

(** [s_buf = None] is the null pointer. *)
Record Slot := mkSlot { s_buf : option Z; s_tsc : Z; s_seq : Z; s_occupied : bool }.

Definition Slot_init : Slot := mkSlot None 0 0 false.
Definition UnackedQueue_init : list Slot := replicate 256 Slot_init.

(** [seq & (TCP_LITE_WINDOW - 1)] *)
Definition slot_index (seq : Z) : Z := Z.land seq (TCP_LITE_WINDOW - 1).

Section queue.
Context {P : Type} `{PoolOps P}.

Definition mark_sent (q : list Slot) (p : P) (seq buf sent_tsc : Z) : option (list Slot * P) :=
  s ← aget q (slot_index seq);
  p ← match s_buf s with
      | Some b => if s_occupied s then release b p else Some p
      | None => Some p
      end;
  q ← aset q (slot_index seq) (mkSlot (Some buf) sent_tsc seq true);
  Some (q, p).

(** The loop over the slots; [newest] are [newest_tsc], [newest_seq] and [any].
    Releasing the null pointer is a failed assertion. *)
Fixpoint acked_loop (q : list Slot) (up_to_seq : Z) (newest : Z * Z * bool) (p : P) :
    option (Z * Z * bool * list Slot * P) :=
  match q with
  | [] => Some (newest, [], p)
  | s :: q =>
      if s_occupied s && (i32 (u32 (s_seq s - up_to_seq)) <? 0) then
        let '(newest_tsc, newest_seq, any) := newest in
        let newest :=
          if negb any || (0 <? i32 (u32 (s_seq s - newest_seq)))
          then (s_tsc s, s_seq s, true) else newest in
        b ← s_buf s;
        p ← release b p;
        '(r, q', p) ← acked_loop q up_to_seq newest p;
        Some (r, mkSlot None (s_tsc s) (s_seq s) false :: q', p)
      else
        '(r, q', p) ← acked_loop q up_to_seq newest p;
        Some (r, s :: q', p)
  end.

Definition mark_acked (q : list Slot) (p : P) (up_to_seq : Z) : option (Z * list Slot * P) :=
  '(newest_tsc, newest_seq, any, q, p) ← acked_loop q up_to_seq (0, 0, false) p;
  Some (if any : bool then newest_tsc else 0, q, p).

Fixpoint release_all (q : list Slot) (p : P) : option (list Slot * P) :=
  match q with
  | [] => Some ([], p)
  | s :: q =>
      p ← match s_buf s with
          | Some b => if s_occupied s then release b p else Some p
          | None => Some p
          end;
      '(q', p) ← release_all q p;
      Some (mkSlot None (s_tsc s) (s_seq s) false :: q', p)
  end.
End queue.

Definition check_timeouts (q : list Slot) (now_tsc timeout_tsc : Z) : list Z :=
  omap (fun s => if s_occupied s && (timeout_tsc <=? u64 (now_tsc - s_tsc s))
                 then Some (s_seq s) else None) q.

Definition buffer_for (q : list Slot) (seq : Z) : option (option Z) :=
  s ← aget q (slot_index seq);
  Some (if s_occupied s && (s_seq s =? seq) then s_buf s else None).

Definition touch (q : list Slot) (seq now_tsc : Z) : option (list Slot) :=
  s ← aget q (slot_index seq);
  if s_occupied s && (s_seq s =? seq)
  then aset q (slot_index seq) (mkSlot (s_buf s) now_tsc (s_seq s) (s_occupied s))
  else Some q.

Definition occupied (q : list Slot) (seq : Z) : option bool :=
  s ← aget q (slot_index seq);
  Some (s_occupied s && (s_seq s =? seq)).

(** ** The contract *)

(** What one slot holds: packet number, buffer, send time. *)
Definition slot_view (s : Slot) (v : option (Z * Z * Z)) : Prop :=
  match v with
  | Some (n, b, t) => s = mkSlot (Some b) t (u32 n) true
  | None => s_occupied s = false
  end.

(** [E !! n = Some (b, t)]: packet [n] is unacknowledged, in buffer [b], last
    sent at [t].  [U] is the oldest number that may be in the queue. *)
Definition entry_at (E : gmap Z (Z * Z)) (U i : Z) : option (Z * Z * Z) :=
  let n := U + (i - U) mod 256 in
  '(b, t) ← E !! n; Some (n, b, t).

Record queue (U : Z) (E : gmap Z (Z * Z)) (q : list Slot) : Prop := {
  q_len : length q = 256%nat;
  q_range : forall n e, E !! n = Some e -> U <= n < U + 256;
  q_slots : forall i s, 0 <= i < 256 -> aget q i = Some s -> slot_view s (entry_at E U i)
}.

Lemma slot_index_eq n : slot_index (u32 n) = n mod 256.
Proof.
  unfold slot_index, TCP_LITE_WINDOW. change 256 with (2 ^ 8). rewrite land_mask by lia.
  unfold u32. apply mod_pow2_narrow. lia.
Qed.

Lemma slot_index_range n : 0 <= n mod 256 < 256.
Proof. apply Z.mod_pos_bound. lia. Qed.

(** The slot of a number of the window is its own. *)
Lemma window_slot U n : U <= n < U + 256 -> U + (n mod 256 - U) mod 256 = n.
Proof. intros Hn. rewrite Zminus_mod_idemp_l. rewrite Z.mod_small; lia. Qed.

Lemma entry_at_slot E U n :
  U <= n < U + 256 -> entry_at E U (n mod 256) = '(b, t) ← E !! n; Some (n, b, t).
Proof. intros Hn. unfold entry_at. by rewrite window_slot. Qed.

Lemma queue_lookup U E q n :
  queue U E q -> U <= n < U + 256 ->
  exists s, aget q (slot_index (u32 n)) = Some s /\ slot_view s ('(b, t) ← E !! n; Some (n, b, t)).
Proof.
  intros Q Hn. rewrite slot_index_eq. pose proof (slot_index_range n).
  destruct (aget_is_Some q (n mod 256)) as [s Hs]; [rewrite (q_len _ _ _ Q); lia|].
  exists s. split; [done|]. rewrite <-(entry_at_slot E U n) by done. by apply Q.
Qed.

Lemma entry_at_insert E U n e i :
  U <= n < U + 256 -> 0 <= i < 256 ->
  entry_at (<[n := e]> E) U i =
    if decide (i = n mod 256) then Some (n, fst e, snd e) else entry_at E U i.
Proof.
  intros Hn Hi. case_decide as Hd.
  - subst i. rewrite entry_at_slot, lookup_insert_eq by done. by destruct e.
  - unfold entry_at. rewrite lookup_insert_ne; [done|]. intros ->. apply Hd.
    rewrite Zplus_mod_idemp_r, Zplus_minus. symmetry. by apply Z.mod_small.
Qed.

Lemma queue_insert U E q n b t :
  queue U E q -> U <= n < U + 256 ->
  exists q', aset q (slot_index (u32 n)) (mkSlot (Some b) t (u32 n) true) = Some q' /\
    queue U (<[n := (b, t)]> E) q'.
Proof.
  intros Q Hn. rewrite slot_index_eq. pose proof (slot_index_range n) as Hr.
  rewrite aset_Some by (rewrite (q_len _ _ _ Q); lia). eexists. split; [done|]. split.
  - rewrite length_insert. apply Q.
  - intros k e. destruct (decide (k = n)) as [->|]; [done|]. rewrite lookup_insert_ne by done. apply Q.
  - intros i s Hi. rewrite aget_insert by (rewrite (q_len _ _ _ Q); lia).
    rewrite entry_at_insert by done. case_decide; case_decide; try congruence.
    + intros. by simplify_eq.
    + by apply Q.
Qed.

(** ** Looping over the slots *)

(** What the slots hold, in the order of the array. *)
Definition views (U : Z) (E : gmap Z (Z * Z)) : list (option (Z * Z * Z)) :=
  entry_at E U <$> seqZ 0 256.

Lemma views_lookup U E (i : nat) v :
  views U E !! i = Some v <-> (i < 256)%nat /\ v = entry_at E U (Z.of_nat i).
Proof.
  unfold views. rewrite list_lookup_fmap. destruct (decide (i < 256)%nat).
  - rewrite lookup_seqZ_lt by lia. simpl. rewrite Z.add_0_l. split; [intros; by simplify_eq|].
    intros [_ ->]. done.
  - rewrite lookup_seqZ_ge by lia. simpl. split; [done|]. intros []. lia.
Qed.

Lemma queue_views U E q :
  (forall n e, E !! n = Some e -> U <= n < U + 256) ->
  queue U E q <-> Forall2 slot_view q (views U E).
Proof.
  intros Hr. split.
  - intros Q. apply Forall2_same_length_lookup. split.
    { unfold views. rewrite length_fmap, length_seqZ, (q_len _ _ _ Q). lia. }
    intros i s v Hs [Hi ->]%views_lookup. apply Q; [lia|]. apply aget_Some. rewrite Nat2Z.id. split; [lia|done].
  - intros [Hl Hv]%Forall2_same_length_lookup. unfold views in Hl. rewrite length_fmap, length_seqZ in Hl.
    split; [lia|done|]. intros i s Hi [_ Hs]%aget_Some. apply (Hv (Z.to_nat i)); [done|].
    apply views_lookup. rewrite Z2Nat.id by lia. split; [lia|done].
Qed.

Lemma elem_of_views U E n b t :
  (forall n e, E !! n = Some e -> U <= n < U + 256) ->
  Some (n, b, t) ∈ views U E <-> E !! n = Some (b, t).
Proof.
  intros Hr. rewrite list_elem_of_lookup. setoid_rewrite views_lookup. split.
  - intros (i & _ & Hv). unfold entry_at in Hv. destruct (E !! _) as [[b' t']|] eqn:He; simplify_eq/=. done.
  - intros He. pose proof (slot_index_range n). exists (Z.to_nat (n mod 256)). split; [lia|].
    rewrite Z2Nat.id by lia. rewrite entry_at_slot by (by eapply Hr). by rewrite He.
Qed.

(** The buffers of the packets below [a]. *)
Definition acked_view (a : Z) (v : option (Z * Z * Z)) : option Z :=
  '(n, b, _) ← v; if decide (n < a) then Some b else None.

(** What is left of a slot. *)
Definition keep_view (a : Z) (v : option (Z * Z * Z)) : option (Z * Z * Z) :=
  '(n, b, t) ← v; if decide (n < a) then None else v.

(** The newest acknowledged packet seen so far. *)
Definition newest_ok (vs : list (option (Z * Z * Z))) (a : Z) (newest : Z * Z * bool) : Prop :=
  match newest with
  | (t, m, true) => exists n b, m = u32 n /\ n < a /\ Some (n, b, t) ∈ vs /\
      forall n' b' t', Some (n', b', t') ∈ vs -> n' < a -> n' <= n
  | (t, m, false) => forall n' b' t', Some (n', b', t') ∈ vs -> a <= n'
  end.

Section loops.
Context {P : Type} `{PoolSpec P}.
Implicit Types (p : P).

Lemma newest_step done n b t a U newest :
  newest_ok done a newest -> n < a ->
  (forall n' b' t', Some (n', b', t') ∈ done ++ [Some (n, b, t)] -> U <= n' < U + 256) ->
  newest_ok (done ++ [Some (n, b, t)]) a
    (let '(newest_tsc, newest_seq, any) := newest in
     if negb any || (0 <? i32 (u32 (u32 n - newest_seq))) then (t, u32 n, true) else newest).
Proof.
  intros Hnew Hna Hr. assert (U <= n < U + 256) as Hn by (apply (Hr n b t); set_solver).
  destruct newest as [[t0 m] [|]]; simpl in *.
  - destruct Hnew as (n0 & b0 & -> & Hn0 & Hin & Hmax).
    assert (U <= n0 < U + 256) as Hr0 by (apply (Hr n0 b0 t0); set_solver).
    rewrite i32_seq_diff by lia. destruct (Z.ltb_spec 0 (n - n0)).
    + exists n, b. split_and!; [done|done|set_solver|]. intros n' b' t' Hin' Hlt.
      apply elem_of_app in Hin' as [Hin'|Hin']; [specialize (Hmax _ _ _ Hin' Hlt); lia|].
      apply list_elem_of_singleton in Hin'. simplify_eq. lia.
    + exists n0, b0. split_and!; [done|done|set_solver|]. intros n' b' t' Hin' Hlt.
      apply elem_of_app in Hin' as [Hin'|Hin']; [by eapply Hmax|].
      apply list_elem_of_singleton in Hin'. simplify_eq. lia.
  - exists n, b. split_and!; [done|done|set_solver|]. intros n' b' t' Hin' Hlt.
    apply elem_of_app in Hin' as [Hin'|Hin']; [specialize (Hnew _ _ _ Hin'); lia|].
    apply list_elem_of_singleton in Hin'. simplify_eq. lia.
Qed.

Lemma newest_skip done v a newest :
  newest_ok done a newest -> (forall n b t, v = Some (n, b, t) -> a <= n) ->
  newest_ok (done ++ [v]) a newest.
Proof.
  intros Hnew Hv. destruct newest as [[t0 m] [|]]; simpl in *.
  - destruct Hnew as (n0 & b0 & -> & Hn0 & Hin & Hmax). exists n0, b0. split_and!; [done|done|set_solver|].
    intros n' b' t' [Hin'|Hin'%list_elem_of_singleton]%elem_of_app Hlt; [by eapply Hmax|].
    specialize (Hv _ _ _ (eq_sym Hin')). lia.
  - intros n' b' t' [Hin'|Hin'%list_elem_of_singleton]%elem_of_app; [by eapply Hnew|].
    by eapply Hv.
Qed.

Lemma acked_loop_ok q vs done a U newest p held :
  Forall2 slot_view q vs -> newest_ok done a newest ->
  (forall n b t, Some (n, b, t) ∈ done ++ vs -> U <= n < U + 256) -> U <= a <= U + 256 ->
  pool_ok p held -> NoDup (omap (acked_view a) vs) ->
  (forall b, b ∈ omap (acked_view a) vs -> b ∈ held) ->
  exists newest' q' p', acked_loop q (u32 a) newest p = Some (newest', q', p') /\
    Forall2 slot_view q' (keep_view a <$> vs) /\ newest_ok (done ++ vs) a newest' /\
    pool_ok p' (held ∖ list_to_set (omap (acked_view a) vs)) /\
    pool_frame p p' (held ∖ list_to_set (omap (acked_view a) vs)).
Proof.
  intros Hv. revert done newest p held.
  induction Hv as [|s v q vs Hs Hv IH]; intros done newest p held Hnew Hr Ha Hok Hnd Hh.
  { exists newest, [], p. rewrite app_nil_r. simpl. rewrite difference_empty_L.
    split_and!; [done|constructor|done|done|apply pool_frame_refl]. }
  assert (done ++ v :: vs = (done ++ [v]) ++ vs) as Hassoc by (by rewrite <-app_assoc).
  rewrite Hassoc in *. destruct v as [[[n b] t]|]; simpl in Hs.
  - subst s. cbn [acked_loop s_occupied s_seq s_buf s_tsc].
    assert (U <= n < U + 256) as Hn by (apply (Hr n b t); set_solver).
    rewrite (i32_seq_diff n a) by lia. simpl in Hnd, Hh |- *. destruct (Z.ltb_spec (n - a) 0); simpl.
    + rewrite decide_True in Hnd by lia. rewrite decide_True in Hh by lia.
      rewrite !(decide_True (P := n < a)) by lia. apply NoDup_cons in Hnd as [Hb Hnd].
      destruct newest as [[t0 m] any].
      destruct (release_frame p held b Hok) as (p1 & -> & Hok1 & Hf1); [apply Hh; set_solver|]. simpl.
      destruct (IH (done ++ [Some (n, b, t)]) (if negb any || (0 <? i32 (u32 (u32 n - m)))
        then (t, u32 n, true) else (t0, m, any)) p1 (held ∖ {[b]})) as (nw & q' & p' & -> & Hv' & Hnw & Hok' & Hf');
        [|done|done|done|done| |].
      { eapply (newest_step done n b t a U (t0, m, any)); [done|lia|].
        intros n' b' t' Hin. apply (Hr n' b' t'), elem_of_app. by left. }
      { intros b' Hb'. apply elem_of_difference. split; [apply Hh; set_solver|]. intros ->%elem_of_singleton. done. }
      exists nw. eexists. exists p'. split; [done|]. split; [by constructor|].
      rewrite difference_difference_l_L in Hok', Hf'. simpl. split_and!; [done|done|].
      eapply pool_frame_trans; [|done]. eapply pool_frame_mono; [done|]. set_solver.
    + rewrite decide_False in Hnd by lia. rewrite decide_False in Hh by lia.
      rewrite !(decide_False (P := n < a)) by lia.
      destruct (IH (done ++ [Some (n, b, t)]) newest p held) as (nw & q' & p' & -> & Hv' & Hrest); [|done..|].
      { apply newest_skip; [done|]. intros. simplify_eq. lia. }
      exists nw. eexists. exists p'. split; [done|]. split; [by constructor|done].
  - cbn [acked_loop]. rewrite Hs. simpl. simpl in Hnd, Hh.
    destruct (IH (done ++ [None]) newest p held) as (nw & q' & p' & -> & Hv' & Hrest); [|done..|].
    { by apply newest_skip. }
    exists nw. eexists. exists p'. split; [done|]. split; [by constructor|done].
Qed.

Lemma release_all_loop q vs p held :
  Forall2 slot_view q vs -> pool_ok p held ->
  NoDup (omap (fmap (fun e => e.1.2)) vs) ->
  (forall b, b ∈ omap (fmap (fun e => e.1.2)) vs -> b ∈ held) ->
  exists q' p', release_all q p = Some (q', p') /\
    Forall2 slot_view q' ((fun _ => None) <$> vs) /\
    pool_ok p' (held ∖ list_to_set (omap (fmap (fun e => e.1.2)) vs)) /\
    pool_frame p p' (held ∖ list_to_set (omap (fmap (fun e => e.1.2)) vs)).
Proof.
  intros Hv. revert p held. induction Hv as [|s v q vs Hs Hv IH]; intros p held Hok Hnd Hh.
  { exists [], p. simpl. rewrite difference_empty_L. split_and!; [done|constructor|done|apply pool_frame_refl]. }
  destruct v as [[[n b] t]|]; simpl in Hs, Hnd, Hh |- *.
  - subst s. simpl. apply NoDup_cons in Hnd as [Hb Hnd].
    destruct (release_frame p held b Hok) as (p1 & -> & Hok1 & Hf1); [apply Hh; set_solver|]. simpl.
    destruct (IH p1 (held ∖ {[b]})) as (q' & p' & -> & Hv' & Hok' & Hf'); [done|done| |].
    { intros b' Hb'. apply elem_of_difference. split; [apply Hh; set_solver|]. by intros ->%elem_of_singleton. }
    rewrite difference_difference_l_L in Hok', Hf'. eexists _, p'. split_and!; [done|by constructor|done|].
    eapply pool_frame_trans; [|done]. eapply pool_frame_mono; [done|]. set_solver.
  - rewrite Hs. destruct (IH p held) as (q' & p' & Hr & Hv' & Hrest); [done..|].
    exists (mkSlot None (s_tsc s) (s_seq s) false :: q'), p'.
    destruct (s_buf s); simpl; rewrite Hr; simpl; (split_and!; [done|by constructor|apply Hrest|apply Hrest]).
Qed.
End loops.

(** ** The operations on the map *)

(** The buffers the queue owns, and that each owns one of its own. *)
Definition bufs (E : gmap Z (Z * Z)) : gset Z := map_img (fst <$> E).

Definition own_bufs (E : gmap Z (Z * Z)) : Prop :=
  forall n n' b t t', E !! n = Some (b, t) -> E !! n' = Some (b, t') -> n = n'.

Lemma elem_of_bufs E b : b ∈ bufs E <-> exists n t, E !! n = Some (b, t).
Proof.
  unfold bufs. rewrite elem_of_map_img. setoid_rewrite lookup_fmap_Some. split.
  - intros (n & [b' t] & <- & He). eauto.
  - intros (n & t & He). exists n, (b, t). done.
Qed.

Lemma bufs_empty : bufs ∅ = ∅.
Proof.
  apply set_eq. intros b. rewrite elem_of_bufs. split; [|set_solver]. intros (n & t & He). by rewrite lookup_empty in He.
Qed.

Definition kept (a : Z) (E : gmap Z (Z * Z)) : gmap Z (Z * Z) := filter (fun e => a <= e.1) E.
Definition acked (a : Z) (E : gmap Z (Z * Z)) : gmap Z (Z * Z) := filter (fun e => e.1 < a) E.

Lemma kept_Some a E n e : kept a E !! n = Some e <-> E !! n = Some e /\ a <= n.
Proof. apply map_lookup_filter_Some. Qed.

Lemma acked_Some a E n e : acked a E !! n = Some e <-> E !! n = Some e /\ n < a.
Proof. apply map_lookup_filter_Some. Qed.

Lemma entry_at_kept E U a i :
  (forall n e, E !! n = Some e -> U <= n < U + 256) -> U <= a <= U + 256 ->
  entry_at (kept a E) a i = keep_view a (entry_at E U i).
Proof.
  intros Hr Ha. unfold entry_at. set (n := U + (i - U) mod 256). set (k := a + (i - a) mod 256).
  assert (U <= n < U + 256 /\ a <= k < a + 256 /\ (k = n \/ k = n + 256) /\ (n < a <-> k <> n))
    as (Hn & Hk & Hkn & Hlt).
  { pose proof (Z.mod_pos_bound (i - U) 256). pose proof (Z.mod_pos_bound (i - a) 256).
    assert ((k - n) mod 256 = 0) as Hm.
    { subst k n. rewrite <-(Z.mod_0_l 256) by lia. replace 0 with (i - i) by lia. dmlia. }
    subst k n. dmlia. }
  destruct (E !! n) as [[b t]|] eqn:He; simpl.
  - case_decide as Hd.
    + assert (k = n + 256) as -> by tauto. destruct (kept a E !! (n + 256)) as [e|] eqn:Hke; [|done].
      apply kept_Some in Hke as [Hke _]. apply Hr in Hke. lia.
    + assert (k = n) as -> by (destruct (decide (k = n)); tauto || lia).
      rewrite (proj2 (kept_Some a E n (b, t))) by (split; [done|lia]). done.
  - destruct (kept a E !! k) as [e|] eqn:Hke; [|done]. apply kept_Some in Hke as [Hke _].
    destruct Hkn as [-> | ->]; [congruence|]. apply Hr in Hke. lia.
Qed.

Lemma acked_views_bufs U E a :
  (forall n e, E !! n = Some e -> U <= n < U + 256) ->
  list_to_set (omap (acked_view a) (views U E)) = bufs (acked a E).
Proof.
  intros Hr. apply set_eq. intros b. rewrite elem_of_list_to_set, list_elem_of_omap, elem_of_bufs. split.
  - intros ([[[n b'] t]|] & Hin & Hv); simplify_eq/=. case_decide; simplify_eq.
    apply elem_of_views in Hin; [|done]. exists n, t. apply acked_Some. done.
  - intros (n & t & [He Hlt]%acked_Some). exists (Some (n, b, t)). rewrite elem_of_views by done.
    split; [done|]. simpl. by rewrite decide_True.
Qed.

Lemma NoDup_views {B} (f : option (Z * Z * Z) -> option B) U E :
  (forall n e, E !! n = Some e -> U <= n < U + 256) -> f None = None ->
  (forall n b t n' b' t' z, E !! n = Some (b, t) -> E !! n' = Some (b', t') ->
     f (Some (n, b, t)) = Some z -> f (Some (n', b', t')) = Some z -> n = n') ->
  NoDup (omap f (views U E)).
Proof.
  intros Hr H0 Hinj. apply NoDup_omap_inj. intros i j x y z Hx Hy Hfx Hfy.
  destruct x as [[[n b] t]|], y as [[[n' b'] t']|]; try congruence.
  assert (n = n') as <-.
  { apply list_elem_of_lookup_2, elem_of_views in Hx; [|done].
    apply list_elem_of_lookup_2, elem_of_views in Hy; [|done]. by eapply Hinj. }
  apply views_lookup in Hx as [Hi Hx], Hy as [Hj Hy]. unfold entry_at in Hx, Hy.
  destruct (E !! (U + (Z.of_nat i - U) mod 256)) as [[]|]; simplify_eq/=.
  destruct (E !! (U + (Z.of_nat j - U) mod 256)) as [[]|]; simplify_eq/=. dmlia.
Qed.

Section operations.
Context {P : Type} `{PoolSpec P}.
Implicit Types (p : P) (E : gmap Z (Z * Z)) (U : Z) (q : list Slot) (held : gset Z).

Lemma mark_sent_ok U E q p n b t :
  queue U E q -> U <= n < U + 256 -> E !! n = None ->
  exists q', mark_sent q p (u32 n) b t = Some (q', p) /\ queue U (<[n := (b, t)]> E) q'.
Proof.
  intros Q Hn He. unfold mark_sent. destruct (queue_lookup _ _ _ _ Q Hn) as (s & -> & Hs).
  rewrite He in Hs. simpl in Hs. simpl. rewrite Hs.
  destruct (queue_insert _ _ _ _ b t Q Hn) as (q' & Hset & Q'). exists q'. split; [|done].
  destruct (s_buf s); simpl; by rewrite Hset.
Qed.

Lemma mark_acked_ok U E q p held a :
  queue U E q -> U <= a <= U + 256 -> pool_ok p held -> bufs E ⊆ held -> own_bufs E ->
  exists t q' p', mark_acked q p (u32 a) = Some (t, q', p') /\
    queue a (kept a E) q' /\
    pool_ok p' (held ∖ bufs (acked a E)) /\ pool_frame p p' (held ∖ bufs (acked a E)) /\
    (t = 0 /\ acked a E = ∅ \/
     exists n b, acked a E !! n = Some (b, t) /\ forall n', is_Some (acked a E !! n') -> n' <= n).
Proof.
  intros Q Ha Hok Hheld Hown. pose proof (q_range _ _ _ Q) as Hr.
  pose proof (proj1 (queue_views U E q Hr) Q) as Hv.
  destruct (acked_loop_ok q (views U E) [] a U (0, 0, false) p held)
    as ([[t m] any] & q' & p' & Hl & Hv' & Hnew & Hok' & Hf'); try done.
  - simpl. set_solver.
  - intros n b t Hin%elem_of_views; [by eapply Hr|done].
  - apply NoDup_views; [done|done|]. intros n b t n' b' t' z He He' Hz Hz'. simpl in *.
    case_decide; case_decide; simplify_eq. by eapply Hown.
  - intros b Hb. apply Hheld. assert (b ∈ bufs (acked a E)) as Hb'.
    { rewrite <-(acked_views_bufs U) by done. by apply elem_of_list_to_set. }
    apply elem_of_bufs in Hb' as (n & t & [He _]%acked_Some). apply elem_of_bufs. eauto.
  - rewrite acked_views_bufs in Hok', Hf' by done. unfold mark_acked. rewrite Hl. simpl.
    exists (if any then t else 0), q', p'. split_and!; [done| |done|done|].
    + apply queue_views. { intros n e [He ?]%kept_Some. apply Hr in He. lia. }
      assert (views a (kept a E) = keep_view a <$> views U E) as ->; [|done].
      unfold views. rewrite <-list_fmap_compose. apply list_fmap_ext. intros i j _. by apply entry_at_kept.
    + simpl in Hnew. destruct any.
      * destruct Hnew as (n & b & -> & Hna & Hin & Hmax). apply elem_of_views in Hin; [|done].
        right. exists n, b. split; [by apply acked_Some|]. intros n' [[b' t'] [He' Hn']%acked_Some].
        apply (Hmax n' b' t'); [by apply elem_of_views|done].
      * left. split; [done|]. apply map_empty. intros n. apply eq_None_not_Some.
        intros [[b' t'] [He' Hn']%acked_Some]. assert (a <= n); [|lia].
        apply (Hnew n b' t'). by apply elem_of_views.
Qed.

Lemma release_all_ok U E q p held :
  queue U E q -> pool_ok p held -> bufs E ⊆ held -> own_bufs E ->
  exists q' p', release_all q p = Some (q', p') /\ queue U ∅ q' /\
    pool_ok p' (held ∖ bufs E) /\ pool_frame p p' (held ∖ bufs E).
Proof.
  intros Q Hok Hheld Hown. pose proof (q_range _ _ _ Q) as Hr.
  pose proof (proj1 (queue_views U E q Hr) Q) as Hv.
  assert (list_to_set (omap (fmap (fun e => e.1.2)) (views U E)) = bufs E) as Hb.
  { apply set_eq. intros b. rewrite elem_of_list_to_set, list_elem_of_omap, elem_of_bufs. split.
    - intros ([[[n b'] t]|] & Hin & Hz); simplify_eq/=. apply elem_of_views in Hin; eauto.
    - intros (n & t & He). exists (Some (n, b, t)). by rewrite elem_of_views. }
  destruct (release_all_loop q (views U E) p held) as (q' & p' & Hl & Hv' & Hok' & Hf'); [done|done|..].
  - apply NoDup_views; [done|done|]. intros n b t n' b' t' z He He' Hz Hz'. simpl in Hz, Hz'.
    injection Hz as <-. injection Hz' as ->. by eapply Hown.
  - intros b Hin. apply Hheld. rewrite <-Hb. by apply elem_of_list_to_set.
  - rewrite Hb in Hok', Hf'. exists q', p'. split_and!; try done.
    apply queue_views. { intros n e He. by rewrite lookup_empty in He. } assert (views U ∅ = (fun _ => None) <$> views U E) as ->; [|done].
    unfold views. by rewrite <-list_fmap_compose.
Qed.
End operations.

Lemma check_timeouts_ok U E q now timeout x :
  queue U E q ->
  x ∈ check_timeouts q now timeout <->
  exists n b t, E !! n = Some (b, t) /\ x = u32 n /\ timeout <= u64 (now - t).
Proof.
  intros Q. pose proof (q_range _ _ _ Q) as Hr. unfold check_timeouts. rewrite list_elem_of_omap. split.
  - intros (s & [i Hi]%list_elem_of_lookup & Hs).
    pose proof (lookup_lt_Some _ _ _ Hi) as Hlt. rewrite (q_len _ _ _ Q) in Hlt.
    assert (slot_view s (entry_at E U (Z.of_nat i))) as Hv.
    { apply Q; [lia|]. apply aget_Some. rewrite Nat2Z.id. split; [lia|done]. }
    unfold entry_at in Hv. destruct (E !! _) as [[b t]|] eqn:He; simpl in Hv.
    + subst s. simpl in Hs. destruct (Z.leb_spec timeout (u64 (now - t))); simplify_eq. eauto 10.
    + rewrite Hv in Hs. done.
  - intros (n & b & t & He & -> & Ht).
    destruct (queue_lookup U E q n Q) as (s & Hs & Hv); [by eapply Hr|]. rewrite He in Hv. simpl in Hv. subst s.
    exists (mkSlot (Some b) t (u32 n) true). split.
    + apply aget_Some in Hs as [_ Hs]. by eapply list_elem_of_lookup_2.
    + simpl. by rewrite (proj2 (Z.leb_le _ _)).
Qed.

Lemma buffer_for_ok U E q n :
  queue U E q -> U <= n < U + 256 ->
  buffer_for q (u32 n) = Some (fst <$> E !! n) /\ occupied q (u32 n) = Some (bool_decide (is_Some (E !! n))).
Proof.
  intros Q Hn. unfold buffer_for, occupied. destruct (queue_lookup _ _ _ _ Q Hn) as (s & -> & Hv).
  destruct (E !! n) as [[b t]|]; simpl in Hv |- *.
  - subst s. simpl. by rewrite Z.eqb_refl.
  - by rewrite Hv.
Qed.

Lemma touch_ok U E q n b t now :
  queue U E q -> E !! n = Some (b, t) ->
  exists q', touch q (u32 n) now = Some q' /\ queue U (<[n := (b, now)]> E) q'.
Proof.
  intros Q He. pose proof (q_range _ _ _ Q _ _ He) as Hn. unfold touch.
  destruct (queue_lookup _ _ _ _ Q Hn) as (s & -> & Hv). rewrite He in Hv. simpl in Hv. subst s. simpl.
  rewrite Z.eqb_refl. by apply queue_insert.
Qed.

Lemma queue_init U : queue U ∅ UnackedQueue_init.
Proof.
  split; [done|set_solver|]. intros i s Hi [_ Hs]%aget_Some. unfold UnackedQueue_init in Hs.
  apply lookup_replicate in Hs as [-> _]. unfold entry_at. by rewrite lookup_empty.
Qed.

(** ** Properties *)

(** C22: the array of slots implements a map from the packet numbers of a
    256-packet window to buffers and send times, across the wrap-around of the
    sequence numbers.  [mark_sent] adds an entry; [mark_acked] removes exactly
    the entries below the acknowledged number, gives exactly their buffers back
    to the pool and returns the send time of the newest of them (0 if there is
    none); [check_timeouts] lists exactly the entries sent long enough ago;
    [buffer_for] and [occupied] look an entry up. *)
Theorem unacked_queue_refines {P} `{PoolSpec P} (p : P) (held : gset Z)
    (U n a b t now timeout : Z) (E : gmap Z (Z * Z)) (q : list Slot) :
  queue U E q -> U <= n < U + 256 -> U <= a <= U + 256 ->
  pool_ok p held -> bufs E ⊆ held -> own_bufs E ->
  (E !! n = None -> exists q', mark_sent q p (u32 n) b t = Some (q', p) /\
     queue U (<[n := (b, t)]> E) q') /\
  (exists t' q' p', mark_acked q p (u32 a) = Some (t', q', p') /\ queue a (kept a E) q' /\
     pool_ok p' (held ∖ bufs (acked a E)) /\ pool_frame p p' (held ∖ bufs (acked a E)) /\
     (t' = 0 /\ acked a E = ∅ \/
      exists m b', acked a E !! m = Some (b', t') /\ forall m', is_Some (acked a E !! m') -> m' <= m)) /\
  (forall x, x ∈ check_timeouts q now timeout <->
     exists m b' t', E !! m = Some (b', t') /\ x = u32 m /\ timeout <= u64 (now - t')) /\
  buffer_for q (u32 n) = Some (fst <$> E !! n) /\
  occupied q (u32 n) = Some (bool_decide (is_Some (E !! n))).
Proof.
  intros Q Hn Ha Hok Hb Hown.
  split; [eauto using mark_sent_ok|]. split; [eauto using mark_acked_ok|].
  split; [eauto using check_timeouts_ok|]. eauto using buffer_for_ok.
Qed.

(** Packets 2^32 - 1 and 2^32 in the buffers 1 and 2 of a pool of three. *)
Definition demo_E : gmap Z (Z * Z) := <[2 ^ 32 := (2, 200)]> (<[2 ^ 32 - 1 := (1, 100)]> ∅).

Definition demo_q : list Slot :=
  Eval vm_compute in
    match mark_sent UnackedQueue_init demo_pool2 (2 ^ 32 - 1) 1 100 with
    | Some (q, p) => match mark_sent q p 0 2 200 with Some (q, _) => q | None => [] end
    | None => []
    end.

Lemma demo_queue : queue (2 ^ 32 - 1) demo_E demo_q.
Proof.
  destruct (mark_sent_ok (2 ^ 32 - 1) ∅ UnackedQueue_init demo_pool2 (2 ^ 32 - 1) 1 100) as (q1 & H1 & Q1);
    [apply queue_init|lia|done|].
  destruct (mark_sent_ok (2 ^ 32 - 1) (<[2 ^ 32 - 1 := (1, 100)]> ∅) q1 demo_pool2 (2 ^ 32) 2 200)
    as (q2 & H2 & Q2); [done|lia|done|].
  assert (q2 = demo_q) as <-; [|exact Q2].
  vm_compute in H1. injection H1 as <-. vm_compute in H2. injection H2 as <-. reflexivity.
Qed.

Lemma demo_own : own_bufs demo_E.
Proof.
  intros n n' b t t'. unfold demo_E. rewrite !lookup_insert_Some, lookup_empty. intros; naive_solver.
Qed.

Lemma demo_held : bufs demo_E ⊆ {[1]} ∪ ({[2]} ∪ ∅).
Proof.
  intros b (n & t & He)%elem_of_bufs. unfold demo_E in He.
  rewrite !lookup_insert_Some, lookup_empty in He. set_solver.
Qed.

(** Packet 2^32 - 1 is acknowledged by 0, the sequence number of 2^32. *)
Lemma unacked_queue_refines_witness :
  (exists t q' p', mark_acked demo_q demo_pool2 (u32 (2 ^ 32)) = Some (t, q', p') /\
     pool_ok p' (({[1]} ∪ ({[2]} ∪ ∅)) ∖ bufs (acked (2 ^ 32) demo_E))) /\
  buffer_for demo_q (u32 (2 ^ 32)) = Some (Some 2).
Proof.
  assert (bufpool_ok demo_pool2 ({[1]} ∪ ({[2]} ∪ ∅))) as Hok.
  { eapply pa_ok, pool_reach_account; [| | |exact demo_reach]; unfold kEmpty; lia. }
  destruct (unacked_queue_refines demo_pool2 ({[1]} ∪ ({[2]} ∪ ∅)) (2 ^ 32 - 1) (2 ^ 32) (2 ^ 32)
              0 0 0 0 demo_E demo_q) as (_ & (t & q' & p' & Ha & _ & Hp & _) & _ & Hb & _).
  - exact demo_queue.
  - lia.
  - lia.
  - exact Hok.
  - exact demo_held.
  - exact demo_own.
  - split; [|exact Hb]. exists t, q', p'. split; [exact Ha|exact Hp].
Defined.
