(* ===== verification/Rdtsc.v ===== *)
(** * Time stamps (include/rdtsc.h)

    The readings of the time-stamp counter and of the clock are arguments; the
    calibration and the conversions are the source's arithmetic on IEEE 754
    binary64 numbers, computed exactly with the standard library's executable
    specification of floating-point operations (round to nearest, ties to
    even). *)

From S2P Require Import Prelude.
From Stdlib Require Import ZArith SpecFloat.
From stdpp Require Import base option list.
#[local] Open Scope Z_scope.

Definition double : Type := spec_float.

(** [static_cast<double>] of an unsigned integer. *)
Definition u64_to_double (z : Z) : double := binary_normalize 53 1024 z 0 false.
Definition ddiv : double -> double -> double := SFdiv 53 1024.
Definition dmul : double -> double -> double := SFmul 53 1024.

(** [static_cast<uint64_t>] of a double: truncation, and undefined behaviour
    ([None]) where the truncated value does not fit. *)
Definition double_to_u64 (x : double) : option Z :=
  match x with
  | S754_zero _ => Some 0
  | S754_finite neg m e =>
      let v := if 0 <=? e then Z.pos m * 2 ^ e else Z.pos m / 2 ^ (- e) in
      if neg then (if v =? 0 then Some 0 else None)
      else if v <? 2 ^ 64 then Some v else None
  | _ => None
  end.

(** [mono_ns]: the two fields of the [timespec]. *)
Definition mono_ns (tv_sec tv_nsec : Z) : Z := u64 (u64 (u64 tv_sec * 1000000000) + tv_nsec).

(** [tsc_frequency_ghz], given what it has [cached] and the readings it takes
    around the sleep; the result is also the new cached value. *)
Definition tsc_frequency_ghz (cached : double) (c0 n0 c1 n1 : Z) : double :=
  match cached with
  | S754_zero _ => ddiv (u64_to_double (u64 (c1 - c0))) (u64_to_double (u64 (n1 - n0)))
  | _ => cached
  end.

Definition cycles_to_ns (ghz : double) (cycles : Z) : double := ddiv (u64_to_double cycles) ghz.

Lemma double_to_u64_range x z : double_to_u64 x = Some z -> 0 <= z < 2 ^ 64.
Proof.
  destruct x as [b| | |b m e]; simpl; try done; [by intros [= <-]|].
  set (v := if 0 <=? e then Z.pos m * 2 ^ e else Z.pos m / 2 ^ (- e)).
  assert (0 <= v) by (unfold v; case_match; [pose proof (Z.pow_nonneg 2 e); lia|apply Z.div_pos; lia]).
  destruct b; case_match; try done; intros [= <-]; lia.
Qed.
