(* ===== verification/TcpSession.v ===== *)
(** * The TCP-Lite session (src/tcp_lite.cpp, TcpLiteSession)

    One session over a pool of any implementation of [PoolOps].  The time-stamp
    counter is a stream [tsc] of readings and [ghz] its calibrated frequency.
    [transmit_] appends the packet to [wire] (for the default transport: hands
    it to [sendto]) and does not call back into the session; [data_cb_] appends
    to [delivered].  [None] is undefined behaviour, a failed assertion, or a
    loop that has not finished within its fuel.

    The properties of this file are about one session: what a packet that
    arrives must look like is given by an arbitrary list [inn] of payloads, the
    packets the peer has sent so far.  TcpProtocol.v connects two sessions. *)

From S2P Require Import Prelude PoolIface Crc32 TcpHeader RecvBitmap UnackedQueue Rdtsc.
From stdpp Require Import base list_numbers gmap option list.
#[local] Open Scope Z_scope.

Record Sender := mkSender {
  unacked_ : list Slot;
  pending_tx_ : list Z;
  tx_off_ : Z;
  next_seq_ : Z;
  snd_una_ : Z;
  bytes_sent_ : Z;
  retransmits_ : Z;
  rtt_ns_ : Z
}.

Record Receiver := mkReceiver {
  recv_bitmap_ : RecvBitmap;
  reasm_ : list (list Z);
  pending_ack_ : bool;
  bytes_received_ : Z
}.

Record Config := mkConfig {
  fd_ : Z;
  user_transmit : bool;
  has_data_cb : bool;
  rto_ns_ : Z
}.

(** The effects: counter readings taken, packets transmitted, data delivered. *)
Record Env := mkEnv { reads : nat; wire : list (list Z); delivered : list (list Z) }.

Record TcpLiteSession (P : Type) := mkSession {
  pool_ : P;
  cfg : Config;
  snd : Sender;
  rcv : Receiver;
  env : Env
}.
Arguments mkSession {P}.
Arguments pool_ {P}.
Arguments cfg {P}.
Arguments snd {P}.
Arguments rcv {P}.
Arguments env {P}.

(** [udp_transmit] and a function set with [set_transmit]. *)
Definition transmit (c : Config) (pkt : list Z) (e : Env) : Env :=
  if negb (user_transmit c) && (fd_ c <? 0) then e
  else mkEnv (reads e) (wire e ++ [pkt]) (delivered e).

Section session.
Context {P : Type} `{PoolOps P}.
Context (tsc : nat -> Z) (ghz : double).

Definition rdtsc (e : Env) : Z * Env :=
  (u64 (tsc (reads e)), mkEnv (S (reads e)) (wire e) (delivered e)).

(** The constructor; [fd] is the result of [socket]. *)
Definition new_session (p : P) (fd : Z) : TcpLiteSession P :=
  mkSession p (mkConfig fd false false 1000000)
    (mkSender UnackedQueue_init [] 0 0 0 0 0 0)
    (mkReceiver RecvBitmap_init (replicate 256 []) false 0)
    (mkEnv 0 [] []).

Definition set_cfg (s : TcpLiteSession P) (c : Config) : TcpLiteSession P :=
  mkSession (pool_ s) c (snd s) (rcv s) (env s).
Definition set_data_callback (s : TcpLiteSession P) : TcpLiteSession P :=
  set_cfg s (mkConfig (fd_ (cfg s)) (user_transmit (cfg s)) true (rto_ns_ (cfg s))).
Definition set_transmit (s : TcpLiteSession P) : TcpLiteSession P :=
  set_cfg s (mkConfig (fd_ (cfg s)) true (has_data_cb (cfg s)) (rto_ns_ (cfg s))).
Definition set_rto_ns (s : TcpLiteSession P) (ns : Z) : TcpLiteSession P :=
  set_cfg s (mkConfig (fd_ (cfg s)) (user_transmit (cfg s)) (has_data_cb (cfg s)) ns).

(** The destructor, then that of its member [unacked_]. *)
Definition delete_session (s : TcpLiteSession P) : option P :=
  '(q, p) ← release_all (unacked_ (snd s)) (pool_ s);
  '(_, p) ← release_all q p;
  Some p.

(** The packet [transmit_(buf->data, buf->len)] passes on. *)
Definition buf_packet (b : Z) (p : P) : option (list Z) :=
  m ← buf_mem b p;
  n ← buf_len b p;
  rd_bytes m 0 n.

(** The body of the loop of [pump_tx] after [acquire]. *)
Definition build_packet (buf : Z) (p : P) (sd : Sender) (ack : Z) : option (Z * P) :=
  let remaining := u64 (Z.of_nat (length (pending_tx_ sd)) - tx_off_ sd) in
  let plen := u16 (Z.min remaining TCP_LITE_MAX_PAYLOAD) in
  let h := make_data (next_seq_ sd) ack plen in
  p ← buf_store buf 0 (header_bytes h) p;
  bytes ← rd_bytes (pending_tx_ sd) (tx_off_ sd) plen;
  p ← buf_store buf sizeof_header bytes p;
  m ← buf_mem buf p;
  hb ← rd_bytes m 0 sizeof_header;
  payload ← rd_bytes m sizeof_header plen;
  h ← compute_checksum (header_of hb) payload;
  p ← buf_store buf 0 (header_bytes h) p;
  p ← buf_set_len buf (u32 (sizeof_header + plen)) p;
  Some (plen, p).

Fixpoint pump_loop (fuel : nat) (s : TcpLiteSession P) : option (TcpLiteSession P) :=
  match fuel with
  | O => None
  | S fuel =>
      let sd := snd s in
      if (tx_off_ sd <? Z.of_nat (length (pending_tx_ sd))) &&
         (u32 (next_seq_ sd - snd_una_ sd) <? TCP_LITE_WINDOW) then
        '(r, p) ← acquire (pool_ s);
        match r with
        | None => Some (mkSession p (cfg s) sd (rcv s) (env s))
        | Some buf =>
            '(plen, p) ← build_packet buf p sd (cumulative_ack (recv_bitmap_ (rcv s)));
            let '(now, e) := rdtsc (env s) in
            '(q, p) ← mark_sent (unacked_ sd) p (next_seq_ sd) buf now;
            pkt ← buf_packet buf p;
            pump_loop fuel
              (mkSession p (cfg s)
                 (mkSender q (pending_tx_ sd) (u64 (tx_off_ sd + plen)) (u32 (next_seq_ sd + 1))
                    (snd_una_ sd) (u64 (bytes_sent_ sd + plen)) (retransmits_ sd) (rtt_ns_ sd))
                 (rcv s) (transmit (cfg s) pkt e))
        end
      else Some s
  end.

(** A round of the loop widens the window in use by one, and it has 256. *)
Definition pump_tx (s : TcpLiteSession P) : option (TcpLiteSession P) :=
  s ← pump_loop 257 s;
  let sd := snd s in
  if (0 <? tx_off_ sd) && (tx_off_ sd =? Z.of_nat (length (pending_tx_ sd))) then
    Some (mkSession (pool_ s) (cfg s)
            (mkSender (unacked_ sd) [] 0 (next_seq_ sd) (snd_una_ sd) (bytes_sent_ sd)
               (retransmits_ sd) (rtt_ns_ sd)) (rcv s) (env s))
  else Some s.

Definition send (s : TcpLiteSession P) (data : list Z) : option (TcpLiteSession P) :=
  let sd := snd s in
  pump_tx (mkSession (pool_ s) (cfg s)
             (mkSender (unacked_ sd) (pending_tx_ sd ++ data) (tx_off_ sd) (next_seq_ sd)
                (snd_una_ sd) (bytes_sent_ sd) (retransmits_ sd) (rtt_ns_ sd)) (rcv s) (env s)).

(** Every round clears the lowest bit of the window, and it has 256. *)
Fixpoint deliver_loop (fuel : nat) (c : Config) (r : Receiver) (e : Env) :
    option (Receiver * Env) :=
  match fuel with
  | O => None
  | S fuel =>
      let bm := recv_bitmap_ r in
      if has bm (base_seq_ bm) then
        let seq := base_seq_ bm in
        v ← aget (reasm_ r) (slot_index seq);
        let e := if has_data_cb c then mkEnv (reads e) (wire e) (delivered e ++ [v]) else e in
        reasm ← aset (reasm_ r) (slot_index seq) [];
        deliver_loop fuel c
          (mkReceiver (advance bm (u32 (seq + 1))) reasm (pending_ack_ r)
             (u64 (bytes_received_ r + Z.of_nat (length v)))) e
      else Some (r, e)
  end.

Definition deliver_in_order (c : Config) (r : Receiver) (e : Env) : option (Receiver * Env) :=
  deliver_loop 257 c r e.

(** The header and the payload that [buf] points to. *)
Definition buf_header (buf : Z) (p : P) : option TcpLiteHeader :=
  m ← buf_mem buf p; hb ← rd_bytes m 0 sizeof_header; Some (header_of hb).
Definition buf_payload (buf plen : Z) (p : P) : option (list Z) :=
  m ← buf_mem buf p; rd_bytes m sizeof_header plen.

(** The round-trip sample of an acknowledgement. *)
Definition sample_rtt (sent rtt : Z) (e : Env) : option (Z * Env) :=
  if sent =? 0 then Some (rtt, e)
  else
    let '(now, e) := rdtsc e in
    sample ← double_to_u64 (cycles_to_ns ghz (u64 (now - sent)));
    Some (if rtt =? 0 then sample else u64 (u64 (7 * rtt) + sample) / 8, e).

(** The branch of a cumulative acknowledgement. *)
Definition process_ack (h : TcpLiteHeader) (s : TcpLiteSession P) : option (TcpLiteSession P) :=
  let sd := snd s in
  if 0 <? i32 (u32 (ack_num h - snd_una_ sd)) then
    '(sent, q, p) ← mark_acked (unacked_ sd) (pool_ s) (ack_num h);
    '(rtt, e) ← sample_rtt sent (rtt_ns_ sd) (env s);
    pump_tx (mkSession p (cfg s)
               (mkSender q (pending_tx_ sd) (tx_off_ sd) (next_seq_ sd) (ack_num h)
                  (bytes_sent_ sd) (retransmits_ sd) rtt) (rcv s) e)
  else Some s.

(** The branch of a packet with data. *)
Definition process_data (seq : Z) (payload : list Z) (s : TcpLiteSession P) :
    option (TcpLiteSession P) :=
  let r := rcv s in
  let '(fresh, bm) := mark_received (recv_bitmap_ r) seq in
  reasm ← (if fresh then aset (reasm_ r) (slot_index seq) payload else Some (reasm_ r));
  '(r, e) ← deliver_in_order (cfg s) (mkReceiver bm reasm (pending_ack_ r) (bytes_received_ r))
              (env s);
  Some (mkSession (pool_ s) (cfg s) (snd s)
          (mkReceiver (recv_bitmap_ r) (reasm_ r) true (bytes_received_ r)) e).

Definition release_buf (buf : Z) (s : TcpLiteSession P) : option (TcpLiteSession P) :=
  p ← release buf (pool_ s);
  Some (mkSession p (cfg s) (snd s) (rcv s) (env s)).

Definition on_packet_received (s : TcpLiteSession P) (buf : Z) : option (TcpLiteSession P) :=
  h ← buf_header buf (pool_ s);
  let plen := payload_len h in
  payload ← buf_payload buf plen (pool_ s);
  ok ← verify_checksum h payload;
  if negb ok then release_buf buf s
  else
    s ← (if Z.land (flags h) TCP_ACK =? 0 then Some s else process_ack h s);
    s ← (if 0 <? plen then
           h ← buf_header buf (pool_ s);
           payload ← buf_payload buf plen (pool_ s);
           process_data (seq_num h) payload s
         else Some s);
    release_buf buf s.

Fixpoint retransmit_loop (seqs : list Z) (now : Z) (s : TcpLiteSession P) :
    option (TcpLiteSession P) :=
  match seqs with
  | [] => Some s
  | seq :: seqs =>
      let sd := snd s in
      b ← buffer_for (unacked_ sd) seq;
      match b with
      | None => retransmit_loop seqs now s
      | Some b =>
          pkt ← buf_packet b (pool_ s);
          q ← touch (unacked_ sd) seq now;
          retransmit_loop seqs now
            (mkSession (pool_ s) (cfg s)
               (mkSender q (pending_tx_ sd) (tx_off_ sd) (next_seq_ sd) (snd_una_ sd)
                  (bytes_sent_ sd) (u64 (retransmits_ sd + 1)) (rtt_ns_ sd))
               (rcv s) (transmit (cfg s) pkt (env s)))
      end
  end.

(** The pending acknowledgement at the end of [tick]. *)
Definition send_ack (s : TcpLiteSession P) : option (TcpLiteSession P) :=
  if pending_ack_ (rcv s) then
    h ← make_ack (next_seq_ (snd s)) (cumulative_ack (recv_bitmap_ (rcv s)));
    let r := rcv s in
    Some (mkSession (pool_ s) (cfg s) (snd s)
            (mkReceiver (recv_bitmap_ r) (reasm_ r) false (bytes_received_ r))
            (transmit (cfg s) (header_bytes h) (env s)))
  else Some s.

Definition tick (s : TcpLiteSession P) : option (TcpLiteSession P) :=
  let '(now, e) := rdtsc (env s) in
  timeout_cyc ← double_to_u64 (dmul (u64_to_double (rto_ns_ (cfg s))) ghz);
  let s := mkSession (pool_ s) (cfg s) (snd s) (rcv s) e in
  s ← retransmit_loop (check_timeouts (unacked_ (snd s)) now timeout_cyc) now s;
  s ← pump_tx s;
  send_ack s.
End session.

#[global] Arguments pump_tx : simpl never.
#[global] Arguments deliver_in_order : simpl never.
