(* ===== verification/TcpInv.v ===== *)
(** * Invariants of one TCP-Lite session

    The packets of a direction are numbered without bound: [out] are the
    payloads of the packets a session has sent, [inn] those of the packets its
    peer has sent; the code sees the numbers modulo [2^32].  This file holds the
    invariant of a session and the proofs that its loops preserve it. *)

From S2P Require Import Prelude PoolIface Crc32 TcpHeader RecvBitmap UnackedQueue Rdtsc TcpSession.
From stdpp Require Import base list_numbers gmap option list.
#[local] Open Scope Z_scope.

(** The packet with number [n], acknowledgement [a] and this payload; an
    acknowledgement without data has an empty payload. *)
Definition packet_header (n a : Z) (payload : list Z) : TcpLiteHeader :=
  make_data (u32 n) (u32 a) (Z.of_nat (length payload)).
Definition packet (n a : Z) (payload : list Z) : list Z :=
  let h := packet_header n a payload in
  header_bytes (set_checksum h (packet_crc h payload)) ++ payload.

(** Buffer [b] of the pool holds the packet [pkt]. *)
Definition holds_packet {P} `{PoolSpec P} (p : P) (b : Z) (pkt : list Z) : Prop :=
  buf_len b p = Some (Z.of_nat (length pkt)) /\ take (length pkt) (content p b) = pkt.

Definition chunk_ok (c : list Z) : Prop := bytes_ok c /\ (0 < length c <= 1024)%nat.

(** The ghost state of a session: all bytes given to [send], the payloads sent,
    the oldest unacknowledged number and the entries of the queue, the number
    expected next and the numbers that arrived out of order. *)
Record ghost := mkGhost {
  g_input : list Z;
  g_out : list (list Z);
  g_U : Z;
  g_E : gmap Z (Z * Z);
  g_B : Z;
  g_R : gset Z
}.

Definition g_N (g : ghost) : Z := Z.of_nat (length (g_out g)).

(** A packet this session may have put on the wire. *)
Definition wire_ok (g : ghost) (pkt : list Z) : Prop :=
  exists n a payload, pkt = packet n a payload /\ 0 <= a <= g_B g /\
    (payload = [] /\ 0 <= n <= g_N g \/ aget (g_out g) n = Some payload).

Section inv.
Context {P : Type} `{PoolSpec P}.
Context (tsc : nat -> Z) (ghz : double).

Record snd_inv (p : P) (sd : Sender) (g : ghost) : Prop := {
  si_next : next_seq_ sd = u32 (g_N g);
  si_una : snd_una_ sd = u32 (g_U g);
  si_range : 0 <= g_U g <= g_N g /\ g_N g <= g_U g + 256;
  si_queue : queue (g_U g) (g_E g) (unacked_ sd);
  si_dom : forall n, is_Some (g_E g !! n) <-> g_U g <= n < g_N g;
  si_own : own_bufs (g_E g);
  si_time : forall n b t, g_E g !! n = Some (b, t) -> exists i, t = u64 (tsc i);
  si_packets : forall n b t, g_E g !! n = Some (b, t) ->
    exists a payload, aget (g_out g) n = Some payload /\ 0 <= a <= g_B g /\
      holds_packet p b (packet n a payload);
  si_chunks : Forall chunk_ok (g_out g);
  si_off : 0 <= tx_off_ sd <= Z.of_nat (length (pending_tx_ sd));
  si_size : Z.of_nat (length (pending_tx_ sd)) < 2 ^ 64;
  si_pending : bytes_ok (pending_tx_ sd);
  si_stream : concat (g_out g) ++ drop (Z.to_nat (tx_off_ sd)) (pending_tx_ sd) = g_input g;
  si_sent : bytes_sent_ sd = u64 (Z.of_nat (length (concat (g_out g))))
}.

Record rcv_inv (inn : list (list Z)) (r : Receiver) (B : Z) (R : gset Z) : Prop := {
  ri_window : window B R (recv_bitmap_ r);
  ri_base : 0 <= B <= Z.of_nat (length inn);
  ri_len : length (reasm_ r) = 256%nat;
  ri_data : forall n, n ∈ R -> exists payload, aget inn n = Some payload /\
    aget (reasm_ r) (n mod 256) = Some payload;
  ri_bytes : bytes_received_ r = u64 (Z.of_nat (length (concat (take (Z.to_nat B) inn))))
}.

Record sess_inv (inn : list (list Z)) (ext : gset Z) (s : TcpLiteSession P) (g : ghost) : Prop := {
  in_pool : pool_ok (pool_ s) (bufs (g_E g) ∪ ext);
  in_ext : bufs (g_E g) ## ext;
  in_mtu : TCP_LITE_MTU <= buf_size (pool_ s);
  in_snd : snd_inv (pool_ s) (snd s) g;
  in_rcv : rcv_inv inn (rcv s) (g_B g) (g_R g);
  in_next : g_B g ∉ g_R g;
  in_wire : Forall (wire_ok g) (wire (env s));
  in_delivered : has_data_cb (cfg s) = true ->
    delivered (env s) = take (Z.to_nat (g_B g)) inn
}.

(** ** Packets *)

Lemma length_packet n a c : length (packet n a c) = (16 + length c)%nat.
Proof. unfold packet. by rewrite length_app, length_header_bytes. Qed.

Lemma packet_header_ok n a c : (length c <= 1024)%nat -> header_ok (packet_header n a c).
Proof.
  intros Hc. split; simpl; try apply u32_range; unfold is_u16, is_u32, TCP_ACK; lia.
Qed.

Lemma packet_of_header n a c :
  bytes_ok c -> (length c <= 1024)%nat ->
  header_of (take 16 (packet n a c)) =
    set_checksum (packet_header n a c) (packet_crc (packet_header n a c) c) /\
  drop 16 (packet n a c) = c.
Proof.
  intros Hb Hc. unfold packet. set (h := set_checksum _ _). split.
  - rewrite take_app_length' by (by rewrite length_header_bytes). rewrite <-(app_nil_r (header_bytes h)).
    apply header_of_bytes, set_checksum_ok; [by apply packet_header_ok|by apply packet_crc_u32].
  - by rewrite drop_app_length' by (by rewrite length_header_bytes).
Qed.

Lemma packet_verifies n a c :
  bytes_ok c ->
  verify_checksum (set_checksum (packet_header n a c) (packet_crc (packet_header n a c) c)) c = Some true.
Proof. intros Hb. eapply computed_verifies; [done|]. by apply compute_checksum_eq. Qed.

Lemma make_ack_packet n a :
  exists h, make_ack (u32 n) (u32 a) = Some h /\ header_bytes h = packet n a [].
Proof.
  unfold make_ack. rewrite compute_checksum_eq by constructor. eexists. split; [done|].
  unfold packet. by rewrite app_nil_r.
Qed.

Lemma holds_packet_frame (p p' : P) X b pkt :
  pool_frame p p' X -> b ∈ X -> holds_packet p b pkt -> holds_packet p' b pkt.
Proof.
  intros F Hb [Hl Hc]. destruct (pf_same _ _ _ F b Hb) as [Hc' Hl']. unfold holds_packet.
  by rewrite Hc', Hl'.
Qed.

(** What [transmit_(buf->data, buf->len)] sends. *)
Lemma buf_packet_ok (p : P) held b pkt :
  pool_ok p held -> b ∈ held -> holds_packet p b pkt -> Z.of_nat (length pkt) <= buf_size p ->
  buf_packet b p = Some pkt.
Proof.
  intros Hok Hb [Hl Hc] Hs. unfold buf_packet.
  destruct (read_held p held b 0 (Z.of_nat (length pkt)) Hok Hb) as (m & -> & Hr); [lia..|].
  simpl. rewrite Hl. simpl. rewrite Hr, drop_0, Nat2Z.id. by rewrite Hc.
Qed.

(** Reading them back. *)
Lemma read_layout (p : P) held b (hb c : list Z) :
  pool_ok p held -> b ∈ held -> length hb = 16%nat -> 16 + Z.of_nat (length c) <= buf_size p ->
  take (16 + length c) (content p b) = hb ++ c ->
  exists m, buf_mem b p = Some m /\ rd_bytes m 0 16 = Some hb /\
    rd_bytes m 16 (Z.of_nat (length c)) = Some c.
Proof.
  intros Hok Hb Hh Hs Hc.
  destruct (read_held p held b 0 16 Hok Hb) as (m & Hm & Hr0); [lia..|].
  destruct (read_held p held b 16 (Z.of_nat (length c)) Hok Hb) as (m' & Hm' & Hr); [lia..|].
  assert (m' = m) as -> by congruence. exists m. rewrite Hr0, Hr. split_and!; [done| |]; f_equal.
  - rewrite drop_0. change (Z.to_nat 16) with 16%nat.
    rewrite <-(take_app_length' hb c 16), <-Hc, take_take by done. done.
  - rewrite Nat2Z.id. change (Z.to_nat 16) with 16%nat.
    rewrite <-(drop_app_length' hb c 16) at 2 by done. rewrite <-Hc.
    by rewrite <-take_drop_commute.
Qed.

(** ** [pump_tx] *)

(** A header and a payload stored at the start of a buffer. *)
Lemma layout_header (c0 hb c : list Z) :
  length hb = 16%nat -> (16 + length c <= length c0)%nat ->
  exists rest, list_inserts 16 c (list_inserts 0 hb c0) = hb ++ c ++ rest.
Proof.
  intros Hh Hl. exists (drop (16 + length c) (list_inserts 0 hb c0)).
  rewrite inserts_middle by (rewrite length_inserts; lia). f_equal.
  rewrite inserts_middle by lia. simpl. by rewrite take_app_length'.
Qed.

(** The payload of the next packet. *)
Definition next_chunk (sd : Sender) : list Z :=
  take 1024 (drop (Z.to_nat (tx_off_ sd)) (pending_tx_ sd)).

Lemma build_packet_ok (p : P) held b sd n a :
  pool_ok p ({[b]} ∪ held) -> b ∉ held -> TCP_LITE_MTU <= buf_size p ->
  next_seq_ sd = u32 n -> 0 <= tx_off_ sd < Z.of_nat (length (pending_tx_ sd)) ->
  Z.of_nat (length (pending_tx_ sd)) < 2 ^ 64 -> bytes_ok (pending_tx_ sd) ->
  exists p', build_packet b p sd (u32 a) = Some (Z.of_nat (length (next_chunk sd)), p') /\
    pool_ok p' ({[b]} ∪ held) /\ pool_frame p p' held /\
    holds_packet p' b (packet n a (next_chunk sd)).
Proof.
  intros Hok Hb Hmtu Hn Hoff Hsz Hbytes. set (c := next_chunk sd).
  assert (Z.of_nat (length c) = Z.min (Z.of_nat (length (pending_tx_ sd)) - tx_off_ sd) 1024) as Hlc.
  { subst c. unfold next_chunk. rewrite length_take, length_drop. lia. }
  assert (bytes_ok c) as Hbc by (by apply Forall_take, Forall_drop).
  assert (b ∈ {[b]} ∪ held) as Hbin by set_solver.
  assert (held ⊆ ({[b]} ∪ held) ∖ {[b]}) as Hsub by set_solver.
  unfold build_packet, TCP_LITE_MAX_PAYLOAD, TCP_LITE_MTU, TCP_LITE_MAX_PAYLOAD, sizeof_header in *.
  assert (u16 (Z.min (u64 (Z.of_nat (length (pending_tx_ sd)) - tx_off_ sd)) 1024) = Z.of_nat (length c)) as ->.
  { rewrite u64_id by (unfold is_u64; lia). rewrite <-Hlc. unfold u16. apply Z.mod_small. lia. }
  rewrite Hn. fold (packet_header n a c). set (h := packet_header n a c).
  assert (header_ok h) as Hh by (apply packet_header_ok; lia).
  destruct (store_frame p _ b 0 (header_bytes h) Hok Hbin) as (p1 & -> & Hok1 & F1 & C1 & L1);
    [lia|rewrite length_header_bytes; lia|]. simpl.
  rewrite rd_bytes_Some by lia. simpl. rewrite Nat2Z.id.
  assert (take (length c) (drop (Z.to_nat (tx_off_ sd)) (pending_tx_ sd)) = c) as ->.
  { apply take_length_take. }
  destruct (store_frame p1 _ b 16 c Hok1 Hbin) as (p2 & -> & Hok2 & F2 & C2 & L2);
    [lia|rewrite (pf_size _ _ _ F1); lia|]. simpl.
  destruct (buf_mem_ok p _ b Hok Hbin) as (_ & _ & _ & Hlen).
  destruct (layout_header (content p b) (header_bytes h) c) as (rest & Hlay);
    [apply length_header_bytes|lia|]. rewrite C1 in C2. change (Z.to_nat 16) with 16%nat in C2.
  change (Z.to_nat 0) with 0%nat in *. rewrite Hlay in C2.
  assert (buf_size p2 = buf_size p) as Hsz2 by (by rewrite (pf_size _ _ _ F2), (pf_size _ _ _ F1)).
  destruct (read_layout p2 _ b (header_bytes h) c Hok2 Hbin) as (m & -> & Hr1 & Hr2);
    [apply length_header_bytes|lia|rewrite C2, app_assoc; apply take_app_length'; by rewrite length_app, length_header_bytes|].
  simpl. unfold sizeof_header. rewrite Hr1. simpl. rewrite Hr2. simpl.
  rewrite <-(app_nil_r (header_bytes h)), header_of_bytes, compute_checksum_eq by done. simpl.
  destruct (store_frame p2 _ b 0 (header_bytes (set_checksum h (packet_crc h c))) Hok2 Hbin)
    as (p3 & -> & Hok3 & F3 & C3 & L3); [lia|rewrite length_header_bytes; lia|]. simpl.
  rewrite (u32_id (16 + _)) by (unfold is_u32; lia).
  destruct (set_len_frame p3 _ b (16 + Z.of_nat (length c)) Hok3 Hbin) as (p4 & -> & Hok4 & F4 & C4 & L4).
  simpl. exists p4. split_and!; [done|done| |].
  - eapply pool_frame_mono; [|exact Hsub].
    eauto using pool_frame_trans.
  - split; rewrite length_packet; [rewrite L4; f_equal; lia|]. rewrite C4, C3, C2.
    change (Z.to_nat 0) with 0%nat. rewrite inserts_middle by (rewrite !length_app, !length_header_bytes; lia).
    rewrite length_header_bytes, Nat.add_0_l, drop_app_length' by (by rewrite length_header_bytes).
    rewrite take_0, app_nil_l, app_assoc. apply take_app_length'. by rewrite length_packet.
Qed.

Lemma snd_inv_frame p p' sd g :
  snd_inv p sd g -> pool_frame p p' (bufs (g_E g)) -> snd_inv p' sd g.
Proof.
  intros [] F. split; try done. intros n b t He.
  destruct (si_packets0 n b t He) as (a & c & Hc & Ha & Hh). exists a, c. split_and!; [done|lia|lia|].
  eapply holds_packet_frame; [done|apply elem_of_bufs; eauto|done].
Qed.

(** Moving the receive window does not concern the sender. *)
Lemma snd_inv_B p sd g g' :
  snd_inv p sd g -> g_input g' = g_input g -> g_out g' = g_out g -> g_U g' = g_U g ->
  g_E g' = g_E g -> g_B g <= g_B g' -> snd_inv p sd g'.
Proof.
  intros [] E1 E2 E3 E4 HB. split; unfold g_N in *; rewrite ?E1, ?E2, ?E3, ?E4; try done.
  intros n b t He. destruct (si_packets0 n b t He) as (a & c & Hc & Ha & Hh).
  exists a, c. split_and!; [done|lia|lia|done].
Qed.

(** The ghost state after packet [N] was put into buffer [b] at time [t]. *)
Definition ghost_sent (g : ghost) (c : list Z) (b t : Z) : ghost :=
  mkGhost (g_input g) (g_out g ++ [c]) (g_U g) (<[g_N g := (b, t)]> (g_E g)) (g_B g) (g_R g).

Lemma g_N_sent g c b t : g_N (ghost_sent g c b t) = g_N g + 1.
Proof. unfold g_N. simpl. rewrite length_app. simpl. lia. Qed.

Lemma aget_out_snoc g c n x : aget (g_out g) n = Some x -> aget (g_out g ++ [c]) n = Some x.
Proof. rewrite !aget_Some. intros [? Hl]. split; [done|]. by apply lookup_app_l_Some. Qed.

Lemma bufs_insert E n b t : E !! n = None -> bufs (<[n := (b, t)]> E) = {[b]} ∪ bufs E.
Proof.
  intros He. apply set_eq. intros x. rewrite elem_of_union, elem_of_singleton, !elem_of_bufs. split.
  - intros (k & t' & Hk). apply lookup_insert_Some in Hk as [[-> ?]|[Hne Hk]]; [left; congruence|eauto].
  - intros [->|(k & t' & Hk)]; [exists n, t; by rewrite lookup_insert_eq|].
    exists k, t'. rewrite lookup_insert_ne; [done|]. intros ->. congruence.
Qed.

Lemma own_bufs_insert E n b t : own_bufs E -> b ∉ bufs E -> own_bufs (<[n := (b, t)]> E).
Proof.
  intros Hown Hb k k' x y y'. rewrite !lookup_insert_Some.
  intros [[-> ?]|[? Hk]] [[-> ?]|[? Hk']]; simplify_eq; try done.
  - destruct Hb. apply elem_of_bufs. eauto.
  - destruct Hb. apply elem_of_bufs. eauto.
  - by eapply Hown.
Qed.

Lemma next_chunk_ok sd :
  0 <= tx_off_ sd < Z.of_nat (length (pending_tx_ sd)) -> bytes_ok (pending_tx_ sd) ->
  chunk_ok (next_chunk sd) /\ tx_off_ sd + Z.of_nat (length (next_chunk sd)) <= Z.of_nat (length (pending_tx_ sd)).
Proof.
  intros Ho Hb. unfold chunk_ok, next_chunk. rewrite length_take, length_drop.
  split_and!; [by apply Forall_take, Forall_drop|lia..].
Qed.

Lemma snd_inv_sent (p p' : P) sd g q b i a :
  snd_inv p sd g -> pool_frame p p' (bufs (g_E g)) -> b ∉ bufs (g_E g) ->
  holds_packet p' b (packet (g_N g) a (next_chunk sd)) -> 0 <= a <= g_B g ->
  0 <= tx_off_ sd < Z.of_nat (length (pending_tx_ sd)) -> g_N g < g_U g + 256 ->
  queue (g_U g) (<[g_N g := (b, u64 (tsc i))]> (g_E g)) q ->
  snd_inv p'
    (mkSender q (pending_tx_ sd) (u64 (tx_off_ sd + Z.of_nat (length (next_chunk sd))))
       (u32 (next_seq_ sd + 1)) (snd_una_ sd)
       (u64 (bytes_sent_ sd + Z.of_nat (length (next_chunk sd)))) (retransmits_ sd) (rtt_ns_ sd))
    (ghost_sent g (next_chunk sd) b (u64 (tsc i))).
Proof.
  intros I F Hb Hp Ha Ho HN Q. destruct (next_chunk_ok sd Ho (si_pending _ _ _ I)) as [Hc Hle].
  pose proof (si_size _ _ _ I) as Hsz. pose proof (si_range _ _ _ I) as Hr.
  set (c := next_chunk sd) in *.
  rewrite (u64_id (tx_off_ sd + _)) by (unfold is_u64; lia).
  split; rewrite ?g_N_sent; simpl.
  - by rewrite (si_next _ _ _ I), u32_add_l.
  - apply I.
  - lia.
  - done.
  - intros n. destruct (decide (n = g_N g)) as [->|Hne].
    + rewrite lookup_insert_eq. split; [lia|eauto].
    + rewrite lookup_insert_ne, (si_dom _ _ _ I) by done. lia.
  - apply own_bufs_insert; [apply I|done].
  - intros n b' t'. rewrite lookup_insert_Some. intros [[<- ?]|[_ He]]; simplify_eq; [eauto|by eapply I].
  - intros n b' t'. rewrite lookup_insert_Some. intros [[<- ?]|[_ He]]; simplify_eq.
    + exists a, c. split_and!; [|lia|lia|done]. unfold g_N. apply aget_Some. rewrite Nat2Z.id.
      split; [lia|]. by rewrite list_lookup_middle.
    + destruct (si_packets _ _ _ I _ _ _ He) as (a' & c' & Hc' & Ha' & Hh).
      exists a', c'. split_and!; [by apply aget_out_snoc|lia|lia|].
      eapply holds_packet_frame; [done|apply elem_of_bufs; eauto|done].
  - apply Forall_app. split; [apply I|]. by constructor.
  - lia.
  - done.
  - apply I.
  - rewrite <-(si_stream _ _ _ I), concat_app. simpl. rewrite app_nil_r, <-app_assoc. f_equal.
    rewrite <-(take_drop (length c) (drop (Z.to_nat (tx_off_ sd)) (pending_tx_ sd))). f_equal.
    + subst c. unfold next_chunk. by rewrite take_length_take.
    + rewrite drop_drop. f_equal. lia.
  - rewrite (si_sent _ _ _ I), u64_add_l, concat_app, length_app. simpl. rewrite app_nil_r. f_equal. lia.
Qed.

(** What sending new packets leaves alone. *)
Record pumped (ext : gset Z) (s : TcpLiteSession P) (g : ghost) (s' : TcpLiteSession P) (g' : ghost) : Prop := {
  pu_input : g_input g' = g_input g;
  pu_out : g_out g `prefix_of` g_out g';
  pu_U : g_U g' = g_U g;
  pu_B : g_B g' = g_B g;
  pu_R : g_R g' = g_R g;
  pu_cfg : cfg s' = cfg s;
  pu_rcv : rcv s' = rcv s;
  pu_delivered : delivered (env s') = delivered (env s);
  pu_wire : wire (env s) `prefix_of` wire (env s');
  pu_frame : pool_frame (pool_ s) (pool_ s') (bufs (g_E g) ∪ ext);
  pu_bufs : bufs (g_E g) ⊆ bufs (g_E g')
}.

(** Why it stopped: all is sent, the window is full, or the pool is empty. *)
Definition pump_stop (ext : gset Z) (s : TcpLiteSession P) (g : ghost) : Prop :=
  tx_off_ (snd s) = Z.of_nat (length (pending_tx_ (snd s))) \/
  g_N g = g_U g + 256 \/ Z.of_nat (size (bufs (g_E g) ∪ ext)) = pool_cap (pool_ s).

Lemma pumped_refl ext s g : pumped ext s g s g.
Proof. by split; try apply pool_frame_refl. Qed.

Lemma pumped_trans ext s g s1 g1 s2 g2 :
  pumped ext s g s1 g1 -> pumped ext s1 g1 s2 g2 -> pumped ext s g s2 g2.
Proof.
  intros A B. split; try (etrans; [apply B|apply A]); try (etrans; [apply A|apply B]).
  eapply pool_frame_trans; [apply A|]. eapply pool_frame_mono; [apply B|].
  pose proof (pu_bufs _ _ _ _ _ A). set_solver.
Qed.

Lemma wire_ok_mono g g' pkt :
  g_out g `prefix_of` g_out g' -> g_B g <= g_B g' -> wire_ok g pkt -> wire_ok g' pkt.
Proof.
  intros [l Hl] HB (n & a & c & -> & Ha & Hc). exists n, a, c. split_and!; [done|lia|lia|].
  unfold g_N. rewrite Hl, length_app. destruct Hc as [[-> ?]|Hc]; [left; unfold g_N in *; split; [done|lia]|right].
  rewrite aget_Some in Hc |- *. destruct Hc. split; [done|]. by apply lookup_app_l_Some.
Qed.

Lemma transmit_wire c pkt e :
  wire e `prefix_of` wire (transmit c pkt e) /\
  (forall Q : list Z -> Prop, Forall Q (wire e) -> Q pkt -> Forall Q (wire (transmit c pkt e))) /\
  delivered (transmit c pkt e) = delivered e /\ reads (transmit c pkt e) = reads e.
Proof.
  unfold transmit. case_match; simpl; [done|]. split_and!; [by eexists| |done|done].
  intros Q ??. by apply Forall_app_2; [|constructor].
Qed.

Lemma first_missing_base B R f : first_missing B R f -> B ∉ R -> f = B.
Proof.
  intros (Hr & Hall & _) HB. destruct (decide (f = B)) as [|Hne]; [done|]. destruct HB. apply Hall. lia.
Qed.

(** One packet is sent. *)
Lemma pump_send_ok inn ext s g (p1 : P) b :
  sess_inv inn ext s g -> 0 <= tx_off_ (snd s) < Z.of_nat (length (pending_tx_ (snd s))) ->
  g_N g < g_U g + 256 -> b ∉ bufs (g_E g) ∪ ext -> pool_ok p1 ({[b]} ∪ (bufs (g_E g) ∪ ext)) ->
  pool_frame (pool_ s) p1 (bufs (g_E g) ∪ ext) ->
  exists p2 q pkt, let sd := snd s in let c := next_chunk sd in
    build_packet b p1 sd (cumulative_ack (recv_bitmap_ (rcv s))) = Some (Z.of_nat (length c), p2) /\
    mark_sent (unacked_ sd) p2 (next_seq_ sd) b (u64 (tsc (reads (env s)))) = Some (q, p2) /\
    buf_packet b p2 = Some pkt /\
    let s' := mkSession p2 (cfg s)
      (mkSender q (pending_tx_ sd) (u64 (tx_off_ sd + Z.of_nat (length c))) (u32 (next_seq_ sd + 1))
         (snd_una_ sd) (u64 (bytes_sent_ sd + Z.of_nat (length c))) (retransmits_ sd) (rtt_ns_ sd))
      (rcv s) (transmit (cfg s) pkt (mkEnv (S (reads (env s))) (wire (env s)) (delivered (env s)))) in
    let g' := ghost_sent g c b (u64 (tsc (reads (env s)))) in
    sess_inv inn ext s' g' /\ pumped ext s g s' g'.
Proof.
  intros I Ho HN Hb Hok1 F1. pose proof (in_snd _ _ _ _ I) as S. pose proof (in_mtu _ _ _ _ I) as Hmtu.
  assert (g_E g !! g_N g = None) as Hnew.
  { apply eq_None_not_Some. rewrite (si_dom _ _ _ S). lia. }
  destruct (cumulative_ack_ok _ _ _ (ri_window _ _ _ _ (in_rcv _ _ _ _ I))) as (f & -> & Hf).
  apply first_missing_base in Hf as ->; [|apply I].
  destruct (build_packet_ok p1 (bufs (g_E g) ∪ ext) b (snd s) (g_N g) (g_B g))
    as (p2 & Hbuild & Hok2 & F2 & Hh); [done|done|by rewrite (pf_size _ _ _ F1)|apply S|done|apply S|apply S|].
  pose proof (pool_frame_trans _ _ _ _ F1 F2) as F.
  destruct (mark_sent_ok (g_U g) (g_E g) (unacked_ (snd s)) p2 (g_N g) b (u64 (tsc (reads (env s)))))
    as (q & Hq & Q); [apply S| |done|]. { pose proof (si_range _ _ _ S). lia. }
  destruct (next_chunk_ok (snd s) Ho (si_pending _ _ _ S)) as [[_ Hc] _].
  exists p2, q, (packet (g_N g) (g_B g) (next_chunk (snd s))). cbv zeta. rewrite (si_next _ _ _ S).
  pose proof (ri_base _ _ _ _ (in_rcv _ _ _ _ I)) as HB. unfold TCP_LITE_MTU, sizeof_header, TCP_LITE_MAX_PAYLOAD in *.
  split; [done|]. split; [done|]. split.
  { eapply buf_packet_ok; [done|set_solver|done|]. rewrite length_packet, (pf_size _ _ _ F). lia. }
  rewrite <-(si_next _ _ _ S).
  set (pkt := packet _ _ _). set (e := mkEnv _ _ _). destruct (transmit_wire (cfg s) pkt e) as (W1 & W2 & W3 & _).
  assert (snd_inv p2 (mkSender q (pending_tx_ (snd s)) (u64 (tx_off_ (snd s) + Z.of_nat (length (next_chunk (snd s)))))
    (u32 (next_seq_ (snd s) + 1)) (snd_una_ (snd s)) (u64 (bytes_sent_ (snd s) + Z.of_nat (length (next_chunk (snd s)))))
    (retransmits_ (snd s)) (rtt_ns_ (snd s))) (ghost_sent g (next_chunk (snd s)) b (u64 (tsc (reads (env s)))))) as S'.
  { eapply (snd_inv_sent (pool_ s)); [done|eapply pool_frame_mono; [done|set_solver]|set_solver|done|lia|done|done|done]. }
  split.
  - split; simpl; rewrite ?bufs_insert by done; try apply I.
    + by rewrite <-(assoc_L (∪)).
    + pose proof (in_ext _ _ _ _ I). set_solver.
    + by rewrite (pf_size _ _ _ F).
    + done.
    + apply W2.
      * eapply Forall_impl; [apply I|]. intros x. apply wire_ok_mono; [by eexists|simpl; lia].
      * exists (g_N g), (g_B g), (next_chunk (snd s)). split_and!; [done|simpl; lia|simpl; lia|].
        right. simpl. unfold g_N. apply aget_Some. rewrite Nat2Z.id. split; [lia|]. by rewrite list_lookup_middle.
    + rewrite W3. apply I.
  - split; simpl; try done; try (by eexists). rewrite bufs_insert by done. set_solver.
Qed.

Lemma out_chunk p sd g n c : snd_inv p sd g -> aget (g_out g) n = Some c -> chunk_ok c.
Proof.
  intros S [_ Hc]%aget_Some. eapply Forall_lookup_1; [apply (si_chunks _ _ _ S)|exact Hc].
Qed.

Lemma window_in_use p sd g :
  snd_inv p sd g -> u32 (next_seq_ sd - snd_una_ sd) = g_N g - g_U g.
Proof.
  intros S. rewrite (si_next _ _ _ S), (si_una _ _ _ S), u32_sub. apply u32_id.
  pose proof (si_range _ _ _ S). unfold is_u32. lia.
Qed.

(** The loop ends, within as many rounds as the window has room. *)
Lemma pump_loop_ok inn ext fuel s g :
  sess_inv inn ext s g -> g_U g + 256 - g_N g < Z.of_nat fuel ->
  exists s' g', pump_loop tsc fuel s = Some s' /\ sess_inv inn ext s' g' /\
    pumped ext s g s' g' /\ pump_stop ext s' g'.
Proof.
  revert s g. induction fuel as [|fuel IH]; intros s g I Hfuel.
  { pose proof (si_range _ _ _ (in_snd _ _ _ _ I)). lia. }
  cbn [pump_loop]. pose proof (in_snd _ _ _ _ I) as S. rewrite (window_in_use _ _ _ S). unfold TCP_LITE_WINDOW.
  pose proof (si_off _ _ _ S) as Ho. pose proof (si_range _ _ _ S) as Hr.
  destruct (Z.ltb_spec (tx_off_ (snd s)) (Z.of_nat (length (pending_tx_ (snd s))))); simpl.
  2:{ exists s, g. split_and!; [done|done|apply pumped_refl|left; lia]. }
  destruct (Z.ltb_spec (g_N g - g_U g) 256).
  2:{ exists s, g. split_and!; [done|done|apply pumped_refl|right; left; lia]. }
  destruct (acquire_frame _ _ (in_pool _ _ _ _ I))
    as [(p1 & -> & Hok1 & F1 & Hfull)|(b & p1 & -> & Hb & Hok1 & F1 & _)]; simpl.
  - eexists _, g. split; [done|]. split_and!.
    + destruct I as [A1 A2 A3 A4 A5 A6 A7 A8]. split; simpl; try done.
      * by rewrite (pf_size _ _ _ F1).
      * by eapply snd_inv_frame; [|eapply pool_frame_mono; [done|set_solver]].
    + by split.
    + right; right. simpl. by rewrite (pf_cap _ _ _ F1).
  - destruct (pump_send_ok inn ext s g p1 b) as (p2 & q & pkt & Hb1 & Hb2 & Hb3 & I' & Hp);
      [done|lia|lia|done..|]. cbv zeta in *. rewrite Hb1. simpl. rewrite Hb2. simpl. rewrite Hb3. simpl.
    destruct (IH _ _ I') as (s' & g' & -> & I'' & Hp' & Hstop).
    { rewrite g_N_sent. simpl. lia. }
    exists s', g'. split_and!; [done|done| |done]. by eapply pumped_trans.
Qed.

Lemma pump_tx_ok inn ext s g :
  sess_inv inn ext s g ->
  exists s' g', pump_tx tsc s = Some s' /\ sess_inv inn ext s' g' /\
    pumped ext s g s' g' /\ pump_stop ext s' g'.
Proof.
  intros I. destruct (pump_loop_ok inn ext 257 s g I) as (s1 & g1 & Hl & I1 & Hp & Hstop).
  { pose proof (si_range _ _ _ (in_snd _ _ _ _ I)). lia. }
  unfold pump_tx. rewrite Hl. simpl.
  destruct (Z.ltb_spec 0 (tx_off_ (snd s1))); [|by exists s1, g1].
  destruct (Z.eqb_spec (tx_off_ (snd s1)) (Z.of_nat (length (pending_tx_ (snd s1))))) as [E|]; [|by exists s1, g1].
  eexists _, g1. split; [done|]. split_and!.
  - destruct I1 as [A1 A2 A3 S A5 A6 A7 A8]. split; try done. destruct S. split; simpl; try done; try lia; [constructor|].
    rewrite <-si_stream0, E, Nat2Z.id, drop_all. done.
  - destruct Hp. by split.
  - left. done.
Qed.

(** ** Acknowledgements *)

(** What every operation but [send] guarantees of the change it makes. *)
Record advanced (ext : gset Z) (s : TcpLiteSession P) (g : ghost) (s' : TcpLiteSession P) (g' : ghost) : Prop := {
  ad_input : g_input g' = g_input g;
  ad_out : g_out g `prefix_of` g_out g';
  ad_U : g_U g <= g_U g';
  ad_B : g_B g <= g_B g';
  ad_cfg : cfg s' = cfg s;
  ad_wire : wire (env s) `prefix_of` wire (env s');
  ad_frame : pool_frame (pool_ s) (pool_ s') ext
}.

Lemma advanced_refl ext s g : advanced ext s g s g.
Proof. by split; try apply pool_frame_refl. Qed.

Lemma advanced_trans ext s g s1 g1 s2 g2 :
  advanced ext s g s1 g1 -> advanced ext s1 g1 s2 g2 -> advanced ext s g s2 g2.
Proof.
  intros A B. split; try (etrans; [apply B|apply A]); try (etrans; [apply A|apply B]).
  eapply pool_frame_trans; [apply A|apply B].
Qed.

Lemma advanced_mono ext ext' s g s' g' :
  advanced ext s g s' g' -> ext' ⊆ ext -> advanced ext' s g s' g'.
Proof. intros [] ?. split; try done. by eapply pool_frame_mono. Qed.

Lemma pumped_advanced ext s g s' g' : pumped ext s g s' g' -> advanced ext s g s' g'.
Proof.
  intros []. split; try done; try lia. eapply pool_frame_mono; [done|set_solver].
Qed.

Lemma bufs_kept a E ext :
  own_bufs E -> bufs E ## ext -> (bufs E ∪ ext) ∖ bufs (acked a E) = bufs (kept a E) ∪ ext.
Proof.
  intros Hown Hd. apply set_eq. intros b.
  rewrite elem_of_difference, !elem_of_union, !elem_of_bufs.
  setoid_rewrite kept_Some. setoid_rewrite acked_Some. split.
  - intros [[(n & t & He)|Hext] Hno]; [left|by right]. exists n, t. split; [done|].
    destruct (decide (a <= n)); [done|]. destruct Hno. exists n, t. split; [done|lia].
  - intros [(n & t & He & Hn)|Hext]; split.
    + eauto.
    + intros (n' & t' & He' & Hn'). pose proof (Hown _ _ _ _ _ He He'). lia.
    + by right.
    + intros (n' & t' & He' & _). apply (Hd b); [|done]. apply elem_of_bufs. eauto.
Qed.

Lemma bufs_kept_sub a E : bufs (kept a E) ⊆ bufs E.
Proof. intros b (n & t & [He _]%kept_Some)%elem_of_bufs. apply elem_of_bufs. eauto. Qed.

(** The ghost state after the acknowledgement of everything below [a]. *)
Definition ghost_acked (g : ghost) (a : Z) : ghost :=
  mkGhost (g_input g) (g_out g) a (kept a (g_E g)) (g_B g) (g_R g).

Lemma snd_inv_acked (p p' : P) sd g q a rtt :
  snd_inv p sd g -> pool_frame p p' (bufs (kept a (g_E g))) -> g_U g <= a <= g_N g ->
  queue a (kept a (g_E g)) q ->
  snd_inv p' (mkSender q (pending_tx_ sd) (tx_off_ sd) (next_seq_ sd) (u32 a) (bytes_sent_ sd)
                (retransmits_ sd) rtt) (ghost_acked g a).
Proof.
  intros I F Ha Q. eapply snd_inv_frame; [|exact F]. pose proof (si_range _ _ _ I).
  destruct I. split; simpl; try done.
  - unfold g_N in *. simpl. lia.
  - intros n. unfold g_N in *. simpl. split.
    + intros [e [He Hn]%kept_Some]. assert (is_Some (g_E g !! n)) as Hi by eauto.
      apply si_dom0 in Hi. lia.
    + intros Hn. assert (is_Some (g_E g !! n)) as [e He] by (apply si_dom0; lia).
      exists e. apply kept_Some. split; [done|lia].
  - intros n n' b t t' [He _]%kept_Some [He' _]%kept_Some. by eapply si_own0.
  - intros n b t [He _]%kept_Some. by eapply si_time0.
  - intros n b t [He _]%kept_Some. by eapply si_packets0.
Qed.

(** The conversion of an elapsed time to nanoseconds stays in range. *)
Definition clock_ok : Prop :=
  forall i j, is_Some (double_to_u64 (cycles_to_ns ghz (u64 (u64 (tsc j) - u64 (tsc i))))).

Lemma sample_rtt_ok t rtt e :
  clock_ok -> t = 0 \/ (exists i, t = u64 (tsc i)) ->
  exists rtt' e', sample_rtt tsc ghz t rtt e = Some (rtt', e') /\ wire e' = wire e /\
    delivered e' = delivered e.
Proof.
  intros Hclk Ht. unfold sample_rtt. destruct (Z.eqb_spec t 0); [by eexists _, _|].
  destruct Ht as [?|[i ->]]; [done|]. simpl. destruct (Hclk i (reads e)) as [x ->]. simpl. by eexists _, _.
Qed.

Lemma process_ack_ok inn ext s g h a :
  clock_ok -> sess_inv inn ext s g -> near a (g_U g) -> a <= g_N g -> ack_num h = u32 a ->
  exists s' g', process_ack tsc ghz h s = Some s' /\ sess_inv inn ext s' g' /\
    advanced ext s g s' g' /\ g_U g' = Z.max (g_U g) a /\ g_B g' = g_B g /\ g_R g' = g_R g /\
    rcv s' = rcv s /\ delivered (env s') = delivered (env s).
Proof.
  intros Hclk I Hnear HaN Hack. pose proof (in_snd _ _ _ _ I) as S. unfold process_ack.
  rewrite Hack, (si_una _ _ _ S), i32_seq_diff by done. pose proof (si_range _ _ _ S) as Hr.
  destruct (Z.ltb_spec 0 (a - g_U g)).
  2:{ exists s, g. split_and!; try done; try lia; apply advanced_refl. }
  destruct (mark_acked_ok (g_U g) (g_E g) (unacked_ (snd s)) (pool_ s) (bufs (g_E g) ∪ ext) a)
    as (t & q & p1 & -> & Q & Hok1 & F1 & Ht); [apply S|lia|apply I|set_solver|apply S|].
  simpl. rewrite (bufs_kept a _ ext) in Hok1, F1 by apply S || apply I.
  destruct (sample_rtt_ok t (rtt_ns_ (snd s)) (env s) Hclk) as (rtt & e & -> & Hw & Hd).
  { destruct Ht as [[? _]|(n & b & [He _]%acked_Some & _)]; [by left|right]. by eapply (si_time _ _ _ S). }
  simpl. destruct (pump_tx_ok inn ext (mkSession p1 (cfg s)
    (mkSender q (pending_tx_ (snd s)) (tx_off_ (snd s)) (next_seq_ (snd s)) (u32 a) (bytes_sent_ (snd s))
       (retransmits_ (snd s)) rtt) (rcv s) e) (ghost_acked g a)) as (s' & g' & -> & I' & Hp & _).
  - pose proof (bufs_kept_sub a (g_E g)) as Hsub. split; simpl; try apply I; try done.
    + pose proof (in_ext _ _ _ _ I). set_solver.
    + rewrite (pf_size _ _ _ F1). apply I.
    + eapply snd_inv_acked; [done|eapply pool_frame_mono; [done|set_solver]|lia|done].
    + rewrite Hw. eapply Forall_impl; [apply I|]. intros x. by apply wire_ok_mono.
    + rewrite Hd. apply I.
  - exists s', g'. destruct Hp. simpl in *. split_and!; try done; try lia; [|congruence].
    split; try done; try lia; simpl; [by rewrite <-Hw|].
    eapply pool_frame_trans; [|eapply pool_frame_mono; [done|set_solver]].
    eapply pool_frame_mono; [done|set_solver].
Qed.

(** ** Delivery *)

Lemma window_size B R bm : window B R bm -> (size R <= 256)%nat.
Proof.
  intros W. trans (size (list_to_set (seqZ B 256) : gset Z)).
  - apply subseteq_size. intros n Hn. apply elem_of_list_to_set, elem_of_seqZ.
    apply (w_range _ _ _ W) in Hn. lia.
  - rewrite size_list_to_set by apply NoDup_seqZ. rewrite length_seqZ. lia.
Qed.

Lemma take_succ_chunk (inn : list (list Z)) B c :
  aget inn B = Some c -> take (Z.to_nat (B + 1)) inn = take (Z.to_nat B) inn ++ [c].
Proof.
  intros [? Hc]%aget_Some. replace (Z.to_nat (B + 1)) with (S (Z.to_nat B)) by lia.
  by apply take_S_r.
Qed.

(** One round: the packet at the base is delivered. *)
Lemma rcv_inv_deliver inn r B R c reasm :
  rcv_inv inn r B R -> B ∈ R -> aget inn B = Some c ->
  reasm = <[Z.to_nat (B mod 256) := []]> (reasm_ r) ->
  rcv_inv inn (mkReceiver (advance (recv_bitmap_ r) (u32 (base_seq_ (recv_bitmap_ r) + 1))) reasm
                 (pending_ack_ r) (u64 (bytes_received_ r + Z.of_nat (length c))))
    (B + 1) (filter (fun n => B + 1 <= n) R).
Proof.
  intros I HB Hc ->. pose proof (aget_range _ _ _ Hc). pose proof (slot_index_range B) as Hs.
  pose proof (ri_window _ _ _ _ I) as W. split; simpl.
  - rewrite (w_base _ _ _ W), u32_add_l. apply (advance_ok B); [done|lia].
  - lia.
  - rewrite length_insert. apply I.
  - intros n [Hn HR]%elem_of_filter. destruct (ri_data _ _ _ _ I n HR) as (c' & Hc' & Hr).
    exists c'. split; [done|]. rewrite aget_insert by (rewrite (ri_len _ _ _ _ I); lia).
    rewrite decide_False; [done|]. intros Heq. apply (w_range _ _ _ W) in HR.
    assert (n - B = 0); [|lia]. apply (mod_window_inj 256 B (n - B) 0); [lia|lia|lia|].
    rewrite Z.add_0_r, Zplus_minus. done.
  - rewrite (ri_bytes _ _ _ _ I), u64_add_l, (take_succ_chunk _ _ c Hc), concat_app, length_app.
    simpl. rewrite app_nil_r. f_equal. lia.
Qed.

(** The loop ends with the first missing packet, and everything before it is
    delivered in order. *)
Lemma deliver_loop_ok inn fuel c r e B R :
  rcv_inv inn r B R -> (size R < fuel)%nat ->
  (has_data_cb c = true -> delivered e = take (Z.to_nat B) inn) ->
  exists r' e' B', deliver_loop fuel c r e = Some (r', e') /\
    rcv_inv inn r' B' (filter (fun n => B' <= n) R) /\ B <= B' /\
    (forall n, B <= n < B' -> n ∈ R) /\ B' ∉ R /\
    wire e' = wire e /\ reads e' = reads e /\
    (has_data_cb c = true -> delivered e' = take (Z.to_nat B') inn).
Proof.
  revert r e B R. induction fuel as [|fuel IH]; intros r e B R I Hf Hd; [lia|].
  cbn [deliver_loop]. pose proof (ri_window _ _ _ _ I) as W.
  rewrite (w_base _ _ _ W), (has_ok B R) by (done || unfold near; lia).
  case_bool_decide as HB.
  2:{ exists r, e, B. assert (filter (fun n => B <= n) R = R) as ->.
      { apply set_eq. intros n. rewrite elem_of_filter. split; [tauto|]. intros Hn. split; [|done].
        apply (w_range _ _ _ W) in Hn. lia. }
      split_and!; try done; lia. }
  destruct (ri_data _ _ _ _ I B HB) as (v & Hv & Hr). rewrite slot_index_eq, Hr. simpl.
  pose proof (slot_index_range B) as Hs. rewrite aset_Some by (rewrite (ri_len _ _ _ _ I); lia). simpl.
  rewrite <-(w_base _ _ _ W).
  destruct (IH (mkReceiver (advance (recv_bitmap_ r) (u32 (base_seq_ (recv_bitmap_ r) + 1)))
      (<[Z.to_nat (B mod 256) := []]> (reasm_ r)) (pending_ack_ r) (u64 (bytes_received_ r + Z.of_nat (length v))))
      (if has_data_cb c then mkEnv (reads e) (wire e) (delivered e ++ [v]) else e)
      (B + 1) (filter (fun n => B + 1 <= n) R)) as (r' & e' & B' & Hl & I' & HB' & Hall & Hmiss & Hw & Hrd & Hd').
  - by eapply rcv_inv_deliver.
  - assert (size (filter (fun n => (B + 1 <= n)%Z) R) < size R)%nat; [|lia].
    apply subset_size. split; [set_solver|]. intros Hsub. specialize (Hsub B HB).
    apply elem_of_filter in Hsub. lia.
  - intros Hcb. rewrite Hcb. simpl. rewrite (Hd Hcb). symmetry. by apply take_succ_chunk.
  - exists r', e', B'. rewrite Hl. split_and!; try done; try lia.
    + assert (filter (fun n => B' <= n) R = filter (fun n => B' <= n) (filter (fun n => B + 1 <= n) R)) as ->; [|done].
      apply set_eq. intros n. rewrite !elem_of_filter. split; [intros []; split_and!; [done|lia|done]|tauto].
    + intros n Hn. destruct (decide (n = B)) as [->|]; [done|].
      assert (n ∈ filter (fun n => B + 1 <= n) R) as Hin by (apply Hall; lia). by apply elem_of_filter in Hin as [_ ?].
    + intros HR. apply Hmiss. apply elem_of_filter. split; [lia|done].
    + rewrite Hw. by destruct (has_data_cb c).
    + rewrite Hrd. by destruct (has_data_cb c).
Qed.

Lemma deliver_in_order_ok inn c r e B R :
  rcv_inv inn r B R -> (has_data_cb c = true -> delivered e = take (Z.to_nat B) inn) ->
  exists r' e' B', deliver_in_order c r e = Some (r', e') /\
    rcv_inv inn r' B' (filter (fun n => B' <= n) R) /\ B <= B' /\ B' ∉ R /\ wire e' = wire e /\
    (has_data_cb c = true -> delivered e' = take (Z.to_nat B') inn).
Proof.
  intros I Hd. destruct (deliver_loop_ok inn 257 c r e B R I) as (r' & e' & B' & Hl & I' & HB & _ & Hm & Hw & _ & Hd').
  { pose proof (window_size _ _ _ (ri_window _ _ _ _ I)). lia. }
  { done. }
  exists r', e', B'. unfold deliver_in_order. done.
Qed.

(** ** Packets that arrive *)

(** Packet [n] of the peer has been delivered or is in the window. *)
Definition got (g : ghost) (n : Z) : Prop := n < g_B g \/ n ∈ g_R g.

(** A packet is recorded in the window, if it is new. *)
Lemma rcv_inv_mark inn r B R n payload :
  rcv_inv inn r B R -> near n B -> aget inn n = Some payload ->
  exists fresh bm reasm R1, mark_received (recv_bitmap_ r) (u32 n) = (fresh, bm) /\
    (if fresh : bool then aset (reasm_ r) (slot_index (u32 n)) payload else Some (reasm_ r)) = Some reasm /\
    rcv_inv inn (mkReceiver bm reasm (pending_ack_ r) (bytes_received_ r)) B R1 /\
    R ⊆ R1 /\ (B <= n < B + 256 -> n ∈ R1).
Proof.
  intros RI Hnear Hin. pose proof (slot_index_range n) as Hs. pose proof (ri_window _ _ _ _ RI) as W.
  destruct (mark_received_ok _ _ _ _ W Hnear) as [[-> Hc]|(bm & -> & Hr & HnR & W')].
  - exists false, (recv_bitmap_ r), (reasm_ r), R. split; [done|]. split; [done|]. split; [by destruct RI|].
    split; [done|]. intros ?. destruct Hc as [?|[?|?]]; [lia|lia|done].
  - exists true, bm, (<[Z.to_nat (n mod 256) := payload]> (reasm_ r)), ({[n]} ∪ R). split; [done|].
    rewrite slot_index_eq, aset_Some by (rewrite (ri_len _ _ _ _ RI); lia).
    split; [done|]. split; [|set_solver]. destruct RI as [_ RB RL RD RY]. split; cbn; try done.
    + by rewrite length_insert.
    + intros m Hm. rewrite aget_insert by lia. case_decide as Hd; [|apply RD; set_solver].
      assert (m = n) as ->; [|eauto]. pose proof (w_range _ _ _ W' m Hm).
      assert (m - B = n - B); [|lia].
      apply (mod_window_inj 256 B); [lia|lia|lia|]. by rewrite !Zplus_minus.
Qed.

Lemma process_data_ok inn ext s g n payload :
  sess_inv inn ext s g -> near n (g_B g) -> aget inn n = Some payload ->
  exists s' g', process_data (u32 n) payload s = Some s' /\ sess_inv inn ext s' g' /\
    advanced ext s g s' g' /\ g_U g' = g_U g /\ g_E g' = g_E g /\ g_out g' = g_out g /\
    pool_ s' = pool_ s /\ snd s' = snd s /\ wire (env s') = wire (env s) /\
    pending_ack_ (rcv s') = true /\
    (n < g_B g + 256 -> got g' n) /\ (forall m, got g m -> got g' m).
Proof.
  intros I Hnear Hin. pose proof (in_rcv _ _ _ _ I) as RI. pose proof (ri_window _ _ _ _ RI) as W.
  unfold process_data.
  destruct (rcv_inv_mark _ _ _ _ _ _ RI Hnear Hin) as (fresh & bm & reasm & R1 & -> & -> & RI1 & Hsub & Hin1).
  pose proof (deliver_in_order_ok inn (cfg s)) as HD. revert HD. generalize deliver_in_order.
  intros deliver HD. simpl.
  destruct (HD _ (env s) _ _ RI1) as (r' & e' & B' & -> & RI' & HB' & Hmiss & Hw & Hd'); [apply I|]. simpl.
  exists (mkSession (pool_ s) (cfg s) (snd s) (mkReceiver (recv_bitmap_ r') (reasm_ r') true (bytes_received_ r')) e'),
    (mkGhost (g_input g) (g_out g) (g_U g) (g_E g) B' (filter (fun n => B' <= n) R1)).
  assert (forall m, m ∈ R1 -> m < B' \/ m ∈ filter (fun n => B' <= n) R1) as Hgot.
  { intros m Hm. destruct (decide (B' <= m)); [right; by apply elem_of_filter|left; lia]. }
  split_and!; try done.
  - split; simpl; try apply I.
    + eapply snd_inv_B; [apply I|done..].
    + by destruct RI'.
    + intros [_ ?]%elem_of_filter. done.
    + rewrite Hw. eapply Forall_impl; [apply I|]. intros x. by apply wire_ok_mono.
    + done.
  - by split; simpl; rewrite ?Hw; try apply pool_frame_refl.
  - intros Hlt. unfold got. simpl. destruct (decide (g_B g <= n)); [by apply Hgot, Hin1|left; lia].
  - intros m [Hm|Hm]; unfold got; simpl; [left; lia|]. by apply Hgot, Hsub.
Qed.
End inv.
