(* ===== verification/TcpOps.v ===== *)
(** * The operations of a TCP-Lite session preserve its invariant

    [on_packet_received] (valid, stale, duplicate, out of order, acknowledging
    or corrupt packets), [tick] and [send], each with what it guarantees of the
    change it makes. *)

From S2P Require Import Prelude PoolIface Crc32 TcpHeader RecvBitmap UnackedQueue Rdtsc TcpSession TcpInv.
From stdpp Require Import base list_numbers gmap option list.
#[local] Open Scope Z_scope.

(** The transport of the session is up. *)
Definition up (c : Config) : bool := user_transmit c || (0 <=? fd_ c).

Section ops.
Context {P : Type} `{PoolSpec P}.
Context (tsc : nat -> Z) (ghz : double).
Context (Hclk : clock_ok tsc ghz).

Lemma transmit_up c pkt e : up c = true -> wire (transmit c pkt e) = wire e ++ [pkt].
Proof.
  unfold up, transmit. destruct (user_transmit c); simpl; [done|]. intros ?%Z.leb_le.
  by rewrite (proj2 (Z.ltb_ge _ _)).
Qed.

(** ** [on_packet_received] *)

Lemma release_buf_ok inn ext (s : TcpLiteSession P) g b :
  sess_inv tsc inn ({[b]} ∪ ext) s g -> b ∉ ext ->
  exists s', release_buf b s = Some s' /\ sess_inv tsc inn ext s' g /\ advanced ext s g s' g /\
    cfg s' = cfg s /\ snd s' = snd s /\ rcv s' = rcv s /\ env s' = env s.
Proof.
  intros I Hb. pose proof (in_ext _ _ _ _ _ I) as Hd.
  destruct (release_frame _ _ b (in_pool _ _ _ _ _ I)) as (p & Hr & Hok & F); [set_solver|].
  assert ((bufs (g_E g) ∪ ({[b]} ∪ ext)) ∖ {[b]} = bufs (g_E g) ∪ ext) as Heq by set_solver.
  rewrite Heq in Hok, F. unfold release_buf. rewrite Hr. simpl.
  eexists. split; [done|]. split_and!; try done.
  - destruct I as [A1 A2 A3 A4 A5 A6 A7 A8]. split; simpl; try done.
    + set_solver.
    + by rewrite (pf_size _ _ _ F).
    + eapply snd_inv_frame; [done|]. eapply pool_frame_mono; [done|set_solver].
  - split; simpl; try done. eapply pool_frame_mono; [done|set_solver].
Qed.

(** Reading a packet out of the buffer it arrived in. *)
Lemma read_packet (p : P) held b n a c :
  pool_ok p held -> b ∈ held -> TCP_LITE_MTU <= buf_size p ->
  holds_packet p b (packet n a c) -> bytes_ok c -> (length c <= 1024)%nat ->
  let h := packet_header n a c in
  buf_header b p = Some (set_checksum h (packet_crc h c)) /\
  buf_payload b (Z.of_nat (length c)) p = Some c.
Proof.
  intros Hok Hb Hmtu [_ Hc] Hbc Hlc. cbv zeta. destruct (packet_of_header n a c Hbc Hlc) as [Hh _].
  unfold TCP_LITE_MTU, sizeof_header, TCP_LITE_MAX_PAYLOAD in Hmtu. unfold packet in Hh. rewrite take_app_length' in Hh
    by (by rewrite length_header_bytes).
  rewrite length_packet in Hc.
  destruct (read_layout p held b _ c Hok Hb (length_header_bytes _) ltac:(lia) Hc) as (m & Hm & Hr1 & Hr2).
  unfold buf_header, buf_payload, sizeof_header. rewrite Hm. cbn [mbind option_bind]. rewrite Hr1, Hr2.
  cbn [mbind option_bind]. by rewrite Hh.
Qed.

(** What a valid packet does. *)
Record handled (ext : gset Z) (s : TcpLiteSession P) g n a (c : list Z) (s' : TcpLiteSession P) g' : Prop := {
  ha_advanced : advanced ext s g s' g';
  ha_U : g_U g' = Z.max (g_U g) a;
  ha_got : c <> [] -> n < g_B g + 256 -> got g' n;
  ha_keeps : forall m, got g m -> got g' m;
  ha_ack : pending_ack_ (rcv s') = pending_ack_ (rcv s) || negb (bool_decide (c = []))
}.

Lemma on_packet_ok inn ext (s : TcpLiteSession P) g b n a c :
  sess_inv tsc inn ({[b]} ∪ ext) s g -> b ∉ ext ->
  holds_packet (pool_ s) b (packet n a c) -> bytes_ok c -> (length c <= 1024)%nat ->
  near a (g_U g) -> a <= g_N g ->
  (c <> [] -> aget inn n = Some c /\ near n (g_B g)) ->
  exists s' g', on_packet_received tsc ghz s b = Some s' /\ sess_inv tsc inn ext s' g' /\
    handled ext s g n a c s' g'.
Proof.
  intros I Hb Hh Hbc Hlc Hna HaN Hdata. assert (b ∈ bufs (g_E g) ∪ ({[b]} ∪ ext)) as Hin by set_solver.
  destruct (read_packet _ _ _ _ _ _ (in_pool _ _ _ _ _ I) Hin (in_mtu _ _ _ _ _ I) Hh Hbc Hlc) as [Hr1 Hr2].
  unfold on_packet_received. rewrite Hr1. cbn [mbind option_bind payload_len set_checksum packet_header make_data].
  rewrite Hr2. cbn [mbind option_bind]. rewrite packet_verifies by done. cbn [mbind option_bind negb].
  change (Z.land _ _ =? 0) with false. cbn iota.
  destruct (process_ack_ok tsc ghz inn ({[b]} ∪ ext) s g (set_checksum (packet_header n a c)
    (packet_crc (packet_header n a c) c)) a) as (s1 & g1 & -> & I1 & A1 & HU & HB & HR & Hrcv & Hdel); [done..|].
  cbn [mbind option_bind]. destruct c as [|x c'] eqn:Ec.
  - change (0 <? Z.of_nat (length [])) with false. cbn [mbind option_bind].
    destruct (release_buf_ok inn ext s1 g1 b I1 Hb) as (s2 & -> & I2 & A2 & _ & _ & Hrcv2 & _).
    exists s2, g1. split_and!; [done|done|]. split; try done.
    + eapply advanced_trans; [eapply advanced_mono; [exact A1|set_solver]|done].
    + intros m. unfold got. by rewrite HB, HR.
    + rewrite Hrcv2, Hrcv. by rewrite orb_false_r.
  - rewrite <-Ec in *. assert (c <> []) as Hne by (by rewrite Ec). clear Ec.
    destruct (Hdata Hne) as [Hinn Hnb].
    rewrite (proj2 (Z.ltb_lt 0 _)) by (destruct c; [done|simpl; lia]).
    assert (b ∈ bufs (g_E g1) ∪ ({[b]} ∪ ext)) as Hin1 by set_solver.
    assert (holds_packet (pool_ s1) b (packet n a c)) as Hh1.
    { eapply holds_packet_frame; [apply A1|set_solver|done]. }
    destruct (read_packet _ _ _ _ _ _ (in_pool _ _ _ _ _ I1) Hin1 (in_mtu _ _ _ _ _ I1) Hh1 Hbc Hlc) as [Hr3 Hr4].
    rewrite Hr3. cbn [mbind option_bind]. rewrite Hr4. cbn [mbind option_bind seq_num set_checksum packet_header make_data].
    destruct (process_data_ok tsc inn ({[b]} ∪ ext) s1 g1 n c I1) as
      (s2 & g2 & -> & I2 & A2 & HU2 & HE2 & _ & _ & _ & _ & Hpend & Hgot & Hkeep); [by rewrite HB|done|].
    cbn [mbind option_bind].
    destruct (release_buf_ok inn ext s2 g2 b I2 Hb) as (s3 & -> & I3 & A3 & _ & _ & Hrcv3 & _).
    exists s3, g2. split_and!; [done|done|]. split.
    + eapply advanced_trans; [|done]. eapply advanced_mono; [eapply advanced_trans; done|set_solver].
    + by rewrite HU2.
    + intros _ Hlt. apply Hgot. by rewrite HB.
    + intros m Hm. apply Hkeep. unfold got in *. by rewrite HB, HR.
    + rewrite Hrcv3, Hpend, bool_decide_false by done. by rewrite orb_true_r.
Qed.

(** A packet that does not verify changes nothing but gives its buffer back. *)
Lemma on_packet_corrupt inn ext (s : TcpLiteSession P) g b h payload :
  sess_inv tsc inn ({[b]} ∪ ext) s g -> b ∉ ext ->
  buf_header b (pool_ s) = Some h -> buf_payload b (payload_len h) (pool_ s) = Some payload ->
  verify_checksum h payload = Some false ->
  exists s', on_packet_received tsc ghz s b = Some s' /\ sess_inv tsc inn ext s' g /\
    advanced ext s g s' g /\ cfg s' = cfg s /\ snd s' = snd s /\ rcv s' = rcv s /\ env s' = env s.
Proof.
  intros I Hb Hr1 Hr2 Hv. unfold on_packet_received. rewrite Hr1. cbn [mbind option_bind].
  rewrite Hr2. cbn [mbind option_bind]. rewrite Hv. cbn [mbind option_bind negb]. by apply release_buf_ok.
Qed.

(** ** [tick] *)

Definition ghost_times (g : ghost) (E : gmap Z (Z * Z)) : ghost :=
  mkGhost (g_input g) (g_out g) (g_U g) E (g_B g) (g_R g).

(** The queue with other send times. *)
Definition same_bufs (E E' : gmap Z (Z * Z)) : Prop := fst <$> E' = fst <$> E.

Lemma same_bufs_lookup E E' n b t :
  same_bufs E E' -> E' !! n = Some (b, t) -> exists t', E !! n = Some (b, t').
Proof.
  intros Heq He. assert ((fst <$> E') !! n = Some b) as Hf by (by rewrite lookup_fmap, He).
  rewrite Heq, lookup_fmap in Hf. destruct (E !! n) as [[b' t']|]; simplify_eq/=. eauto.
Qed.

Lemma same_bufs_touch E n b t now : E !! n = Some (b, t) -> same_bufs E (<[n := (b, now)]> E).
Proof.
  intros He. unfold same_bufs. rewrite fmap_insert. apply insert_id. by rewrite lookup_fmap, He.
Qed.

Lemma sess_inv_touched inn ext s g n b t i q retx e :
  sess_inv tsc inn ext s g -> g_E g !! n = Some (b, t) ->
  queue (g_U g) (<[n := (b, u64 (tsc i))]> (g_E g)) q ->
  Forall (wire_ok g) (wire e) -> delivered e = delivered (env s) ->
  sess_inv tsc inn ext
    (mkSession (pool_ s) (cfg s)
       (mkSender q (pending_tx_ (snd s)) (tx_off_ (snd s)) (next_seq_ (snd s)) (snd_una_ (snd s))
          (bytes_sent_ (snd s)) retx (rtt_ns_ (snd s))) (rcv s) e)
    (ghost_times g (<[n := (b, u64 (tsc i))]> (g_E g))).
Proof.
  intros I He Q Hw Hd. pose proof (same_bufs_touch _ _ _ _ (u64 (tsc i)) He) as Hs.
  assert (bufs (<[n := (b, u64 (tsc i))]> (g_E g)) = bufs (g_E g)) as Hb by (unfold bufs; by rewrite Hs).
  destruct I as [A1 A2 A3 S A5 A6 A7 A8]. split; simpl; rewrite ?Hb, ?Hd; try done. destruct S. split; simpl; try done.
  - intros m. rewrite <-si_dom. unfold g_N. simpl. fold (g_N g). rewrite lookup_insert_is_Some'.
    split; [|tauto]. intros [<-|?]; [by rewrite He|done].
  - intros k k' x y y' Hk Hk'. destruct (same_bufs_lookup _ _ _ _ _ Hs Hk) as [? Hk0].
    destruct (same_bufs_lookup _ _ _ _ _ Hs Hk') as [? Hk0']. by eapply si_own.
  - intros m b' t'. rewrite lookup_insert_Some. intros [[<- ?]|[_ Hm]]; simplify_eq; [eauto|by eapply si_time].
  - intros m b' t' Hm. destruct (same_bufs_lookup _ _ _ _ _ Hs Hm) as [? Hm0]. by eapply si_packets.
Qed.

(** The packets numbered by [seqs] are on the wire [w]. *)
Definition resent (g : ghost) (seqs : list Z) (w : list (list Z)) : Prop :=
  forall n, u32 n ∈ seqs -> g_U g <= n < g_N g ->
    exists a c, aget (g_out g) n = Some c /\ 0 <= a <= g_B g /\ packet n a c ∈ w.

Lemma retransmit_loop_ok inn ext seqs i (s : TcpLiteSession P) g :
  sess_inv tsc inn ext s g -> Forall (fun x => exists n, x = u32 n /\ is_Some (g_E g !! n)) seqs ->
  exists s' E' w, retransmit_loop seqs (u64 (tsc i)) s = Some s' /\
    sess_inv tsc inn ext s' (ghost_times g E') /\ same_bufs (g_E g) E' /\
    pool_ s' = pool_ s /\ cfg s' = cfg s /\ rcv s' = rcv s /\
    delivered (env s') = delivered (env s) /\ wire (env s') = wire (env s) ++ w /\
    (up (cfg s) = true -> resent g seqs w).
Proof.
  revert s g. induction seqs as [|x seqs IH]; intros s g I Hall.
  { exists s, (g_E g), []. rewrite app_nil_r. split_and!; try done; [by destruct g|]. intros _ n Hn. set_solver. }
  apply Forall_cons in Hall as [(n & -> & [[b t] He]) Hall]. pose proof (in_snd _ _ _ _ _ I) as S.
  pose proof (q_range _ _ _ (si_queue _ _ _ _ S) _ _ He) as Hn. cbn [retransmit_loop].
  destruct (buffer_for_ok _ _ _ n (si_queue _ _ _ _ S) Hn) as [-> _]. rewrite He. cbn [mbind option_bind fmap option_fmap option_map fst].
  destruct (si_packets _ _ _ _ S _ _ _ He) as (a & c & Hc & Ha & Hh).
  destruct (out_chunk _ _ _ _ _ _ S Hc) as [_ Hlc].
  assert (b ∈ bufs (g_E g)) as Hb by (apply elem_of_bufs; eauto).
  rewrite (buf_packet_ok _ (bufs (g_E g) ∪ ext) b (packet n a c)).
  2: apply I. 2: set_solver. 2: done.
  2:{ rewrite length_packet. pose proof (in_mtu _ _ _ _ _ I).
      unfold TCP_LITE_MTU, sizeof_header, TCP_LITE_MAX_PAYLOAD in *. lia. }
  cbn [mbind option_bind]. destruct (touch_ok _ _ _ _ _ _ (u64 (tsc i)) (si_queue _ _ _ _ S) He) as (q & -> & Q).
  cbn [mbind option_bind]. destruct (transmit_wire (cfg s) (packet n a c) (env s)) as (_ & W2 & W3 & _).
  set (g1 := ghost_times g (<[n := (b, u64 (tsc i))]> (g_E g))).
  pose proof (same_bufs_touch _ _ _ _ (u64 (tsc i)) He) as Hs1.
  destruct (IH _ g1 (sess_inv_touched _ _ _ _ _ _ _ i q (u64 (retransmits_ (snd s) + 1))
    (transmit (cfg s) (packet n a c) (env s)) I He Q (W2 _ (in_wire _ _ _ _ _ I)
      ltac:(exists n, a, c; split_and!; [done|lia|lia|by right])) W3))
    as (s' & E' & w & Hl & I' & Hs & Hp & Hcfg & Hrcv & Hd & Hw & Hres).
  { eapply Forall_impl; [exact Hall|]. intros y (m & -> & Hm). exists m. split; [done|]. simpl.
    rewrite lookup_insert_is_Some'. by right. }
  rewrite Hl. simpl in Hp, Hcfg, Hrcv, Hd, Hw, Hres.
  assert (exists w0, wire (transmit (cfg s) (packet n a c) (env s)) = wire (env s) ++ w0 /\
    (up (cfg s) = true -> w0 = [packet n a c])) as (w0 & Hw0 & Hup).
  { destruct (up (cfg s)) eqn:Hup; [exists [packet n a c]; by rewrite transmit_up|].
    destruct (proj1 (transmit_wire (cfg s) (packet n a c) (env s))) as [w0 Hw0]. by exists w0. }
  exists s', E', (w0 ++ w). split_and!; try done.
  - unfold same_bufs in *. simpl in Hs. congruence.
  - by rewrite Hd.
  - by rewrite Hw, Hw0, app_assoc.
  - intros Hu m Hm Hr. apply elem_of_cons in Hm as [Hm|Hm].
    + apply u32_inj_near in Hm; [|pose proof (si_range _ _ _ _ S); lia]. subst m.
      exists a, c. split_and!; [done|lia|lia|]. rewrite (Hup Hu). set_solver.
    + destruct (Hres Hu m Hm Hr) as (a' & c' & ? & ? & ?). exists a', c'. split; [done|]. split; [done|]. set_solver.
Qed.

Lemma send_ack_ok inn ext (s : TcpLiteSession P) g :
  sess_inv tsc inn ext s g ->
  exists s' w, send_ack s = Some s' /\ sess_inv tsc inn ext s' g /\ pool_ s' = pool_ s /\ snd s' = snd s /\
    cfg s' = cfg s /\ pending_ack_ (rcv s') = false /\ wire (env s') = wire (env s) ++ w /\
    (up (cfg s) = true -> pending_ack_ (rcv s) = true -> packet (g_N g) (g_B g) [] ∈ w).
Proof.
  intros I. unfold send_ack. destruct (pending_ack_ (rcv s)) eqn:Hp.
  2:{ exists s, []. by rewrite app_nil_r. }
  pose proof (in_snd _ _ _ _ _ I) as S. pose proof (in_rcv _ _ _ _ _ I) as R.
  destruct (cumulative_ack_ok _ _ _ (ri_window _ _ _ _ R)) as (f & -> & Hf).
  apply first_missing_base in Hf as ->; [|apply I]. rewrite (si_next _ _ _ _ S).
  destruct (make_ack_packet (g_N g) (g_B g)) as (h & -> & Hh). simpl. rewrite Hh.
  destruct (transmit_wire (cfg s) (packet (g_N g) (g_B g) []) (env s)) as ([w Hw] & W2 & W3 & _).
  eexists _, w. split; [done|]. simpl. split_and!; try done.
  - destruct I as [A1 A2 A3 A4 A5 A6 A7 A8]. split; simpl; try done.
    + by destruct A5.
    + apply W2; [done|]. exists (g_N g), (g_B g), []. pose proof (ri_base _ _ _ _ R).
      split_and!; [done|lia|lia|]. left. unfold g_N. split; [done|lia].
    + by rewrite W3.
  - intros Hu _. rewrite transmit_up in Hw by done. apply app_inj_1 in Hw as [_ <-]; [|done]. set_solver.
Qed.

(** The time after which [tick] sends a packet again, in cycles. *)
Definition rto_cycles (c : Config) : option Z := double_to_u64 (dmul (u64_to_double (rto_ns_ c)) ghz).

Record ticked (ext : gset Z) (s : TcpLiteSession P) g (s' : TcpLiteSession P) g' (w : list (list Z)) : Prop := {
  tk_advanced : advanced ext s g s' g';
  tk_U : g_U g' = g_U g;
  tk_B : g_B g' = g_B g;
  tk_R : g_R g' = g_R g;
  tk_wire : wire (env s') = wire (env s) ++ w;
  tk_resent : up (cfg s) = true -> forall n b t timeout, g_E g !! n = Some (b, t) ->
    rto_cycles (cfg s) = Some timeout -> timeout <= u64 (u64 (tsc (reads (env s))) - t) ->
    exists a c, aget (g_out g) n = Some c /\ 0 <= a <= g_B g /\ packet n a c ∈ w;
  tk_ack : up (cfg s) = true -> pending_ack_ (rcv s) = true ->
    exists n, 0 <= n <= g_N g' /\ packet n (g_B g) [] ∈ w;
  tk_pending : pending_ack_ (rcv s') = false;
  tk_stop : pump_stop ext s' g'
}.

Lemma tick_ok inn ext (s : TcpLiteSession P) g :
  sess_inv tsc inn ext s g -> is_Some (rto_cycles (cfg s)) ->
  exists s' g' w, tick tsc ghz s = Some s' /\ sess_inv tsc inn ext s' g' /\ ticked ext s g s' g' w.
Proof.
  intros I [timeout Hto]. unfold tick, rdtsc. cbv beta iota. fold (rto_cycles (cfg s)). bind_with Hto. cbv zeta.
  cbn [snd].
  set (e0 := mkEnv (S (reads (env s))) (wire (env s)) (delivered (env s))).
  assert (sess_inv tsc inn ext (mkSession (pool_ s) (cfg s) (snd s) (rcv s) e0) g) as I0 by (by destruct I).
  set (now := u64 (tsc (reads (env s)))). set (seqs := check_timeouts _ now timeout).
  pose proof (in_snd _ _ _ _ _ I) as S. pose proof (si_queue _ _ _ _ S) as Q.
  destruct (retransmit_loop_ok inn ext seqs (reads (env s)) _ g I0)
    as (s1 & E1 & w1 & Hl & I1 & Hs1 & Hp1 & Hc1 & Hr1 & Hd1 & Hw1 & Hres).
  { apply Forall_forall. intros x Hx. apply (check_timeouts_ok _ _ _ _ _ _ Q) in Hx as (n & b & t & He & -> & _).
    exists n. eauto. }
  fold now in Hl. bind_with Hl.
  destruct (pump_tx_ok tsc inn ext s1 _ I1) as (s2 & g2 & Hpump & I2 & Hpu & Hstop). bind_with Hpump.
  destruct (send_ack_ok inn ext s2 g2 I2) as (s3 & w3 & -> & I3 & Hp3 & Hs3 & Hc3 & Hpend3 & Hw3 & Hack3).
  destruct Hpu as [P1 P2 P3 P4 P5 P6 P7 P8 [w2 P9] P10 _]. simpl in *.
  exists s3, g2, (w1 ++ w2 ++ w3). split_and!; [done|done|]. split; try done.
  - split; try done; try lia; [congruence|rewrite Hw3, P9, Hw1|].
    + rewrite <-!app_assoc. by eexists.
    + rewrite Hp3, <-Hp1. eapply pool_frame_mono; [done|set_solver].
  - by rewrite Hw3, P9, Hw1, <-!app_assoc.
  - intros Hu n b t to He Hto' Hle. simplify_eq. assert (g_U g <= n < g_N g) as Hn by (apply (si_dom _ _ _ _ S); eauto).
    destruct (Hres Hu n) as (a & c & ? & ? & ?); [|done|].
    { apply (check_timeouts_ok _ _ _ _ _ _ Q). eauto 10. }
    exists a, c. split; [done|]. split; [done|]. set_solver.
  - intros Hu Hp. exists (g_N g2). split; [unfold g_N; lia|]. rewrite <-P4.
    assert (packet (g_N g2) (g_B g2) [] ∈ w3); [|set_solver]. apply Hack3; [congruence|].
    by rewrite P7, Hr1.
  - unfold pump_stop in *. by rewrite Hs3, Hp3.
Qed.

(** ** [send] *)

Lemma send_ok inn ext (s : TcpLiteSession P) g data :
  sess_inv tsc inn ext s g -> bytes_ok data ->
  Z.of_nat (length (pending_tx_ (snd s)) + length data) < 2 ^ 64 ->
  exists s' g', send tsc s data = Some s' /\ sess_inv tsc inn ext s' g' /\
    g_input g' = g_input g ++ data /\ g_out g `prefix_of` g_out g' /\ g_U g' = g_U g /\
    g_B g' = g_B g /\ cfg s' = cfg s /\ rcv s' = rcv s /\ pump_stop ext s' g' /\
    pool_frame (pool_ s) (pool_ s') ext.
Proof.
  clear Hclk. intros I Hb Hsz. unfold send.
  set (g0 := mkGhost (g_input g ++ data) (g_out g) (g_U g) (g_E g) (g_B g) (g_R g)).
  destruct (pump_tx_ok tsc inn ext (mkSession (pool_ s) (cfg s)
     (mkSender (unacked_ (snd s)) (pending_tx_ (snd s) ++ data) (tx_off_ (snd s)) (next_seq_ (snd s))
        (snd_una_ (snd s)) (bytes_sent_ (snd s)) (retransmits_ (snd s)) (rtt_ns_ (snd s))) (rcv s) (env s)) g0)
    as (s' & g' & -> & I' & [] & Hstop).
  - destruct I as [A1 A2 A3 S A5 A6 A7 A8]. split; simpl; try done. destruct S. split; simpl; try done.
    + rewrite length_app. lia.
    + rewrite length_app. lia.
    + by apply Forall_app.
    + rewrite drop_app_le by lia. by rewrite app_assoc, si_stream.
  - exists s', g'. split_and!; try done. eapply pool_frame_mono; [exact pu_frame|set_solver].
Qed.

(** ** The destructor *)

(** Every buffer the session held goes back to the pool. *)
Lemma delete_ok inn ext (s : TcpLiteSession P) g :
  sess_inv tsc inn ext s g ->
  exists p, delete_session s = Some p /\ pool_ok p ext /\ pool_frame (pool_ s) p ext.
Proof.
  clear Hclk. intros I. pose proof (in_snd _ _ _ _ _ I) as S. pose proof (in_ext _ _ _ _ _ I) as Hd. unfold delete_session.
  destruct (release_all_ok _ _ _ _ _ (si_queue _ _ _ _ S) (in_pool _ _ _ _ _ I)) as (q1 & p1 & -> & Q1 & Hok1 & F1);
    [set_solver|apply S|]. cbn [mbind option_bind].
  assert ((bufs (g_E g) ∪ ext) ∖ bufs (g_E g) = ext) as Heq by set_solver. rewrite Heq in Hok1, F1.
  destruct (release_all_ok _ _ _ _ _ Q1 Hok1) as (q2 & p2 & -> & _ & Hok2 & F2).
  { rewrite bufs_empty. set_solver. }
  { intros n n' b t t' He. by rewrite lookup_empty in He. }
  rewrite bufs_empty, difference_empty_L in Hok2, F2. exists p2. split_and!; [done|done|].
  by eapply pool_frame_trans.
Qed.
End ops.
