(* ===== verification/TcpProtocol.v ===== *)
(** * Two TCP-Lite sessions over an unreliable network

    Each endpoint has its own pool and its own time-stamp counter.  Every packet
    an endpoint ever transmitted stays on its wire log and may be delivered any
    number of times, in any order, or never; packets that fail the checksum may
    arrive as well.  A packet arrives the way test_tcp_lite.cpp delivers it: a
    buffer is acquired, the bytes are copied into it, and
    [on_packet_received] is called; without a free buffer the packet is lost.

    Sequence numbers have 32 bits and nothing in the protocol bounds the age of
    a packet, so the runs considered are those in which each side has sent fewer
    than [2^31 - 512] packets. *)

From S2P Require Import Prelude PoolIface Crc32 TcpHeader RecvBitmap UnackedQueue Rdtsc TcpSession TcpInv TcpOps.
From stdpp Require Import base list_numbers gmap option list.
#[local] Open Scope Z_scope.

Record endpoint (P : Type) := mkEp {
  ep_s : TcpLiteSession P;
  ep_tsc : nat -> Z;
  ep_ghz : double;
  ep_in : list Z   (** all bytes given to [send] *)
}.
Arguments mkEp {P}.
Arguments ep_s {P}.
Arguments ep_tsc {P}.
Arguments ep_ghz {P}.
Arguments ep_in {P}.

Record net (P : Type) := mkNet { ep_a : endpoint P; ep_b : endpoint P }.
Arguments mkNet {P}.
Arguments ep_a {P}.
Arguments ep_b {P}.

Definition flip {P} (n : net P) : net P := mkNet (ep_b n) (ep_a n).

Definition set_s {P} (x : endpoint P) (s : TcpLiteSession P) : endpoint P :=
  mkEp s (ep_tsc x) (ep_ghz x) (ep_in x).

Section protocol.
Context {P : Type} `{PoolOps P}.

(** [deliver]: copies a wire packet into a fresh buffer and feeds it to the
    session. *)
Definition deliver (x : endpoint P) (pkt : list Z) : option (endpoint P) :=
  let s := ep_s x in
  '(r, p) ← acquire (pool_ s);
  match r with
  | None => Some (set_s x (mkSession p (cfg s) (snd s) (rcv s) (env s)))
  | Some b =>
      p ← buf_store b 0 pkt p;
      p ← buf_set_len b (u32 (Z.of_nat (length pkt))) p;
      s ← on_packet_received (ep_tsc x) (ep_ghz x) (mkSession p (cfg s) (snd s) (rcv s) (env s)) b;
      Some (set_s x s)
  end.

Definition ep_send (x : endpoint P) (data : list Z) : option (endpoint P) :=
  s ← send (ep_tsc x) (ep_s x) data;
  Some (mkEp s (ep_tsc x) (ep_ghz x) (ep_in x ++ data)).

Definition ep_tick (x : endpoint P) : option (endpoint P) :=
  s ← tick (ep_tsc x) (ep_ghz x) (ep_s x);
  Some (set_s x s).

(** A damaged packet: it fits into a buffer, its length field, damaged or not,
    stays within what was received, and its checksum does not verify.
    [corruption_detected] says which damage to a packet of a session is of this
    kind. The receiver does not compare the length field with what was
    received: packets whose length field points behind it are not covered here
    (see TcpRobust.v for what then happens). *)
Definition corrupt (pkt : list Z) : Prop :=
  bytes_ok pkt /\ 16 <= Z.of_nat (length pkt) <= TCP_LITE_MTU /\
  16 + payload_len (header_of (take 16 pkt)) <= Z.of_nat (length pkt) /\
  packet_check pkt = Some false.

(** A step of the first endpoint. *)
Inductive a_step : net P -> net P -> Prop :=
| as_send n data x : bytes_ok data ->
    Z.of_nat (length (pending_tx_ (snd (ep_s (ep_a n)))) + length data) < 2 ^ 64 ->
    ep_send (ep_a n) data = Some x -> a_step n (mkNet x (ep_b n))
| as_tick n x : ep_tick (ep_a n) = Some x -> a_step n (mkNet x (ep_b n))
| as_recv n pkt x : pkt ∈ wire (env (ep_s (ep_b n))) ->
    deliver (ep_a n) pkt = Some x -> a_step n (mkNet x (ep_b n))
| as_noise n pkt x : corrupt pkt -> deliver (ep_a n) pkt = Some x -> a_step n (mkNet x (ep_b n)).

Definition small (n : net P) : Prop :=
  next_seq_ (snd (ep_s (ep_a n))) < 2 ^ 31 - 512 /\ next_seq_ (snd (ep_s (ep_b n))) < 2 ^ 31 - 512.

(** Executions. *)
Inductive net_exec : net P -> net P -> Prop :=
| nx_nil n : net_exec n n
| nx_a n n1 n2 : net_exec n n1 -> small n1 -> a_step n1 n2 -> net_exec n n2
| nx_b n n1 n2 : net_exec n n1 -> small n1 -> a_step (flip n1) (flip n2) -> net_exec n n2.

(** A session right after its construction and configuration, with a callback. *)
Definition ep_start (p : P) (c : Config) (tsc : nat -> Z) (ghz : double) : endpoint P :=
  mkEp (set_cfg (new_session p (fd_ c)) c) tsc ghz [].

(** Rounds in which the network loses nothing: the first endpoint's [tick],
    then the delivery of everything it transmitted, the second endpoint's
    [tick], then the delivery of everything that one transmitted. *)
Fixpoint deliver_all (x : endpoint P) (pkts : list (list Z)) : option (endpoint P) :=
  match pkts with
  | [] => Some x
  | pkt :: pkts => x ← deliver x pkt; deliver_all x pkts
  end.

(** What [x'] has transmitted since [x]. *)
Definition transmitted (x x' : endpoint P) : list (list Z) :=
  drop (length (wire (env (ep_s x)))) (wire (env (ep_s x'))).

Definition fair_round (n : net P) : option (net P) :=
  a1 ← ep_tick (ep_a n);
  b1 ← deliver_all (ep_b n) (transmitted (ep_a n) a1);
  b2 ← ep_tick b1;
  a2 ← deliver_all a1 (transmitted (ep_b n) b2);
  Some (mkNet a2 b2).

(** Every packet in the queue was sent at least the timeout ago. *)
Definition all_timed_out (x : endpoint P) : Prop :=
  forall i s, unacked_ (snd (ep_s x)) !! i = Some s -> s_occupied s = true ->
    exists timeout, rto_cycles (ep_ghz x) (cfg (ep_s x)) = Some timeout /\
      timeout <= u64 (u64 (ep_tsc x (reads (env (ep_s x)))) - s_tsc s).
End protocol.

(** ** Packets on their way *)

Section proofs.
Context {P : Type} `{PoolSpec P}.
Implicit Types (x : endpoint P) (n : net P) (ext : gset Z).

Definition ep_inv (inn : list (list Z)) (ext : gset Z) x (g : ghost) : Prop :=
  sess_inv (ep_tsc x) inn ext (ep_s x) g /\ g_input g = ep_in x.

Lemma sess_inv_prefix tsc inn inn' ext (s : TcpLiteSession P) g :
  sess_inv tsc inn ext s g -> inn `prefix_of` inn' -> sess_inv tsc inn' ext s g.
Proof.
  intros [A1 A2 A3 A4 [R1 R2 R3 R4 R5] A6 A7 A8] [l ->].
  split; try done.
  - split; try done.
    + rewrite length_app. lia.
    + intros m Hm. destruct (R4 m Hm) as (c & Hc & Hr). exists c. split; [|done].
      rewrite aget_Some in Hc |- *. destruct Hc. split; [done|]. by apply lookup_app_l_Some.
    + rewrite take_app_le by lia. done.
  - intros Hcb. rewrite take_app_le by lia. by apply A8.
Qed.

(** The session on another state of its pool. *)
Lemma sess_inv_pool tsc inn ext ext' (s : TcpLiteSession P) g (p : P) :
  sess_inv tsc inn ext s g -> pool_ok p (bufs (g_E g) ∪ ext') -> bufs (g_E g) ## ext' ->
  pool_frame (pool_ s) p (bufs (g_E g)) ->
  sess_inv tsc inn ext' (mkSession p (cfg s) (snd s) (rcv s) (env s)) g.
Proof.
  intros [A1 A2 A3 A4 A5 A6 A7 A8] Hok Hd F. split; simpl; try done.
  - by rewrite (pf_size _ _ _ F).
  - by eapply snd_inv_frame.
Qed.

(** The bytes of the packet are in a fresh buffer. *)
Lemma stage_packet tsc inn ext (s : TcpLiteSession P) g pkt :
  sess_inv tsc inn ext s g -> Z.of_nat (length pkt) <= TCP_LITE_MTU ->
  (exists p, acquire (pool_ s) = Some (None, p) /\
     sess_inv tsc inn ext (mkSession p (cfg s) (snd s) (rcv s) (env s)) g /\
     pool_frame (pool_ s) p ext /\
     Z.of_nat (size (bufs (g_E g) ∪ ext)) = pool_cap (pool_ s)) \/
  (exists b p p1 p2, acquire (pool_ s) = Some (Some b, p) /\ buf_store b 0 pkt p = Some p1 /\
     buf_set_len b (u32 (Z.of_nat (length pkt))) p1 = Some p2 /\ b ∉ ext /\
     sess_inv tsc inn ({[b]} ∪ ext) (mkSession p2 (cfg s) (snd s) (rcv s) (env s)) g /\
     pool_frame (pool_ s) p2 ext /\ holds_packet p2 b pkt).
Proof.
  intros I Hl. pose proof (in_ext _ _ _ _ _ I) as Hd. pose proof (in_mtu _ _ _ _ _ I) as Hmtu.
  destruct (acquire_frame _ _ (in_pool _ _ _ _ _ I))
    as [(p & Ha & Hok & F & Hfull)|(b & p & Ha & Hb & Hok & F & _)].
  { left. exists p. split_and!; [done| |eapply pool_frame_mono; [done|set_solver]|done].
    eapply sess_inv_pool; [done|done|done|eapply pool_frame_mono; [done|set_solver]]. }
  right. assert (b ∈ {[b]} ∪ (bufs (g_E g) ∪ ext)) as Hbin by set_solver.
  destruct (store_frame p _ b 0 pkt Hok Hbin) as (p1 & H1 & Hok1 & F1 & C1 & L1);
    [lia|rewrite (pf_size _ _ _ F); lia|].
  destruct (set_len_frame p1 _ b (u32 (Z.of_nat (length pkt))) Hok1 Hbin) as (p2 & H2 & Hok2 & F2 & C2 & L2).
  assert (pool_frame (pool_ s) p2 (bufs (g_E g) ∪ ext)) as F3.
  { eapply pool_frame_trans; [done|]. eapply pool_frame_mono; [eapply pool_frame_trans; done|set_solver]. }
  exists b, p, p1, p2. split_and!; [done..|set_solver| |eapply pool_frame_mono; [done|set_solver]|split].
  - eapply sess_inv_pool; [done| |set_solver|eapply pool_frame_mono; [done|set_solver]].
    assert (bufs (g_E g) ∪ ({[b]} ∪ ext) = {[b]} ∪ (bufs (g_E g) ∪ ext)) as -> by set_solver. done.
  - rewrite L2. f_equal. apply u32_id. unfold is_u32, TCP_LITE_MTU, sizeof_header, TCP_LITE_MAX_PAYLOAD in *. lia.
  - rewrite C2, C1. destruct (buf_mem_ok p _ b Hok Hbin) as (_ & _ & _ & Hlen).
    rewrite (pf_size _ _ _ F) in Hlen. rewrite inserts_middle by (simpl; lia). simpl. apply take_app_length.
Qed.

(** What never changes of an endpoint. *)
Record moved x x' : Prop := {
  mv_tsc : ep_tsc x' = ep_tsc x;
  mv_ghz : ep_ghz x' = ep_ghz x
}.

(** A packet [x] can receive: its acknowledgement is of packets that were
    sent, its data is the peer's. *)
Record acceptable (inn : list (list Z)) (g : ghost) (m a : Z) (c : list Z) : Prop := {
  ac_bytes : bytes_ok c;
  ac_len : (length c <= 1024)%nat;
  ac_near : near a (g_U g);
  ac_sent : a <= g_N g;
  ac_data : c <> [] -> aget inn m = Some c /\ near m (g_B g)
}.

Lemma deliver_valid inn ext x g m a c :
  ep_inv inn ext x g -> clock_ok (ep_tsc x) (ep_ghz x) -> acceptable inn g m a c ->
  exists x' g', deliver x (packet m a c) = Some x' /\ ep_inv inn ext x' g' /\ moved x x' /\ ep_in x' = ep_in x /\
    (handled ext (ep_s x) g m a c (ep_s x') g' \/
     Z.of_nat (size (bufs (g_E g) ∪ ext)) = pool_cap (pool_ (ep_s x)) /\ g' = g /\
     advanced ext (ep_s x) g (ep_s x') g).
Proof.
  intros [I Hin] Hclk [Hb Hl Hn Hs Hd]. unfold deliver.
  destruct (stage_packet _ _ _ _ _ (packet m a c) I) as
    [(p & -> & I1 & F & Hfull)|(b & p & p1 & p2 & -> & H1 & H2 & Hbe & I1 & F & Hh)].
  { rewrite length_packet. unfold TCP_LITE_MTU, sizeof_header, TCP_LITE_MAX_PAYLOAD. lia. }
  - simpl. eexists _, g. split; [done|]. split_and!; try done. right. split_and!; [done|done|]. by split.
  - cbn [mbind option_bind]. rewrite H1. cbn [mbind option_bind]. rewrite H2. cbn [mbind option_bind].
    destruct (on_packet_ok (ep_tsc x) (ep_ghz x) Hclk inn ext _ g b m a c I1 Hbe Hh Hb Hl Hn Hs Hd)
      as (s' & g' & Hon & I' & HA). bind_with Hon.
    eexists _, g'. split; [done|]. split_and!; [|done|done|].
    + split; [done|]. simpl. rewrite <-Hin. apply (ad_input _ _ _ _ _ (ha_advanced _ _ _ _ _ _ _ _ HA)).
    + left. destruct HA as [HA ? ? ? ?]. split; try done. eapply advanced_trans; [|exact HA]. by split.
Qed.

Lemma deliver_corrupt inn ext x g pkt :
  ep_inv inn ext x g -> clock_ok (ep_tsc x) (ep_ghz x) -> corrupt pkt ->
  exists x', deliver x pkt = Some x' /\ ep_inv inn ext x' g /\ moved x x' /\ ep_in x' = ep_in x /\
    advanced ext (ep_s x) g (ep_s x') g.
Proof.
  intros [I Hin] Hclk (Hb & Hl & Hp & Hv). unfold deliver. cbv zeta in Hp, Hv. set (h := header_of (take 16 pkt)) in *.
  destruct (stage_packet _ _ _ _ _ pkt I) as
    [(p & -> & I1 & F & Hfull)|(b & p & p1 & p2 & -> & H1 & H2 & Hbe & I1 & F & [_ Hh])]; [lia| |].
  - simpl. eexists. split; [done|]. by split_and!.
  - cbn [mbind option_bind]. rewrite H1. cbn [mbind option_bind]. rewrite H2. cbn [mbind option_bind].
    assert (header_ok h) as [_ _ _ Hplen _].
    { apply header_of_ok; [by apply Forall_take|]. rewrite length_take. lia. }
    unfold is_u16 in Hplen. set (c := take (Z.to_nat (payload_len h)) (drop 16 pkt)) in *.
    assert (length c = Z.to_nat (payload_len h)) as Hc by (subst c; rewrite length_take, length_drop; lia).
    assert (b ∈ bufs (g_E g) ∪ ({[b]} ∪ ext)) as Hbin by set_solver.
    destruct (read_layout p2 _ b (take 16 pkt) c (in_pool _ _ _ _ _ I1) Hbin) as (mm & Hm & Hr1 & Hr2).
    { rewrite length_take. lia. }
    { pose proof (in_mtu _ _ _ _ _ I1). simpl in *. lia. }
    { rewrite Hc. subst c. rewrite take_take_drop.
      trans (take (16 + Z.to_nat (payload_len h)) (take (length pkt) (content p2 b))); [|by rewrite Hh].
      rewrite take_take. f_equal. lia. }
    destruct (on_packet_corrupt (ep_tsc x) (ep_ghz x) Hclk inn ext _ g b h c I1 Hbe)
      as (s' & Hon & I' & HA & _).
    { unfold buf_header, sizeof_header. simpl. rewrite Hm. simpl. by rewrite Hr1. }
    { unfold buf_payload, sizeof_header. simpl. rewrite Hm. simpl. by rewrite <-Hr2, Hc, Z2Nat.id by lia. }
    { done. }
    bind_with Hon. eexists. split; [done|]. split_and!; try done.
    eapply advanced_trans; [|exact HA]. by split.
Qed.

(** ** The invariant of the pair *)

Record net_inv (extA extB : gset Z) n (gA gB : ghost) : Prop := {
  ni_a : ep_inv (g_out gB) extA (ep_a n) gA;
  ni_b : ep_inv (g_out gA) extB (ep_b n) gB;
  ni_ack_a : g_U gA <= g_B gB;
  ni_ack_b : g_U gB <= g_B gA;
  ni_small_a : g_N gA < 2 ^ 31;
  ni_small_b : g_N gB < 2 ^ 31;
  ni_clock_a : clock_ok (ep_tsc (ep_a n)) (ep_ghz (ep_a n));
  ni_clock_b : clock_ok (ep_tsc (ep_b n)) (ep_ghz (ep_b n))
}.

Lemma net_inv_flip extA extB n gA gB : net_inv extA extB n gA gB -> net_inv extB extA (flip n) gB gA.
Proof. by intros []. Qed.

(** The numbers of an endpoint are ordered: acknowledged, received, sent. *)
Lemma net_order extA extB n gA gB :
  net_inv extA extB n gA gB ->
  0 <= g_U gA <= g_B gB /\ g_B gB <= g_N gA /\ g_N gA <= g_U gA + 256 /\
  next_seq_ (snd (ep_s (ep_a n))) = g_N gA.
Proof.
  intros I. destruct (ni_a _ _ _ _ _ I) as [IA _]. destruct (ni_b _ _ _ _ _ I) as [IB _].
  pose proof (si_range _ _ _ _ (in_snd _ _ _ _ _ IA)). pose proof (ri_base _ _ _ _ (in_rcv _ _ _ _ _ IB)).
  pose proof (ni_ack_a _ _ _ _ _ I). pose proof (ni_small_a _ _ _ _ _ I). fold (g_N gA) in *.
  rewrite (si_next _ _ _ _ (in_snd _ _ _ _ _ IA)), u32_id by (unfold is_u32; lia). lia.
Qed.

Lemma wire_rep_acceptable extA extB n gA gB m a c :
  net_inv extA extB n gA gB -> 0 <= a <= g_B gB ->
  c = [] /\ 0 <= m <= g_N gB \/ aget (g_out gB) m = Some c ->
  acceptable (g_out gB) gA m a c /\ (c <> [] -> 0 <= m < g_N gB).
Proof.
  intros I Ha Hc.
  pose proof (net_order _ _ _ _ _ I). pose proof (net_order _ _ _ _ _ (net_inv_flip _ _ _ _ _ I)).
  pose proof (ni_small_a _ _ _ _ _ I). pose proof (ni_small_b _ _ _ _ _ I).
  assert (c <> [] -> aget (g_out gB) m = Some c) as Hm by (destruct Hc as [[-> _]|?]; done).
  assert (c <> [] -> 0 <= m < g_N gB) as Hr by (intros Hne; apply Hm, aget_range in Hne; done).
  assert (aget (g_out gB) m = Some c -> chunk_ok c) as Hch.
  { destruct (ni_b _ _ _ _ _ I) as [IB _]. eapply out_chunk. apply IB. }
  split; [|done]. split.
  - destruct Hc as [[-> _]|Hc]; [constructor|]. by apply Hch.
  - destruct Hc as [[-> _]|Hc]; [simpl; lia|]. destruct (Hch Hc). lia.
  - unfold near. lia.
  - lia.
  - intros Hne. split; [by apply Hm|]. specialize (Hr Hne). unfold near. lia.
Qed.

Lemma wire_acceptable extA extB n gA gB pkt :
  net_inv extA extB n gA gB -> wire_ok gB pkt ->
  exists m a c, pkt = packet m a c /\ acceptable (g_out gB) gA m a c /\ 0 <= a <= g_B gB.
Proof.
  intros I (m & a & c & -> & Ha & Hc). exists m, a, c. split_and!; [done| |lia|lia].
  by eapply wire_rep_acceptable.
Qed.

(** The first endpoint moved, and acknowledged no more than was received. *)
Lemma net_inv_move extA extB n gA gB x gA' :
  net_inv extA extB n gA gB -> g_B gB + 256 < 2 ^ 31 -> ep_inv (g_out gB) extA x gA' -> moved (ep_a n) x ->
  g_out gA `prefix_of` g_out gA' -> g_U gA' <= g_B gB -> g_B gA <= g_B gA' ->
  net_inv extA extB (mkNet x (ep_b n)) gA' gB.
Proof.
  intros I Hroom Ix [M1 M2] Hout HU HB.
  destruct I as [I1 [I2 I2'] I3 I4 I5 I6 I7 I8]. destruct Ix as [Ix Ix'].
  pose proof (si_range _ _ _ _ (in_snd _ _ _ _ _ Ix)).
  split; simpl; rewrite ?M1, ?M2; try done; try lia.
  split; [|done]. by eapply sess_inv_prefix.
Qed.

(** Each step of the first endpoint is defined and keeps the invariant. *)
Definition moves_to (extA extB : gset Z) n (gA gB : ghost) (r : option (endpoint P)) : Prop :=
  exists x gA', r = Some x /\ net_inv extA extB (mkNet x (ep_b n)) gA' gB /\
    g_out gA `prefix_of` g_out gA' /\ g_B gA <= g_B gA'.

Lemma a_send_ok extA extB n gA gB data :
  net_inv extA extB n gA gB -> g_B gB + 256 < 2 ^ 31 -> bytes_ok data ->
  Z.of_nat (length (pending_tx_ (snd (ep_s (ep_a n)))) + length data) < 2 ^ 64 ->
  moves_to extA extB n gA gB (ep_send (ep_a n) data).
Proof.
  intros I Hsm Hb Hsz. destruct (ni_a _ _ _ _ _ I) as [IA Hin]. pose proof (ni_ack_a _ _ _ _ _ I).
  destruct (send_ok (ep_tsc (ep_a n)) _ _ _ gA data IA Hb Hsz) as (s' & g' & Hsend & I' & Hi & Ho & HU & HB & _).
  unfold ep_send. exists (mkEp s' (ep_tsc (ep_a n)) (ep_ghz (ep_a n)) (ep_in (ep_a n) ++ data)), g'.
  bind_with Hsend. split_and!; [done| |done|lia]. eapply net_inv_move; try done; try lia.
  split; [done|]. simpl. by rewrite Hi, Hin.
Qed.

Lemma a_tick_ok extA extB n gA gB :
  net_inv extA extB n gA gB -> g_B gB + 256 < 2 ^ 31 -> is_Some (rto_cycles (ep_ghz (ep_a n)) (cfg (ep_s (ep_a n)))) ->
  exists x gA' w, ep_tick (ep_a n) = Some x /\ net_inv extA extB (mkNet x (ep_b n)) gA' gB /\
    moved (ep_a n) x /\ ep_in x = ep_in (ep_a n) /\
    ticked (ep_tsc (ep_a n)) (ep_ghz (ep_a n)) extA (ep_s (ep_a n)) gA (ep_s x) gA' w.
Proof.
  intros I Hsm Hto. destruct (ni_a _ _ _ _ _ I) as [IA Hin]. pose proof (ni_ack_a _ _ _ _ _ I).
  destruct (tick_ok (ep_tsc (ep_a n)) (ep_ghz (ep_a n)) (ni_clock_a _ _ _ _ _ I) _ _ _ gA IA Hto)
    as (s' & g' & w & Htick & I' & T).
  unfold ep_tick. exists (set_s (ep_a n) s'), g', w. bind_with Htick.
  split_and!; [done| |done|done|done]. destruct T as [[] HU HB HR _ _ _ _ _].
  eapply net_inv_move; try done; try lia. split; [done|]. simpl. congruence.
Qed.

Lemma a_recv_ok extA extB n gA gB pkt :
  net_inv extA extB n gA gB -> g_B gB + 256 < 2 ^ 31 -> wire_ok gB pkt ->
  moves_to extA extB n gA gB (deliver (ep_a n) pkt).
Proof.
  intros I Hsm Hw. pose proof (ni_ack_a _ _ _ _ _ I).
  destruct (wire_acceptable _ _ _ _ _ _ I Hw) as (m & a & c & -> & Hac & Ha).
  destruct (deliver_valid _ _ _ _ _ _ _ (ni_a _ _ _ _ _ I) (ni_clock_a _ _ _ _ _ I) Hac)
    as (x & g' & Hd & Ix & Hmv & _ & Hcase).
  exists x, g'. split; [done|]. destruct Hcase as [[[] HU _ _ _]|(_ & -> & [])];
    (split_and!; [|done|lia]); eapply net_inv_move; try done; lia.
Qed.

Lemma a_noise_ok extA extB n gA gB pkt :
  net_inv extA extB n gA gB -> g_B gB + 256 < 2 ^ 31 -> corrupt pkt ->
  moves_to extA extB n gA gB (deliver (ep_a n) pkt).
Proof.
  intros I Hsm Hc. pose proof (ni_ack_a _ _ _ _ _ I).
  destruct (deliver_corrupt _ _ _ _ _ (ni_a _ _ _ _ _ I) (ni_clock_a _ _ _ _ _ I) Hc)
    as (x & Hd & Ix & Hmv & _ & []).
  exists x, gA. split_and!; [done| |done|lia]. eapply net_inv_move; try done; lia.
Qed.

Lemma tick_rto tsc ghz (s s' : TcpLiteSession P) :
  tick tsc ghz s = Some s' -> is_Some (rto_cycles ghz (cfg s)).
Proof.
  intros Ht. unfold tick in Ht. destruct (rdtsc tsc (env s)) as [now e].
  apply bind_Some in Ht as (timeout & Hto & _). unfold rto_cycles. eauto.
Qed.

Lemma small_room extA extB n gA gB :
  net_inv extA extB n gA gB -> small n -> g_B gB + 256 < 2 ^ 31.
Proof. intros I [Hs _]. pose proof (net_order _ _ _ _ _ I). lia. Qed.

Lemma a_step_inv extA extB n gA gB n' :
  net_inv extA extB n gA gB -> small n -> a_step n n' -> exists gA', net_inv extA extB n' gA' gB.
Proof.
  intros I Hsm%(small_room _ _ _ _ _ I) Hst. destruct Hst as [n data x Hb Hsz Hs|n x Hs|n pkt x Hp Hs|n pkt x Hp Hs].
  - destruct (a_send_ok _ _ _ _ _ _ I Hsm Hb Hsz) as (x' & g' & Hs' & I' & _).
    assert (x' = x) as -> by congruence. eauto.
  - assert (is_Some (rto_cycles (ep_ghz (ep_a n)) (cfg (ep_s (ep_a n))))) as Hto.
    { unfold ep_tick in Hs. apply bind_Some in Hs as (s' & Hs & _). by eapply tick_rto. }
    destruct (a_tick_ok _ _ _ _ _ I Hsm Hto) as (x' & g' & w & Hs' & I' & _).
    assert (x' = x) as -> by congruence. eauto.
  - destruct (ni_b _ _ _ _ _ I) as [IB _].
    pose proof (proj1 (Forall_forall _ _) (in_wire _ _ _ _ _ IB) _ Hp) as Hw.
    destruct (a_recv_ok _ _ _ _ _ _ I Hsm Hw) as (x' & g' & Hs' & I' & _).
    assert (x' = x) as -> by congruence. eauto.
  - destruct (a_noise_ok _ _ _ _ _ _ I Hsm Hp) as (x' & g' & Hs' & I' & _).
    assert (x' = x) as -> by congruence. eauto.
Qed.

Lemma net_exec_inv extA extB n0 gA gB n :
  net_inv extA extB n0 gA gB -> net_exec n0 n -> exists gA' gB', net_inv extA extB n gA' gB'.
Proof.
  intros I R. induction R as [|n0 n1 n2 R IH Hsm Hst|n0 n1 n2 R IH [Hs1 Hs2] Hst]; [eauto| |].
  - destruct (IH I) as (gA1 & gB1 & I1). destruct (a_step_inv _ _ _ _ _ _ I1 Hsm Hst) as (g' & I'). eauto.
  - destruct (IH I) as (gA1 & gB1 & I1). apply net_inv_flip in I1.
    assert (small (flip n1)) as Hsm by done.
    destruct (a_step_inv _ _ _ _ _ _ I1 Hsm Hst) as (g' & I'%net_inv_flip).
    exists gA1, g'. by destruct n2.
Qed.

(** ** Rounds *)

Definition pk (tr : Z * Z * list Z) : list Z := let '(m, a, c) := tr in packet m a c.

Definition wire_rep (g : ghost) (tr : Z * Z * list Z) : Prop :=
  let '(m, a, c) := tr in
  0 <= a <= g_B g /\ (c = [] /\ 0 <= m <= g_N g \/ aget (g_out g) m = Some c).

Lemma wire_reps g w : Forall (wire_ok g) w -> exists trs, w = pk <$> trs /\ Forall (wire_rep g) trs.
Proof.
  induction 1 as [|pkt w (m & a & c & -> & Ha & Hc) _ (trs & -> & IH)]; [by exists []|].
  exists ((m, a, c) :: trs). split; [done|]. by constructor.
Qed.

Lemma packet_inj m a c m' a' c' :
  bytes_ok c -> bytes_ok c' -> (length c <= 1024)%nat -> (length c' <= 1024)%nat ->
  is_u32 m -> is_u32 m' -> is_u32 a -> is_u32 a' ->
  packet m a c = packet m' a' c' -> (m, a, c) = (m', a', c').
Proof.
  intros Hb Hb' Hl Hl' Hm Hm' Ha Ha' Heq.
  destruct (packet_of_header m a c Hb Hl) as [Hh Hd]. destruct (packet_of_header m' a' c' Hb' Hl') as [Hh' Hd'].
  rewrite Heq, Hh' in Hh. rewrite Heq, Hd' in Hd.
  pose proof (f_equal seq_num Hh) as Hs. pose proof (f_equal ack_num Hh) as Hk. simpl in Hs, Hk.
  rewrite !u32_id in Hs, Hk by done. congruence.
Qed.

(** The pool is never the bottleneck: it has more buffers than a full window
    and the other users hold. *)
Definition roomy (ext : gset Z) x : Prop := 256 + Z.of_nat (size ext) < pool_cap (pool_ (ep_s x)).

Lemma size_list_to_set_le (l : list Z) : (size (list_to_set l : gset Z) <= length l)%nat.
Proof.
  induction l as [|x l IH]; [done|]. cbn [list_to_set length].
  rewrite size_union_alt, size_singleton.
  assert (size (list_to_set l ∖ {[x]} : gset Z) <= size (list_to_set l : gset Z))%nat by (apply subseteq_size; set_solver).
  lia.
Qed.

Lemma bufs_size tsc inn ext (s : TcpLiteSession P) g :
  sess_inv tsc inn ext s g -> Z.of_nat (size (bufs (g_E g) ∪ ext)) <= 256 + Z.of_nat (size ext).
Proof.
  intros I. assert (bufs (g_E g) ⊆ list_to_set ((fun k : Z => from_option fst 0 (g_E g !! k)) <$> seqZ (g_U g) 256)) as Hsub.
  { intros b (n & t & He)%elem_of_bufs. apply elem_of_list_to_set, list_elem_of_fmap. exists n. rewrite He.
    split; [done|]. apply elem_of_seqZ. pose proof (q_range _ _ _ (si_queue _ _ _ _ (in_snd _ _ _ _ _ I)) _ _ He). lia. }
  apply subseteq_size in Hsub. pose proof (size_list_to_set_le ((fun k : Z => from_option fst 0 (g_E g !! k)) <$> seqZ (g_U g) 256)) as Hl.
  rewrite length_fmap, length_seqZ in Hl. rewrite size_union by (apply (in_ext _ _ _ _ _ I)). lia.
Qed.

Lemma deliver_all_ok extA extB n gA gB trs :
  net_inv extA extB n gA gB -> g_B gB + 256 < 2 ^ 31 -> roomy extA (ep_a n) -> Forall (wire_rep gB) trs ->
  exists x gA', deliver_all (ep_a n) (pk <$> trs) = Some x /\ net_inv extA extB (mkNet x (ep_b n)) gA' gB /\
    moved (ep_a n) x /\ ep_in x = ep_in (ep_a n) /\
    advanced extA (ep_s (ep_a n)) gA (ep_s x) gA' /\
    (forall m a c, (m, a, c) ∈ trs -> a <= g_U gA' /\ (c <> [] -> got gA' m /\ pending_ack_ (rcv (ep_s x)) = true)) /\
    (forall m, got gA m -> got gA' m) /\
    (pending_ack_ (rcv (ep_s (ep_a n))) = true -> pending_ack_ (rcv (ep_s x)) = true).
Proof.
  intros I Hroom. revert n gA I. induction trs as [|[[m a] c] trs IH]; intros n gA I Hr Hall; cbn [fmap list_fmap deliver_all].
  { exists (ep_a n), gA. split; [done|]. split; [by destruct n|]. split; [done|]. split; [done|].
    split; [apply advanced_refl|]. split; [|done]. intros m a c Hin. set_solver. }
  apply Forall_cons in Hall as [[Ha Hc] Hall].
  assert (wire_ok gB (packet m a c)) as Hw by (exists m, a, c; done).
  assert (acceptable (g_out gB) gA m a c /\ (c <> [] -> 0 <= m < g_N gB)) as [Hac Hm].
  { by apply (wire_rep_acceptable extA extB n). }
  destruct (deliver_valid _ _ _ _ _ _ _ (ni_a _ _ _ _ _ I) (ni_clock_a _ _ _ _ _ I) Hac)
    as (x1 & g1 & Hd & Ix & Hmv & Hin1 & [HA|(Hfull & _)]).
  2:{ pose proof (bufs_size _ _ _ _ _ (proj1 (ni_a _ _ _ _ _ I))). unfold roomy in Hr. lia. }
  bind_with Hd. destruct HA as [HA HU Hgot Hkeep Hpend].
  pose proof (net_order _ _ _ _ _ (net_inv_flip _ _ _ _ _ I)) as Ho. pose proof (ni_ack_a _ _ _ _ _ I).
  assert (net_inv extA extB (mkNet x1 (ep_b n)) g1 gB) as I1.
  { eapply net_inv_move; try done; [apply HA|lia|apply HA]. }
  assert (roomy extA x1) as Hr1.
  { unfold roomy in *. rewrite (pf_cap _ _ _ (ad_frame _ _ _ _ _ HA)). done. }
  destruct (IH (mkNet x1 (ep_b n)) g1 I1 Hr1 Hall) as (x & g' & Hl & I' & Hmv' & Hin' & HA' & Hall' & Hk' & Hp').
  simpl in *. exists x, g'. split_and!; try done.
  - destruct Hmv, Hmv'. split; congruence.
  - congruence.
  - by eapply advanced_trans.
  - pose proof (ad_U _ _ _ _ _ HA'). intros m' a' c' [Heq|Hin]%elem_of_cons; [|by eapply Hall'].
    simplify_eq. split; [lia|]. intros Hne. split; [apply Hk', Hgot; [done|]|apply Hp'].
    + specialize (Hm Hne). lia.
    + rewrite Hpend, bool_decide_false by done. apply orb_true_r.
  - eauto.
  - intros Hp. apply Hp'. by rewrite Hpend, Hp.
Qed.

(** ** A round delivers and acknowledges all that was sent before it *)

(** The endpoint can transmit, and its timeout is representable. *)
Record working (ext : gset Z) x : Prop := {
  wk_up : up (cfg (ep_s x)) = true;
  wk_rto : is_Some (rto_cycles (ep_ghz x) (cfg (ep_s x)));
  wk_room : roomy ext x
}.

Lemma working_advanced ext x g x' g' :
  working ext x -> moved x x' -> advanced ext (ep_s x) g (ep_s x') g' -> working ext x'.
Proof.
  intros [W1 W2 W3] [_ M] A. split; unfold roomy in *; rewrite ?(ad_cfg _ _ _ _ _ A), ?M; try done.
  by rewrite (pf_cap _ _ _ (ad_frame _ _ _ _ _ A)).
Qed.

Lemma timed_out_entry inn ext x g k b t :
  ep_inv inn ext x g -> all_timed_out x -> g_E g !! k = Some (b, t) ->
  exists timeout, rto_cycles (ep_ghz x) (cfg (ep_s x)) = Some timeout /\
    timeout <= u64 (u64 (ep_tsc x (reads (env (ep_s x)))) - t).
Proof.
  intros [I _] Hto He. pose proof (si_queue _ _ _ _ (in_snd _ _ _ _ _ I)) as Q.
  destruct (queue_lookup _ _ _ k Q) as (s & Hs & Hv); [by eapply (q_range _ _ _ Q)|].
  rewrite He in Hv. simpl in Hv. subst s. apply aget_Some in Hs as [_ Hs]. by apply (Hto _ _ Hs).
Qed.

(** All numbers below [N] have arrived, so the base has moved beyond them. *)
Lemma got_all inn ext x g N :
  ep_inv inn ext x g -> (forall k, 0 <= k < N -> got g k) -> N <= g_B g.
Proof.
  intros [I _] Hall. pose proof (ri_base _ _ _ _ (in_rcv _ _ _ _ _ I)).
  destruct (decide (N <= g_B g)); [done|]. destruct (Hall (g_B g)) as [?|?]; [lia|lia|].
  by destruct (in_next _ _ _ _ _ I).
Qed.

Lemma trs_elem extA extB n gA gB m a c trs :
  net_inv extA extB n gA gB -> Forall (wire_rep gB) trs -> packet m a c ∈ pk <$> trs ->
  wire_rep gB (m, a, c) -> (m, a, c) ∈ trs.
Proof.
  intros I Hall Hin [Ha Hc]. apply list_elem_of_fmap in Hin as ([[m' a'] c'] & Heq & Hin).
  pose proof (proj1 (Forall_forall _ _) Hall _ Hin) as [Ha' Hc'].
  destruct (wire_rep_acceptable _ _ _ _ _ _ _ _ I Ha Hc) as [[] _].
  destruct (wire_rep_acceptable _ _ _ _ _ _ _ _ I Ha' Hc') as [[] _].
  pose proof (net_order _ _ _ _ _ I). pose proof (ni_small_a _ _ _ _ _ I). pose proof (ni_small_b _ _ _ _ _ I).
  assert (forall k e, e = [] /\ 0 <= k <= g_N gB \/ aget (g_out gB) k = Some e -> is_u32 k) as Hk.
  { intros k e [[_ ?]|Hk%aget_range]; unfold is_u32; [lia|]. fold (g_N gB) in Hk. lia. }
  apply packet_inj in Heq; try done; try (unfold is_u32; lia); [congruence|by eapply Hk..].
Qed.

(** The first half: everything the first endpoint had sent arrives. *)
Lemma half_round extA extB n gA gB :
  net_inv extA extB n gA gB -> small n -> working extA (ep_a n) -> working extB (ep_b n) ->
  all_timed_out (ep_a n) ->
  exists a1 gA1 b1 gB1, ep_tick (ep_a n) = Some a1 /\
    deliver_all (ep_b n) (transmitted (ep_a n) a1) = Some b1 /\
    net_inv extA extB (mkNet a1 b1) gA1 gB1 /\
    moved (ep_a n) a1 /\ ep_in a1 = ep_in (ep_a n) /\ advanced extA (ep_s (ep_a n)) gA (ep_s a1) gA1 /\
    moved (ep_b n) b1 /\ ep_in b1 = ep_in (ep_b n) /\ advanced extB (ep_s (ep_b n)) gB (ep_s b1) gB1 /\
    g_U gA1 = g_U gA /\ g_B gA1 = g_B gA /\ pump_stop extA (ep_s a1) gA1 /\
    g_N gA <= g_B gB1 /\ (g_U gA < g_N gA -> pending_ack_ (rcv (ep_s b1)) = true).
Proof.
  intros I Hsm WA WB Hto. pose proof (small_room _ _ _ _ _ I Hsm) as Hroom.
  destruct (a_tick_ok _ _ _ _ _ I Hroom (wk_rto _ _ WA)) as (a1 & gA1 & w & Htick & I1 & Hmv1 & Hin1 & T).
  pose proof (net_inv_flip _ _ _ _ _ I1) as I1f. destruct T as [A1 HU1 HB1 _ Hw Hres _ _ Hstop].
  assert (transmitted (ep_a n) a1 = w) as Htr by (unfold transmitted; rewrite Hw; apply drop_app_length).
  pose proof (in_wire _ _ _ _ _ (proj1 (ni_a _ _ _ _ _ I1))) as Hwok. simpl in Hwok.
  rewrite Hw in Hwok. apply Forall_app in Hwok as [_ (trs & -> & Htrs)%wire_reps].
  pose proof (net_order _ _ _ _ _ (net_inv_flip _ _ _ _ _ I)) as HoB. destruct Hsm as [HsA HsB].
  destruct (deliver_all_ok extB extA (flip (mkNet a1 (ep_b n))) gB gA1 trs)
    as (b1 & gB1 & Hdel & I2%net_inv_flip & Hmv2 & Hin2 & A2 & Hall & Hkeep & _); [done|simpl in *; lia|apply WB|done|].
  simpl in *. exists a1, gA1, b1, gB1. rewrite Htr.
  assert (forall k, g_U gA <= k < g_N gA -> got gB1 k /\ pending_ack_ (rcv (ep_s b1)) = true) as Hgot.
  { intros k Hk. pose proof (in_snd _ _ _ _ _ (proj1 (ni_a _ _ _ _ _ I))) as S.
    destruct (proj2 (si_dom _ _ _ _ S k) Hk) as [[b t] He].
    destruct (timed_out_entry _ _ _ _ _ _ _ (ni_a _ _ _ _ _ I) Hto He) as (timeout & Ht & Hle).
    destruct (Hres (wk_up _ _ WA) k b t timeout He Ht Hle) as (a & c & Hc & Ha & Hpk).
    destruct (out_chunk _ _ _ _ _ _ S Hc) as [_ Hlen].
    assert ((k, a, c) ∈ trs) as Htr'.
    { eapply (trs_elem _ _ _ _ _ _ _ _ _ I1f); [done|done|]. simpl. split; [lia|right].
      destruct (ad_out _ _ _ _ _ A1) as [l ->]. rewrite aget_Some in Hc |- *. destruct Hc. split; [done|].
      by apply lookup_app_l_Some. }
    apply (Hall _ _ _ Htr'). intros ->. simpl in Hlen. lia. }
  split_and!; try done.
  - eapply got_all; [apply (ni_b _ _ _ _ _ I2)|]. intros k Hk. destruct (decide (g_U gA <= k)); [apply Hgot; lia|].
    left. pose proof (ni_ack_a _ _ _ _ _ I2). simpl in *. lia.
  - intros Hlt. by apply (Hgot (g_U gA)).
Qed.

Lemma stop_reason inn ext x g :
  ep_inv inn ext x g -> roomy ext x -> pump_stop ext (ep_s x) g ->
  concat (g_out g) = g_input g \/ g_N g = g_U g + 256.
Proof.
  intros [I _] Hr [Hall|[?|Hfull]]; [left|by right|].
  - rewrite <-(si_stream _ _ _ _ (in_snd _ _ _ _ _ I)), Hall, Nat2Z.id, drop_all. by rewrite app_nil_r.
  - pose proof (bufs_size _ _ _ _ _ I). unfold roomy in Hr. lia.
Qed.

(** What stays of an endpoint through a round. *)
Record same_host x x' : Prop := {
  sh_in : ep_in x' = ep_in x;
  sh_cfg : cfg (ep_s x') = cfg (ep_s x);
  sh_ghz : ep_ghz x' = ep_ghz x
}.

(** What a round achieves, seen from the first endpoint. *)
Record round_done (gA gA' gB' : ghost) : Prop := {
  rd_received : g_N gA <= g_B gB';
  rd_acked : g_N gA <= g_U gA';
  rd_sent : exists out1, g_out gA `prefix_of` out1 /\ out1 `prefix_of` g_out gA' /\
    (concat out1 = g_input gA \/ Z.of_nat (length out1) = g_U gA + 256)
}.

Lemma round_ok extA extB n gA gB :
  net_inv extA extB n gA gB -> small n -> working extA (ep_a n) -> working extB (ep_b n) ->
  all_timed_out (ep_a n) ->
  exists n' gA' gB', fair_round n = Some n' /\ net_inv extA extB n' gA' gB' /\
    same_host (ep_a n) (ep_a n') /\ same_host (ep_b n) (ep_b n') /\
    working extA (ep_a n') /\ working extB (ep_b n') /\ round_done gA gA' gB'.
Proof.
  intros I Hsm WA WB Hto.
  destruct (half_round _ _ _ _ _ I Hsm WA WB Hto) as (a1 & gA1 & b1 & gB1 & Htick & Hdel & I1 & MA & IA & AA & MB & IB & AB
    & HU1 & HB1 & Hstop & HN & Hpend).
  pose proof (working_advanced _ _ _ _ _ WA MA AA) as WA1. pose proof (working_advanced _ _ _ _ _ WB MB AB) as WB1.
  pose proof (stop_reason _ _ _ _ (ni_a _ _ _ _ _ I1) (wk_room _ _ WA1) Hstop) as Hreason.
  pose proof (net_order _ _ _ _ _ I) as HoA. pose proof (net_order _ _ _ _ _ (net_inv_flip _ _ _ _ _ I)) as HoB.
  pose proof (net_order _ _ _ _ _ I1) as HoA1. destruct Hsm as [HsA HsB]. simpl in *.
  assert (g_B gA1 + 256 < 2 ^ 31) as Hroom by lia.
  destruct (a_tick_ok extB extA (flip (mkNet a1 b1)) gB1 gA1 (net_inv_flip _ _ _ _ _ I1) Hroom (wk_rto _ _ WB1))
    as (b2 & gB2 & w2 & Htick2 & I2%net_inv_flip & MB2 & IB2 & T). simpl in *.
  destruct T as [AB2 HUB2 HBB2 _ Hw2 _ Hack _ _]. pose proof (working_advanced _ _ _ _ _ WB1 MB2 AB2) as WB2.
  destruct (ad_wire _ _ _ _ _ AB) as [wb Hwb].
  assert (transmitted (ep_b n) b2 = wb ++ w2) as Htr.
  { unfold transmitted. rewrite Hw2, Hwb, <-app_assoc. apply drop_app_length. }
  pose proof (in_wire _ _ _ _ _ (proj1 (ni_b _ _ _ _ _ I2))) as Hwok. simpl in Hwok.
  rewrite Hw2, Hwb, <-app_assoc in Hwok. apply Forall_app in Hwok as [_ (trs & Heq & Htrs)%wire_reps].
  assert (flip (mkNet b2 a1) = mkNet a1 b2) as Hfl by done. rewrite Hfl in I2.
  destruct (deliver_all_ok extA extB (mkNet a1 b2) gA1 gB2 trs I2) as
    (a2 & gA2 & Hdel2 & I3 & MA2 & IA2 & AA2 & Hall & _ & _); [lia|apply WA1|done|]. simpl in *.
  unfold fair_round. exists (mkNet a2 b2), gA2, gB2.
  bind_with Htick. bind_with Hdel. bind_with Htick2. rewrite Htr, Heq. bind_with Hdel2.
  split; [done|]. split; [done|]. simpl. split; [|split; [|split; [|split; [done|]]]].
  - destruct MA, MA2. split; [congruence| |congruence].
    by rewrite (ad_cfg _ _ _ _ _ AA2), (ad_cfg _ _ _ _ _ AA).
  - destruct MB, MB2. split; [congruence| |congruence].
    by rewrite (ad_cfg _ _ _ _ _ AB2), (ad_cfg _ _ _ _ _ AB).
  - by eapply working_advanced.
  - split.
    + pose proof (ad_B _ _ _ _ _ AB2). lia.
    + destruct (decide (g_U gA < g_N gA)) as [Hlt|].
      * destruct (Hack (wk_up _ _ WB1) (Hpend Hlt)) as (m & Hm & Hpk).
        assert ((m, g_B gB1, []) ∈ trs) as Hin.
        { eapply (trs_elem _ _ _ _ _ _ _ _ _ I2); [done|rewrite <-Heq; set_solver|]. simpl.
          pose proof (ri_base _ _ _ _ (in_rcv _ _ _ _ _ (proj1 (ni_b _ _ _ _ _ I1)))).
          simpl in *. split; [lia|]. left. split; [done|lia]. }
        destruct (Hall _ _ _ Hin). lia.
      * pose proof (ad_U _ _ _ _ _ AA2). lia.
    + exists (g_out gA1). split_and!; [apply AA|apply AA2|].
      rewrite <-(ad_input _ _ _ _ _ AA), <-HU1. exact Hreason.
Qed.

(** ** Iterated rounds *)

Inductive fair_rounds : nat -> net P -> net P -> Prop :=
| fr_nil n : fair_rounds 0 n n
| fr_cons k n n1 n2 : small n -> all_timed_out (ep_a n) -> fair_round n = Some n1 ->
    fair_rounds k n1 n2 -> fair_rounds (S k) n n2.

(** Bytes not yet sent, doubled, and one more while the window is full. *)
Definition to_do (g : ghost) : Z :=
  2 * (Z.of_nat (length (g_input g)) - Z.of_nat (length (concat (g_out g)))) +
  (if decide (g_N g = g_U g + 256) then 1 else 0).

Lemma concat_longer (l l' : list (list Z)) :
  l `prefix_of` l' -> Forall chunk_ok l' ->
  (length (concat l) + (length l' - length l) <= length (concat l'))%nat.
Proof.
  intros [k ->] [_ Hk]%Forall_app. rewrite concat_app, !length_app.
  assert (length k <= length (concat k))%nat; [|lia].
  induction Hk as [|c k [_ Hc] _ IH]; simpl; [done|]. rewrite length_app. lia.
Qed.

Lemma input_bound inn ext x g : ep_inv inn ext x g -> (length (concat (g_out g)) <= length (g_input g))%nat.
Proof.
  intros [I _]. rewrite <-(si_stream _ _ _ _ (in_snd _ _ _ _ _ I)), length_app. lia.
Qed.

Lemma round_decreases extA extB n gA gB n' gA' gB' :
  net_inv extA extB n gA gB -> net_inv extA extB n' gA' gB' -> g_input gA' = g_input gA ->
  round_done gA gA' gB' ->
  concat (g_out gA) <> g_input gA -> to_do gA' < to_do gA.
Proof.
  intros I I' Hin [_ Hack (out1 & Hp1 & Hp2 & Hr)] Hne.
  pose proof (net_order _ _ _ _ _ I) as Ho. pose proof (net_order _ _ _ _ _ I') as Ho'.
  pose proof (si_chunks _ _ _ _ (in_snd _ _ _ _ _ (proj1 (ni_a _ _ _ _ _ I')))) as Hch.
  assert (Forall chunk_ok out1) as Hch1 by (destruct Hp2 as [l Hl]; rewrite Hl in Hch; by apply Forall_app in Hch as [? _]).
  pose proof (concat_longer _ _ Hp1 Hch1) as L1. pose proof (concat_longer _ _ Hp2 Hch) as L2.
  pose proof (prefix_length _ _ Hp1) as Q1. pose proof (prefix_length _ _ Hp2) as Q2.
  pose proof (input_bound _ _ _ _ (ni_a _ _ _ _ _ I)) as B0.
  assert (length (concat (g_out gA)) <> length (g_input gA)) as Hlt.
  { intros Heq. apply Hne. pose proof (si_stream _ _ _ _ (in_snd _ _ _ _ _ (proj1 (ni_a _ _ _ _ _ I)))) as Hs.
    rewrite <-Hs in Heq |- *. rewrite length_app in Heq. destruct (drop _ _); [by rewrite app_nil_r|simpl in Heq; lia]. }
  unfold to_do, g_N in *. rewrite Hin.
  destruct Hr as [Hr|Hr]; [rewrite Hr in L1, L2|]; repeat case_decide; lia.
Qed.

(** Once all is sent, a round leaves all delivered and acknowledged. *)
Lemma round_finishes extA extB n gA gB n' gA' gB' :
  net_inv extA extB n gA gB -> net_inv extA extB n' gA' gB' -> g_input gA' = g_input gA ->
  round_done gA gA' gB' -> concat (g_out gA) = g_input gA ->
  concat (g_out gA') = g_input gA' /\ g_B gB' = g_N gA' /\ g_U gA' = g_N gA'.
Proof.
  intros I I' Hin [Hrec Hack (out1 & Hp1 & Hp2 & _)] Hall.
  pose proof (si_chunks _ _ _ _ (in_snd _ _ _ _ _ (proj1 (ni_a _ _ _ _ _ I')))) as Hch.
  assert (g_out gA `prefix_of` g_out gA') as Hp by (by etrans).
  pose proof (concat_longer _ _ Hp Hch) as L. pose proof (input_bound _ _ _ _ (ni_a _ _ _ _ _ I')) as B'.
  rewrite Hall, Hin in *. pose proof (prefix_length _ _ Hp). destruct Hp as [l Hl].
  assert (l = []) as ->.
  { apply nil_length_inv. apply (f_equal length) in Hl. rewrite length_app in Hl. lia. }
  rewrite app_nil_r in Hl. unfold g_N in *. pose proof (net_order _ _ _ _ _ I') as Ho. unfold g_N in Ho.
  rewrite Hl in *. split; [done|]. split; lia.
Qed.

(** All bytes were sent, have arrived and are acknowledged. *)
Definition finished (gA gB : ghost) : Prop :=
  concat (g_out gA) = g_input gA /\ g_B gB = g_N gA /\ g_U gA = g_N gA.

(** A sender with nothing to be acknowledged holds no packet. *)
Lemma all_acked inn ext x g :
  ep_inv inn ext x g -> g_U g = g_N g ->
  snd_una_ (snd (ep_s x)) = next_seq_ (snd (ep_s x)) /\
  Forall (fun s => s_occupied s = false) (unacked_ (snd (ep_s x))).
Proof.
  intros [I _] HU. pose proof (in_snd _ _ _ _ _ I) as S. split; [by rewrite (si_una _ _ _ _ S), (si_next _ _ _ _ S), HU|].
  pose proof (si_queue _ _ _ _ S) as Q. apply Forall_lookup. intros i s Hi.
  pose proof (lookup_lt_Some _ _ _ Hi) as Hlt. rewrite (q_len _ _ _ Q) in Hlt.
  assert (slot_view s (entry_at (g_E g) (g_U g) (Z.of_nat i))) as Hv.
  { apply Q; [lia|]. apply aget_Some. rewrite Nat2Z.id. split; [lia|done]. }
  unfold entry_at in Hv. destruct (g_E g !! _) as [e|] eqn:He; [|exact Hv].
  assert (is_Some (g_E g !! _)) as Hin by (by exists e). apply (si_dom _ _ _ _ S) in Hin. lia.
Qed.

Lemma rounds_keep extA extB k n gA gB n' :
  net_inv extA extB n gA gB -> working extA (ep_a n) -> working extB (ep_b n) -> fair_rounds k n n' ->
  finished gA gB ->
  exists gA' gB', net_inv extA extB n' gA' gB' /\ ep_in (ep_a n') = ep_in (ep_a n) /\
    cfg (ep_s (ep_b n')) = cfg (ep_s (ep_b n)) /\ finished gA' gB'.
Proof.
  intros I WA WB R. revert gA gB I WA WB. induction R as [n|k n n1 n2 Hsm Hto Hr R IH]; intros gA gB I WA WB Hf.
  { eauto 10. }
  destruct (round_ok _ _ _ _ _ I Hsm WA WB Hto) as (n1' & gA1 & gB1 & Hr' & I1 & [Hin _ _] & [_ Hcfg _] & WA1 & WB1 & D).
  assert (n1' = n1) as -> by congruence.
  assert (g_input gA1 = g_input gA) as Hi.
  { rewrite (proj2 (ni_a _ _ _ _ _ I1)), (proj2 (ni_a _ _ _ _ _ I)). done. }
  rewrite <-Hin, <-Hcfg. apply (IH gA1 gB1); try done. eapply round_finishes; [exact I|done..|apply Hf].
Qed.

Lemma rounds_done extA extB k n gA gB n' :
  net_inv extA extB n gA gB -> working extA (ep_a n) -> working extB (ep_b n) -> fair_rounds k n n' ->
  to_do gA < Z.of_nat k ->
  exists gA' gB', net_inv extA extB n' gA' gB' /\ ep_in (ep_a n') = ep_in (ep_a n) /\
    cfg (ep_s (ep_b n')) = cfg (ep_s (ep_b n)) /\ finished gA' gB'.
Proof.
  intros I WA WB R. revert gA gB I WA WB. induction R as [n|k n n1 n2 Hsm Hto Hr R IH]; intros gA gB I WA WB Hk.
  { pose proof (input_bound _ _ _ _ (ni_a _ _ _ _ _ I)). unfold to_do in Hk. case_decide; lia. }
  destruct (round_ok _ _ _ _ _ I Hsm WA WB Hto) as (n1' & gA1 & gB1 & Hr' & I1 & [Hin _ _] & [_ Hcfg _] & WA1 & WB1 & D).
  assert (n1' = n1) as -> by congruence.
  assert (g_input gA1 = g_input gA) as Hi.
  { rewrite (proj2 (ni_a _ _ _ _ _ I1)), (proj2 (ni_a _ _ _ _ _ I)). done. }
  rewrite <-Hin, <-Hcfg. destruct (decide (concat (g_out gA) = g_input gA)) as [Hall|Hne].
  - eapply rounds_keep; [exact I1|done..|]. by apply (round_finishes _ _ _ _ _ _ _ _ I I1).
  - apply (IH gA1 gB1); try done. pose proof (round_decreases _ _ _ _ _ _ _ _ I I1 Hi D Hne). lia.
Qed.

(** With a timeout of zero, and while few packets were sent, rounds can go on. *)
Lemma rounds_exist extA extB k n gA gB :
  net_inv extA extB n gA gB -> working extA (ep_a n) -> working extB (ep_b n) ->
  rto_cycles (ep_ghz (ep_a n)) (cfg (ep_s (ep_a n))) = Some 0 ->
  Z.of_nat (length (ep_in (ep_a n))) < 2 ^ 31 - 512 -> Z.of_nat (length (ep_in (ep_b n))) < 2 ^ 31 - 512 ->
  exists n', fair_rounds k n n'.
Proof.
  revert n gA gB. induction k as [|k IH]; intros n gA gB I WA WB Hto HA HB; [eauto using fair_rounds|].
  assert (forall eA eB m g g', net_inv eA eB m g g' -> Z.of_nat (length (ep_in (ep_a m))) < 2 ^ 31 - 512 ->
    next_seq_ (snd (ep_s (ep_a m))) < 2 ^ 31 - 512) as Hs.
  { intros eA eB m g g' Im Hm. destruct (net_order _ _ _ _ _ Im) as (_ & _ & _ & ->).
    pose proof (input_bound _ _ _ _ (ni_a _ _ _ _ _ Im)) as Hb.
    pose proof (si_chunks _ _ _ _ (in_snd _ _ _ _ _ (proj1 (ni_a _ _ _ _ _ Im)))) as Hch.
    pose proof (concat_longer [] (g_out g) (prefix_nil _) Hch) as Hl. simpl in Hl.
    rewrite (proj2 (ni_a _ _ _ _ _ Im)) in Hb. unfold g_N. lia. }
  assert (small n) as Hsm.
  { split; [by eapply Hs|]. apply net_inv_flip in I. by apply (Hs _ _ _ _ _ I). }
  assert (all_timed_out (ep_a n)) as Hall.
  { intros i s _ _. exists 0. split; [done|]. apply u64_range. }
  destruct (round_ok _ _ _ _ _ I Hsm WA WB Hall) as (n1 & gA1 & gB1 & Hr & I1 & [S1 S2 S3] & [S4 _ _] & WA1 & WB1 & _).
  destruct (IH n1 gA1 gB1 I1 WA1 WB1) as (n' & Hn'); [by rewrite S3, S2|by rewrite S1|by rewrite S4|].
  exists n'. by eapply fr_cons.
Qed.
End proofs.
