(* ===== verification/TcpCorrect.v ===== *)
(** * What TCP-Lite guarantees

    The theorems about two sessions over the network of TcpProtocol.v, from any
    initial configuration: the delivered bytes are a prefix of the bytes sent,
    no operation is undefined, no packet is given up before it is acknowledged,
    and rounds without loss deliver everything. *)

From S2P Require Import Prelude OsMem HugeAlloc PoolIface BufferPool Crc32 TcpHeader RecvBitmap UnackedQueue Rdtsc TcpSession TcpInv TcpOps TcpProtocol.
From stdpp Require Import base list_numbers gmap option list.
#[local] Open Scope Z_scope.

Section start.
Context {P : Type} `{PoolSpec P}.

Definition start_ghost : ghost := mkGhost [] [] 0 ∅ 0 ∅.

(** The pool, the clock and the buffers other users of the pool hold. *)
Record host_ok (p : P) (ext : gset Z) (tsc : nat -> Z) (ghz : double) : Prop := {
  ho_pool : pool_ok p ext;
  ho_mtu : TCP_LITE_MTU <= buf_size p;
  ho_clock : clock_ok tsc ghz
}.

Lemma start_ep_inv p ext c tsc ghz inn :
  host_ok p ext tsc ghz -> ep_inv inn ext (ep_start p c tsc ghz) start_ghost.
Proof.
  intros [Hp Hm _]. split; [|done].
  split; cbn [g_E g_B g_R start_ghost]; rewrite ?bufs_empty, ?(left_id_L ∅ (∪)); try done.
  - split; unfold g_N; simpl; try done; try lia.
    + apply queue_init.
    + intros n. rewrite lookup_empty. split; [by intros [? ?]|lia].
    + constructor.
  - split; simpl; try done; try lia; apply window_init.
Qed.

Lemma start_inv pA pB extA extB cA cB tscA tscB ghzA ghzB :
  host_ok pA extA tscA ghzA -> host_ok pB extB tscB ghzB ->
  net_inv extA extB (mkNet (ep_start pA cA tscA ghzA) (ep_start pB cB tscB ghzB)) start_ghost start_ghost.
Proof.
  intros HA HB. split; simpl; try (unfold g_N; simpl; lia); [by apply start_ep_inv..|apply HA|apply HB].
Qed.
(** The state of one direction: the packets [chunks] were made of the bytes
    given to [send]; the receiver has delivered the first [B] of them and the
    sender knows of [U]; every later one is still in a buffer, ready to be sent
    again. *)
Record direction (n : net P) (chunks : list (list Z)) (U B : Z) : Prop := {
  dir_stream : concat chunks ++
      drop (Z.to_nat (tx_off_ (snd (ep_s (ep_a n))))) (pending_tx_ (snd (ep_s (ep_a n)))) = ep_in (ep_a n);
  dir_delivered : has_data_cb (cfg (ep_s (ep_b n))) = true ->
    delivered (env (ep_s (ep_b n))) = take (Z.to_nat B) chunks;
  dir_count : bytes_received_ (rcv (ep_s (ep_b n))) =
    u64 (Z.of_nat (length (concat (take (Z.to_nat B) chunks))));
  dir_order : 0 <= U <= B /\ B <= Z.of_nat (length chunks) <= U + 256;
  dir_kept : forall k, U <= k < Z.of_nat (length chunks) -> exists b a c,
    aget chunks k = Some c /\ buffer_for (unacked_ (snd (ep_s (ep_a n)))) (u32 k) = Some (Some b) /\
    buf_packet b (pool_ (ep_s (ep_a n))) = Some (packet k a c)
}.

Lemma inv_direction extA extB n gA gB :
  net_inv extA extB n gA gB -> direction n (g_out gA) (g_U gA) (g_B gB).
Proof.
  intros I. pose proof (net_order _ _ _ _ _ I) as Ho. destruct (ni_a _ _ _ _ _ I) as [IA HinA].
  destruct (ni_b _ _ _ _ _ I) as [IB _]. pose proof (in_snd _ _ _ _ _ IA) as S. unfold g_N in Ho. split.
  - by rewrite (si_stream _ _ _ _ S).
  - apply IB.
  - apply (ri_bytes _ _ _ _ (in_rcv _ _ _ _ _ IB)).
  - lia.
  - intros k Hk. destruct (proj2 (si_dom _ _ _ _ S k) Hk) as [[b t] He].
    destruct (si_packets _ _ _ _ S _ _ _ He) as (a & c & Hc & _ & Hh). exists b, a, c. split; [done|].
    assert (b ∈ bufs (g_E gA)) as Hb by (apply elem_of_bufs; eauto).
    destruct (buffer_for_ok _ _ _ k (si_queue _ _ _ _ S)) as [-> _]; [lia|]. rewrite He. split; [done|].
    destruct (out_chunk _ _ _ _ _ _ S Hc) as [_ Hl].
    eapply buf_packet_ok; [apply IA|set_solver|done|]. rewrite length_packet.
    pose proof (in_mtu _ _ _ _ _ IA). unfold TCP_LITE_MTU, sizeof_header, TCP_LITE_MAX_PAYLOAD in *. lia.
Qed.

Lemma direction_prefix n chunks U B :
  direction n chunks U B -> has_data_cb (cfg (ep_s (ep_b n))) = true ->
  concat (delivered (env (ep_s (ep_b n)))) `prefix_of` ep_in (ep_a n).
Proof.
  intros D Hcb. rewrite (dir_delivered _ _ _ _ D Hcb), <-(dir_stream _ _ _ _ D).
  rewrite <-(take_drop (Z.to_nat B) chunks) at 2. rewrite concat_app, <-app_assoc. by eexists.
Qed.
End start.

(** ** Properties *)

Section properties.
Context {P : Type} `{PoolSpec P}.
Context (pA pB : P) (extA extB : gset Z) (cA cB : Config).
Context (tscA tscB : nat -> Z) (ghzA ghzB : double).

Definition start_net : net P :=
  mkNet (ep_start pA cA tscA ghzA) (ep_start pB cB tscB ghzB).

(** C1: ordered, uncorrupted delivery.  Whatever the network does (losing,
    duplicating, reordering, delaying and corrupting packets detectably) and
    however the two applications interleave [send], [tick] and the arrival of
    packets, the bytes either side has delivered to its callback are a prefix
    of the bytes the other side was given to send. *)
Theorem tcp_delivers_prefix (n : net P) :
  host_ok pA extA tscA ghzA -> host_ok pB extB tscB ghzB -> net_exec start_net n ->
  (has_data_cb (cfg (ep_s (ep_b n))) = true ->
     concat (delivered (env (ep_s (ep_b n)))) `prefix_of` ep_in (ep_a n)) /\
  (has_data_cb (cfg (ep_s (ep_a n))) = true ->
     concat (delivered (env (ep_s (ep_a n)))) `prefix_of` ep_in (ep_b n)).
Proof.
  intros HA HB R. destruct (net_exec_inv _ _ _ _ _ _ (start_inv _ _ _ _ cA cB _ _ _ _ HA HB) R) as (gA & gB & I).
  pose proof (inv_direction _ _ _ _ _ I) as DA.
  pose proof (inv_direction _ _ _ _ _ (net_inv_flip _ _ _ _ _ I)) as DB.
  split; intros Hcb; [by eapply direction_prefix|]. exact (direction_prefix _ _ _ _ DB Hcb).
Qed.

(** C9: nothing is given up.  In every reachable state the bytes given to
    [send] are cut into packets and a rest that waits; every packet the
    sender does not know to have arrived is still in one of its buffers, byte
    for byte as it was first sent, and at most 256 are; the receiver has
    delivered the first packets, at least those the sender knows of, and counts
    their bytes. *)
Theorem tcp_keeps_unacked (n : net P) :
  host_ok pA extA tscA ghzA -> host_ok pB extB tscB ghzB -> net_exec start_net n ->
  exists chunks U B, direction n chunks U B /\ Forall chunk_ok chunks.
Proof.
  intros HA HB R. destruct (net_exec_inv _ _ _ _ _ _ (start_inv _ _ _ _ cA cB _ _ _ _ HA HB) R) as (gA & gB & I).
  exists (g_out gA), (g_U gA), (g_B gB). split; [by eapply inv_direction|].
  apply (si_chunks _ _ _ _ (in_snd _ _ _ _ _ (proj1 (ni_a _ _ _ _ _ I)))).
Qed.

(** C11: no operation is undefined.  In every reachable state, as long as fewer
    than 2^31 - 512 packets have been sent, an endpoint can be given data to
    send, can tick if its timeout is representable, and can receive any packet
    its peer ever transmitted and any damaged packet as [corrupt] describes it:
    one that fits into a buffer, whose length field stays within what was
    received, and that fails the checksum.  No access is outside of its buffer,
    no assertion of the pool fails and every loop ends.  (The receiver trusts the
    length field: [on_packet_overread] in TcpRobust.v is about the others.) *)
Theorem tcp_total (n : net P) (data pkt : list Z) :
  host_ok pA extA tscA ghzA -> host_ok pB extB tscB ghzB -> net_exec start_net n -> small n ->
  (bytes_ok data -> Z.of_nat (length (pending_tx_ (snd (ep_s (ep_a n)))) + length data) < 2 ^ 64 ->
     is_Some (ep_send (ep_a n) data)) /\
  (is_Some (rto_cycles (ep_ghz (ep_a n)) (cfg (ep_s (ep_a n)))) -> is_Some (ep_tick (ep_a n))) /\
  (pkt ∈ wire (env (ep_s (ep_b n))) \/ corrupt pkt -> is_Some (deliver (ep_a n) pkt)).
Proof.
  intros HA HB R Hsm. destruct (net_exec_inv _ _ _ _ _ _ (start_inv _ _ _ _ cA cB _ _ _ _ HA HB) R) as (gA & gB & I).
  pose proof (small_room _ _ _ _ _ I Hsm) as Hroom. split_and!.
  - intros Hb Hsz. destruct (a_send_ok _ _ _ _ _ _ I Hroom Hb Hsz) as (x & g' & -> & _). eauto.
  - intros Hto. destruct (a_tick_ok _ _ _ _ _ I Hroom Hto) as (x & g' & w & -> & _). eauto.
  - intros [Hp|Hp].
    + pose proof (proj1 (Forall_forall _ _) (in_wire _ _ _ _ _ (proj1 (ni_b _ _ _ _ _ I))) _ Hp) as Hw.
      destruct (a_recv_ok _ _ _ _ _ _ I Hroom Hw) as (x & g' & -> & _). eauto.
    + destruct (a_noise_ok _ _ _ _ _ _ I Hroom Hp) as (x & g' & -> & _). eauto.
Qed.


(** C16: no buffer leaks.  In every reachable state, destroying a session gives
    the pool back exactly the buffers the session held and leaves the other
    users' buffers alone. *)
Theorem tcp_session_no_leak (n : net P) :
  host_ok pA extA tscA ghzA -> host_ok pB extB tscB ghzB -> net_exec start_net n ->
  exists p, delete_session (ep_s (ep_a n)) = Some p /\ pool_ok p extA /\
    pool_frame (pool_ (ep_s (ep_a n))) p extA.
Proof.
  intros HA HB R. destruct (net_exec_inv _ _ _ _ _ _ (start_inv _ _ _ _ cA cB _ _ _ _ HA HB) R) as (gA & gB & I).
  eapply delete_ok. apply (ni_a _ _ _ _ _ I).
Qed.
End properties.

(** ** Witnesses: a pool of 300 buffers, a 3 GHz counter that is read at one of
    two values, a transport that is up and a timeout of zero. *)

Definition demo_tsc (i : nat) : Z := if Nat.even i then 1000 else 4000.
Definition demo_ghz : double :=
  Eval vm_compute in tsc_frequency_ghz (u64_to_double 0) 0 0 300000000 100000000.
Definition demo_cfg : Config := mkConfig 3 false true 0.

Lemma demo_clock : clock_ok demo_tsc demo_ghz.
Proof.
  intros i j. unfold demo_tsc. destruct (Nat.even i), (Nat.even j); vm_compute; eauto.
Qed.

Definition demo_new_pool : option ((pool_error + BufferPool) * heap toy_os) :=
  new_BufferPool no_mbind 1040 300 (-1) (mkHeap (toy_boot 400 0) ∅).

Definition demo_host (p : BufferPool) : Prop :=
  host_ok p ∅ demo_tsc demo_ghz /\ pool_cap p = 300.

Lemma demo_host_exists : exists p, demo_host p.
Proof.
  assert (match demo_new_pool with Some (inr _, _) => true | _ => false end = true) as Hok by (vm_compute; reflexivity).
  destruct demo_new_pool as [[[e|p] h']|] eqn:E; try discriminate Hok.
  assert (0 < 300 <= kEmpty) as Hc by (unfold kEmpty; lia). exists p.
  pose proof (new_BufferPool_cases no_mbind 1040 300 (-1) _ (inr p) h' ltac:(lia) Hc ltac:(lia) E) as
    (Hp & _ & Hs & Hn & _).
  split; [|exact Hn]. split; [exact Hp| |exact demo_clock]. change (1040 <= buffer_size_ p). lia.
Qed.

(** Three bytes are sent and the first transmission is lost. *)
Lemma demo_reachable p :
  demo_host p ->
  exists n, net_exec (start_net p p demo_cfg demo_cfg demo_tsc demo_tsc demo_ghz demo_ghz) n /\
    ep_in (ep_a n) = [7; 8; 9] /\ ep_in (ep_b n) = [] /\ small n /\
    working ∅ (ep_a n) /\ working ∅ (ep_b n) /\
    cfg (ep_s (ep_a n)) = demo_cfg /\ cfg (ep_s (ep_b n)) = demo_cfg /\ ep_ghz (ep_a n) = demo_ghz.
Proof.
  intros [Hh Hcap]. set (n0 := start_net p p demo_cfg demo_cfg demo_tsc demo_tsc demo_ghz demo_ghz).
  pose proof (start_inv _ _ _ _ demo_cfg demo_cfg _ _ _ _ Hh Hh) as I.
  destruct (send_ok demo_tsc [] ∅ (ep_s (ep_a n0)) start_ghost [7; 8; 9])
    as (s & g & Hs & I' & Hin & _ & HU & _ & Hcfg & _ & _ & F).
  { apply (start_ep_inv p ∅ demo_cfg demo_tsc demo_ghz [] Hh). }
  { repeat constructor; unfold is_u8; lia. }
  { simpl. lia. }
  assert (is_Some (rto_cycles demo_ghz demo_cfg)) as Hrto by (vm_compute; eauto).
  assert (small n0) as Hsm0 by (split; simpl; lia).
  exists (mkNet (mkEp s demo_tsc demo_ghz [7; 8; 9]) (ep_b n0)). split_and!; try done.
  - eapply nx_a; [apply nx_nil|exact Hsm0|]. apply (as_send n0 [7; 8; 9]).
    + repeat constructor; unfold is_u8; lia.
    + simpl. lia.
    + unfold ep_send. rewrite (bind_red _ _ _ Hs). done.
  - split; simpl; [|lia]. rewrite (si_next _ _ _ _ (in_snd _ _ _ _ _ I')). pose proof (si_range _ _ _ _ (in_snd _ _ _ _ _ I')) as Hr.
    rewrite HU in Hr. simpl in Hr. rewrite u32_id by (unfold is_u32; lia). lia.
  - split; cbn [ep_a ep_s ep_ghz]; rewrite ?Hcfg; try done. unfold roomy. cbn [ep_s].
    rewrite (pf_cap _ _ _ F). change (256 + Z.of_nat (size (∅ : gset Z)) < pool_cap p).
    rewrite Hcap, size_empty. lia.
  - split; try done. unfold roomy. change (256 + Z.of_nat (size (∅ : gset Z)) < pool_cap p).
    rewrite Hcap, size_empty. lia.
Qed.

Lemma tcp_delivers_prefix_witness :
  exists n : net BufferPool, ep_in (ep_a n) = [7; 8; 9] /\
    concat (delivered (env (ep_s (ep_b n)))) `prefix_of` [7; 8; 9].
Proof.
  destruct demo_host_exists as [p Hp]. destruct (demo_reachable p Hp) as (n & R & Hin & _ & _ & _ & _ & _ & Hc & _).
  exists n. split; [exact Hin|]. rewrite <-Hin.
  apply (tcp_delivers_prefix p p ∅ ∅ demo_cfg demo_cfg demo_tsc demo_tsc demo_ghz demo_ghz n (proj1 Hp) (proj1 Hp) R).
  rewrite Hc. reflexivity.
Defined.

Lemma tcp_keeps_unacked_witness :
  exists (n : net BufferPool) chunks U B, direction n chunks U B /\ ep_in (ep_a n) = [7; 8; 9].
Proof.
  destruct demo_host_exists as [p Hp]. destruct (demo_reachable p Hp) as (n & R & Hin & _).
  destruct (tcp_keeps_unacked p p ∅ ∅ demo_cfg demo_cfg demo_tsc demo_tsc demo_ghz demo_ghz n (proj1 Hp) (proj1 Hp) R)
    as (chunks & U & B & D & _).
  exists n, chunks, U, B. split; [exact D|exact Hin].
Defined.

Lemma tcp_total_witness :
  exists n : net BufferPool, ep_in (ep_a n) = [7; 8; 9] /\ is_Some (ep_tick (ep_a n)).
Proof.
  destruct demo_host_exists as [p Hp].
  destruct (demo_reachable p Hp) as (n & R & Hin & _ & Hsm & _ & _ & Hc & _ & Hg).
  exists n. split; [exact Hin|].
  apply (tcp_total p p ∅ ∅ demo_cfg demo_cfg demo_tsc demo_tsc demo_ghz demo_ghz n [] [] (proj1 Hp) (proj1 Hp) R Hsm).
  rewrite Hc, Hg. vm_compute. eauto.
Defined.


Lemma tcp_session_no_leak_witness :
  exists (n : net BufferPool) p, ep_in (ep_a n) = [7; 8; 9] /\
    delete_session (ep_s (ep_a n)) = Some p /\ pool_ok p ∅.
Proof.
  destruct demo_host_exists as [p Hp]. destruct (demo_reachable p Hp) as (n & R & Hin & _).
  destruct (tcp_session_no_leak p p ∅ ∅ demo_cfg demo_cfg demo_tsc demo_tsc demo_ghz demo_ghz n (proj1 Hp) (proj1 Hp) R)
    as (p' & Hd & Hok & _).
  exists n, p'. split; [exact Hin|]. split; [exact Hd|exact Hok].
Defined.
