(* ===== verification/TcpRobust.v ===== *)
(** * A TCP-Lite session against any peer

    TcpCorrect.v is about a peer that runs the same code.  Here packets are
    arbitrary: forged sequence numbers, acknowledgements of packets that were
    never sent, with a checksum that verifies.  As long as the length field of
    each packet does not exceed the packet, which [on_packet_received] does not
    check, no operation is undefined, every member stays in the range of its type
    and no buffer is lost or released twice.  A packet whose length field reaches
    behind the pool is read out of bounds ([on_packet_overread]). *)

From S2P Require Import Prelude OsMem HugeAlloc PoolIface BufferPool Crc32 TcpHeader RecvBitmap UnackedQueue Rdtsc TcpSession TcpInv TcpOps TcpProtocol TcpCorrect.
From stdpp Require Import base list_numbers gmap option list.
#[local] Open Scope Z_scope.

(** ** The unacknowledged queue *)

Definition slot_buf (s : Slot) : list Z :=
  if s_occupied s then match s_buf s with Some b => [b] | None => [] end else [].

Definition slot_bufs (q : list Slot) : list Z := concat (slot_buf <$> q).

Section queue.
Context {P : Type} `{PoolSpec P} (tsc : nat -> Z).
Implicit Types (p : P) (q : list Slot) (ext : gset Z).

(** A packet in a buffer: its length is inside of the buffer. *)
Definition filled p (b : Z) : Prop := exists l, buf_len b p = Some l /\ 0 <= l <= buf_size p.

Definition slot_wf p (s : Slot) : Prop :=
  s_occupied s = true ->
  (exists b, s_buf s = Some b /\ filled p b) /\ is_u32 (s_seq s) /\ exists i, s_tsc s = u64 (tsc i).

Record queue_wf p q ext : Prop := {
  qw_len : length q = 256%nat;
  qw_slots : Forall (slot_wf p) q;
  qw_nodup : NoDup (slot_bufs q);
  qw_ext : forall b, b ∈ slot_bufs q -> b ∉ ext;
  qw_pool : pool_ok p (list_to_set (slot_bufs q) ∪ ext)
}.

Lemma filled_frame p p' X b : pool_frame p p' X -> b ∈ X -> filled p b -> filled p' b.
Proof. intros [Hs _ Hf] Hb. unfold filled. destruct (Hf b Hb) as [_ ->]. by rewrite Hs. Qed.

Lemma slot_wf_frame p p' X s :
  pool_frame p p' X -> (forall b, b ∈ slot_buf s -> b ∈ X) -> slot_wf p s -> slot_wf p' s.
Proof.
  intros F Hb Hs Ho. destruct (Hs Ho) as ((b & Hbuf & Hl) & Hr). split; [|done]. exists b. split; [done|].
  eapply filled_frame; [done|apply Hb; unfold slot_buf; rewrite Ho, Hbuf; set_solver|done].
Qed.

Lemma slots_frame p p' X q :
  pool_frame p p' X -> (forall b, b ∈ slot_bufs q -> b ∈ X) -> Forall (slot_wf p) q -> Forall (slot_wf p') q.
Proof.
  intros F. induction q as [|s q IH]; intros Hb Hq; [done|]. apply Forall_cons in Hq as [Hs Hq]. unfold slot_bufs in Hb, IH. simpl in Hb.
  apply Forall_cons. split; [eapply slot_wf_frame; [done| |done]|apply IH; [|done]]; set_solver.
Qed.

Lemma slot_bufs_insert q k s :
  q !! k = Some s -> exists R, slot_bufs q ≡ₚ slot_buf s ++ R /\ forall s', slot_bufs (<[k := s']> q) ≡ₚ slot_buf s' ++ R.
Proof.
  intros Hk. destruct (concat_insert (slot_buf <$> q) k (slot_buf s)) as (R & HR & HR'); [by rewrite list_lookup_fmap, Hk|].
  exists R. split; [done|]. intros s'. unfold slot_bufs. by rewrite list_fmap_insert.
Qed.

Lemma slot_index_bounds seq : 0 <= slot_index seq < 256.
Proof. unfold slot_index, TCP_LITE_WINDOW. change (256 - 1) with (Z.ones 8). rewrite Z.land_ones by lia. apply Z.mod_pos_bound. lia. Qed.

Lemma slot_at_index q seq : length q = 256%nat -> exists s, aget q (slot_index seq) = Some s /\ q !! Z.to_nat (slot_index seq) = Some s.
Proof.
  intros Hl. pose proof (slot_index_bounds seq). destruct (aget_is_Some q (slot_index seq)) as [s Hs]; [lia|].
  exists s. split; [done|]. by apply aget_Some in Hs as [_ Hs].
Qed.

(** [mark_sent] takes over the buffer [b], and releases the one it displaces. *)
Lemma mark_sent_wf p q ext seq b i :
  queue_wf p q ({[b]} ∪ ext) -> b ∉ ext -> filled p b -> is_u32 seq ->
  exists q' p', mark_sent q p seq b (u64 (tsc i)) = Some (q', p') /\ queue_wf p' q' ext /\ pool_frame p p' ({[b]} ∪ ext) /\ b ∈ slot_bufs q'.
Proof.
  intros [Hl Hs Hnd Hx Hok] Hb Hf Hseq. destruct (slot_at_index q seq Hl) as (s & Hg & Hk). set (k := Z.to_nat (slot_index seq)) in *.
  destruct (slot_bufs_insert q k s Hk) as (R & HR & HR'). pose proof (slot_index_bounds seq).
  rewrite HR in Hnd. apply NoDup_app in Hnd as (Hnds & Hdis & HndR). unfold mark_sent. bind_with Hg.
  assert (exists p', match s_buf s with Some b0 => if s_occupied s then release b0 p else Some p | None => Some p end = Some p' /\
    pool_ok p' (list_to_set R ∪ ({[b]} ∪ ext)) /\ pool_frame p p' (list_to_set R ∪ ({[b]} ∪ ext))) as (p' & Hp & Hok' & F).
  { rewrite (list_to_set_perm_L _ _ HR), list_to_set_app_L in Hok. unfold slot_buf in *.
    destruct (s_occupied s) eqn:Eo, (s_buf s) as [b0|] eqn:Eb; simpl in Hok;
      try (exists p; rewrite (left_id_L ∅ (∪)) in Hok; split; [done|]; split; [done|apply pool_frame_refl]).
    destruct (release_frame p _ b0 Hok) as (p' & Hr & Hok' & F); [set_solver|]. exists p'. split; [done|].
    assert (b0 ∉ R) by (apply Hdis; set_solver). assert (b0 ∉ {[b]} ∪ ext) by (apply Hx; rewrite HR; set_solver).
    replace (({[b0]} ∪ ∅ ∪ list_to_set R ∪ ({[b]} ∪ ext)) ∖ {[b0]}) with (list_to_set R ∪ ({[b]} ∪ ext) : gset Z) in * by set_solver.
    done. }
  bind_with Hp. rewrite aset_Some by lia. fold k. cbn [mbind option_bind]. eexists _, p'. split; [done|].
  set (s' := mkSlot (Some b) (u64 (tsc i)) seq true). specialize (HR' s').
  split; [|split; [eapply pool_frame_mono; [done|set_solver]|rewrite HR'; set_solver]]. split.
  - by rewrite length_insert.
  - apply (slots_frame p p' (list_to_set R ∪ ({[b]} ∪ ext))); [done|intros b'; rewrite HR'; set_solver|].
    apply Forall_insert; [done|]. intros _. split; [|split; [done|by exists i]]. by exists b.
  - rewrite HR'. simpl. constructor; [|done]. intros HbR. apply (Hx b); [rewrite HR; set_solver|set_solver].
  - intros b' Hb'. rewrite HR' in Hb'. simpl in Hb'. apply elem_of_cons in Hb' as [->|Hb']; [done|].
    intros Hbx. apply (Hx b'); [rewrite HR; set_solver|set_solver].
  - rewrite (list_to_set_perm_L _ _ HR'). simpl. by replace ({[b]} ∪ list_to_set R ∪ ext) with (list_to_set R ∪ ({[b]} ∪ ext) : gset Z) by set_solver.
Qed.

Lemma touch_wf p q ext seq i :
  queue_wf p q ext -> exists q', touch q seq (u64 (tsc i)) = Some q' /\ queue_wf p q' ext.
Proof.
  intros Q. destruct (slot_at_index q seq (qw_len _ _ _ Q)) as (s & Hg & Hk). pose proof (slot_index_bounds seq).
  unfold touch. bind_with Hg. destruct (_ && _); [|by exists q]. pose proof (qw_len _ _ _ Q) as Hl.
  rewrite aset_Some by lia. eexists. split; [done|]. set (s' := mkSlot _ _ _ _).
  assert (slot_bufs (<[Z.to_nat (slot_index seq) := s']> q) = slot_bufs q) as Hb.
  { unfold slot_bufs. rewrite list_fmap_insert. change (slot_buf s') with (slot_buf s).
    by rewrite list_insert_id by (by rewrite list_lookup_fmap, Hk). }
  pose proof (Forall_lookup_1 _ _ _ _ (qw_slots _ _ _ Q) Hk) as Hs.
  split; rewrite ?Hb, ?length_insert; try apply Q. apply Forall_insert; [apply Q|].
  intros Ho. destruct (Hs Ho) as (Hbuf & Hseq & _). split; [done|]. split; [done|by exists i].
Qed.

(** What [buffer_for] finds can be transmitted again. *)
Lemma buffer_for_wf p q ext seq :
  queue_wf p q ext ->
  exists o, buffer_for q seq = Some o /\ forall b, o = Some b -> exists pkt, buf_packet b p = Some pkt.
Proof.
  intros Q. destruct (slot_at_index q seq (qw_len _ _ _ Q)) as (s & Hg & Hk).
  unfold buffer_for. bind_with Hg. eexists. split; [done|]. intros b Hb. destruct (s_occupied s) eqn:Ho; [|done].
  destruct (s_seq s =? seq); [|done]. simpl in Hb.
  destruct (Forall_lookup_1 _ _ _ _ (qw_slots _ _ _ Q) Hk Ho) as ((b' & Hb' & l & Hl & Hr) & _). simplify_eq.
  assert (b ∈ slot_bufs q) as Hin.
  { destruct (slot_bufs_insert q _ s Hk) as (R & -> & _). unfold slot_buf. rewrite Ho, Hb. set_solver. }
  destruct (read_held p _ b 0 l (qw_pool _ _ _ Q)) as (m & Hm & Hrd); [set_solver|lia..|].
  unfold buf_packet. bind_with Hm. bind_with Hl. rewrite Hrd. eauto.
Qed.

Definition newest_wf (newest : Z * Z * bool) : Prop := newest.2 = true -> exists i, newest.1.1 = u64 (tsc i).

(** What the loop over the slots leaves: [D] are the buffers it released. *)
Record drained p q held p' q' (D : gset Z) : Prop := {
  dr_len : length q' = length q;
  dr_slots : Forall (slot_wf p') q';
  dr_sub : slot_bufs q' `sublist_of` slot_bufs q;
  dr_all : forall b, b ∈ slot_bufs q <-> b ∈ slot_bufs q' \/ b ∈ D;
  dr_gone : forall b, b ∈ D -> b ∉ slot_bufs q';
  dr_pool : pool_ok p' (held ∖ D);
  dr_frame : pool_frame p p' (held ∖ D)
}.

Lemma drained_keep p s q held p' q' D :
  slot_wf p s -> (forall b, b ∈ slot_buf s -> b ∈ held /\ b ∉ slot_bufs q) ->
  drained p q held p' q' D -> drained p (s :: q) held p' (s :: q') D.
Proof.
  intros Hs Hb [Hl Hw Hsub Hall Hgone Hok F]. unfold slot_bufs in *. split; unfold slot_bufs; simpl; try done.
  - lia.
  - apply Forall_cons. split; [|done]. eapply slot_wf_frame; [done| |done]. intros b Hin. destruct (Hb b Hin). set_solver.
  - by apply sublist_app.
  - set_solver.
  - set_solver.
Qed.

(** An occupied slot with buffer [b] is emptied. *)
Lemma drained_drop p p1 s s0 b q held p' q' D :
  slot_buf s = [b] -> slot_buf s0 = [] -> s_occupied s0 = false -> b ∈ held -> b ∉ slot_bufs q ->
  pool_frame p p1 (held ∖ {[b]}) -> drained p1 q (held ∖ {[b]}) p' q' D ->
  drained p (s :: q) held p' (s0 :: q') ({[b]} ∪ D).
Proof.
  intros Hs Hs0 Ho Hb Hq F1 [Hl Hw Hsub Hall Hgone Hok F]. rewrite difference_difference_l_L in Hok, F.
  unfold slot_bufs in *. split; unfold slot_bufs; simpl; rewrite ?Hs, ?Hs0; simpl; try done.
  - lia.
  - apply Forall_cons. split; [|done]. intros Ho'. congruence.
  - by apply sublist_cons.
  - set_solver.
  - set_solver.
  - eapply pool_frame_trans; [|done]. eapply pool_frame_mono; [done|]. set_solver.
Qed.

Lemma acked_loop_wf q a newest p held :
  Forall (slot_wf p) q -> NoDup (slot_bufs q) -> (forall b, b ∈ slot_bufs q -> b ∈ held) -> pool_ok p held -> newest_wf newest ->
  exists nw q' p' D, acked_loop q a newest p = Some (nw, q', p') /\ drained p q held p' q' D /\ newest_wf nw.
Proof.
  revert newest p held. induction q as [|s q IH]; intros newest p held Hw Hnd Hh Hok Hn.
  { exists newest, [], p, ∅. split; [done|]. split; [|done].
    split; try done; [set_solver|by rewrite difference_empty_L]. }
  apply Forall_cons in Hw as [Hs Hw]. unfold slot_bufs in Hnd, Hh. simpl in Hnd, Hh.
  apply NoDup_app in Hnd as (_ & Hdis & Hnd). simpl. destruct (s_occupied s && _) eqn:E.
  - apply andb_true_iff in E as [Ho _]. destruct (Hs Ho) as ((b & Hb & _) & _ & Ht).
    assert (slot_buf s = [b]) as Hsb by (unfold slot_buf; by rewrite Ho, Hb). rewrite Hsb in Hdis, Hh.
    assert (b ∉ slot_bufs q) as Hbq by (apply Hdis; set_solver).
    destruct (release_frame p held b Hok) as (p1 & Hr & Hok1 & F1); [set_solver|].
    destruct newest as [[t0 m] any]. rewrite Hb. cbn [mbind option_bind]. bind_with Hr.
    set (nw0 := if _ : bool then _ else _).
    destruct (IH nw0 p1 (held ∖ {[b]})) as (nw & q' & p' & D & -> & HD & Hnw); [|done| |done| |].
    { eapply slots_frame; [exact F1| |exact Hw]. set_solver. }
    { set_solver. }
    { unfold nw0. case_match; [by intros _|done]. }
    simpl. eexists nw, _, p', _. split; [done|]. split; [|done].
    eapply drained_drop; [exact Hsb|done|done|set_solver|exact Hbq|exact F1|exact HD].
  - destruct (IH newest p held) as (nw & q' & p' & D & -> & HD & Hnw); [done|done|set_solver|done|done|].
    simpl. eexists nw, _, p', D. split; [done|]. split; [|done]. eapply drained_keep; [done| |done].
    intros b Hb. split; [set_solver|by apply Hdis].
Qed.

Lemma release_all_wf q p held :
  Forall (slot_wf p) q -> NoDup (slot_bufs q) -> (forall b, b ∈ slot_bufs q -> b ∈ held) -> pool_ok p held ->
  exists q' p' D, release_all q p = Some (q', p') /\ drained p q held p' q' D /\ slot_bufs q' = [].
Proof.
  revert p held. induction q as [|s q IH]; intros p held Hw Hnd Hh Hok.
  { exists [], p, ∅. split; [done|]. split; [|done].
    split; try done; [set_solver|by rewrite difference_empty_L]. }
  apply Forall_cons in Hw as [Hs Hw]. unfold slot_bufs in Hnd, Hh. simpl in Hnd, Hh.
  apply NoDup_app in Hnd as (_ & Hdis & Hnd). cbn [release_all]. set (s0 := mkSlot None _ _ false).
  destruct (s_occupied s) eqn:Ho.
  - destruct (Hs Ho) as ((b & Hb & _) & _). rewrite Hb.
    assert (slot_buf s = [b]) as Hsb by (unfold slot_buf; by rewrite Ho, Hb). rewrite Hsb in Hdis, Hh.
    assert (b ∉ slot_bufs q) as Hbq by (apply Hdis; set_solver).
    destruct (release_frame p held b Hok) as (p1 & Hr & Hok1 & F1); [set_solver|]. bind_with Hr.
    destruct (IH p1 (held ∖ {[b]})) as (q' & p' & D & -> & HD & He);
      [eapply slots_frame; [exact F1|set_solver|exact Hw]|done|set_solver|done|].
    simpl. eexists _, p', _. split; [done|]. split; [|done].
    eapply drained_drop; [exact Hsb|done|done|set_solver|exact Hbq|exact F1|exact HD].
  - assert (slot_buf s = []) as Hsb by (unfold slot_buf; by rewrite Ho). rewrite Hsb in Hh.
    destruct (IH p held) as (q' & p' & D & Hr & [] & He); [done|done|set_solver|done|].
    exists (s0 :: q'), p', D. split; [destruct (s_buf s); simpl; by rewrite Hr|]. split; [|done].
    unfold slot_bufs in *. split; unfold slot_bufs; simpl; rewrite ?Hsb; try done; [lia|by apply Forall_cons].
Qed.
End queue.

(** ** The session *)

(** Every member is in the range of its type. *)
Record sender_typed (sd : Sender) : Prop := {
  st_pending : bytes_ok (pending_tx_ sd);
  st_room : Z.of_nat (length (pending_tx_ sd)) < 2 ^ 64;
  st_off : 0 <= tx_off_ sd <= Z.of_nat (length (pending_tx_ sd));
  st_next : is_u32 (next_seq_ sd);
  st_una : is_u32 (snd_una_ sd);
  st_sent : is_u64 (bytes_sent_ sd);
  st_retransmits : is_u64 (retransmits_ sd);
  st_rtt : is_u64 (rtt_ns_ sd)
}.

Record receiver_typed (r : Receiver) : Prop := {
  rt_bits : 0 <= received_ (recv_bitmap_ r) < 2 ^ 256;
  rt_base : is_u32 (base_seq_ (recv_bitmap_ r));
  rt_reasm : length (reasm_ r) = 256%nat;
  rt_payloads : Forall (fun v => bytes_ok v /\ Z.of_nat (length v) <= TCP_LITE_MAX_PAYLOAD) (reasm_ r);
  rt_received : is_u64 (bytes_received_ r)
}.

Section session.
Context {P : Type} `{PoolSpec P} (tsc : nat -> Z) (ghz : double).
Implicit Types (p : P) (s : TcpLiteSession P) (ext : gset Z).

Record sess_wf ext s : Prop := {
  sw_queue : queue_wf tsc (pool_ s) (unacked_ (snd s)) ext;
  sw_mtu : TCP_LITE_MTU <= buf_size (pool_ s);
  sw_sender : sender_typed (snd s);
  sw_receiver : receiver_typed (rcv s)
}.

(** A step that keeps the receiver and the buffers of others. *)
Record sends ext s s' : Prop := {
  se_wf : sess_wf ext s';
  se_frame : pool_frame (pool_ s) (pool_ s') ext;
  se_cfg : cfg s' = cfg s;
  se_rcv : rcv s' = rcv s
}.

Lemma sends_refl ext s : sess_wf ext s -> sends ext s s.
Proof. intros Hs. by split. Qed.

Lemma sends_trans ext s1 s2 s3 : sends ext s1 s2 -> sends ext s2 s3 -> sends ext s1 s3.
Proof. intros [_ F1 C1 R1] [W2 F2 C2 R2]. split; [done|by eapply pool_frame_trans|congruence..]. Qed.

(** One packet is sent. *)
Lemma pump_send_wf ext s p1 b :
  sess_wf ext s -> tx_off_ (snd s) < Z.of_nat (length (pending_tx_ (snd s))) ->
  acquire (pool_ s) = Some (Some b, p1) -> b ∉ list_to_set (slot_bufs (unacked_ (snd s))) ∪ ext ->
  pool_ok p1 ({[b]} ∪ (list_to_set (slot_bufs (unacked_ (snd s))) ∪ ext)) ->
  pool_frame (pool_ s) p1 (list_to_set (slot_bufs (unacked_ (snd s))) ∪ ext) ->
  exists plen p2 q p3 pkt, let sd := snd s in
    build_packet b p1 sd (cumulative_ack (recv_bitmap_ (rcv s))) = Some (plen, p2) /\
    mark_sent (unacked_ sd) p2 (next_seq_ sd) b (u64 (tsc (reads (env s)))) = Some (q, p3) /\
    buf_packet b p3 = Some pkt /\
    forall e, sends ext s (mkSession p3 (cfg s)
      (mkSender q (pending_tx_ sd) (u64 (tx_off_ sd + plen)) (u32 (next_seq_ sd + 1))
         (snd_una_ sd) (u64 (bytes_sent_ sd + plen)) (retransmits_ sd) (rtt_ns_ sd)) (rcv s) e).
Proof.
  intros [[Ql Qs Qn Qx Qp] Hmtu S R] Ho Hacq Hb Hok1 F1. set (held := list_to_set _ ∪ ext) in *.
  set (a := cumulative_ack (recv_bitmap_ (rcv s))). assert (u32 a = a) as Ha by (apply u32_id, u32_range).
  destruct (build_packet_ok p1 held b (snd s) (next_seq_ (snd s)) a) as (p2 & Hbuild & Hok2 & F2 & Hh);
    [done|done|by rewrite (pf_size _ _ _ F1)|symmetry; apply u32_id, S|split; [apply S|done]|apply S|apply S|].
  rewrite Ha in Hbuild. set (c := next_chunk (snd s)) in *. pose proof (pool_frame_trans _ _ _ _ F1 F2) as F.
  assert (Z.of_nat (length c) = Z.min (Z.of_nat (length (pending_tx_ (snd s))) - tx_off_ (snd s)) 1024) as Hc.
  { unfold c, next_chunk. rewrite length_take, length_drop. pose proof (st_off _ S). lia. }
  pose proof (pf_size _ _ _ F) as Hsize. unfold TCP_LITE_MTU, sizeof_header, TCP_LITE_MAX_PAYLOAD in Hmtu.
  pose proof (length_packet (next_seq_ (snd s)) a c) as Hlp.
  assert (filled p2 b) as Hfill by (eexists; split; [apply Hh|]; rewrite Hsize; lia).
  destruct (mark_sent_wf tsc p2 (unacked_ (snd s)) ext (next_seq_ (snd s)) b (reads (env s))) as (q & p3 & Hq & Q & F3 & Hbq);
    [|set_solver|done|apply S|].
  { split; try done.
    - eapply slots_frame; [exact F| |exact Qs]. unfold held. set_solver.
    - intros b' Hb'. pose proof (Qx b' Hb'). unfold held in Hb. set_solver.
    - replace (list_to_set (slot_bufs (unacked_ (snd s))) ∪ ({[b]} ∪ ext)) with ({[b]} ∪ held) by (unfold held; set_solver). done. }
  pose proof (pf_size _ _ _ F3) as Hs3.
  eexists _, p2, q, p3, _. cbv zeta. split; [exact Hbuild|]. split; [exact Hq|]. split.
  { eapply buf_packet_ok; [apply Q|set_solver|eapply holds_packet_frame; [exact F3|set_solver|exact Hh]|lia]. }
  intros e. split; try done; simpl.
  - split; simpl; try done; [unfold TCP_LITE_MTU, sizeof_header, TCP_LITE_MAX_PAYLOAD; lia|].
    pose proof (st_off _ S). pose proof (st_room _ S).
    split; simpl; try apply S; try apply u32_range; try apply u64_range. rewrite u64_id by (unfold is_u64; lia). lia.
  - eapply pool_frame_trans; eapply pool_frame_mono; [exact F|unfold held; set_solver|exact F3|set_solver].
Qed.

(** A change of the pool that keeps the session's buffers. *)
Lemma sess_wf_pool ext s p' e :
  sess_wf ext s -> pool_ok p' (list_to_set (slot_bufs (unacked_ (snd s))) ∪ ext) ->
  pool_frame (pool_ s) p' (list_to_set (slot_bufs (unacked_ (snd s))) ∪ ext) ->
  sends ext s (mkSession p' (cfg s) (snd s) (rcv s) e).
Proof.
  intros [[Ql Qs Qn Qx Qp] Hmtu S R] Hok F. split; try done; simpl.
  - split; simpl; try done; [|by rewrite (pf_size _ _ _ F)]. split; try done. eapply slots_frame; [exact F|set_solver|exact Qs].
  - eapply pool_frame_mono; [exact F|set_solver].
Qed.

Lemma pump_loop_wf fuel ext s :
  sess_wf ext s -> Z.max 0 (256 - u32 (next_seq_ (snd s) - snd_una_ (snd s))) < Z.of_nat fuel ->
  exists s', pump_loop tsc fuel s = Some s' /\ sends ext s s'.
Proof.
  revert s. induction fuel as [|fuel IH]; intros s W Hf; [lia|]. cbn [pump_loop]. set (d := u32 _) in *.
  destruct (_ && _) eqn:E; [|exists s; split; [done|by apply sends_refl]].
  apply andb_true_iff in E as [Ho%Z.ltb_lt Hd%Z.ltb_lt]. unfold TCP_LITE_WINDOW in Hd.
  destruct (acquire_frame _ _ (qw_pool _ _ _ _ (sw_queue _ _ W))) as [(p1 & Hacq & Hok & F & _)|(b & p1 & Hacq & Hb & Hok & F & _)].
  - bind_with Hacq. eexists. split; [done|]. by apply sess_wf_pool.
  - bind_with Hacq. destruct (pump_send_wf ext s p1 b W Ho Hacq Hb Hok F) as (plen & p2 & q & p3 & pkt & H1 & H2 & H3 & Hs).
    bind_with H1. unfold rdtsc. bind_with H2. bind_with H3. match goal with |- context [pump_loop _ _ ?x] => set (s1 := x) end.
    assert (sends ext s s1) as S1 by apply Hs. destruct (IH s1) as (s' & -> & S2); [apply S1| |by eexists; split; [|eapply sends_trans]].
    assert (u32 (next_seq_ (snd s1) - snd_una_ (snd s1)) = d + 1) as ->; [|pose proof (u32_range (next_seq_ (snd s) - snd_una_ (snd s))); unfold is_u32 in *; lia].
    simpl. unfold d in *. pose proof (u32_range (next_seq_ (snd s) - snd_una_ (snd s))) as Hr. unfold is_u32 in Hr.
    rewrite <-(u32_id (u32 (next_seq_ (snd s) - snd_una_ (snd s)) + 1)) by (unfold is_u32; lia). rewrite u32_add_l. unfold u32. rewrite Zminus_mod_idemp_l. f_equal. lia.
Qed.

Lemma pump_tx_wf ext s : sess_wf ext s -> exists s', pump_tx tsc s = Some s' /\ sends ext s s'.
Proof.
  intros W. pose proof (u32_range (next_seq_ (snd s) - snd_una_ (snd s))) as Hr. unfold is_u32 in Hr.
  destruct (pump_loop_wf 257 ext s W) as (s1 & Hp & S1); [lia|]. unfold pump_tx. bind_with Hp.
  destruct (_ && _); [|by eexists]. eexists. split; [done|]. destruct S1 as [[Q M S R] F C Rc].
  split; try done. split; simpl; try done. split; simpl; try apply S; [apply Forall_nil_2|lia..].
Qed.

Lemma sample_rtt_wf t rtt e :
  clock_ok tsc ghz -> t = 0 \/ (exists i, t = u64 (tsc i)) -> is_u64 rtt ->
  exists rtt' e', sample_rtt tsc ghz t rtt e = Some (rtt', e') /\ is_u64 rtt'.
Proof.
  intros Hclk Ht Hr. unfold sample_rtt. destruct (Z.eqb_spec t 0); [by eexists _, _|].
  destruct Ht as [?|[i ->]]; [done|]. simpl. destruct (Hclk i (reads e)) as [x Hx]. rewrite Hx. simpl.
  eexists _, _. split; [done|]. apply double_to_u64_range in Hx. unfold is_u64 in *. destruct (rtt =? 0); [lia|].
  pose proof (u64_range (u64 (7 * rtt) + x)) as Hu. unfold is_u64 in Hu.
  split; [apply Z.div_pos; lia|]. apply Z.div_lt_upper_bound; lia.
Qed.

Lemma process_ack_wf ext s h :
  clock_ok tsc ghz -> sess_wf ext s -> is_u32 (ack_num h) ->
  exists s', process_ack tsc ghz h s = Some s' /\ sends ext s s'.
Proof.
  intros Hclk W Ha. unfold process_ack. case_match; [|exists s; split; [done|by apply sends_refl]].
  destruct W as [[Ql Qs Qn Qx Qp] Hmtu S R].
  destruct (acked_loop_wf tsc (unacked_ (snd s)) (ack_num h) (0, 0, false) (pool_ s)
    (list_to_set (slot_bufs (unacked_ (snd s))) ∪ ext) Qs Qn) as ([[t m] any] & q & p1 & D & Hl & Hd & Hn);
    [|exact Qp|done|]; [set_solver|]. destruct Hd as [D1 D2 D3 D4 D5 D6 D7].
  assert (forall b, b ∈ D -> b ∉ ext) as Hdx by (intros b Hb; apply Qx, D4; by right).
  replace ((list_to_set (slot_bufs (unacked_ (snd s))) ∪ ext) ∖ D) with (list_to_set (slot_bufs q) ∪ ext : gset Z) in D6, D7.
  2:{ apply set_eq. intros b. rewrite elem_of_difference, !elem_of_union, !elem_of_list_to_set, D4. specialize (D5 b). specialize (Hdx b). tauto. }
  unfold mark_acked. bind_with Hl. cbn [mbind option_bind].
  destruct (sample_rtt_wf (if any then t else 0) (rtt_ns_ (snd s)) (env s) Hclk) as (rtt & e & Hrtt & Hr);
    [destruct any; [right; by apply Hn|by left]|apply S|]. bind_with Hrtt.
  match goal with |- context [pump_tx _ ?x] => set (s1 := x) end.
  assert (sess_wf ext s1) as W1.
  { split; simpl; try done; [|by rewrite (pf_size _ _ _ D7)|split; simpl; try apply S; done].
    split; try done; [lia|by eapply sublist_NoDup|]. intros b Hb. apply Qx, D4. by left. }
  destruct (pump_tx_wf ext s1 W1) as (s2 & -> & S2). exists s2. split; [done|].
  destruct S2 as [W2 F2 C2 R2]. split; [done| |done|done].
  eapply pool_frame_trans; [|exact F2]. eapply pool_frame_mono; [exact D7|set_solver].
Qed.

(** ** Receiving *)

(** [k] bits of the window are left. *)
Lemma deliver_loop_wf fuel c r e k :
  receiver_typed r -> 0 <= k < Z.of_nat fuel -> received_ (recv_bitmap_ r) < 2 ^ k ->
  exists r' e', deliver_loop fuel c r e = Some (r', e') /\ receiver_typed r'.
Proof.
  revert r e k. induction fuel as [|fuel IH]; intros r e k T Hk Hb; [lia|]. cbn [deliver_loop].
  set (bm := recv_bitmap_ r) in *. destruct (has bm (base_seq_ bm)) eqn:Eh; [|by eexists _, _].
  pose proof (slot_index_bounds (base_seq_ bm)) as Hi. pose proof (rt_reasm _ T) as Hl.
  destruct (aget_is_Some (reasm_ r) (slot_index (base_seq_ bm))) as [v Hv]; [lia|]. bind_with Hv.
  rewrite aset_Some by lia. cbn [mbind option_bind]. pose proof (rt_bits _ T) as Hbits. fold bm in Hbits.
  assert (k <> 0) as Hk0.
  { intros ->. assert (received_ bm = 0) as E0 by lia. unfold has in Eh. rewrite E0 in Eh. case_match; [done|]. by rewrite Z.bits_0 in Eh. }
  assert (advance bm (u32 (base_seq_ bm + 1)) = mkBitmap (received_ bm / 2) (u32 (base_seq_ bm + 1))) as ->.
  { unfold advance, u32. rewrite Zminus_mod_idemp_l. replace (base_seq_ bm + 1 - base_seq_ bm) with 1 by lia.
    change (1 mod 2 ^ 32) with 1. by rewrite Z.shiftr_div_pow2 by lia. }
  assert (received_ bm / 2 < 2 ^ (k - 1)) as Hhalf.
  { apply Z.div_lt_upper_bound; [lia|]. rewrite <-Z.pow_succ_r by lia. by replace (Z.succ (k - 1)) with k by lia. }
  apply (IH _ _ (k - 1)); simpl; [|lia|done].
  split; simpl; [|apply u32_range|by rewrite length_insert| |apply u64_range].
  - split; [apply Z.div_pos; lia|]. apply Z.div_lt_upper_bound; lia.
  - apply Forall_insert; [apply T|]. split; [apply Forall_nil_2|done].
Qed.

(** A step that keeps the sender and the pool. *)
Lemma process_data_wf ext s seq payload :
  sess_wf ext s -> bytes_ok payload -> Z.of_nat (length payload) <= TCP_LITE_MAX_PAYLOAD ->
  exists s', process_data seq payload s = Some s' /\ sess_wf ext s' /\ pool_ s' = pool_ s /\ cfg s' = cfg s.
Proof.
  intros [Q Hmtu S T] Hb Hl. unfold process_data. destruct (mark_received _ seq) as [fresh bm] eqn:E.
  pose proof (slot_index_bounds seq) as Hi. pose proof (rt_reasm _ T) as Hlen.
  assert (0 <= received_ bm < 2 ^ 256 /\ is_u32 (base_seq_ bm)) as [Hbits Hbase].
  { unfold mark_received in E. pose proof (rt_bits _ T). pose proof (rt_base _ T).
    repeat case_match; simplify_eq; try done. split; [|done]. apply setbit_256; [done|]. unfold TCP_LITE_WINDOW in *. lia. }
  assert (exists reasm, (if fresh then aset (reasm_ (rcv s)) (slot_index seq) payload else Some (reasm_ (rcv s))) = Some reasm /\
    receiver_typed (mkReceiver bm reasm (pending_ack_ (rcv s)) (bytes_received_ (rcv s)))) as (reasm & Hre & T1).
  { destruct fresh; [rewrite aset_Some by lia|]; (eexists; split; [done|]); split; simpl; try done; try apply T.
    - by rewrite length_insert.
    - apply Forall_insert; [apply T|done]. }
  bind_with Hre. unfold deliver_in_order.
  destruct (deliver_loop_wf 257 (cfg s) _ (env s) 256 T1) as (r' & e' & -> & T2); [lia|apply Hbits|].
  simpl. eexists. split; [done|]. split; [|done]. split; simpl; try done. split; simpl; apply T2.
Qed.

(** A packet as far as its shape goes: it fits into a buffer and its length field
    is within the packet, which the receiver does not check. *)
Definition shaped (pkt : list Z) : Prop :=
  bytes_ok pkt /\ 16 <= Z.of_nat (length pkt) <= TCP_LITE_MTU /\
  16 + payload_len (header_of (take 16 pkt)) <= Z.of_nat (length pkt).

Lemma read_raw p held b pkt :
  pool_ok p held -> b ∈ held -> TCP_LITE_MTU <= buf_size p -> holds_packet p b pkt -> shaped pkt ->
  let h := header_of (take 16 pkt) in
  header_ok h /\ buf_header b p = Some h /\
  exists c, buf_payload b (payload_len h) p = Some c /\ bytes_ok c /\ Z.of_nat (length c) <= TCP_LITE_MAX_PAYLOAD.
Proof.
  intros Hok Hb Hmtu [_ Hc] (Hby & Hl & Hp) h.
  assert (header_ok h) as Hh by (apply header_of_ok; [by apply Forall_take|rewrite length_take; lia]).
  fold h in Hp. pose proof (ho_len _ Hh) as Hpl. unfold is_u16 in Hpl. unfold TCP_LITE_MTU, sizeof_header, TCP_LITE_MAX_PAYLOAD in *.
  destruct (read_held p held b 0 16 Hok Hb) as (m & Hm & Hr1); [lia..|].
  destruct (read_held p held b 16 (payload_len h) Hok Hb) as (m' & Hm' & Hr2); [lia..|]. assert (m' = m) as -> by congruence.
  assert (content p b = pkt ++ drop (length pkt) (content p b)) as Happ by (rewrite <-Hc at 1; by rewrite take_drop).
  rewrite Happ, drop_0, take_app_le in Hr1 by lia. rewrite Happ, drop_app_le, take_app_le in Hr2 by (rewrite ?length_drop; lia).
  split; [done|]. unfold buf_header, buf_payload, sizeof_header. rewrite Hm. cbn [mbind option_bind].
  rewrite Hr1, Hr2. split; [done|]. eexists. split; [done|]. split; [by apply Forall_take, Forall_drop|]. rewrite length_take. lia.
Qed.

Lemma release_buf_wf ext s b :
  sess_wf ({[b]} ∪ ext) s -> b ∉ ext -> exists s', release_buf b s = Some s' /\ sess_wf ext s' /\ pool_frame (pool_ s) (pool_ s') ext.
Proof.
  intros [[Ql Qs Qn Qx Qp] Hmtu S T] Hb. destruct (release_frame _ _ b Qp) as (p & Hr & Hok & F); [set_solver|].
  assert (b ∉ slot_bufs (unacked_ (snd s))) as Hbq by (intros Hin; apply (Qx b Hin); set_solver).
  replace ((list_to_set (slot_bufs (unacked_ (snd s))) ∪ ({[b]} ∪ ext)) ∖ {[b]})
    with (list_to_set (slot_bufs (unacked_ (snd s))) ∪ ext : gset Z) in Hok, F by set_solver.
  unfold release_buf. bind_with Hr. eexists. split; [done|]. split; [|eapply pool_frame_mono; [exact F|set_solver]].
  split; simpl; try done; [|by rewrite (pf_size _ _ _ F)].
  split; try done; [eapply slots_frame; [exact F|set_solver|exact Qs]|]. intros b' Hb'. specialize (Qx b' Hb'). set_solver.
Qed.

Lemma on_packet_wf ext s b pkt :
  clock_ok tsc ghz -> sess_wf ({[b]} ∪ ext) s -> b ∉ ext -> holds_packet (pool_ s) b pkt -> shaped pkt ->
  exists s', on_packet_received tsc ghz s b = Some s' /\ sess_wf ext s' /\ pool_frame (pool_ s) (pool_ s') ext.
Proof.
  intros Hclk W Hb Hh Hp. set (h := header_of (take 16 pkt)).
  destruct (read_raw _ _ b pkt (qw_pool _ _ _ _ (sw_queue _ _ W)) ltac:(set_solver) (sw_mtu _ _ W) Hh Hp)
    as (Hho & Hr1 & c & Hr2 & Hcb & Hcl). fold h in Hho, Hr1, Hr2.
  unfold on_packet_received. bind_with Hr1. cbv zeta. bind_with Hr2. rewrite (bind_red _ _ _ (verify_checksum_eq h c Hcb)).
  destruct (packet_crc h c =? checksum h); [|by apply release_buf_wf]. cbn [negb].
  assert (exists s1, (if Z.land (flags h) TCP_ACK =? 0 then Some s else process_ack tsc ghz h s) = Some s1 /\
    sends ({[b]} ∪ ext) s s1) as (s1 & H1 & [W1 F1 _ _]).
  { case_match; [exists s; split; [done|by apply sends_refl]|]. apply process_ack_wf; [done|done|apply Hho]. }
  bind_with H1.
  assert (exists s2, (if 0 <? payload_len h then h ← buf_header b (pool_ s1); payload ← buf_payload b (payload_len (header_of (take 16 pkt))) (pool_ s1);
      process_data (seq_num h) payload s1 else Some s1) = Some s2 /\
    sess_wf ({[b]} ∪ ext) s2 /\ pool_ s2 = pool_ s1) as (s2 & H2 & W2 & Hp2).
  { destruct (0 <? payload_len h); [|by exists s1]. assert (holds_packet (pool_ s1) b pkt) as Hh1 by (eapply holds_packet_frame; [exact F1|set_solver|done]).
    destruct (read_raw _ _ b pkt (qw_pool _ _ _ _ (sw_queue _ _ W1)) ltac:(set_solver) (sw_mtu _ _ W1) Hh1 Hp)
      as (_ & Hr3 & c' & Hr4 & Hcb' & Hcl'). bind_with Hr3. bind_with Hr4.
    destruct (process_data_wf ({[b]} ∪ ext) s1 (seq_num h) c' W1 Hcb' Hcl') as (s2 & Hd & W2 & Hp2 & _). by exists s2. }
  bind_with H2. destruct (release_buf_wf ext s2 b W2 Hb) as (s3 & H3 & W3 & F3). exists s3. split; [done|]. split; [done|].
  rewrite Hp2 in F3. eapply pool_frame_trans; [eapply pool_frame_mono; [exact F1|set_solver]|exact F3].
Qed.

(** ** Sending *)

Lemma send_wf ext s data :
  sess_wf ext s -> bytes_ok data -> Z.of_nat (length (pending_tx_ (snd s)) + length data) < 2 ^ 64 ->
  exists s', send tsc s data = Some s' /\ sess_wf ext s' /\ pool_frame (pool_ s) (pool_ s') ext.
Proof.
  intros [Q M S T] Hb Hl. unfold send. match goal with |- context [pump_tx _ ?x] => set (s1 := x) end.
  destruct (pump_tx_wf ext s1) as (s2 & -> & [W F _ _]); [|by exists s2]. split; try done.
  split; simpl; try apply S; [by apply Forall_app; split; [apply S|]|rewrite length_app; lia|].
  pose proof (st_off _ S). rewrite length_app. lia.
Qed.

Lemma retransmit_wf ext seqs i s :
  sess_wf ext s -> exists s', retransmit_loop seqs (u64 (tsc i)) s = Some s' /\ sess_wf ext s' /\ pool_ s' = pool_ s.
Proof.
  revert s. induction seqs as [|seq seqs IH]; intros s W; [by exists s|]. cbn [retransmit_loop].
  destruct (buffer_for_wf tsc _ _ _ seq (sw_queue _ _ W)) as (o & Ho & Hpkt). bind_with Ho. destruct o as [b|]; [|by apply IH].
  destruct (Hpkt b eq_refl) as (pkt & Hb). bind_with Hb.
  destruct (touch_wf tsc _ _ _ seq i (sw_queue _ _ W)) as (q & Hq & Q). bind_with Hq.
  match goal with |- context [retransmit_loop _ _ ?x] => set (s1 := x) end.
  destruct (IH s1) as (s' & -> & W' & Hp); [|by exists s']. destruct W as [_ M S T]. split; try done.
  split; simpl; try apply S. apply u64_range.
Qed.

Lemma tick_wf ext s :
  sess_wf ext s -> is_Some (rto_cycles ghz (cfg s)) ->
  exists s', tick tsc ghz s = Some s' /\ sess_wf ext s' /\ pool_frame (pool_ s) (pool_ s') ext.
Proof.
  intros W [timeout Hto]. unfold tick, rdtsc. cbv beta iota. fold (rto_cycles ghz (cfg s)). bind_with Hto. cbv zeta.
  match goal with |- context [retransmit_loop ?l _ ?x] => set (seqs := l); set (s0 := x) end.
  assert (sess_wf ext s0) as W0 by (destruct W; by split).
  destruct (retransmit_wf ext seqs (reads (env s)) s0 W0) as (s1 & H1 & W1 & Hp1). bind_with H1.
  destruct (pump_tx_wf ext s1 W1) as (s2 & H2 & [W2 F2 _ _]). bind_with H2. rewrite Hp1 in F2.
  unfold send_ack. destruct (pending_ack_ (rcv s2)); [|by exists s2].
  unfold make_ack. rewrite compute_checksum_eq by apply Forall_nil_2. cbn [mbind option_bind].
  eexists. split; [done|]. split; [|done]. destruct W2 as [Q M S T]. split; try done. split; apply T.
Qed.

Lemma delete_wf ext s :
  sess_wf ext s -> exists p, delete_session s = Some p /\ pool_ok p ext /\ pool_frame (pool_ s) p ext.
Proof.
  intros [[Ql Qs Qn Qx Qp] _ _ _]. unfold delete_session.
  destruct (release_all_wf tsc _ _ (list_to_set (slot_bufs (unacked_ (snd s))) ∪ ext) Qs Qn ltac:(set_solver) Qp) as (q & p & D & H1 & [D1 D2 D3 D4 D5 D6 D7] & He). bind_with H1.
  assert ((list_to_set (slot_bufs (unacked_ (snd s))) ∪ ext) ∖ D = ext) as Heq.
  { apply set_eq. intros b. rewrite elem_of_difference, elem_of_union, elem_of_list_to_set, D4, He. specialize (Qx b). set_solver. }
  rewrite Heq in D6, D7.
  destruct (release_all_wf tsc q p ext D2) as (q' & p' & D' & H2 & [_ _ _ E4 _ E6 E7] & _); [rewrite He; constructor|rewrite He; set_solver|done|].
  bind_with H2. assert (ext ∖ D' = ext) as Heq' by (apply set_eq; intros b; specialize (E4 b); rewrite He in E4; set_solver).
  rewrite Heq' in E6, E7. exists p'. split; [done|]. split; [done|]. by eapply pool_frame_trans.
Qed.
End session.

(** ** Any peer *)

Section peer.
Context {P : Type} `{PoolSpec P}.
Implicit Types (x : endpoint P) (ext : gset Z).

(** What can happen to an endpoint: its user sends or ticks, or any packet
    arrives. *)
Inductive peer_step : endpoint P -> endpoint P -> Prop :=
| ps_send x data x' : bytes_ok data -> Z.of_nat (length (pending_tx_ (snd (ep_s x))) + length data) < 2 ^ 64 ->
    ep_send x data = Some x' -> peer_step x x'
| ps_tick x x' : ep_tick x = Some x' -> peer_step x x'
| ps_recv x pkt x' : shaped pkt -> deliver x pkt = Some x' -> peer_step x x'.

Record ep_wf ext (tsc : nat -> Z) (ghz : double) x : Prop := {
  ew_sess : sess_wf tsc ext (ep_s x);
  ew_tsc : ep_tsc x = tsc;
  ew_ghz : ep_ghz x = ghz
}.

(** The packet is in the buffer [b] that [acquire] returned. *)
Lemma staged ext tsc ghz x pkt b p :
  ep_wf ext tsc ghz x -> Z.of_nat (length pkt) <= TCP_LITE_MTU -> acquire (pool_ (ep_s x)) = Some (Some b, p) ->
  let held := list_to_set (slot_bufs (unacked_ (snd (ep_s x)))) ∪ ext in
  exists p1 p2, buf_store b 0 pkt p = Some p1 /\ buf_set_len b (u32 (Z.of_nat (length pkt))) p1 = Some p2 /\
    b ∉ held /\ pool_ok p2 ({[b]} ∪ held) /\ pool_frame (pool_ (ep_s x)) p2 held /\ holds_packet p2 b pkt.
Proof.
  intros [W _ _] Hl Ha0 held. pose proof (sw_mtu _ _ _ W) as Hmtu.
  destruct (acquire_frame _ _ (qw_pool _ _ _ _ (sw_queue _ _ _ W))) as [(p' & Ha & _)|(b' & p' & Ha & Hb & Hok & F & _)]; [congruence|].
  rewrite Ha in Ha0. injection Ha0 as -> ->. fold held in Hb, Hok, F. assert (b ∈ {[b]} ∪ held) as Hbin by set_solver.
  destruct (store_frame p _ b 0 pkt Hok Hbin) as (p1 & H1 & Hok1 & F1 & C1 & L1); [lia|rewrite (pf_size _ _ _ F); lia|].
  destruct (set_len_frame p1 _ b (u32 (Z.of_nat (length pkt))) Hok1 Hbin) as (p2 & H2 & Hok2 & F2 & C2 & L2).
  exists p1, p2. split_and!; try done.
  - eapply pool_frame_trans; [exact F|]. eapply pool_frame_mono; [eapply pool_frame_trans; [exact F1|exact F2]|set_solver].
  - destruct (buf_mem_ok p _ b Hok Hbin) as (_ & _ & _ & Hlen). rewrite (pf_size _ _ _ F) in Hlen. split.
    + rewrite L2. f_equal. apply u32_id. unfold is_u32, TCP_LITE_MTU, sizeof_header, TCP_LITE_MAX_PAYLOAD in *. lia.
    + rewrite C2, C1, inserts_middle by (simpl; lia). simpl. apply take_app_length.
Qed.

Lemma deliver_wf ext tsc ghz x pkt :
  clock_ok tsc ghz -> ep_wf ext tsc ghz x -> shaped pkt -> exists x', deliver x pkt = Some x' /\ ep_wf ext tsc ghz x'.
Proof.
  intros Hclk Wx Hp. pose proof (staged ext tsc ghz x pkt) as Hst. destruct (Hp) as (_ & Hl & _). revert Hst. destruct Wx as [W <- <-].
  intros Hst. set (s := ep_s x) in *. unfold deliver. fold s.
  destruct (acquire_frame _ _ (qw_pool _ _ _ _ (sw_queue _ _ _ W))) as [(p & Ha & Hok & F & _)|(b & p & Ha & _)].
  { bind_with Ha. eexists. split; [done|]. split; [|done..]. by apply (sess_wf_pool _ ext s p (env s) W). }
  bind_with Ha. destruct (Hst b p) as (p1 & p2 & H1 & H2 & Hb & Hok2 & F3 & Hh); [done|lia|done|]. bind_with H1. bind_with H2.
  set (held := list_to_set _ ∪ ext) in *.
  destruct W as [[Ql Qs Qn Qx Qp] M S T].
  destruct (on_packet_wf (ep_tsc x) (ep_ghz x) ext (mkSession p2 (cfg s) (snd s) (rcv s) (env s)) b pkt Hclk) as (s' & -> & W' & _);
    [|set_solver|done|done|by eexists; split].
  split; simpl; try done; [|by rewrite (pf_size _ _ _ F3)]. split; try done.
  - eapply slots_frame; [exact F3|unfold held; set_solver|exact Qs].
  - intros b' Hb'. pose proof (Qx b' Hb'). unfold held in Hb. set_solver.
  - replace (list_to_set (slot_bufs (unacked_ (snd s))) ∪ ({[b]} ∪ ext)) with ({[b]} ∪ held) by (unfold held; set_solver). done.
Qed.

Lemma ep_send_wf ext tsc ghz x data :
  ep_wf ext tsc ghz x -> bytes_ok data -> Z.of_nat (length (pending_tx_ (snd (ep_s x))) + length data) < 2 ^ 64 ->
  exists x', ep_send x data = Some x' /\ ep_wf ext tsc ghz x'.
Proof.
  intros [W <- <-] Hb Hl. destruct (send_wf _ ext (ep_s x) data W Hb Hl) as (s & Hs & W' & _).
  unfold ep_send. bind_with Hs. by eexists.
Qed.

Lemma ep_send_in x data x' : ep_send x data = Some x' -> ep_in x' = ep_in x ++ data.
Proof. unfold ep_send. intros Hs. apply bind_Some in Hs as (s & _ & Hs). by simplify_eq. Qed.

Lemma ep_tick_wf ext tsc ghz x :
  ep_wf ext tsc ghz x -> is_Some (rto_cycles ghz (cfg (ep_s x))) -> exists x', ep_tick x = Some x' /\ ep_wf ext tsc ghz x'.
Proof.
  intros [W <- <-] Ht. destruct (tick_wf _ _ ext (ep_s x) W Ht) as (s & Hs & W' & _). unfold ep_tick. bind_with Hs. by eexists.
Qed.

Lemma peer_step_wf ext tsc ghz x x' : clock_ok tsc ghz -> ep_wf ext tsc ghz x -> peer_step x x' -> ep_wf ext tsc ghz x'.
Proof.
  intros Hclk W Hst. destruct Hst as [x data x' Hb Hl Hs|x x' Ht|x pkt x' Hp Hd].
  - destruct (ep_send_wf _ _ _ _ _ W Hb Hl) as (x2 & ? & ?). congruence.
  - destruct (ep_tick_wf _ _ _ x W) as (x2 & ? & ?); [|congruence].
    unfold ep_tick in Ht. apply bind_Some in Ht as (s & Ht & _). unfold tick in Ht.
    destruct (rdtsc (ep_tsc x) (env (ep_s x))) as [now e]. apply bind_Some in Ht as (t & Ht & _).
    rewrite <-(ew_ghz _ _ _ _ W). by exists t.
  - destruct (deliver_wf _ _ _ _ _ Hclk W Hp) as (x2 & ? & ?). congruence.
Qed.

Lemma start_wf ext tsc ghz (p : P) c : host_ok p ext tsc ghz -> ep_wf ext tsc ghz (ep_start p c tsc ghz).
Proof.
  intros [Hp Hm _]. split; [|done..]. assert (slot_bufs UnackedQueue_init = []) as Hb by reflexivity.
  assert (Forall (fun v => bytes_ok v /\ Z.of_nat (length v) <= TCP_LITE_MAX_PAYLOAD) (replicate 256 [])) as Hr
    by (apply Forall_replicate; split; [apply Forall_nil_2|by vm_compute]).
  split; simpl; [|done|split; simpl; try done; unfold is_u32, is_u64; try lia; apply Forall_nil_2|].
  - split; rewrite ?Hb; try done; [apply Forall_replicate; done|apply NoDup_nil_2|set_solver|by rewrite list_to_set_nil, (left_id_L ∅ (∪))].
  - split; simpl; try exact Hr; try done; unfold is_u32, is_u64; lia.
Qed.

Lemma reached_wf ext tsc ghz p c x :
  host_ok p ext tsc ghz -> rtc peer_step (ep_start p c tsc ghz) x -> ep_wf ext tsc ghz x.
Proof.
  intros Hh R. pose proof (start_wf ext tsc ghz p c Hh) as W. destruct Hh as [_ _ Hclk].
  induction R as [|x y z St R IH]; [done|]. eauto using peer_step_wf.
Qed.

(** C12: An endpoint is type correct and total against any peer.  Whatever
    packets arrive, in whatever order with sends and ticks, as long as the
    length field of each is within the packet: the members of the session stay
    in the range of their types (the 32-bit sequence numbers, the 64-bit
    counters, the 256 reassembly slots with at most one payload each, the read
    offset inside of the pending data); the next packet, send or tick is defined,
    so no access is out of bounds and no buffer is used or released after its
    release; and destroying the session returns every buffer it held. *)
Theorem tcp_robust ext tsc ghz p c x :
  host_ok p ext tsc ghz -> rtc peer_step (ep_start p c tsc ghz) x ->
  sender_typed (snd (ep_s x)) /\ receiver_typed (rcv (ep_s x)) /\
  (forall pkt, shaped pkt -> is_Some (deliver x pkt)) /\
  (forall data, bytes_ok data -> Z.of_nat (length (pending_tx_ (snd (ep_s x))) + length data) < 2 ^ 64 -> is_Some (ep_send x data)) /\
  (is_Some (rto_cycles ghz (cfg (ep_s x))) -> is_Some (ep_tick x)) /\
  exists p', delete_session (ep_s x) = Some p' /\ pool_ok p' ext.
Proof.
  intros Hh R. pose proof (reached_wf _ _ _ _ _ _ Hh R) as W. destruct Hh as [_ _ Hclk].
  split; [apply W|]. split; [apply W|]. split_and!.
  - intros pkt Hp. destruct (deliver_wf _ _ _ _ _ Hclk W Hp) as (x' & -> & _). by exists x'.
  - intros data Hb Hl. destruct (ep_send_wf _ _ _ _ _ W Hb Hl) as (x' & -> & _). by exists x'.
  - intros Ht. destruct (ep_tick_wf _ _ _ _ W Ht) as (x' & -> & _). by exists x'.
  - destruct (delete_wf _ _ _ (ew_sess _ _ _ _ W)) as (p' & Hd & Hok & _). by exists p'.
Qed.
End peer.

(** The memory from a held buffer on ends with the pool. *)
Lemma pool_mem_length (p : BufferPool) held b :
  pool_ok p held -> b ∈ held ->
  exists m, buf_mem b p = Some m /\ Z.of_nat (length m) = (pool_cap p - b) * buf_size p.
Proof.
  intros [fl I] Hb. destruct (pool_inv_held _ _ _ _ I Hb) as (d & Hd & (Hdata & _ & _) & Hr).
  destruct (held_region _ _ _ _ I Hb) as [H0 H1]. pose proof (pi_backing _ _ _ I) as Hk.
  change (buf_mem b p) with (pool_mem b p). unfold pool_mem. rewrite Hd. cbn [mbind option_bind]. pose proof (pi_size _ _ _ I).
  rewrite Hdata, rd_bytes_Some by lia. eexists. split; [done|]. rewrite length_take, length_drop.
  change (pool_cap p) with (buffer_count_ p). change (buf_size p) with (buffer_size_ p). lia.
Qed.


(** A forged packet whose checksum verifies: sequence number 7, an
    acknowledgement of a packet never sent and two bytes of payload. *)
Definition forged_header : TcpLiteHeader :=
  default (mkHeader 0 0 0 0 0) (compute_checksum (make_data 7 1000 2) [170; 187]).

Definition forged : list Z := header_bytes forged_header ++ [170; 187].

Lemma forged_shaped : shaped forged.
Proof.
  split; [|by vm_compute]. apply Forall_app_2; [apply header_bytes_ok|].
  repeat apply Forall_cons_2; try apply Forall_nil_2; done.
Qed.

Lemma forged_verifies : verify_checksum forged_header [170; 187] = Some true.
Proof. vm_compute. reflexivity. Qed.

Lemma demo_send p :
  host_ok p ∅ demo_tsc demo_ghz ->
  exists x : endpoint BufferPool, ep_in x = [7; 8; 9] /\ rtc peer_step (ep_start p demo_cfg demo_tsc demo_ghz) x.
Proof.
  intros Hh. assert (bytes_ok [7; 8; 9]) as Hb by (repeat apply Forall_cons_2; try apply Forall_nil_2; done).
  pose proof (start_wf ∅ demo_tsc demo_ghz p demo_cfg Hh) as W.
  destruct (ep_send_wf _ _ _ _ _ W Hb) as (x & Hs & _); [done|].
  exists x. split; [exact (ep_send_in _ _ _ Hs)|apply rtc_once; by eapply ps_send].
Qed.

Lemma tcp_robust_witness :
  exists x : endpoint BufferPool, ep_in x = [7; 8; 9] /\
    verify_checksum forged_header [170; 187] = Some true /\ is_Some (deliver x forged).
Proof.
  destruct demo_host_exists as [p [Hh _]]. destruct (demo_send p Hh) as (x & Hin & R).
  exists x. split; [exact Hin|]. split; [exact forged_verifies|].
  destruct (tcp_robust ∅ demo_tsc demo_ghz p demo_cfg x Hh R) as (_ & _ & Hd & _). apply Hd, forged_shaped.
Defined.

(** Sixteen zero bytes with the length field 65535, to a session that has just
    been constructed over a pool of 300 buffers. *)
Definition long_packet : list Z := header_bytes (mkHeader 0 0 0 65535 0).

