(* ===== verification/PacketParser.v ===== *)
(** * The packet parser (include/packet_parser.h)

    The views are offsets into the memory [m] that starts at the frame and ends
    with the region the frame lies in (a pool buffer or a ring frame), which is
    in general longer than the frame: [None] is a read outside of that region.
    Lengths are [size_t] and wrap. *)

From S2P Require Import Prelude.
From stdpp Require Import base list_numbers option list.
#[local] Open Scope Z_scope.

Definition rd16 (m : list Z) (p : Z) : option Z :=
  b0 ← aget m p; b1 ← aget m (p + 1);
  Some (Z.lor (Z.shiftl b0 8) b1).

Definition rd32 (m : list Z) (p : Z) : option Z :=
  b0 ← aget m p; b1 ← aget m (p + 1); b2 ← aget m (p + 2); b3 ← aget m (p + 3);
  Some (Z.lor (Z.lor (Z.lor (Z.shiftl b0 24) (Z.shiftl b1 16)) (Z.shiftl b2 8)) b3).

(** [EthernetView], [IPv4View] and [UDPView]: where they start, and [len_]. *)
Record View := mkView { v_buf : Z; v_len : Z }.

Definition eth_valid (v : View) : bool := 14 <=? v_len v.
Definition dst_mac (m : list Z) (v : View) : option (list Z) := rd_bytes m (v_buf v) 6.
Definition src_mac (m : list Z) (v : View) : option (list Z) := rd_bytes m (v_buf v + 6) 6.
Definition ethertype (m : list Z) (v : View) : option Z := rd16 m (v_buf v + 12).
Definition eth_payload (v : View) : Z := v_buf v + 14.
Definition eth_payload_len (total_len : Z) : Z := u64 (total_len - 14).

Definition header_len (m : list Z) (v : View) : option Z :=
  b ← aget m (v_buf v); Some (Z.land b 0x0F * 4).
Definition ip_valid (m : list Z) (v : View) : option bool :=
  b ← aget m (v_buf v);
  if negb (Z.shiftr b 4 =? 4) then Some false
  else if negb (20 <=? v_len v) then Some false
  else hl ← header_len m v; Some (20 <=? hl).
Definition protocol (m : list Z) (v : View) : option Z := aget m (v_buf v + 9).
Definition src_ip (m : list Z) (v : View) : option Z := rd32 m (v_buf v + 12).
Definition dst_ip (m : list Z) (v : View) : option Z := rd32 m (v_buf v + 16).
Definition total_len (m : list Z) (v : View) : option Z := rd16 m (v_buf v + 2).
Definition ip_payload (m : list Z) (v : View) : option Z :=
  hl ← header_len m v; Some (v_buf v + hl).
Definition ip_payload_len (m : list Z) (v : View) : option Z :=
  t ← total_len m v; hl ← header_len m v; Some (u64 (t - hl)).

(** [for (i = 0; i + 1 < hl; i += 2) sum += rd16(buf_ + i)]: [n] more words. *)
Fixpoint sum_words (n : nat) (m : list Z) (p sum : Z) : option Z :=
  match n with
  | O => Some sum
  | S n => w ← rd16 m p; sum_words n m (p + 2) (u32 (sum + w))
  end.

(** [while (sum >> 16) sum = (sum & 0xFFFF) + (sum >> 16)], at most [fuel] rounds. *)
Fixpoint fold_carry (fuel : nat) (sum : Z) : option Z :=
  if Z.shiftr sum 16 =? 0 then Some sum
  else match fuel with
       | O => None
       | S fuel => fold_carry fuel (u32 (Z.land sum 0xFFFF + Z.shiftr sum 16))
       end.


(** [hl] is a multiple of four, so the loop adds [hl / 2] words; a 32-bit sum
    needs at most two folds. *)
Definition checksum_valid (m : list Z) (v : View) : option bool :=
  hl ← header_len m v;
  sum ← sum_words (Z.to_nat (hl / 2)) m (v_buf v) 0;
  sum ← fold_carry 2 sum;
  Some (sum =? 0xFFFF).

Definition udp_valid (v : View) : bool := 8 <=? v_len v.
Definition src_port (m : list Z) (v : View) : option Z := rd16 m (v_buf v).
Definition dst_port (m : list Z) (v : View) : option Z := rd16 m (v_buf v + 2).
Definition udp_length (m : list Z) (v : View) : option Z := rd16 m (v_buf v + 4).
Definition udp_payload (v : View) : Z := v_buf v + 8.
Definition udp_payload_len (m : list Z) (v : View) : option Z :=
  n ← udp_length m v; Some (u64 (n - 8)).

Record ParsedPacket := mkParsed {
  valid : bool;
  eth : View;
  ip : View;
  udp : View;
  has_ip : bool;
  has_udp : bool;
  raw_len : Z
}.

(** The operators [&] and [|] evaluate both of their operands. *)
Definition parse (m : list Z) (len : Z) : option ParsedPacket :=
  let e := mkView 0 len in
  let eth_ok := eth_valid e in
  let i := mkView (eth_payload e) (u64 (len - 14)) in
  et ← ethertype m e;
  iv ← ip_valid m i;
  let is_ipv4 := eth_ok && (et =? 0x0800) && iv in
  up ← ip_payload m i;
  ul ← ip_payload_len m i;
  let u := mkView up ul in
  proto ← protocol m i;
  let is_udp := is_ipv4 && (proto =? 17) && udp_valid u in
  csum ← checksum_valid m i;
  let csum_ok := negb is_ipv4 || csum in
  Some (mkParsed (eth_ok && csum_ok) e i u is_ipv4 is_udp len).

(** ** Big-endian fields *)

Definition be16 (z : Z) : list Z := [z / 256 mod 256; z mod 256].
Definition be32 (z : Z) : list Z := be16 (z / 65536) ++ be16 z.

Lemma lor_bytes b0 b1 k : 0 <= k -> 0 <= b0 -> 0 <= b1 < 2 ^ k -> Z.lor (Z.shiftl b0 k) b1 = b0 * 2 ^ k + b1.
Proof.
  intros Hk H0 H1. rewrite Z.shiftl_mul_pow2 by lia. rewrite <-Z.lxor_lor, <-Z.add_nocarry_lxor; [done|..].
  all: apply Z.bits_inj'; intros n Hn; rewrite Z.land_spec, Z.bits_0; destruct (decide (n < k)).
  1,3: by rewrite Z.mul_pow2_bits_low by lia.
  all: rewrite <-(Z.mod_small b1 (2 ^ k)), Z.mod_pow2_bits_high, andb_false_r by lia; done.
Qed.

Lemma rd16_app pre w post p :
  Z.of_nat (length pre) = p -> is_u16 w -> rd16 (pre ++ be16 w ++ post) p = Some w.
Proof.
  intros Hp Hw. unfold rd16. assert (forall (l : list Z) (i : nat) q x, Z.of_nat (length l) + Z.of_nat i = q ->
    (be16 w ++ post) !! i = Some x -> aget (l ++ be16 w ++ post) q = Some x) as Hget.
  { intros l i q x <- Hx. apply aget_Some. split; [lia|].
    rewrite lookup_app_r by lia. rewrite <-Hx. f_equal. lia. }
  rewrite (Hget pre 0%nat p (w / 256 mod 256)), (Hget pre 1%nat (p + 1) (w mod 256)) by (done || lia). simpl.
  f_equal. rewrite lor_bytes by (lia || dmlia). unfold is_u16 in Hw. dmlia.
Qed.

Lemma rd16_is_Some m p : 0 <= p -> p + 2 <= Z.of_nat (length m) -> is_Some (rd16 m p).
Proof.
  intros. unfold rd16. destruct (aget_is_Some m p) as [? ->]; [lia|].
  destruct (aget_is_Some m (p + 1)) as [? ->]; [lia|]. simpl. eauto.
Qed.

Lemma aget_byte m p b : bytes_ok m -> aget m p = Some b -> is_u8 b.
Proof. intros Hm [_ Hb]%aget_Some. by eapply Forall_lookup_1 in Hb. Qed.

Lemma rd16_u16 m p w : bytes_ok m -> rd16 m p = Some w -> is_u16 w.
Proof.
  intros Hm. unfold rd16. destruct (aget m p) as [b0|] eqn:H0; [|done].
  destruct (aget m (p + 1)) as [b1|] eqn:H1; [|done]. simpl. intros [= <-].
  apply aget_byte in H0, H1; [|done..]. unfold is_u8, is_u16 in *. rewrite lor_bytes by lia. lia.
Qed.

(** ** The header checksum *)

(** A sequence of bytes read as one big-endian number. *)
Definition be_num (l : list Z) : Z := fold_left (fun a b => a * 256 + b) l 0.

Lemma be_num_acc l a : fold_left (fun a b => a * 256 + b) l a = a * 256 ^ Z.of_nat (length l) + be_num l.
Proof.
  revert a. induction l as [|b l IH]; intros a; [unfold be_num; simpl; lia|].
  unfold be_num. simpl. rewrite !IH. rewrite Nat2Z.inj_succ, Z.pow_succ_r by lia. lia.
Qed.

Lemma be_num_nonneg l : bytes_ok l -> 0 <= be_num l.
Proof.
  induction 1 as [|b l Hb _ IH]; unfold be_num in *; [done|]. simpl. rewrite be_num_acc.
  unfold be_num, is_u8 in *. nia.
Qed.

Lemma be_num_pair b0 b1 l :
  be_num (b0 :: b1 :: l) = (b0 * 256 + b1) * 256 ^ Z.of_nat (length l) + be_num l.
Proof. unfold be_num at 1. simpl. by rewrite be_num_acc. Qed.

Lemma pow256_even k : 256 ^ (2 * k) mod 65535 = 1 \/ k < 0.
Proof.
  destruct (decide (k < 0)); [by right|left]. rewrite Z.pow_mul_r by lia.
  change (256 ^ 2) with 65536. rewrite <-Z.mod_pow_l.
  change (65536 mod 65535) with 1. by rewrite Z.pow_1_l by lia.
Qed.

(** The words of the loop add up to the number the bytes are, modulo 65535. *)
Lemma sum_words_spec n m p sum :
  bytes_ok m -> 0 <= p -> p + 2 * Z.of_nat n <= Z.of_nat (length m) ->
  0 <= sum -> sum + Z.of_nat n * 65535 < 2 ^ 32 ->
  exists s, sum_words n m p sum = Some s /\ sum <= s <= sum + Z.of_nat n * 65535 /\
    (s - sum) mod 65535 = be_num (take (2 * n) (drop (Z.to_nat p) m)) mod 65535 /\
    (s = sum <-> be_num (take (2 * n) (drop (Z.to_nat p) m)) = 0).
Proof.
  intros Hm. revert p sum. induction n as [|n IH]; intros p sum Hp Hlen H0 Hsum.
  { exists sum. simpl. rewrite Z.sub_diag. repeat split; try done; lia. }
  simpl sum_words. unfold rd16.
  destruct (aget_is_Some m p) as [b0 H1]; [lia|]. destruct (aget_is_Some m (p + 1)) as [b1 H2]; [lia|].
  rewrite H1, H2. simpl.
  pose proof (aget_byte _ _ _ Hm H1) as Hb0. pose proof (aget_byte _ _ _ Hm H2) as Hb1. unfold is_u8 in *.
  rewrite lor_bytes by lia. change (2 ^ 8) with 256 in *. set (w := b0 * 256 + b1).
  assert (0 <= w < 65536) as Hw by (unfold w; lia). rewrite u32_id by (unfold is_u32; lia).
  destruct (IH (p + 2) (sum + w)) as (s & -> & Hs & Hmod & Hz); [lia..|].
  exists s. split; [done|]. split; [lia|].
  apply aget_Some in H1 as [_ H1], H2 as [_ H2].
  replace (Z.to_nat (p + 1)) with (S (Z.to_nat p)) in H2 by lia.
  rewrite (drop_S _ _ _ H1), (drop_S _ _ _ H2).
  rewrite firstn_cons. replace (n + S (n + 0))%nat with (S (2 * n)) by lia. rewrite firstn_cons.
  replace (S (S (Z.to_nat p))) with (Z.to_nat (p + 2)) by lia.
  set (l := take (2 * n) (drop (Z.to_nat (p + 2)) m)) in *.
  assert (length l = 2 * n)%nat as Hl by (unfold l; rewrite length_take, length_drop; lia).
  assert (0 <= be_num l) as Hnn.
  { apply be_num_nonneg. unfold l. by apply Forall_take, Forall_drop. }
  rewrite be_num_pair, Hl. fold w.
  destruct (pow256_even (Z.of_nat n)) as [Hpow|]; [|lia].
  replace (2 * Z.of_nat n) with (Z.of_nat (2 * n)) in Hpow by lia.
  set (P := 256 ^ Z.of_nat (2 * n)) in *. assert (0 < P) by (unfold P; lia).
  split; [|nia].
  rewrite Z.add_mod, (Z.mul_mod w), Hpow, <-Hmod by lia.
  rewrite Z.mul_1_r, Z.mod_mod, <-Z.add_mod by lia. f_equal. lia.
Qed.

Lemma carry_once s :
  0 <= s < 2 ^ 31 ->
  let t := s mod 65536 + s / 65536 in
  Z.shiftr s 16 = s / 65536 /\ u32 (Z.land s 0xFFFF + Z.shiftr s 16) = t /\
  t mod 65535 = s mod 65535 /\ 0 <= t <= 65535 + s / 65536 /\ (t = 0 <-> s = 0).
Proof.
  intros Hs t. pose proof (Z.div_mod s 65536) as Hdm. pose proof (Z.mod_pos_bound s 65536) as Hb.
  assert (0 <= s / 65536 < 2 ^ 15) as Hd by dmlia.
  rewrite Z.shiftr_div_pow2, (land_mask 16) by lia. change (2 ^ 16) with 65536.
  split; [done|]. split; [apply u32_id; unfold is_u32; lia|].
  split; [|split; unfold t; lia].
  replace t with (s + - (s / 65536) * 65535) by (unfold t; lia). apply Z_mod_plus_full.
Qed.

Lemma fold_carry_spec s :
  0 <= s < 2 ^ 31 ->
  exists r, fold_carry 2 s = Some r /\ 0 <= r < 2 ^ 16 /\ r mod 65535 = s mod 65535 /\ (r = 0 <-> s = 0).
Proof.
  intros Hs. cbn [fold_carry]. destruct (carry_once s Hs) as (-> & -> & Hm1 & Hb1 & Hz1).
  case_match eqn:E1; [exists s; split; [done|]; clear Hm1 Hz1 Hb1; dmlia|].
  set (t := s mod 65536 + s / 65536) in *. assert (s / 65536 < 2 ^ 15) by dmlia. clearbody t.
  destruct (carry_once t) as (-> & -> & Hm2 & Hb2 & Hz2); [lia|].
  case_match eqn:E2; [exists t; split; [done|]; split; [clear - E2 Hb1; dmlia|split; [done|done]]|].
  set (r := t mod 65536 + t / 65536) in *.
  assert (0 <= r < 65536) as Hr by (subst r; clear - Hb1 H; dmlia). clearbody r.
  destruct (carry_once r) as (-> & _); [lia|]. rewrite (Z.div_small r) by lia. simpl.
  exists r. split; [done|]. split; [done|]. split; [congruence|tauto].
Qed.

#[local] Arguments fold_carry : simpl never.

Lemma header_len_spec m v b :
  aget m (v_buf v) = Some b -> is_u8 b -> header_len m v = Some (b mod 16 * 4).
Proof. intros Hb _. unfold header_len. rewrite Hb. simpl. by rewrite (land_mask 4) by lia. Qed.

(** The checksum of a header accepts it exactly when its bytes, read as one
    big-endian number, are a positive multiple of 65535. *)
Lemma checksum_spec m v hl :
  bytes_ok m -> 0 <= v_buf v -> header_len m v = Some hl -> v_buf v + hl <= Z.of_nat (length m) ->
  let H := be_num (take (Z.to_nat hl) (drop (Z.to_nat (v_buf v)) m)) in
  checksum_valid m v = Some (bool_decide (H <> 0 /\ H mod 65535 = 0)).
Proof.
  intros Hm Hp Hhl Hlen H. unfold checksum_valid. bind_with Hhl.
  assert (exists q, hl = 4 * q /\ 0 <= q < 16) as (q & -> & Hq).
  { unfold header_len in Hhl. destruct (aget m (v_buf v)) as [b|]; [|done].
    simpl in Hhl. rewrite (land_mask 4) in Hhl by lia. injection Hhl as <-. exists (b mod 16). dmlia. }
  replace (4 * q / 2) with (2 * q) by dmlia.
  destruct (sum_words_spec (Z.to_nat (2 * q)) m (v_buf v) 0) as (s & Hsum & Hs & Hmod & Hz); [done|lia..|].
  bind_with Hsum. replace (2 * Z.to_nat (2 * q))%nat with (Z.to_nat (4 * q)) in * by lia. fold H in Hmod, Hz.
  destruct (fold_carry_spec s) as (r & Hr & Hr1 & Hr2 & Hr3); [lia|]. bind_with Hr.
  f_equal. rewrite Z.sub_0_r in Hmod. apply Bool.eq_iff_eq_true. rewrite Z.eqb_eq, bool_decide_eq_true.
  split; [intros ->|intros [HH1 HH2]].
  - split; [|by rewrite <-Hmod, <-Hr2]. intros HH. apply Hz in HH. assert (65535 = 0) by (by apply Hr3). done.
  - assert (r mod 65535 = 0) by congruence. assert (r <> 0) by (intros Hr0%Hr3; by apply HH1, Hz). dmlia.
Qed.

(** ** What parse returns *)

(** The value of [parse] on memory that holds every byte it looks at: [b] is the
    first byte of the IP header, [et] the ethertype, [tl] the total length and
    [pr] the protocol. *)
Definition parsed (m : list Z) (len b et tl pr : Z) : ParsedPacket :=
  let hl := b mod 16 * 4 in
  let is_ipv4 := (14 <=? len) && (et =? 0x0800) && ((b / 16 =? 4) && (20 <=? u64 (len - 14)) && (20 <=? hl)) in
  let H := be_num (take (Z.to_nat hl) (drop 14 m)) in
  mkParsed ((14 <=? len) && (negb is_ipv4 || bool_decide (H <> 0 /\ H mod 65535 = 0)))
    (mkView 0 len) (mkView 14 (u64 (len - 14))) (mkView (14 + hl) (u64 (tl - hl)))
    is_ipv4 (is_ipv4 && (pr =? 17) && (8 <=? u64 (tl - hl))) len.

Lemma ip_valid_spec m v b :
  aget m (v_buf v) = Some b -> is_u8 b ->
  ip_valid m v = Some ((b / 16 =? 4) && (20 <=? v_len v) && (20 <=? b mod 16 * 4)).
Proof.
  intros Hb Hu. unfold ip_valid. bind_with Hb. rewrite Z.shiftr_div_pow2 by lia.
  change (2 ^ 4) with 16. destruct (b / 16 =? 4); [|done]. destruct (20 <=? v_len v); [|done].
  by rewrite (header_len_spec m v b).
Qed.

Lemma parse_spec m len b et tl pr :
  bytes_ok m -> aget m 14 = Some b -> rd16 m 12 = Some et -> rd16 m 16 = Some tl -> aget m 23 = Some pr ->
  14 + b mod 16 * 4 <= Z.of_nat (length m) ->
  parse m len = Some (parsed m len b et tl pr).
Proof.
  intros Hm Hb Het Htl Hpr Hlen. pose proof (aget_byte _ _ _ Hm Hb) as Hu.
  set (i := mkView 14 (u64 (len - 14))).
  pose proof (ip_valid_spec m i b Hb Hu) as Hiv. pose proof (header_len_spec m i b Hb Hu) as Hhl.
  pose proof (checksum_spec m i _ Hm ltac:(simpl; lia) Hhl Hlen) as Hcs.
  unfold parse. cbv zeta. change (mkView (eth_payload (mkView 0 len)) (u64 (len - 14))) with i.
  rewrite (bind_red _ _ et) by apply Het. bind_with Hiv.
  unfold ip_payload, ip_payload_len, total_len. rewrite Hhl.
  change (rd16 m (v_buf i + 2)) with (rd16 m 16). rewrite Htl. cbn [mbind option_bind].
  change (protocol m i) with (aget m 23). rewrite Hpr. cbn [mbind option_bind]. bind_with Hcs. done.
Qed.

(** Whatever the frame length, [parse] looks at bytes 12 to 23 and at the whole
    IP header the length nibble announces. *)
Definition parse_reads (m : list Z) : Z := Z.max 24 (14 + default 0 (aget m 14) mod 16 * 4).

Lemma parse_total m len :
  bytes_ok m -> parse_reads m <= Z.of_nat (length m) -> is_Some (parse m len).
Proof.
  intros Hm Hlen. unfold parse_reads in Hlen.
  destruct (aget_is_Some m 14) as [b Hb]; [lia|]. rewrite Hb in Hlen. simpl in Hlen.
  destruct (rd16_is_Some m 12) as [et Het]; [lia..|]. destruct (rd16_is_Some m 16) as [tl Htl]; [lia..|].
  destruct (aget_is_Some m 23) as [pr Hpr]; [lia|].
  rewrite (parse_spec m len b et tl pr); [eauto|done..|lia].
Qed.

Lemma sum_words_reads n m p sum s :
  sum_words n m p sum = Some s -> n <> O -> p + 2 * Z.of_nat n <= Z.of_nat (length m).
Proof.
  revert p sum. induction n as [|n IH]; intros p sum Hs Hn; [done|]. simpl in Hs. unfold rd16 in Hs.
  destruct (aget m p) as [|]; [|done]. destruct (aget m (p + 1)) as [|] eqn:H1; [|done].
  apply aget_range in H1. simpl in Hs. destruct n as [|n]; [lia|]. apply IH in Hs; lia.
Qed.

Lemma parse_footprint m len : is_Some (parse m len) -> parse_reads m <= Z.of_nat (length m).
Proof.
  unfold parse. intros [p Hp]. simpl in Hp. apply bind_Some in Hp as (et & _ & Hp).
  apply bind_Some in Hp as (iv & _ & Hp). apply bind_Some in Hp as (up & _ & Hp).
  apply bind_Some in Hp as (ul & _ & Hp). apply bind_Some in Hp as (pr & Hpr & Hp).
  apply bind_Some in Hp as (cs & Hcs & _). apply aget_range in Hpr.
  change (eth_payload (mkView 0 len)) with 14 in *. simpl in Hpr.
  unfold parse_reads. destruct (aget_is_Some m 14) as [b Hb]; [lia|]. rewrite Hb. simpl default.
  unfold checksum_valid, header_len in Hcs. cbn [v_buf] in Hcs. rewrite Hb in Hcs.
  cbn [mbind option_bind] in Hcs. rewrite (land_mask 4) in Hcs by lia. apply bind_Some in Hcs as (s & Hs & _).
  change (2 ^ 4) with 16 in Hs. replace (b mod 16 * 4 / 2) with (b mod 16 * 2) in Hs by dmlia.
  destruct (decide (b mod 16 = 0)) as [->|]; [lia|]. apply sum_words_reads in Hs; dmlia.
Qed.

(** ** Reading in a longer memory gives the same *)

Lemma rd16_mono m r p w : rd16 m p = Some w -> rd16 (m ++ r) p = Some w.
Proof.
  unfold rd16. destruct (aget m p) as [b0|] eqn:H0; [|done]. destruct (aget m (p + 1)) as [b1|] eqn:H1; [|done].
  by rewrite (aget_app _ r _ _ H0), (aget_app _ r _ _ H1).
Qed.

Lemma rd32_mono m r p w : rd32 m p = Some w -> rd32 (m ++ r) p = Some w.
Proof.
  unfold rd32. destruct (aget m p) as [b0|] eqn:H0; [|done]. destruct (aget m (p + 1)) as [b1|] eqn:H1; [|done].
  destruct (aget m (p + 2)) as [b2|] eqn:H2; [|done]. destruct (aget m (p + 3)) as [b3|] eqn:H3; [|done].
  by rewrite (aget_app _ r _ _ H0), (aget_app _ r _ _ H1), (aget_app _ r _ _ H2), (aget_app _ r _ _ H3).
Qed.

Lemma rd32_is_Some m p : 0 <= p -> p + 4 <= Z.of_nat (length m) -> is_Some (rd32 m p).
Proof.
  intros. unfold rd32. destruct (aget_is_Some m p) as [? ->]; [lia|].
  destruct (aget_is_Some m (p + 1)) as [? ->]; [lia|]. destruct (aget_is_Some m (p + 2)) as [? ->]; [lia|].
  destruct (aget_is_Some m (p + 3)) as [? ->]; [lia|]. simpl. eauto.
Qed.

Lemma header_len_mono m r v x : header_len m v = Some x -> header_len (m ++ r) v = Some x.
Proof.
  unfold header_len. destruct (aget m (v_buf v)) as [b|] eqn:H0; [|done]. by rewrite (aget_app _ r _ _ H0).
Qed.

Lemma ip_valid_mono m r v x : ip_valid m v = Some x -> ip_valid (m ++ r) v = Some x.
Proof.
  unfold ip_valid. intros Hx. apply bind_Some in Hx as (b & Hb & Hx). bind_with (aget_app _ r _ _ Hb).
  destruct (negb _); [done|]. destruct (negb _); [done|].
  apply bind_Some in Hx as (hl & Hhl & Hx). by bind_with (header_len_mono _ r _ _ Hhl).
Qed.

Lemma sum_words_mono n m r p sum x : sum_words n m p sum = Some x -> sum_words n (m ++ r) p sum = Some x.
Proof.
  revert p sum. induction n as [|n IH]; intros p sum; simpl; [done|].
  intros Hx. apply bind_Some in Hx as (w & Hw & Hx). bind_with (rd16_mono _ r _ _ Hw). by apply IH.
Qed.

Lemma checksum_valid_mono m r v x : checksum_valid m v = Some x -> checksum_valid (m ++ r) v = Some x.
Proof.
  unfold checksum_valid. intros Hx. apply bind_Some in Hx as (hl & Hhl & Hx).
  bind_with (header_len_mono _ r _ _ Hhl). apply bind_Some in Hx as (s & Hs & Hx).
  by bind_with (sum_words_mono _ _ r _ _ _ Hs).
Qed.

Lemma parse_mono m r len pkt : parse m len = Some pkt -> parse (m ++ r) len = Some pkt.
Proof.
  unfold parse. cbv zeta. intros Hx. apply bind_Some in Hx as (et & Het & Hx).
  rewrite (bind_red _ _ et) by (by apply rd16_mono). apply bind_Some in Hx as (iv & Hiv & Hx).
  bind_with (ip_valid_mono _ r _ _ Hiv). unfold ip_payload, ip_payload_len, total_len in *.
  apply bind_Some in Hx as (up & Hup & Hx). apply bind_Some in Hup as (hl & Hhl & Hup).
  rewrite (bind_red _ _ up) by (bind_with (header_len_mono _ r _ _ Hhl); done).
  apply bind_Some in Hx as (ul & Hul & Hx). apply bind_Some in Hul as (t & Ht & Hul).
  rewrite (bind_red _ _ ul).
  2:{ bind_with (rd16_mono _ r _ _ Ht). rewrite Hhl in Hul. by bind_with (header_len_mono _ r _ _ Hhl). }
  apply bind_Some in Hx as (pr & Hpr & Hx). unfold protocol in *. bind_with (aget_app _ r _ _ Hpr).
  apply bind_Some in Hx as (cs & Hcs & Hx). by bind_with (checksum_valid_mono _ r _ _ Hcs).
Qed.

(** On [MAX_HEADERS] bytes of accessible memory everything the parser and the
    accessors of addresses and ports read is there. *)
Definition MAX_HEADERS : Z := 78.

Definition readable (c : list Z) : Prop := bytes_ok c /\ MAX_HEADERS <= Z.of_nat (length c).

Lemma parse_readable c len :
  readable c ->
  exists pkt, parse c len = Some pkt /\ v_buf (ip pkt) = 14 /\ 14 <= v_buf (udp pkt) <= 74.
Proof.
  intros [Hc Hl]. unfold MAX_HEADERS in Hl.
  destruct (aget_is_Some c 14) as [b Hb]; [lia|]. destruct (rd16_is_Some c 12) as [et Het]; [lia..|].
  destruct (rd16_is_Some c 16) as [tl Htl]; [lia..|]. destruct (aget_is_Some c 23) as [pr Hpr]; [lia|].
  exists (parsed c len b et tl pr). split; [apply parse_spec; try done; dmlia|simpl; dmlia].
Qed.

(** ** Frames *)

(** An Ethernet frame that carries UDP over IPv4; the options are 16-bit words. *)
Record Frame := mkFrame {
  f_dst : list Z; f_src : list Z;
  f_tos : Z; f_id : Z; f_frag : Z; f_ttl : Z;
  f_src_ip : Z; f_dst_ip : Z; f_options : list Z;
  f_src_port : Z; f_dst_port : Z; f_udp_sum : Z; f_data : list Z
}.

Definition words (ws : list Z) : list Z := concat (be16 <$> ws).

Definition f_header_len (f : Frame) : Z := 20 + 2 * Z.of_nat (length (f_options f)).
Definition f_udp_len (f : Frame) : Z := 8 + Z.of_nat (length (f_data f)).

(** The words of the IP header, with checksum [c]. *)
Definition ip_words (f : Frame) (c : Z) : list Z :=
  [(64 + f_header_len f / 4) * 256 + f_tos f; f_header_len f + f_udp_len f; f_id f; f_frag f;
   f_ttl f * 256 + 17; c; f_src_ip f / 65536; f_src_ip f mod 65536;
   f_dst_ip f / 65536; f_dst_ip f mod 65536] ++ f_options f.

(** The checksum of RFC 791: the complement of the one's complement sum. *)
Definition ip_checksum (f : Frame) : Z := (- foldr Z.add 0 (ip_words f 0)) mod 65535.

Definition frame_bytes (f : Frame) (ipws : list Z) : list Z :=
  (f_dst f ++ f_src f) ++
  words ((0x0800 :: ipws) ++ [f_src_port f; f_dst_port f; f_udp_len f; f_udp_sum f]) ++ f_data f.

Definition frame_ok (f : Frame) : Prop :=
  length (f_dst f) = 6%nat /\ length (f_src f) = 6%nat /\ bytes_ok (f_dst f) /\ bytes_ok (f_src f) /\
  is_u8 (f_tos f) /\ is_u16 (f_id f) /\ is_u16 (f_frag f) /\ is_u8 (f_ttl f) /\
  is_u32 (f_src_ip f) /\ is_u32 (f_dst_ip f) /\
  Forall is_u16 (f_options f) /\ Z.of_nat (length (f_options f)) mod 2 = 0 /\
  (length (f_options f) <= 20)%nat /\
  is_u16 (f_src_port f) /\ is_u16 (f_dst_port f) /\ is_u16 (f_udp_sum f) /\ bytes_ok (f_data f) /\
  f_header_len f + f_udp_len f < 2 ^ 16.

#[global] Instance is_u8_dec z : Decision (is_u8 z).
Proof. unfold is_u8. apply _. Defined.
#[global] Instance is_u16_dec z : Decision (is_u16 z).
Proof. unfold is_u16. apply _. Defined.
#[global] Instance is_u32_dec z : Decision (is_u32 z).
Proof. unfold is_u32. apply _. Defined.
#[global] Instance frame_ok_dec f : Decision (frame_ok f).
Proof. unfold frame_ok, bytes_ok. apply _. Defined.

(** ** Reading the words of a frame *)

Lemma length_words ws : length (words ws) = (2 * length ws)%nat.
Proof.
  induction ws as [|w ws IH]; [done|].
  change (words (w :: ws)) with (w / 256 mod 256 :: w mod 256 :: words ws). simpl. lia.
Qed.

Lemma words_app a b : words (a ++ b) = words a ++ words b.
Proof. unfold words. by rewrite fmap_app, concat_app. Qed.

Lemma words_ok ws : bytes_ok (words ws).
Proof.
  unfold words, bytes_ok. induction ws as [|w ws IH]; simpl; [constructor|].
  constructor; [unfold is_u8; dmlia|]. constructor; [unfold is_u8; dmlia|done].
Qed.

Lemma words_split ws i w : ws !! i = Some w -> words ws = words (take i ws) ++ be16 w ++ words (drop (S i) ws).
Proof.
  intros Hi. rewrite <-(take_drop_middle ws i w Hi) at 1. rewrite words_app. done.
Qed.

Lemma aget_app_words pre ws post i w :
  ws !! i = Some w -> is_u16 w ->
  aget (pre ++ words ws ++ post) (Z.of_nat (length pre) + 2 * Z.of_nat i) = Some (w / 256) /\
  aget (pre ++ words ws ++ post) (Z.of_nat (length pre) + 2 * Z.of_nat i + 1) = Some (w mod 256).
Proof.
  intros Hi Hw. pose proof (lookup_lt_Some _ _ _ Hi) as Hlt.
  assert (length (words (take i ws)) = (2 * i)%nat) as Hl by (rewrite length_words, length_take; lia).
  rewrite (words_split _ _ _ Hi), <-!app_assoc, (app_assoc pre). set (l := pre ++ words (take i ws)).
  assert (length l = (length pre + 2 * i)%nat) as Hll by (unfold l; rewrite length_app; lia).
  replace (w / 256) with (w / 256 mod 256) by (unfold is_u16 in Hw; dmlia).
  split; apply aget_Some; (split; [lia|]); rewrite lookup_app_r by lia.
  - replace (_ - _)%nat with 0%nat by lia. done.
  - replace (_ - _)%nat with 1%nat by lia. done.
Qed.

Lemma rd16_words pre ws post i w p :
  ws !! i = Some w -> is_u16 w -> Z.of_nat (length pre) + 2 * Z.of_nat i = p ->
  rd16 (pre ++ words ws ++ post) p = Some w.
Proof.
  intros Hi Hw <-. destruct (aget_app_words pre ws post i w Hi Hw) as [H0 H1].
  unfold rd16. rewrite H0. simpl. rewrite H1. simpl. f_equal. unfold is_u16 in Hw.
  rewrite lor_bytes by (lia || dmlia). dmlia.
Qed.

Lemma rd32_rd16 m p hi lo :
  bytes_ok m -> rd16 m p = Some hi -> rd16 m (p + 2) = Some lo -> rd32 m p = Some (hi * 65536 + lo).
Proof.
  unfold rd16, rd32. intros Hm Hhi Hlo. replace (p + 2 + 1) with (p + 3) in Hlo by lia.
  destruct (aget m p) as [b0|] eqn:H0; [|done]. destruct (aget m (p + 1)) as [b1|] eqn:H1; [|done].
  destruct (aget m (p + 2)) as [b2|] eqn:H2; [|done]. destruct (aget m (p + 3)) as [b3|] eqn:H3; [|done].
  apply aget_byte in H0, H1, H2, H3; [|done..]. unfold is_u8 in *. simpl in *. simplify_eq. f_equal.
  rewrite <-!Z.lor_assoc, (lor_bytes b2 b3), (lor_bytes b0 b1), (lor_bytes b1), (lor_bytes b0) by lia. lia.
Qed.

Lemma rd32_split m p x :
  bytes_ok m -> is_u32 x -> rd16 m p = Some (x / 65536) -> rd16 m (p + 2) = Some (x mod 65536) ->
  rd32 m p = Some x.
Proof. intros Hm Hx H1 H2. rewrite (rd32_rd16 m p _ _ Hm H1 H2). f_equal. dmlia. Qed.

(** The number the bytes of some words are is their sum, modulo 65535. *)
Lemma be_num_words ws :
  Forall is_u16 ws ->
  be_num (words ws) mod 65535 = foldr Z.add 0 ws mod 65535 /\ 0 <= foldr Z.add 0 ws /\
  (be_num (words ws) = 0 <-> foldr Z.add 0 ws = 0).
Proof.
  induction 1 as [|w ws Hw _ (IHm & IHp & IHz)]; [done|].
  change (words (w :: ws)) with (w / 256 mod 256 :: w mod 256 :: words ws).
  rewrite be_num_pair, length_words. cbn [foldr].
  replace (w / 256 mod 256 * 256 + w mod 256) with w by (unfold is_u16 in Hw; dmlia).
  destruct (pow256_even (Z.of_nat (length ws))) as [Hpow|]; [|lia].
  replace (2 * Z.of_nat (length ws)) with (Z.of_nat (2 * length ws)) in Hpow by lia.
  pose proof (be_num_nonneg _ (words_ok ws)). set (B := be_num (words ws)) in *. clearbody B.
  set (P := 256 ^ Z.of_nat (2 * length ws)) in *. assert (0 < P) by (unfold P; lia). clearbody P.
  set (F := foldr Z.add 0 ws) in *. clearbody F. unfold is_u16 in Hw. split; [|nia].
  rewrite Z.add_mod, (Z.mul_mod w), Hpow, Z.mul_1_r, Z.mod_mod, IHm, <-Z.add_mod by lia. done.
Qed.

Lemma ip_words_ok f c : frame_ok f -> is_u16 c -> Forall is_u16 (ip_words f c).
Proof.
  unfold frame_ok, is_u8, is_u16, is_u32, f_header_len. intros Hf Hc. destruct_and! Hf.
  unfold ip_words, f_header_len. apply Forall_app. split; [|done].
  repeat (constructor; [unfold f_udp_len in *; dmlia|]). constructor.
Qed.

Lemma length_ip_words f c : Z.of_nat (length (ip_words f c)) = f_header_len f / 2.
Proof. unfold ip_words, f_header_len. rewrite length_app. simpl. dmlia. Qed.

(** A frame of [f] with the words [ws] in place of the IP header, at the start
    of the memory: what the parser reads there. *)
Section frame_reads.
Context (f : Frame) (ws rest : list Z).
Context (Hf : frame_ok f) (Hws : Forall is_u16 ws) (Hrest : bytes_ok rest).
Context (Hlen : Z.of_nat (length ws) = f_header_len f / 2).

Let m := frame_bytes f ws ++ rest.
Let all := (0x0800 :: ws) ++ [f_src_port f; f_dst_port f; f_udp_len f; f_udp_sum f].

Lemma frame_mem : m = (f_dst f ++ f_src f) ++ words all ++ (f_data f ++ rest).
Proof. unfold m, frame_bytes, all. by rewrite <-!app_assoc. Qed.

Lemma frame_mem_ok : bytes_ok m.
Proof.
  clear Hlen Hws. unfold frame_ok in Hf. destruct_and! Hf. rewrite frame_mem. unfold bytes_ok in *.
  rewrite !Forall_app. repeat split; try done. apply words_ok.
Qed.

Lemma frame_pre : Z.of_nat (length (f_dst f ++ f_src f)) = 12.
Proof. clear Hlen Hws Hrest. unfold frame_ok in Hf. destruct_and! Hf. rewrite length_app. lia. Qed.

Lemma frame_header_len : 20 <= f_header_len f <= 60 /\ f_header_len f mod 4 = 0.
Proof. clear Hlen Hws Hrest. unfold frame_ok in Hf. destruct_and! Hf. unfold f_header_len. dmlia. Qed.

Lemma frame_len : Z.of_nat (length m) = 14 + f_header_len f + f_udp_len f + Z.of_nat (length rest).
Proof.
  pose proof frame_pre as Hp. pose proof frame_header_len as Hh. rewrite frame_mem, !length_app, length_words in *.
  unfold all. rewrite !length_app. simpl. unfold f_udp_len. clear Hf Hws Hrest. dmlia.
Qed.

Lemma frame_word i w : all !! i = Some w -> is_u16 w -> rd16 m (12 + 2 * Z.of_nat i) = Some w.
Proof. intros Hi Hw. rewrite frame_mem. apply (rd16_words _ _ _ i); [done..|]. by rewrite frame_pre. Qed.

Lemma frame_byte i w :
  all !! i = Some w -> is_u16 w ->
  aget m (12 + 2 * Z.of_nat i) = Some (w / 256) /\ aget m (12 + 2 * Z.of_nat i + 1) = Some (w mod 256).
Proof.
  intros Hi Hw. rewrite frame_mem, <-frame_pre. by apply aget_app_words.
Qed.

Lemma frame_ip_word i w p : ws !! i = Some w -> 14 + 2 * Z.of_nat i = p -> rd16 m p = Some w.
Proof.
  intros Hi <-. replace (14 + 2 * Z.of_nat i) with (12 + 2 * Z.of_nat (S i)) by lia.
  apply frame_word; [|by eapply Forall_lookup_1 in Hi]. unfold all. by apply (lookup_app_l_Some (_ :: ws) _ (S i)).
Qed.

Lemma frame_ip_byte i w p :
  ws !! i = Some w -> 14 + 2 * Z.of_nat i = p -> aget m p = Some (w / 256) /\ aget m (p + 1) = Some (w mod 256).
Proof.
  intros Hi <-. replace (14 + 2 * Z.of_nat i) with (12 + 2 * Z.of_nat (S i)) by lia.
  apply frame_byte; [|by eapply Forall_lookup_1 in Hi]. unfold all. by apply (lookup_app_l_Some (_ :: ws) _ (S i)).
Qed.

Lemma frame_udp_word i w :
  [f_src_port f; f_dst_port f; f_udp_len f; f_udp_sum f] !! i = Some w -> is_u16 w ->
  rd16 m (14 + f_header_len f + 2 * Z.of_nat i) = Some w.
Proof.
  intros Hi Hw. pose proof frame_header_len.
  replace (14 + f_header_len f + 2 * Z.of_nat i) with (12 + 2 * Z.of_nat (length (0x0800 :: ws) + i)).
  2:{ simpl length. clear Hf Hws Hrest. dmlia. }
  apply frame_word; [|done]. unfold all. rewrite lookup_app_r by lia. rewrite <-Hi. f_equal. lia.
Qed.

Lemma frame_header_bytes : take (Z.to_nat (f_header_len f)) (drop 14 m) = words ws.
Proof.
  pose proof frame_header_len as Hh. rewrite frame_mem. unfold all. rewrite words_app.
  change (words (0x0800 :: ws)) with ([8; 0] ++ words ws). rewrite <-!app_assoc, (app_assoc (f_src f)), (app_assoc (f_dst f)).
  rewrite drop_app_length'. 2:{ pose proof frame_pre as Hp. rewrite length_app in Hp. rewrite !length_app. simpl. lia. }
  apply take_app_length'. rewrite length_words. clear Hf Hws Hrest. dmlia.
Qed.

Lemma frame_macs : rd_bytes m 0 6 = Some (f_dst f) /\ rd_bytes m 6 6 = Some (f_src f).
Proof.
  clear Hlen Hws Hrest. assert (length (f_dst f) = 6%nat /\ length (f_src f) = 6%nat) as [H1 H2].
  { split; apply Hf. }
  rewrite frame_mem, <-!app_assoc. split; [by apply (rd_bytes_app []); rewrite ?H1|].
  apply rd_bytes_app; by rewrite ?H1, ?H2.
Qed.

Lemma frame_data :
  rd_bytes m (14 + f_header_len f + 8) (Z.of_nat (length (f_data f))) = Some (f_data f).
Proof.
  rewrite frame_mem, app_assoc. apply rd_bytes_app; [|done].
  rewrite length_app, Nat2Z.inj_add, frame_pre, length_words. unfold all. rewrite length_app. simpl.
  pose proof frame_header_len. clear Hf Hws Hrest. dmlia.
Qed.
End frame_reads.

(** [parse] on such a memory: the frame is IPv4, its checksum is the sum of the
    header words, and the UDP view is where the header ends. *)
Lemma parse_words f ws rest len tl pr :
  frame_ok f -> Forall is_u16 ws -> bytes_ok rest -> Z.of_nat (length ws) = f_header_len f / 2 ->
  ws !! 0%nat = ip_words f 0 !! 0%nat -> ws !! 1%nat = Some tl -> ws !! 4%nat = Some pr ->
  14 + f_header_len f <= len < 2 ^ 64 ->
  parse (frame_bytes f ws ++ rest) len =
  Some (mkParsed (bool_decide (foldr Z.add 0 ws mod 65535 = 0)) (mkView 0 len) (mkView 14 (len - 14))
    (mkView (14 + f_header_len f) (u64 (tl - f_header_len f))) true
    ((pr mod 256 =? 17) && (8 <=? u64 (tl - f_header_len f))) len).
Proof.
  intros Hf Hws Hrest Hlen H0 H1 H4 Hl. pose proof (frame_header_len f Hf) as Hh.
  simpl in H0. set (w0 := (64 + f_header_len f / 4) * 256 + f_tos f) in *.
  assert (is_u8 (f_tos f)) as Htos by apply Hf. unfold is_u8 in Htos.
  assert (is_u16 w0) as Hw0 by (by eapply Forall_lookup_1 in H0).
  assert (w0 / 256 = 64 + f_header_len f / 4) as Hb by (unfold w0; clear - Htos; dmlia).
  assert (w0 / 256 mod 16 * 4 = f_header_len f) as Hhl by (rewrite Hb; clear - Hh; dmlia).
  assert (0 < w0) as Hpos by (unfold w0; clear - Htos Hh; dmlia).
  destruct (frame_ip_byte f ws rest Hf Hws 0 w0 14 H0 eq_refl) as [Hb0 _].
  destruct (frame_ip_byte f ws rest Hf Hws 4 pr 22 H4 eq_refl) as [_ Hpr].
  pose proof (frame_len f ws rest Hf Hlen) as Hm.
  assert (0 <= f_udp_len f) by (unfold f_udp_len; lia).
  rewrite (parse_spec _ len (w0 / 256) 0x0800 tl (pr mod 256)).
  - unfold parsed. rewrite Hhl, (frame_header_bytes f ws rest Hf Hlen), Hb.
    replace ((64 + f_header_len f / 4) / 16) with 4 by (clear - Hh; dmlia).
    rewrite u64_id by (unfold is_u64; lia).
    rewrite !(proj2 (Z.leb_le _ _)) by lia. simpl. f_equal. f_equal.
    apply bool_decide_ext. destruct (be_num_words ws Hws) as (-> & Hnn & ->). split; [by intros []|].
    intros ?. split; [|done]. enough (w0 <= foldr Z.add 0 ws) by lia.
    destruct ws as [|w ws']; [done|]. injection H0 as ->. apply Forall_cons in Hws as [_ Hws'].
    cbn [foldr]. destruct (be_num_words ws' Hws') as (_ & ? & _). lia.
  - by apply frame_mem_ok.
  - done.
  - by apply (frame_word f ws rest Hf 0).
  - by apply (frame_ip_word f ws rest Hf Hws 1).
  - done.
  - rewrite Hhl, Hm. lia.
Qed.

Lemma ip_words_sum f c : foldr Z.add 0 (ip_words f c) = c + foldr Z.add 0 (ip_words f 0).
Proof. unfold ip_words. simpl. lia. Qed.

Lemma ip_checksum_ok f : is_u16 (ip_checksum f) /\ foldr Z.add 0 (ip_words f (ip_checksum f)) mod 65535 = 0.
Proof.
  rewrite ip_words_sum. unfold ip_checksum. generalize (foldr Z.add 0 (ip_words f 0)). intros s.
  split; [unfold is_u16; dmlia|]. by rewrite Z.add_mod_idemp_l, Z.add_opp_diag_l.
Qed.

Lemma foldr_add_insert (l : list Z) i x y :
  l !! i = Some x -> foldr Z.add 0 (<[i := y]> l) = foldr Z.add 0 l + (y - x).
Proof.
  revert i. induction l as [|a l IH]; intros [|i] Hi; [done..| |].
  - injection Hi as ->. simpl. lia.
  - simpl in *. rewrite (IH i) by done. lia.
Qed.

(** ** Properties *)

(** C19: [parse] is defined exactly when the memory holds bytes 12 to 23 of the
    frame and the whole IP header its length nibble announces, whatever length
    it is told: 74 accessible bytes always suffice, and a frame that ends its
    memory before byte 24, although it is a complete Ethernet frame, is read out
    of bounds. *)
Theorem parse_bounds (m : list Z) (len : Z) :
  bytes_ok m ->
  (is_Some (parse m len) <-> parse_reads m <= Z.of_nat (length m)) /\
  (74 <= Z.of_nat (length m) -> is_Some (parse m len)) /\
  ((length m < 24)%nat -> parse m len = None).
Proof.
  intros Hm. assert (is_Some (parse m len) <-> parse_reads m <= Z.of_nat (length m)) as Hiff.
  { split; [apply parse_footprint|by apply parse_total]. }
  split; [done|]. rewrite Hiff. unfold parse_reads in *. split; [intros; dmlia|].
  intros Hs. apply eq_None_not_Some. rewrite Hiff. lia.
Qed.

(** C18: parsing what a well-formed frame is encoded as gives the frame back:
    valid, IPv4 and UDP, with the addresses, ports, protocol and payload that
    were encoded, whatever follows the frame in memory and for every length the
    IP options and the payload can have. *)
Theorem parse_frame (f : Frame) (rest : list Z) (len : Z) :
  let m := frame_bytes f (ip_words f (ip_checksum f)) ++ rest in
  frame_ok f -> bytes_ok rest -> 14 + f_header_len f <= len < 2 ^ 64 ->
  exists p, parse m len = Some p /\
    valid p = true /\ has_ip p = true /\ has_udp p = true /\ raw_len p = len /\
    dst_mac m (eth p) = Some (f_dst f) /\ src_mac m (eth p) = Some (f_src f) /\
    src_ip m (ip p) = Some (f_src_ip f) /\ dst_ip m (ip p) = Some (f_dst_ip f) /\
    src_port m (udp p) = Some (f_src_port f) /\ dst_port m (udp p) = Some (f_dst_port f) /\
    v_len (udp p) = f_udp_len f /\
    udp_payload_len m (udp p) = Some (Z.of_nat (length (f_data f))) /\
    rd_bytes m (udp_payload (udp p)) (Z.of_nat (length (f_data f))) = Some (f_data f).
Proof.
  intros m Hf Hrest Hlen. destruct (ip_checksum_ok f) as [Hc Hsum].
  pose proof (ip_words_ok f _ Hf Hc) as Hws. pose proof (length_ip_words f (ip_checksum f)) as Hl.
  pose proof (frame_mem_ok f _ rest Hf Hrest : bytes_ok m) as Hm.
  assert (f_header_len f + f_udp_len f < 2 ^ 16) as Hfit by apply Hf.
  pose proof (frame_header_len f Hf) as Hh. assert (8 <= f_udp_len f) as Hu by (unfold f_udp_len; lia).
  destruct (frame_macs f (ip_words f (ip_checksum f)) rest Hf) as [Hd Hs].
  pose proof (frame_ip_word f _ rest Hf Hws) as Hip. fold m in Hip, Hd, Hs.
  pose proof (frame_udp_word f _ rest Hf Hl) as Hudp. fold m in Hudp.
  eexists. split; [by apply (parse_words f _ rest len)|]. simpl.
  rewrite bool_decide_eq_true_2 by done.
  replace (f_header_len f + f_udp_len f - f_header_len f) with (f_udp_len f) by lia.
  rewrite u64_id by (unfold is_u64; lia). rewrite (proj2 (Z.leb_le _ _)) by done.
  rewrite (Z.add_comm _ 17), Z.mod_add by done. do 4 (split; [done|]). split; [done|]. split; [done|].
  split; [apply rd32_split; [done|apply Hf|by apply (Hip 6%nat)|by apply (Hip 7%nat)]|].
  split; [apply rd32_split; [done|apply Hf|by apply (Hip 8%nat)|by apply (Hip 9%nat)]|].
  split; [rewrite <-(Z.add_0_r (14 + _)); apply (Hudp 0%nat); [done|apply Hf]|].
  split; [apply (Hudp 1%nat); [done|apply Hf]|]. split; [done|].
  split; [|by apply frame_data].
  unfold udp_payload_len, udp_length.
  rewrite (bind_red _ _ (f_udp_len f)) by (apply (Hudp 2%nat); [done|unfold is_u16; lia]). f_equal. rewrite u64_id by (unfold is_u64; lia). unfold f_udp_len. lia.
Qed.

(** C20: a frame whose IP header was damaged in one 16-bit word, other than the
    first one, is reported as IPv4 but not valid, unless the change is one the
    one's complement sum cannot see (all zeros for all ones). *)
Theorem parse_rejects_damage (f : Frame) (rest : list Z) (len : Z) (i : nat) (w w' : Z) :
  let ws := ip_words f (ip_checksum f) in
  frame_ok f -> bytes_ok rest -> 14 + f_header_len f <= len < 2 ^ 64 ->
  ws !! i = Some w -> i <> O -> is_u16 w' -> w' mod 65535 <> w mod 65535 ->
  exists p, parse (frame_bytes f (<[i := w']> ws) ++ rest) len = Some p /\
    has_ip p = true /\ valid p = false.
Proof.
  intros ws Hf Hrest Hlen Hi Hi0 Hw' Hne. destruct (ip_checksum_ok f) as [Hc Hsum].
  pose proof (ip_words_ok f _ Hf Hc) as Hws. pose proof (length_ip_words f (ip_checksum f)) as Hl.
  fold ws in Hsum, Hws, Hl. pose proof (frame_header_len f Hf) as Hh.
  assert (forall j, (j < 10)%nat -> exists x, <[i := w']> ws !! j = Some x) as Hj.
  { intros j Hj. apply lookup_lt_is_Some_2. rewrite length_insert. dmlia. }
  destruct (Hj 1%nat) as [tl Htl]; [lia|]. destruct (Hj 4%nat) as [pr Hpr]; [lia|].
  eexists. split.
  { apply (parse_words f (<[i := w']> ws) rest len tl pr); try done.
    - by apply Forall_insert.
    - by rewrite length_insert.
    - by rewrite list_lookup_insert_ne. }
  simpl. split; [done|]. apply bool_decide_eq_false_2. rewrite (foldr_add_insert _ _ _ _ Hi).
  intros H0. apply Hne. clear - H0 Hsum. revert H0 Hsum. generalize (foldr Z.add 0 ws). intros; dmlia.
Qed.

(** ** Witnesses *)

Definition demo_frame : Frame :=
  mkFrame [1; 2; 3; 4; 5; 6] [7; 8; 9; 10; 11; 12] 0 7 0x4000 64 0x0A000001 0x0A000002 [0x0101; 0x0100]
    5353 9000 0 [104; 105].

Lemma demo_frame_ok : frame_ok demo_frame.
Proof. apply (bool_decide_unpack _). vm_compute. exact I. Qed.

Lemma parse_bounds_witness : parse (replicate 20 0) 20 = None /\ is_Some (parse (replicate 80 0) 20).
Proof.
  split.
  - apply (parse_bounds (replicate 20 0) 20); [by repeat constructor|simpl; lia].
  - apply (parse_bounds (replicate 80 0) 20); [by repeat constructor|simpl; lia].
Defined.

Lemma parse_frame_witness :
  exists p, parse (frame_bytes demo_frame (ip_words demo_frame (ip_checksum demo_frame)) ++ [0; 0]) 48 = Some p /\
    valid p = true /\ has_udp p = true.
Proof.
  destruct (parse_frame demo_frame [0; 0] 48) as (p & Hp & Hv & _ & Hu & _).
  - exact demo_frame_ok.
  - repeat constructor; discriminate.
  - vm_compute. split; [discriminate|reflexivity].
  - exists p. auto.
Defined.

Lemma parse_rejects_damage_witness :
  exists p, parse (frame_bytes demo_frame (<[4%nat := 0]> (ip_words demo_frame (ip_checksum demo_frame))) ++ []) 48
    = Some p /\ has_ip p = true /\ valid p = false.
Proof.
  apply (parse_rejects_damage demo_frame [] 48 4 (64 * 256 + 17) 0).
  - exact demo_frame_ok.
  - constructor.
  - vm_compute. split; [discriminate|reflexivity].
  - reflexivity.
  - discriminate.
  - vm_compute. split; [discriminate|reflexivity].
  - vm_compute. discriminate.
Defined.

(** The total length field of the header is trusted: in a memory that is exactly
    the 34 bytes of a frame with a valid header, the packet is reported valid and
    UDP while its ports lie outside of the memory; the same holds for a total
    length below the header length, which wraps around. *)
Definition short_frame (total : Z) : list Z :=
  let ws := [0x4500; total; 0; 0; 64 * 256 + 17] in
  replicate 12 0 ++ words (0x0800 :: ws ++ [(- foldr Z.add 0 ws) mod 65535; 0; 0; 0; 0]).

Theorem parse_trusts_total_length (total : Z) :
  total ∈ [28; 1500; 0; 19] ->
  exists p, parse (short_frame total) 34 = Some p /\ length (short_frame total) = 34%nat /\
    valid p = true /\ has_udp p = true /\ dst_port (short_frame total) (udp p) = None.
Proof.
  intros Ht. repeat (apply elem_of_cons in Ht as [->|Ht]; [eexists; split; [vm_compute; reflexivity|done]|]).
  by apply elem_of_nil in Ht.
Qed.
