(* ===== verification/Rss.v ===== *)
(** * Receive-side scaling (include/rss_distributor.h, src/rss_distributor.cpp)

    The Toeplitz hash of the flow of a packet selects one of the SPSC queues.
    Items of the queues are buffers of an arbitrary type; [m] is the memory that
    starts at the data of the buffer, which the views of the packet look at. *)

From S2P Require Import Prelude SpscRing PacketParser.
From Stdlib Require Import Btauto.
From stdpp Require Import base list_numbers option list.
#[local] Open Scope Z_scope.

Definition kRssKey : list Z :=
  [0x6d; 0x5a; 0x56; 0xda; 0x25; 0x5b; 0x0e; 0xc2; 0x41; 0x67;
   0x25; 0x3d; 0x43; 0xa3; 0x8f; 0xb0; 0xd0; 0xca; 0x2b; 0xcb;
   0xae; 0x7b; 0x30; 0xb4; 0x77; 0xcb; 0x2d; 0xa3; 0x80; 0x30;
   0xf2; 0x0c; 0x6a; 0x42; 0xb7; 0x3b; 0xbe; 0xac; 0x01; 0xfa].

Definition toeplitz_input (src_ip dst_ip src_port dst_port : Z) : list Z :=
  [u8 (Z.shiftr src_ip 24); u8 (Z.shiftr src_ip 16); u8 (Z.shiftr src_ip 8); u8 src_ip;
   u8 (Z.shiftr dst_ip 24); u8 (Z.shiftr dst_ip 16); u8 (Z.shiftr dst_ip 8); u8 dst_ip;
   u8 (Z.shiftr src_port 8); u8 src_port;
   u8 (Z.shiftr dst_port 8); u8 dst_port].

(** The variables of the loop. *)
Record toeplitz_state := mkToeplitz { result : Z; window : Z; next_bit : Z }.

(** The body of the inner loop. *)
Definition toeplitz_bit (byte bit : Z) (s : toeplitz_state) : option toeplitz_state :=
  let res := if Z.land (Z.shiftr byte bit) 1 =? 0 then result s else Z.lxor (result s) (window s) in
  key_byte ← aget kRssKey (Z.shiftr (next_bit s) 3);
  let key_bit := Z.land (Z.shiftr key_byte (7 - Z.land (next_bit s) 7)) 1 in
  Some (mkToeplitz res (Z.lor (u32 (Z.shiftl (window s) 1)) key_bit) (u32 (next_bit s + 1))).

(** [for (int bit = 7; bit >= 0; --bit)], over the bits [bits]. *)
Fixpoint toeplitz_byte (byte : Z) (bits : list Z) (s : toeplitz_state) : option toeplitz_state :=
  match bits with
  | [] => Some s
  | bit :: bits => s ← toeplitz_bit byte bit s; toeplitz_byte byte bits s
  end.

Fixpoint toeplitz_loop (input : list Z) (s : toeplitz_state) : option toeplitz_state :=
  match input with
  | [] => Some s
  | byte :: input => s ← toeplitz_byte byte [7; 6; 5; 4; 3; 2; 1; 0] s; toeplitz_loop input s
  end.

Definition toeplitz (src_ip dst_ip src_port dst_port : Z) : option Z :=
  w ← rd32 kRssKey 0;
  s ← toeplitz_loop (toeplitz_input src_ip dst_ip src_port dst_port) (mkToeplitz 0 w 32);
  Some (result s).

Record RSSDistributor (B : Type) := mkRss { queue_count_ : Z; mask_ : Z; queues_ : list (@ring B) }.
Arguments mkRss {B}.
Arguments queue_count_ {B}.
Arguments mask_ {B}.
Arguments queues_ {B}.

Definition QUEUE_SIZE : Z := 8192.

Section distributor.
Context {B : Type}.

(** The constructor; [garbage] is what the new queues' memory holds. *)
Definition new_RSSDistributor (queue_count : Z) (garbage : list (list B)) : option (RSSDistributor B) :=
  if negb (queue_count =? 0) && (Z.land queue_count (queue_count - 1) =? 0)
  then Some (mkRss queue_count (u32 (queue_count - 1)) (ring_init <$> garbage))
  else None.

Definition hash (rss : RSSDistributor B) (src_ip dst_ip src_port dst_port : Z) : option Z :=
  h ← toeplitz src_ip dst_ip src_port dst_port;
  Some (Z.land h (mask_ rss)).

Definition get_queue (rss : RSSDistributor B) (index : Z) : option (@ring B) := aget (queues_ rss) index.

Definition set_queue (rss : RSSDistributor B) (index : Z) (q : @ring B) : option (RSSDistributor B) :=
  qs ← aset (queues_ rss) index q;
  Some (mkRss (queue_count_ rss) (mask_ rss) qs).

(** The [index] of [submit]. *)
Definition submit_index (rss : RSSDistributor B) (m : list Z) (pkt : ParsedPacket) : option Z :=
  if has_udp pkt then
    s ← src_ip m (ip pkt); d ← dst_ip m (ip pkt);
    sp ← src_port m (udp pkt); dp ← dst_port m (udp pkt);
    hash rss s d sp dp
  else if has_ip pkt then
    s ← src_ip m (ip pkt); d ← dst_ip m (ip pkt);
    hash rss s d 0 0
  else Some 0.

(** [queues_[index].push(buf)] and [queues_[index].pop(buf)]. *)
Definition push_to (rss : RSSDistributor B) (index : Z) (buf : B) : option (bool * RSSDistributor B) :=
  q ← get_queue rss index;
  '(ok, q) ← push QUEUE_SIZE q buf;
  rss ← set_queue rss index q;
  Some (ok, rss).

Definition pop_from (rss : RSSDistributor B) (index : Z) : option (option B * RSSDistributor B) :=
  q ← get_queue rss index;
  '(item, q) ← pop QUEUE_SIZE q;
  rss ← set_queue rss index q;
  Some (item, rss).

Definition submit (rss : RSSDistributor B) (buf : B) (m : list Z) (pkt : ParsedPacket) :
    option (bool * RSSDistributor B) :=
  index ← submit_index rss m pkt;
  push_to rss index buf.
End distributor.

(** ** The hash as NICs define it

    The key is a string of 320 bits, the input one of 96 bits; for every bit of
    the input that is set, the 32 key bits that start at its position are added
    (exclusive or). *)

Definition key_num : Z := Eval vm_compute in be_num kRssKey.
Definition key_window (j : Z) : Z := Z.shiftr key_num (288 - j) mod 2 ^ 32.

Definition flow_num (src_ip dst_ip src_port dst_port : Z) : Z :=
  ((src_ip * 2 ^ 32 + dst_ip) * 2 ^ 16 + src_port) * 2 ^ 16 + dst_port.

Definition key_term (x j : Z) : Z := if Z.testbit x (95 - j) then key_window j else 0.

Definition toeplitz_ref (x : Z) : Z := foldr (fun j => Z.lxor (key_term x j)) 0 (seqZ 0 96).

(** ** The loop computes it *)

Lemma window_step k s :
  1 <= s -> Z.lor (u32 (Z.shiftl (Z.shiftr k s mod 2 ^ 32) 1)) (Z.b2z (Z.testbit k (s - 1))) =
    Z.shiftr k (s - 1) mod 2 ^ 32.
Proof.
  intros Hs. apply Z.bits_inj'. intros n Hn. rewrite Z.lor_spec. unfold u32.
  destruct (decide (n < 32)).
  2:{ rewrite !Z.mod_pow2_bits_high by lia. destruct (Z.testbit k (s - 1)); [|by rewrite Z.bits_0].
      simpl. apply Z.bits_above_log2; simpl; lia. }
  rewrite !Z.mod_pow2_bits_low by lia. rewrite Z.shiftr_spec by lia.
  destruct (decide (n = 0)) as [->|].
  - rewrite Z.shiftl_spec_low, Z.add_0_l by lia. by destruct (Z.testbit k (s - 1)).
  - rewrite Z.shiftl_spec by lia. rewrite Z.mod_pow2_bits_low, Z.shiftr_spec by lia.
    replace (n - 1 + s) with (n + (s - 1)) by lia.
    destruct (Z.testbit k (s - 1)); simpl; rewrite ?Z.bits_0, ?orb_false_r; [|done].
    rewrite (Z.bits_above_log2 1 n) by (simpl; lia). by rewrite orb_false_r.
Qed.

(** Bit [n] of the key, as the code extracts it. *)
Definition key_bit_of (n : Z) : option Z :=
  b ← aget kRssKey (Z.shiftr n 3); Some (Z.land (Z.shiftr b (7 - Z.land n 7)) 1).

Lemma key_bit_spec n : 32 <= n < 128 -> key_bit_of n = Some (Z.b2z (Z.testbit key_num (319 - n))).
Proof.
  intros Hn. assert (forallb (fun n => bool_decide (key_bit_of n = Some (Z.b2z (Z.testbit key_num (319 - n)))))
    (seqZ 32 96) = true) as Hall by (vm_compute; reflexivity).
  rewrite forallb_forall in Hall. apply (bool_decide_unpack _).
  apply Is_true_true, Hall, list_elem_of_In, elem_of_seqZ. lia.
Qed.

(** The state after the first [j] bits of [x]. *)
Definition state_at (x j : Z) : toeplitz_state :=
  mkToeplitz (foldr (fun j => Z.lxor (key_term x j)) 0 (seqZ 0 j)) (key_window j) (32 + j).

Lemma foldr_lxor_snoc (g : Z -> Z) l j :
  foldr (fun j => Z.lxor (g j)) 0 (l ++ [j]) = Z.lxor (foldr (fun j => Z.lxor (g j)) 0 l) (g j).
Proof.
  rewrite foldr_app. simpl. rewrite Z.lxor_0_r.
  induction l as [|a l IH]; simpl; [by rewrite Z.lxor_0_l|]. by rewrite IH, Z.lxor_assoc.
Qed.

Lemma state_at_S x j :
  0 <= j ->
  state_at x (j + 1) = mkToeplitz (Z.lxor (result (state_at x j)) (key_term x j)) (key_window (j + 1)) (33 + j).
Proof.
  intros Hj. unfold state_at. simpl. rewrite (seqZ_app 0 j 1) by lia. simpl seqZ.
  rewrite <-foldr_lxor_snoc, Z.add_0_l. f_equal. lia.
Qed.

Lemma toeplitz_bit_spec x j byte bit :
  0 <= j < 96 -> 0 <= bit -> Z.testbit byte bit = Z.testbit x (95 - j) ->
  toeplitz_bit byte bit (state_at x j) = Some (state_at x (j + 1)).
Proof.
  intros Hj Hbit Hx. pose proof (key_bit_spec (32 + j) ltac:(lia)) as Hk. unfold key_bit_of in Hk.
  unfold toeplitz_bit. change (next_bit (state_at x j)) with (32 + j).
  destruct (aget kRssKey (Z.shiftr (32 + j) 3)) as [kb|]; [|done]. cbn [mbind option_bind] in *.
  injection Hk as ->. rewrite (state_at_S x j) by lia.
  assert (Z.land (Z.shiftr byte bit) 1 = Z.b2z (Z.testbit x (95 - j))) as ->.
  { rewrite (land_mask 1) by lia. by rewrite <-Hx, Z.testbit_spec', Z.shiftr_div_pow2 by done. }
  f_equal. f_equal.
  - unfold key_term. simpl. by destruct (Z.testbit x (95 - j)); rewrite ?Z.lxor_0_r.
  - change (window (state_at x j)) with (Z.shiftr key_num (288 - j) mod 2 ^ 32).
    replace (319 - (32 + j)) with (288 - j - 1) by lia. rewrite window_step by lia.
    unfold key_window. do 2 f_equal. lia.
  - rewrite u32_id; [lia|unfold is_u32; lia].
Qed.

Lemma toeplitz_byte_spec x j byte :
  0 <= j -> j + 8 <= 96 -> byte = Z.shiftr x (88 - j) mod 2 ^ 8 ->
  toeplitz_byte byte [7; 6; 5; 4; 3; 2; 1; 0] (state_at x j) = Some (state_at x (j + 8)).
Proof.
  intros Hj0 Hj Hb. assert (forall b, 0 <= b < 8 ->
    toeplitz_bit byte (7 - b) (state_at x (j + b)) = Some (state_at x (j + b + 1))) as Hbit.
  { intros b Hbr. apply toeplitz_bit_spec; [lia..|]. subst byte.
    rewrite Z.mod_pow2_bits_low, Z.shiftr_spec by lia. f_equal. lia. }
  cbn [toeplitz_byte]. replace (state_at x j) with (state_at x (j + 0)) by (f_equal; lia).
  do 8 (match goal with |- toeplitz_bit _ ?c (state_at _ (j + ?b)) ≫= _ = _ =>
    rewrite (bind_red _ _ _ (Hbit b ltac:(lia))); cbv beta; rewrite <-(Z.add_assoc j); simpl Z.add end).
  done.
Qed.

Definition input_of (x : Z) (i : Z) : list Z := (fun k => Z.shiftr x (88 - 8 * k) mod 2 ^ 8) <$> seqZ i (12 - i).

Lemma toeplitz_loop_spec x (n : nat) i :
  0 <= i -> i + Z.of_nat n = 12 -> toeplitz_loop (input_of x i) (state_at x (8 * i)) = Some (state_at x 96).
Proof.
  revert i. induction n as [|n IH]; intros i Hi Hn; unfold input_of.
  { rewrite seqZ_nil by lia. simpl. do 2 f_equal. lia. }
  rewrite seqZ_cons by lia. rewrite fmap_cons. cbn [toeplitz_loop].
  rewrite (bind_red _ _ _ (toeplitz_byte_spec x (8 * i) _ ltac:(lia) ltac:(lia) eq_refl)). cbv beta.
  replace (8 * i + 8) with (8 * Z.succ i) by lia. replace (Z.pred (12 - i)) with (12 - Z.succ i) by lia.
  apply IH; lia.
Qed.

Lemma concat_hi a b k j : 0 <= k -> 0 <= j -> 0 <= b < 2 ^ k -> Z.shiftr (a * 2 ^ k + b) (k + j) = Z.shiftr a j.
Proof.
  intros Hk Hj Hb. rewrite <-Z.shiftr_shiftr by lia. f_equal.
  rewrite Z.shiftr_div_pow2, Z.div_add_l, Z.div_small by lia. lia.
Qed.

Lemma concat_lo a b k j :
  0 <= j -> j + 8 <= k -> u8 (Z.shiftr (a * 2 ^ k + b) j) = u8 (Z.shiftr b j).
Proof.
  intros Hj Hk. rewrite !Z.shiftr_div_pow2 by lia. unfold u8.
  replace k with (j + (8 + (k - j - 8))) by lia. rewrite !Z.pow_add_r by lia.
  replace (a * (2 ^ j * (2 ^ 8 * 2 ^ (k - j - 8))) + b) with (a * 2 ^ (k - j - 8) * 2 ^ 8 * 2 ^ j + b) by ring.
  rewrite Z.div_add_l by lia. rewrite Z.add_comm. apply Z_mod_plus_full.
Qed.

Lemma toeplitz_input_spec s d sp dp :
  is_u32 s -> is_u32 d -> is_u16 sp -> is_u16 dp -> toeplitz_input s d sp dp = input_of (flow_num s d sp dp) 0.
Proof.
  unfold is_u32, is_u16. intros Hs Hd Hsp Hdp. unfold input_of.
  change (seqZ 0 (12 - 0)) with [0; 1; 2; 3; 4; 5; 6; 7; 8; 9; 10; 11]. set (x := flow_num s d sp dp).
  assert (forall j, 0 <= j -> Z.shiftr x (64 + j) = Z.shiftr s j) as Fs.
  { intros j Hj. unfold x, flow_num. replace (64 + j) with (16 + (16 + (32 + j))) by lia. by rewrite !concat_hi by lia. }
  assert (forall j, 0 <= j <= 24 -> u8 (Z.shiftr x (32 + j)) = u8 (Z.shiftr d j)) as Fd.
  { intros j Hj. unfold x, flow_num. replace (32 + j) with (16 + (16 + j)) by lia.
    by rewrite !concat_hi, concat_lo by lia. }
  assert (forall j, 0 <= j <= 8 -> u8 (Z.shiftr x (16 + j)) = u8 (Z.shiftr sp j)) as Fsp.
  { intros j Hj. unfold x, flow_num. by rewrite concat_hi, concat_lo by lia. }
  assert (forall j, 0 <= j <= 8 -> u8 (Z.shiftr x j) = u8 (Z.shiftr dp j)) as Fdp.
  { intros j Hj. unfold x, flow_num. by rewrite concat_lo by lia. }
  unfold toeplitz_input.
  rewrite <-(Fs 24), <-(Fs 16), <-(Fs 8), <-(Fd 24), <-(Fd 16), <-(Fd 8), <-(Fsp 8), <-(Fdp 8) by lia.
  rewrite <-(Z.shiftr_0_r s), <-(Z.shiftr_0_r d), <-(Z.shiftr_0_r sp), <-(Z.shiftr_0_r dp).
  by rewrite <-(Fs 0), <-(Fd 0), <-(Fsp 0), <-(Fdp 0) by lia.
Qed.

Lemma state_at_0 x : state_at x 0 = mkToeplitz 0 (key_window 0) 32.
Proof. reflexivity. Qed.

Lemma result_at_96 x : result (state_at x 96) = toeplitz_ref x.
Proof. reflexivity. Qed.

Lemma toeplitz_first_window : rd32 kRssKey 0 = Some (key_window 0).
Proof. vm_compute. reflexivity. Qed.

Lemma toeplitz_spec s d sp dp :
  is_u32 s -> is_u32 d -> is_u16 sp -> is_u16 dp ->
  toeplitz s d sp dp = Some (toeplitz_ref (flow_num s d sp dp)).
Proof.
  intros. unfold toeplitz. rewrite (bind_red _ _ _ toeplitz_first_window), toeplitz_input_spec, <-state_at_0
    with (x := flow_num s d sp dp) by done.
  rewrite (bind_red _ _ _ (toeplitz_loop_spec _ 12 0 ltac:(lia) ltac:(lia))), result_at_96. reflexivity.
Qed.

(** ** The hash is linear, and a 32-bit word *)

Lemma key_term_lxor x y j : 0 <= j <= 95 -> key_term (Z.lxor x y) j = Z.lxor (key_term x j) (key_term y j).
Proof.
  intros Hj. unfold key_term. rewrite Z.lxor_spec.
  destruct (Z.testbit x _), (Z.testbit y _); simpl; by rewrite ?Z.lxor_0_r, ?Z.lxor_nilpotent.
Qed.

Lemma toeplitz_ref_lxor x y : toeplitz_ref (Z.lxor x y) = Z.lxor (toeplitz_ref x) (toeplitz_ref y).
Proof.
  unfold toeplitz_ref. assert (Forall (fun j => 0 <= j <= 95) (seqZ 0 96)) as Hall.
  { apply Forall_seqZ. lia. }
  induction Hall as [|j l Hj _ IH]; [done|]. cbn [foldr]. rewrite IH, key_term_lxor by done.
  apply Z.bits_inj. intros n. rewrite !Z.lxor_spec. btauto.
Qed.

Lemma toeplitz_ref_u32 x : is_u32 (toeplitz_ref x).
Proof.
  unfold toeplitz_ref. induction (seqZ 0 96) as [|j l IH]; [done|]. cbn [foldr]. apply lxor_u32; [|done].
  unfold key_term. destruct (Z.testbit x _); [|done]. apply u32_range.
Qed.

(** ** Queues *)

Lemma rd32_u32 m p w : bytes_ok m -> rd32 m p = Some w -> is_u32 w.
Proof.
  intros Hm Hw. assert (exists hi lo, rd16 m p = Some hi /\ rd16 m (p + 2) = Some lo) as (hi & lo & Hhi & Hlo).
  { unfold rd32, rd16 in *. replace (p + 2 + 1) with (p + 3) by lia.
    destruct (aget m p), (aget m (p + 1)), (aget m (p + 2)), (aget m (p + 3)); simpl in *; eauto; done. }
  rewrite (rd32_rd16 m p hi lo) in Hw by done. apply rd16_u16 in Hhi, Hlo; [|done..].
  unfold is_u16, is_u32 in *. injection Hw as <-. lia.
Qed.

(** The flow of a packet: the addresses and ports [submit] hashes. *)
Definition flow_of (m : list Z) (pkt : ParsedPacket) : option (option (Z * Z * Z * Z)) :=
  if has_udp pkt then
    s ← src_ip m (ip pkt); d ← dst_ip m (ip pkt);
    sp ← src_port m (udp pkt); dp ← dst_port m (udp pkt); Some (Some (s, d, sp, dp))
  else if has_ip pkt then
    s ← src_ip m (ip pkt); d ← dst_ip m (ip pkt); Some (Some (s, d, 0, 0))
  else Some None.

Lemma flow_of_mono m r pkt fl : flow_of m pkt = Some fl -> flow_of (m ++ r) pkt = Some fl.
Proof.
  unfold flow_of, src_ip, dst_ip, src_port, dst_port. destruct (has_udp pkt), (has_ip pkt); [..|done].
  all: intros Hx; apply bind_Some in Hx as (s & Hs & Hx); bind_with (rd32_mono _ r _ _ Hs).
  all: apply bind_Some in Hx as (d & Hd & Hx); bind_with (rd32_mono _ r _ _ Hd); try done.
  all: apply bind_Some in Hx as (sp & Hsp & Hx); bind_with (rd16_mono _ r _ _ Hsp).
  all: apply bind_Some in Hx as (dp & Hdp & Hx); by bind_with (rd16_mono _ r _ _ Hdp).
Qed.

Lemma flow_of_readable c len pkt :
  readable c -> parse c len = Some pkt ->
  exists fl, flow_of c pkt = Some fl /\ forall r, flow_of (c ++ r) pkt = Some fl.
Proof.
  intros Hc Hp. destruct (parse_readable c len Hc) as (pkt' & Hp' & Hip & Hudp).
  assert (pkt' = pkt) as -> by congruence. destruct Hc as [_ Hl]. unfold MAX_HEADERS in Hl.
  unfold flow_of, src_ip, dst_ip, src_port, dst_port.
  destruct (rd32_is_Some c (v_buf (ip pkt) + 12)) as [s Hs]; [lia..|].
  destruct (rd32_is_Some c (v_buf (ip pkt) + 16)) as [d Hd]; [lia..|].
  destruct (rd16_is_Some c (v_buf (udp pkt))) as [sp Hsp]; [lia..|].
  destruct (rd16_is_Some c (v_buf (udp pkt) + 2)) as [dp Hdp]; [lia..|].
  exists (if has_udp pkt then Some (s, d, sp, dp) else if has_ip pkt then Some (s, d, 0, 0) else None).
  rewrite Hs, Hd, Hsp, Hdp. split; [by destruct (has_udp pkt), (has_ip pkt)|]. intros r.
  rewrite (rd32_mono _ r _ _ Hs), (rd32_mono _ r _ _ Hd), (rd16_mono _ r _ _ Hsp), (rd16_mono _ r _ _ Hdp).
  by destruct (has_udp pkt), (has_ip pkt).
Qed.

(** The queue a flow is assigned to, out of [n]. *)
Definition flow_queue (n : Z) (fl : option (Z * Z * Z * Z)) : Z :=
  match fl with
  | Some (s, d, sp, dp) => toeplitz_ref (flow_num s d sp dp) mod n
  | None => 0
  end.

(** A distributor over [n] queues that hold [qs]. *)
Record rss_ok {B} (n : Z) (rss : RSSDistributor B) (qs : list (list B)) : Prop := {
  rss_pow2 : exists k, 0 <= k /\ n = 2 ^ k;
  rss_count : queue_count_ rss = n;
  rss_mask : mask_ rss = u32 (n - 1);
  rss_len : Z.of_nat (length qs) = n;
  rss_queues : Forall2 (holds QUEUE_SIZE) (queues_ rss) qs
}.

Lemma queue_size_ok : ring_size_ok QUEUE_SIZE = true.
Proof. reflexivity. Qed.

Lemma new_rss_ok {B} n (garbage : list (list B)) :
  0 < n < 2 ^ 64 -> Z.land n (n - 1) = 0 -> Z.of_nat (length garbage) = n ->
  Forall (fun g => Z.of_nat (length g) = QUEUE_SIZE) garbage ->
  exists rss, new_RSSDistributor n garbage = Some rss /\ rss_ok n rss (replicate (Z.to_nat n) []).
Proof.
  intros Hn Hp Hl Hg. unfold new_RSSDistributor. rewrite Hp, (proj2 (Z.eqb_neq n 0)) by lia. simpl.
  eexists. split; [done|]. split; simpl; [|done..| |].
  - exists (Z.log2 n). split; [apply Z.log2_nonneg|]. apply pow2_test; lia.
  - rewrite length_replicate. lia.
  - apply Forall2_fmap_l, Forall2_replicate_r; [lia|].
    eapply Forall_impl; [exact Hg|]. intros g Hgl. by apply (ring_init_holds _ queue_size_ok).
Qed.

Section queues.
Context {B : Type} (n : Z) (rss : RSSDistributor B) (qs : list (list B)).
Context (Hok : rss_ok n rss qs).

Lemma rss_at i :
  0 <= i < n -> exists r q, get_queue rss i = Some r /\ qs !! Z.to_nat i = Some q /\ holds QUEUE_SIZE r q.
Proof.
  intros Hi. pose proof (rss_len _ _ _ Hok) as Hl.
  destruct (lookup_lt_is_Some_2 qs (Z.to_nat i)) as [q Hq]; [lia|].
  destruct (Forall2_lookup_r _ _ _ _ _ (rss_queues _ _ _ Hok) Hq) as (r & Hr & Hh).
  exists r, q. split; [by apply aget_Some; split; [lia|]|done].
Qed.

Lemma rss_set i r q :
  0 <= i < n -> holds QUEUE_SIZE r q ->
  exists rss', set_queue rss i r = Some rss' /\ rss_ok n rss' (<[Z.to_nat i := q]> qs).
Proof.
  intros Hi Hh. pose proof (rss_len _ _ _ Hok) as Hl. pose proof (rss_queues _ _ _ Hok) as Hqs.
  pose proof (Forall2_length _ _ _ Hqs). unfold set_queue. rewrite aset_Some by lia. simpl.
  eexists. split; [done|]. split; simpl; [apply Hok..|by rewrite length_insert|by apply Forall2_insert].
Qed.

Lemma push_to_spec i buf :
  0 <= i < n ->
  exists q rss', qs !! Z.to_nat i = Some q /\
    push_to rss i buf = Some (Z.of_nat (length q) <? QUEUE_SIZE, rss') /\
    rss_ok n rss' (if Z.of_nat (length q) <? QUEUE_SIZE then <[Z.to_nat i := q ++ [buf]]> qs else qs).
Proof.
  intros Hi. destruct (rss_at i Hi) as (r & q & Hr & Hq & Hh).
  destruct (push_spec_lemma _ queue_size_ok r q buf Hh) as (r' & Hp & Hh').
  destruct (rss_set i r' _ Hi Hh') as (rss' & Hs & Hok').
  exists q, rss'. split; [done|]. unfold push_to. rewrite Hr. simpl. rewrite Hp. simpl. rewrite Hs. simpl.
  split; [done|]. destruct (_ <? _); [done|]. by rewrite list_insert_id in Hok'.
Qed.

Lemma pop_from_spec i :
  0 <= i < n ->
  exists q rss', qs !! Z.to_nat i = Some q /\
    pop_from rss i = Some (head q, rss') /\ rss_ok n rss' (<[Z.to_nat i := tail q]> qs).
Proof.
  intros Hi. destruct (rss_at i Hi) as (r & q & Hr & Hq & Hh).
  destruct (pop_spec_lemma _ queue_size_ok r q Hh) as (r' & Hp & Hh').
  destruct (rss_set i r' _ Hi Hh') as (rss' & Hs & Hok').
  exists q, rss'. split; [done|]. unfold pop_from. rewrite Hr. simpl. rewrite Hp. simpl. by rewrite Hs.
Qed.

Lemma flow_queue_range fl : 0 <= flow_queue n fl < n.
Proof.
  destruct (rss_pow2 _ _ _ Hok) as (k & Hk & ->). pose proof (Z.pow_pos_nonneg 2 k).
  destruct fl as [[[[s d] sp] dp]|]; simpl; [apply Z.mod_pos_bound|]; lia.
Qed.

Lemma hash_spec s d sp dp :
  is_u32 s -> is_u32 d -> is_u16 sp -> is_u16 dp ->
  hash rss s d sp dp = Some (flow_queue n (Some (s, d, sp, dp))).
Proof.
  intros. unfold hash. rewrite toeplitz_spec by done. simpl. f_equal. rewrite (rss_mask _ _ _ Hok).
  pose proof (toeplitz_ref_u32 (flow_num s d sp dp)) as Ht. set (h := toeplitz_ref _) in *. clearbody h.
  destruct (rss_pow2 _ _ _ Hok) as (k & Hk & ->). unfold is_u32, u32 in *.
  destruct (decide (k <= 32)).
  - pose proof (Z.pow_le_mono_r 2 k 32 ltac:(lia) ltac:(lia)). pose proof (Z.pow_pos_nonneg 2 k).
    rewrite (Z.mod_small (2 ^ k - 1)) by lia. by apply land_mask.
  - replace ((2 ^ k - 1) mod 2 ^ 32) with (2 ^ 32 - 1).
    + rewrite land_mask by lia. rewrite Z.mod_small by lia.
      pose proof (Z.pow_le_mono_r 2 32 k ltac:(lia) ltac:(lia)). by rewrite Z.mod_small by lia.
    + replace k with (32 + (k - 32)) by lia. rewrite Z.pow_add_r by lia.
      replace (2 ^ 32 * 2 ^ (k - 32) - 1) with (2 ^ 32 - 1 + (2 ^ (k - 32) - 1) * 2 ^ 32) by ring.
      by rewrite Z_mod_plus_full.
Qed.

Lemma submit_index_spec m pkt fl :
  bytes_ok m -> flow_of m pkt = Some fl -> submit_index rss m pkt = Some (flow_queue n fl).
Proof.
  intros Hm. unfold flow_of, submit_index, src_ip, dst_ip, src_port, dst_port.
  destruct (has_udp pkt), (has_ip pkt); [..|by intros [= <-]].
  all: repeat match goal with |- context [rd32 ?a ?p] => destruct (rd32 a p) eqn:?; [|done] end.
  all: repeat match goal with |- context [rd16 ?a ?p] => destruct (rd16 a p) eqn:?; [|done] end.
  all: simpl; intros [= <-]; apply hash_spec; eauto using rd32_u32, rd16_u16; done.
Qed.
End queues.

(** ** Properties *)

(** C24: the hash computed by sliding a 32-bit window over the key, bit by bit, is
    the Toeplitz hash of the 96-bit flow as receive-side scaling defines it (the
    exclusive or of the key windows at the set bits); no key byte outside of the
    key is read, the result is a 32-bit word, and hashing is linear. *)
Theorem toeplitz_reference (s d sp dp : Z) :
  is_u32 s -> is_u32 d -> is_u16 sp -> is_u16 dp ->
  toeplitz s d sp dp = Some (toeplitz_ref (flow_num s d sp dp)) /\
  is_u32 (toeplitz_ref (flow_num s d sp dp)) /\
  forall x, toeplitz_ref (Z.lxor (flow_num s d sp dp) x) =
    Z.lxor (toeplitz_ref (flow_num s d sp dp)) (toeplitz_ref x).
Proof.
  intros. split; [by apply toeplitz_spec|]. split; [apply toeplitz_ref_u32|].
  intros x. apply toeplitz_ref_lxor.
Qed.

(** C25: [submit] appends the buffer to the queue its flow is assigned to and
    leaves every other queue as it is; the queue is a valid one and depends on
    nothing but the flow, so packets of one flow stay in order; when the queue
    is full nothing changes and false is returned. *)
Theorem submit_correct {B} (n : Z) (rss : RSSDistributor B) (qs : list (list B)) (buf : B)
    (m : list Z) (pkt : ParsedPacket) (fl : option (Z * Z * Z * Z)) :
  rss_ok n rss qs -> bytes_ok m -> flow_of m pkt = Some fl ->
  0 <= flow_queue n fl < n /\
  exists q rss', qs !! Z.to_nat (flow_queue n fl) = Some q /\
    submit rss buf m pkt = Some (Z.of_nat (length q) <? QUEUE_SIZE, rss') /\
    rss_ok n rss' (if Z.of_nat (length q) <? QUEUE_SIZE
                   then <[Z.to_nat (flow_queue n fl) := q ++ [buf]]> qs else qs).
Proof.
  intros Hok Hm Hfl. pose proof (flow_queue_range n rss qs Hok fl) as Hi. split; [done|].
  unfold submit. rewrite (submit_index_spec n rss qs Hok m pkt fl) by done. by apply push_to_spec.
Qed.

(** ** Witnesses *)

(** The vectors of the Intel 82599 datasheet. *)
Lemma toeplitz_reference_witness :
  toeplitz 0x420995BB 0xA18E6450 2794 1766 = Some 0x51ccc178 /\
  toeplitz 0xC75C6F02 0x41458C53 14230 4739 = Some 0xc626b0ea /\
  toeplitz 0x1813C65F 0x0C16CFB8 12898 38024 = Some 0x5c2b394a /\
  toeplitz 0x261BCD1E 0xD18EA306 48228 2217 = Some 0xafc7327f.
Proof.
  split; [|split; [|split]].
  - etransitivity; [apply (toeplitz_reference 0x420995BB 0xA18E6450 2794 1766); unfold is_u32, is_u16; lia|].
    vm_compute. reflexivity.
  - vm_compute. reflexivity.
  - vm_compute. reflexivity.
  - vm_compute. reflexivity.
Defined.

Definition demo_rss : RSSDistributor nat := mkRss 2 1 [ring_init (replicate (Z.to_nat QUEUE_SIZE) 0%nat); ring_init (replicate (Z.to_nat QUEUE_SIZE) 0%nat)].

Lemma demo_rss_ok : rss_ok 2 demo_rss [[]; []].
Proof.
  split; [by exists 1|done..|]. repeat constructor; by apply (ring_init_holds _ queue_size_ok).
Qed.

Definition demo_mem : list Z := frame_bytes demo_frame (ip_words demo_frame (ip_checksum demo_frame)).

Lemma submit_correct_witness :
  exists pkt rss', parse demo_mem 48 = Some pkt /\ submit demo_rss 7%nat demo_mem pkt = Some (true, rss').
Proof.
  destruct (parse demo_mem 48) as [pkt|] eqn:E; [|vm_compute in E; discriminate].
  destruct (submit_correct 2 demo_rss [[]; []] 7%nat demo_mem pkt (Some (0x0A000001, 0x0A000002, 5353, 9000)))
    as (Hr & q & rss' & Hq & Hs & _).
  - exact demo_rss_ok.
  - apply (bool_decide_unpack _). vm_compute. exact I.
  - vm_compute in E. injection E as <-. vm_compute. reflexivity.
  - exists pkt, rss'. split; [reflexivity|]. rewrite Hs.
    destruct (Z.to_nat (flow_queue 2 _)) as [|[|]]; simpl in Hq; try discriminate; injection Hq as <-; reflexivity.
Defined.
