(* ===== verification/BatchProcessor.v ===== *)
(** * The batch processor (include/batch_processor.h, src/batch_processor.cpp)

    One queue of the distributor is drained in batches of at most 32 buffers,
    which are parsed, given to the handler of their UDP destination port (or to
    the default handler) and released.  Handlers are the user's: a value of [H]
    is the pointer to one, and its virtual methods append what they are called
    with to [log]; they do not call back into the processor, the pool or the
    queue.  [ProcessingBatch] is represented by the entries below [count], the
    only ones that are read. *)

From S2P Require Import Prelude SpscRing OsMem HugeAlloc PoolIface BufferPool PacketParser Rss Rdtsc.
From stdpp Require Import base list_numbers gmap option list.
From Stdlib Require Import SpecFloat.
#[local] Open Scope Z_scope.

Definition BATCH_SIZE : Z := 32.

Record ProcessingBatch := mkBatch { bufs : list Z; packets : list ParsedPacket }.

Record BatchStats := mkBatchStats {
  batches_processed : Z;
  packets_processed : Z;
  packets_dispatched : Z
}.

Inductive handler_event (H : Type) :=
  | EHandle (h : H) (pkt : ParsedPacket) (buf : Z)
  | EFlush (h : H).
Arguments EHandle {H}.
Arguments EFlush {H}.

Record BatchProcessor (H P : Type) := mkProcessor {
  bp_pool : P;
  bp_rss : RSSDistributor Z;
  queue_index_ : Z;
  batch_ : ProcessingBatch;
  stats_ : BatchStats;
  default_handler_ : option H;
  udp_handlers_ : list (option H);
  log : list (handler_event H)
}.
Arguments mkProcessor {H P}.
Arguments bp_pool {H P}.
Arguments bp_rss {H P}.
Arguments queue_index_ {H P}.
Arguments batch_ {H P}.
Arguments stats_ {H P}.
Arguments default_handler_ {H P}.
Arguments udp_handlers_ {H P}.
Arguments log {H P}.

Section processor.
Context {H P : Type} `{EqDecision H} `{PoolOps P}.
Implicit Types (bp : BatchProcessor H P) (b : Z).

Definition new_BatchProcessor (pool : P) (rss : RSSDistributor Z) (queue_index : Z) : BatchProcessor H P :=
  mkProcessor pool rss queue_index (mkBatch [] []) (mkBatchStats 0 0 0) None (replicate (Z.to_nat 65536) None) [].

Definition register_udp_handler bp (port : Z) (handler : option H) : option (BatchProcessor H P) :=
  hs ← aset (udp_handlers_ bp) port handler;
  Some (mkProcessor (bp_pool bp) (bp_rss bp) (queue_index_ bp) (batch_ bp) (stats_ bp) (default_handler_ bp) hs (log bp)).

Definition set_default_handler bp (handler : option H) : BatchProcessor H P :=
  mkProcessor (bp_pool bp) (bp_rss bp) (queue_index_ bp) (batch_ bp) (stats_ bp) handler (udp_handlers_ bp) (log bp).

(** [while (n < BATCH_SIZE && queue.pop(batch_.bufs[n])) ++n]: [k] is
    [BATCH_SIZE - n]. *)
Fixpoint drain (k : nat) (index : Z) (rss : RSSDistributor Z) (bs : list Z) : option (list Z * RSSDistributor Z) :=
  match k with
  | O => Some (bs, rss)
  | S k =>
      '(item, rss) ← pop_from rss index;
      match item with
      | None => Some (bs, rss)
      | Some b => drain k index rss (bs ++ [b])
      end
  end.

Definition parse_buf (p : P) b : option ParsedPacket :=
  m ← buf_mem b p; len ← buf_len b p; parse m len.

Fixpoint parse_bufs (p : P) (bs : list Z) : option (list ParsedPacket) :=
  match bs with
  | [] => Some []
  | b :: bs => pkt ← parse_buf p b; pkts ← parse_bufs p bs; Some (pkt :: pkts)
  end.

(** [mark]: [touched] has [BATCH_SIZE + 1] entries. *)
Definition mark (h : H) (touched : list H) : option (list H) :=
  if decide (h ∈ touched) then Some touched
  else if Z.of_nat (length touched) <? BATCH_SIZE + 1 then Some (touched ++ [h]) else None.

(** The handler of a packet that lies in buffer [b]. *)
Definition handler_for bp (pkt : ParsedPacket) b : option (option H) :=
  h ← (if has_udp pkt then
         m ← buf_mem b (bp_pool bp); port ← dst_port m (udp pkt); aget (udp_handlers_ bp) port
       else Some None);
  Some (match h with Some h => Some h | None => default_handler_ bp end).

(** The loop of [dispatch_batch]: the calls made, the number of packets
    dispatched and the handlers touched so far are [lg], [n] and [touched]. *)
Fixpoint dispatch_loop bp (bs : list Z) (pkts : list ParsedPacket) (lg : list (handler_event H)) (n : Z)
    (touched : list H) : option (list (handler_event H) * Z * list H) :=
  match bs, pkts with
  | b :: bs, pkt :: pkts =>
      h ← handler_for bp pkt b;
      match h with
      | Some h =>
          touched ← mark h touched;
          dispatch_loop bp bs pkts (lg ++ [EHandle h pkt b]) (u64 (n + 1)) touched
      | None => dispatch_loop bp bs pkts lg n touched
      end
  | _, _ => Some (lg, n, touched)
  end.

Definition dispatch_batch bp (batch : ProcessingBatch) : option (BatchProcessor H P) :=
  let st := stats_ bp in
  '(lg, n, touched) ← dispatch_loop bp (bufs batch) (packets batch) (log bp) (packets_dispatched st) [];
  Some (mkProcessor (bp_pool bp) (bp_rss bp) (queue_index_ bp) (batch_ bp)
          (mkBatchStats (batches_processed st) (packets_processed st) n)
          (default_handler_ bp) (udp_handlers_ bp) (lg ++ (EFlush <$> touched))).

Fixpoint release_bufs (bs : list Z) (p : P) : option P :=
  match bs with
  | [] => Some p
  | b :: bs => p ← release b p; release_bufs bs p
  end.

Definition run_once bp : option (BatchProcessor H P) :=
  '(bs, rss) ← drain (Z.to_nat BATCH_SIZE) (queue_index_ bp) (bp_rss bp) [];
  let with_batch batch :=
    mkProcessor (bp_pool bp) rss (queue_index_ bp) batch (stats_ bp) (default_handler_ bp) (udp_handlers_ bp) (log bp) in
  if bool_decide (bs = []) then Some (with_batch (mkBatch [] []))
  else
    pkts ← parse_bufs (bp_pool bp) bs;
    bp ← dispatch_batch (with_batch (mkBatch bs pkts)) (mkBatch bs pkts);
    p ← release_bufs bs (bp_pool bp);
    let st := stats_ bp in
    Some (mkProcessor p (bp_rss bp) (queue_index_ bp) (batch_ bp)
            (mkBatchStats (u64 (batches_processed st + 1)) (u64 (packets_processed st + Z.of_nat (length bs)))
               (packets_dispatched st))
            (default_handler_ bp) (udp_handlers_ bp) (log bp)).

Definition avg_batch_size bp : double :=
  let st := stats_ bp in
  if batches_processed st =? 0 then S754_zero false
  else ddiv (u64_to_double (packets_processed st)) (u64_to_double (batches_processed st)).
End processor.

(** ** What a batch does *)

Section specification.
Context {H P : Type} `{EqDecision H} `{PoolSpec P}.
Implicit Types (bp : BatchProcessor H P) (p : P) (b : Z).

(** The packet in a buffer, read off the bytes of the buffer alone. *)
Definition packet_at p b : option ParsedPacket := len ← buf_len b p; parse (content p b) len.

(** The handler it goes to: the one of its UDP destination port, else the
    default one. *)
Definition route bp p b : option H :=
  pkt ← packet_at p b;
  match (if has_udp pkt then dst_port (content p b) (udp pkt) ≫= (fun port => mjoin (aget (udp_handlers_ bp) port))
         else None) with
  | Some h => Some h
  | None => default_handler_ bp
  end.

Definition calls bp p b : list (handler_event H) :=
  match route bp p b, packet_at p b with
  | Some h, Some pkt => [EHandle h pkt b]
  | _, _ => []
  end.

(** A buffer that is held and has room for the headers. *)
Definition buf_ok p (held : gset Z) b : Prop := b ∈ held /\ readable (content p b).

Lemma mem_split p held b : pool_ok p held -> b ∈ held -> exists r, buf_mem b p = Some (content p b ++ r).
Proof.
  intros Hok Hb. destruct (buf_mem_ok p held b Hok Hb) as (m & Hm & Ht & _).
  exists (drop (Z.to_nat (buf_size p)) m). by rewrite <-Ht, take_drop.
Qed.

Lemma parse_buf_ok p held b :
  pool_ok p held -> buf_ok p held b -> exists pkt, parse_buf p b = Some pkt /\ packet_at p b = Some pkt.
Proof.
  intros Hok [Hb Hr]. destruct (mem_split p held b Hok Hb) as [r Hm].
  destruct (buf_len_ok p held b Hok Hb) as [len Hlen]. destruct (parse_readable _ len Hr) as (pkt & Hp & _).
  exists pkt. unfold parse_buf, packet_at. rewrite Hm, Hlen. simpl. split; [by apply parse_mono|done].
Qed.

Lemma parse_bufs_ok p held bs :
  pool_ok p held -> Forall (buf_ok p held) bs ->
  exists pkts, parse_bufs p bs = Some pkts /\ Forall2 (fun b pkt => packet_at p b = Some pkt) bs pkts.
Proof.
  intros Hok. induction 1 as [|b bs Hb _ (pkts & IH & IHf)]; [by exists []|].
  destruct (parse_buf_ok p held b Hok Hb) as (pkt & Hp & Ha). exists (pkt :: pkts). simpl.
  rewrite Hp. simpl. rewrite IH. by split; [|constructor].
Qed.

Lemma handler_for_ok bp held b pkt :
  let p := bp_pool bp in
  pool_ok p held -> buf_ok p held b -> packet_at p b = Some pkt -> length (udp_handlers_ bp) = Z.to_nat 65536 ->
  handler_for bp pkt b = Some (route bp p b).
Proof.
  intros p Hok [Hb Hr] Hpkt Hlen. unfold handler_for, route. rewrite Hpkt. simpl.
  destruct (has_udp pkt); [|done]. fold p. destruct (mem_split p held b Hok Hb) as [r ->]. simpl.
  unfold packet_at in Hpkt. apply bind_Some in Hpkt as (len & _ & Hp).
  destruct (parse_readable _ len Hr) as (pkt' & Hp' & _ & Hu). assert (pkt' = pkt) as -> by congruence.
  destruct Hr as [Hbytes Hl]. unfold MAX_HEADERS in Hl. unfold dst_port.
  destruct (rd16_is_Some (content p b) (v_buf (udp pkt) + 2)) as [port Hport]; [lia..|].
  rewrite (rd16_mono _ r _ _ Hport), Hport. simpl. apply rd16_u16 in Hport; [|done]. unfold is_u16 in Hport.
  destruct (aget_is_Some (udp_handlers_ bp) port) as [h Hh]; [lia|]. rewrite Hh. by destruct h.
Qed.

Lemma mark_ok (h : H) touched :
  NoDup touched -> Z.of_nat (length touched) <= BATCH_SIZE ->
  exists t, mark h touched = Some t /\ NoDup t /\ (length t <= S (length touched))%nat /\
    forall h', h' ∈ t <-> h' = h \/ h' ∈ touched.
Proof.
  intros Hnd Hl. unfold mark. destruct (decide (h ∈ touched)) as [Hin|Hin].
  - exists touched. split_and!; [done|done|lia|]. set_solver.
  - rewrite (proj2 (Z.ltb_lt _ _)) by lia. exists (touched ++ [h]). split_and!; [done|..].
    + apply NoDup_app. split_and!; [done| |apply NoDup_singleton]. set_solver.
    + rewrite length_app. simpl. lia.
    + set_solver.
Qed.

(** Who has been called in [evs]. *)
Definition called (h : H) (evs : list (handler_event H)) : Prop := exists pkt b, EHandle h pkt b ∈ evs.

Lemma dispatch_loop_ok bp held bs pkts lg n touched :
  let p := bp_pool bp in
  pool_ok p held -> Forall (buf_ok p held) bs -> Forall2 (fun b pkt => packet_at p b = Some pkt) bs pkts ->
  length (udp_handlers_ bp) = Z.to_nat 65536 -> is_u64 n ->
  NoDup touched -> Z.of_nat (length touched + length bs) <= BATCH_SIZE ->
  exists t, dispatch_loop bp bs pkts lg n touched =
      Some (lg ++ (bs ≫= calls bp p), u64 (n + Z.of_nat (length (bs ≫= calls bp p))), t) /\
    NoDup t /\ forall h, h ∈ t <-> h ∈ touched \/ called h (bs ≫= calls bp p).
Proof.
  intros p Hok Hbs Hpk Hlen. revert lg n touched.
  induction Hpk as [|b pkt bs pkts Hpkt Hpk IH]; intros lg n touched Hn Hnd Hl.
  { exists touched. simpl. rewrite app_nil_r, Z.add_0_r, u64_id by done. split_and!; [done|done|].
    intros h. unfold called. set_solver. }
  apply Forall_cons in Hbs as [Hb Hbs]. simpl in Hl. cbn [dispatch_loop].
  rewrite (bind_red _ _ _ (handler_for_ok bp held b pkt Hok Hb Hpkt Hlen)). cbv beta. fold p.
  assert (calls bp p b = match route bp p b with Some h => [EHandle h pkt b] | None => [] end) as Hcalls.
  { unfold calls. rewrite Hpkt. by destruct (route bp p b). }
  cbn [mbind list_bind]. fold (mbind (calls bp p) bs). rewrite Hcalls. destruct (route bp p b) as [h|].
  - destruct (mark_ok h touched Hnd ltac:(lia)) as (t & Hm & Hndt & Hlt & Ht). bind_with Hm.
    destruct (IH Hbs (lg ++ [EHandle h pkt b]) (u64 (n + 1)) t) as (t' & Hd & Hnd' & Ht');
      [apply u64_range|done|lia|].
    exists t'. rewrite Hd, u64_add_l. split_and!; [|done|].
    + f_equal. f_equal. f_equal; [by rewrite <-app_assoc|]. f_equal. rewrite length_app. simpl. lia.
    + intros h'. rewrite Ht', Ht. unfold called. set_solver.
  - destruct (IH Hbs lg n touched Hn Hnd ltac:(lia)) as (t' & Hd & Hnd' & Ht'). exists t'. done.
Qed.

Lemma drain_ok k n i rss qs q bs :
  rss_ok n rss qs -> 0 <= i < n -> qs !! Z.to_nat i = Some q ->
  exists rss', drain k i rss bs = Some (bs ++ take k q, rss') /\ rss_ok n rss' (<[Z.to_nat i := drop k q]> qs).
Proof.
  intros Hok Hi. revert rss qs q bs Hok. induction k as [|k IH]; intros rss qs q bs Hok Hq.
  { exists rss. rewrite list_insert_id by done. simpl. by rewrite app_nil_r. }
  destruct (pop_from_spec n rss qs Hok i Hi) as (q' & rss' & Hq' & Hp & Hok').
  assert (q' = q) as -> by congruence. cbn [drain]. bind_with Hp. destruct q as [|b q]; cbn [head tail] in *.
  { exists rss'. by rewrite take_nil, drop_nil, app_nil_r. }
  destruct (IH rss' _ q (bs ++ [b]) Hok') as (rss'' & Hd & Hok'').
  { apply list_lookup_insert_eq. by eapply lookup_lt_Some. }
  exists rss''. rewrite Hd, <-app_assoc. by rewrite list_insert_insert_eq in Hok''.
Qed.

Lemma release_bufs_ok bs p held :
  pool_ok p held -> NoDup bs -> list_to_set bs ⊆ held ->
  exists p', release_bufs bs p = Some p' /\ pool_ok p' (held ∖ list_to_set bs) /\
    pool_frame p p' (held ∖ list_to_set bs).
Proof.
  revert p held. induction bs as [|b bs IH]; intros p held Hok Hnd Hsub.
  { exists p. rewrite list_to_set_nil, difference_empty_L.
    split_and!; [done..|apply pool_frame_refl]. }
  apply NoDup_cons in Hnd as [Hb Hnd]. destruct (release_frame p held b Hok) as (p1 & Hr & Hok1 & Hf1); [set_solver|].
  destruct (IH p1 (held ∖ {[b]}) Hok1 Hnd) as (p2 & Hr2 & Hok2 & Hf2); [set_solver|].
  exists p2. simpl. rewrite Hr. simpl. rewrite Hr2.
  replace (held ∖ ({[b]} ∪ list_to_set bs)) with (held ∖ {[b]} ∖ list_to_set bs) by set_solver.
  split_and!; [done|done|]. eapply pool_frame_trans; [|exact Hf2]. eapply pool_frame_mono; [exact Hf1|]. set_solver.
Qed.
End specification.

(** ** Properties *)

(** C17: one round of the processor takes the first 32 buffers of its queue (all
    of them when there are fewer), gives each packet, in order, to the handler
    registered for its UDP destination port or else to the default handler, and
    then flushes every handler it called, exactly once; it releases exactly the
    buffers it took, keeps every other held buffer and queue as it was, and its
    counters count what it did.  No table is read or written out of range, and
    the round always completes. *)
Theorem run_once_correct {H P : Type} `{EqDecision H} `{PoolSpec P} (bp : BatchProcessor H P)
    (n : Z) (qs : list (list Z)) (q : list Z) (held : gset Z) :
  rss_ok n (bp_rss bp) qs -> 0 <= queue_index_ bp < n -> qs !! Z.to_nat (queue_index_ bp) = Some q ->
  pool_ok (bp_pool bp) held -> Forall (buf_ok (bp_pool bp) held) q -> NoDup q ->
  length (udp_handlers_ bp) = Z.to_nat 65536 -> is_u64 (packets_dispatched (stats_ bp)) ->
  let batch := take 32 q in
  let evs := batch ≫= calls bp (bp_pool bp) in
  exists bp' flushed, run_once bp = Some bp' /\
    rss_ok n (bp_rss bp') (<[Z.to_nat (queue_index_ bp) := drop 32 q]> qs) /\
    pool_ok (bp_pool bp') (held ∖ list_to_set batch) /\
    pool_frame (bp_pool bp) (bp_pool bp') (held ∖ list_to_set batch) /\
    log bp' = log bp ++ evs ++ (EFlush <$> flushed) /\
    NoDup flushed /\ (forall h, h ∈ flushed <-> called h evs) /\
    (batch <> [] -> stats_ bp' =
       mkBatchStats (u64 (batches_processed (stats_ bp) + 1))
         (u64 (packets_processed (stats_ bp) + Z.of_nat (length batch)))
         (u64 (packets_dispatched (stats_ bp) + Z.of_nat (length evs)))) /\
    (batch = [] -> stats_ bp' = stats_ bp).
Proof.
  intros Hrss Hi Hq Hok Hbuf Hnd Hlen Hst batch evs.
  destruct (drain_ok 32 n _ _ qs q [] Hrss Hi Hq) as (rss' & Hd & Hrss').
  unfold run_once. change (Z.to_nat BATCH_SIZE) with 32%nat. bind_with Hd. change ([] ++ take 32 q) with batch.
  assert (Forall (buf_ok (bp_pool bp) held) batch) as Hbufb by (by apply Forall_take).
  destruct (bool_decide_reflect (batch = [])) as [Hnil|Hne].
  { eexists _, []. split; [done|]. unfold evs. rewrite Hnil. simpl.
    rewrite difference_empty_L, app_nil_r.
    split_and!; [done|done|apply pool_frame_refl|done|constructor| |done|done].
    intros h. unfold called. set_solver. }
  destruct (parse_bufs_ok _ held batch Hok Hbufb) as (pkts & Hpk & Hpkts). bind_with Hpk.
  set (bp1 := mkProcessor (bp_pool bp) rss' (queue_index_ bp) (mkBatch batch pkts) (stats_ bp) (default_handler_ bp)
    (udp_handlers_ bp) (log bp)).
  destruct (dispatch_loop_ok bp1 held batch pkts (log bp) (packets_dispatched (stats_ bp)) [] Hok Hbufb Hpkts Hlen Hst)
    as (t & Hdl & Hndt & Ht); [constructor|unfold batch; simpl; rewrite length_take; unfold BATCH_SIZE; lia|].
  unfold dispatch_batch at 1. cbn [bufs packets]. change (stats_ bp1) with (stats_ bp). change (log bp1) with (log bp).
  change (batch ≫= calls bp1 (bp_pool bp1)) with evs in *. rewrite Hdl. cbn [mbind option_bind].
  destruct (release_bufs_ok batch (bp_pool bp) held Hok) as (p' & Hr & Hok' & Hf').
  { eapply sublist_NoDup; [exact Hnd|apply sublist_take]. }
  { intros b. rewrite elem_of_list_to_set. intros Hb. eapply Forall_forall in Hbufb; [|exact Hb]. apply Hbufb. }
  change (bp_pool (mkProcessor (bp_pool bp1) _ _ _ _ _ _ _)) with (bp_pool bp). rewrite Hr. cbn [mbind option_bind].
  eexists _, t. split; [done|]. simpl. rewrite <-app_assoc.
  split_and!; try done. intros h. rewrite Ht. set_solver.
Qed.

(** ** Witnesses *)

(** A real pool with one buffer handed out, filled with the bytes [bs]. *)
Lemma filled_buffer (bs : list Z) (len : Z) :
  length bs = 128%nat ->
  exists (p : BufferPool) b, pool_ok p ({[b]} ∪ ∅) /\ content p b = bs /\ buf_len b p = Some len.
Proof.
  intros Hbs.
  destruct (new_BufferPool no_mbind 128 4 (-1) (mkHeap (toy_boot 4 0) ∅)) as [[[e|p] h]|] eqn:E;
    [vm_compute in E; discriminate E| |vm_compute in E; discriminate E].
  apply new_BufferPool_cases in E as (Hok & _ & Hs & Hc & _); [|lia|unfold kEmpty; lia|lia].
  change (pool_ok p ∅) in Hok.
  destruct (acquire_frame p ∅ Hok) as [(p1 & _ & _ & _ & Hcap)|(b & p1 & _ & _ & Hok1 & F1 & _)].
  { change (pool_cap p) with (buffer_count_ p) in Hcap. rewrite size_empty in Hcap. lia. }
  assert (buf_size p1 = 128) as Hs1 by (rewrite (pf_size _ _ _ F1); exact Hs).
  destruct (store_frame p1 ({[b]} ∪ ∅) b 0 bs Hok1) as (p2 & _ & Hok2 & F2 & Hc2 & _); [set_solver|lia|lia|].
  destruct (set_len_frame p2 ({[b]} ∪ ∅) b len Hok2) as (p3 & _ & Hok3 & _ & Hc3 & Hl3); [set_solver|].
  exists p3, b. split; [exact Hok3|]. split; [|exact Hl3]. rewrite Hc3, Hc2.
  destruct (buf_mem_ok p1 _ b Hok1 ltac:(set_solver)) as (_ & _ & _ & Hl1). rewrite Hs1 in Hl1.
  apply list_eq. intros i. destruct (decide (i < 128)%nat).
  - rewrite list_lookup_inserts by lia. by rewrite Nat.sub_0_r.
  - rewrite !lookup_ge_None_2; [done|lia|rewrite length_inserts; lia].
Qed.

Definition demo_bytes : list Z := demo_mem ++ replicate 80 0.

Lemma demo_bytes_readable : readable demo_bytes.
Proof. split; [apply (bool_decide_unpack _); vm_compute; exact I|vm_compute; discriminate]. Qed.

Definition demo_handlers : list (option nat) := <[Z.to_nat 9000 := Some 5%nat]> (replicate (Z.to_nat 65536) None).

Lemma demo_handlers_9000 : aget demo_handlers 9000 = Some (Some 5%nat).
Proof.
  apply aget_Some. split; [lia|]. unfold demo_handlers. apply list_lookup_insert_eq. rewrite length_replicate. lia.
Qed.

Lemma run_once_correct_witness :
  exists (bp bp' : BatchProcessor nat BufferPool) b pkt fl, run_once bp = Some bp' /\
    log bp' = [EHandle 5%nat pkt b] ++ (EFlush <$> fl) /\ 5%nat ∈ fl.
Proof.
  destruct (filled_buffer demo_bytes 48 eq_refl) as (p & b & Hok & Hc & Hl).
  destruct (new_rss_ok 1 [replicate (Z.to_nat QUEUE_SIZE) 0]) as (rss & _ & Hrss);
    [lia|done|done|repeat constructor|].
  destruct (push_to_spec 1 rss [[]] Hrss 0 b ltac:(lia)) as (q & rss' & Hq & _ & Hrss').
  injection Hq as <-. change (rss_ok 1 rss' [[b]]) in Hrss'.
  set (bp := mkProcessor p rss' 0 (mkBatch [] []) (mkBatchStats 0 0 0) None demo_handlers []).
  destruct (run_once_correct bp 1 [[b]] [b] ({[b]} ∪ ∅)) as (bp' & fl & Hrun & _ & _ & _ & Hlog & _ & Hfl & _).
  - exact Hrss'.
  - split; [apply Z.le_refl|apply Z.lt_0_1].
  - reflexivity.
  - exact Hok.
  - apply Forall_singleton. split; [set_solver|]. change (bp_pool bp) with p. rewrite Hc. exact demo_bytes_readable.
  - apply NoDup_singleton.
  - change (udp_handlers_ bp) with demo_handlers. unfold demo_handlers. by rewrite length_insert, length_replicate.
  - done.
  - destruct (parse demo_bytes 48) as [pkt|] eqn:E; [|vm_compute in E; discriminate E].
    assert (calls bp p b = [EHandle 5%nat pkt b]) as Hcalls.
    { assert (packet_at p b = Some pkt) as Hp by (unfold packet_at; rewrite Hl, Hc; exact E).
      assert (has_udp pkt = true /\ dst_port demo_bytes (udp pkt) = Some 9000) as [Hu Hd]
        by (vm_compute in E; injection E as <-; split; reflexivity).
      unfold calls, route. rewrite Hp. cbn [mbind option_bind]. rewrite Hu, Hc, Hd. cbn [mbind option_bind].
      change (udp_handlers_ bp) with demo_handlers. by rewrite demo_handlers_9000. }
    change (take 32 [b] ≫= calls bp (bp_pool bp)) with (calls bp p b ++ []) in *. rewrite Hcalls in *.
    exists bp, bp', b, pkt, fl. split; [exact Hrun|]. split; [exact Hlog|]. apply Hfl. exists pkt, b. set_solver.
Defined.
