(* ===== verification/LatencyHistogram.v ===== *)
(** * The latency histogram (src/perf_counters.cpp, LatencyHistogram)

    Samples are differences of time-stamp readings converted to nanoseconds;
    [ghz] is the calibrated frequency of the counter (Rdtsc.v).  [None] is
    undefined behaviour: a conversion that does not fit, an index out of
    range. *)

From S2P Require Import Prelude Rdtsc.
From stdpp Require Import base list_numbers option sets sorting list.
#[local] Open Scope Z_scope.

Definition kR0 : Z := 1000.
Definition kR1 : Z := 1900.
Definition kR2 : Z := 2800.
Definition kR3 : Z := 3700.
Definition kOverflow : Z := 3700.
Definition kNumBuckets : Z := 3701.

Definition ns_to_bucket (ns : Z) : Z :=
  if ns <? 1000 then ns
  else if ns <? 10000 then kR0 + (ns - 1000) / 10
  else if ns <? 100000 then kR1 + (ns - 10000) / 100
  else if ns <? 1000000 then kR2 + (ns - 100000) / 1000
  else kOverflow.

Definition bucket_lo_ns (i : Z) : Z :=
  if i <? kR0 then i
  else if i <? kR1 then 1000 + (i - kR0) * 10
  else if i <? kR2 then 10000 + (i - kR1) * 100
  else if i <? kR3 then 100000 + (i - kR2) * 1000
  else 1000000.

Definition bucket_step_ns (i : Z) : Z :=
  if i <? kR0 then 1
  else if i <? kR1 then 10
  else if i <? kR2 then 100
  else if i <? kR3 then 1000
  else 0.

Record LatencyHistogram := mkHist { buckets_ : list Z; count_ : Z; sum_ns_ : Z; max_ns_ : Z }.

Definition new_LatencyHistogram : LatencyHistogram := mkHist (replicate (Z.to_nat kNumBuckets) 0) 0 0 0.

Definition record (ghz : double) (start_tsc end_tsc : Z) (h : LatencyHistogram) : option LatencyHistogram :=
  if end_tsc <=? start_tsc then Some h
  else
    ns ← double_to_u64 (cycles_to_ns ghz (u64 (end_tsc - start_tsc)));
    b ← aget (buckets_ h) (ns_to_bucket ns);
    bs ← aset (buckets_ h) (ns_to_bucket ns) (u64 (b + 1));
    Some (mkHist bs (u64 (count_ h + 1)) (u64 (sum_ns_ h + ns)) (if max_ns_ h <? ns then ns else max_ns_ h)).

(** The loop of [percentile_ns] from bucket [i] on; [None] when it ends. *)
Fixpoint percentile_loop (bs : list Z) (i cum target : Z) : option Z :=
  match bs with
  | [] => None
  | b :: bs =>
      let cum := u64 (cum + b) in
      if u64 (target + 1) <=? cum then Some (u64 (bucket_lo_ns i + bucket_step_ns i / 2))
      else percentile_loop bs (i + 1) cum target
  end.

Definition percentile_ns (h : LatencyHistogram) (p : double) : option Z :=
  if count_ h =? 0 then Some 0
  else
    target ← double_to_u64 (dmul p (u64_to_double (count_ h)));
    Some (default (max_ns_ h) (percentile_loop (buckets_ h) 0 0 target)).

(** The rows [print] draws. *)
Definition edges : list Z :=
  [100; 250; 500; 1000; 2500; 5000; 10000; 25000; 50000; 100000; 250000; 500000; 1000000; 2 ^ 64 - 1].

Fixpoint add_row (lo b : Z) (es rows : list Z) : list Z :=
  match es, rows with
  | e :: es, r :: rows => if lo <? e then u64 (r + b) :: rows else r :: add_row lo b es rows
  | _, _ => rows
  end.

Fixpoint rows_loop (bs : list Z) (i : Z) (rows : list Z) : list Z :=
  match bs with
  | [] => rows
  | b :: bs => rows_loop bs (i + 1) (if b =? 0 then rows else add_row (bucket_lo_ns i) b edges rows)
  end.

Definition print_rows (h : LatencyHistogram) : list Z := rows_loop (buckets_ h) 0 (replicate (length edges) 0).

(** The decimal literal [a / b] as a double: the quotient, correctly rounded. *)
Definition literal (a b : Z) : double := ddiv (u64_to_double a) (u64_to_double b).

Record printed := mkPrinted {
  pr_count : Z;
  pr_percentiles : list Z;
  pr_max : Z;
  pr_mean : Z;
  pr_rows : list Z;
  pr_bars : list Z
}.

(** [print]: the figures, and the number of marks of each row; [inl] is the
    message that there are no samples. *)
Definition print (h : LatencyHistogram) : option (unit + printed) :=
  if count_ h =? 0 then Some (inl tt)
  else
    p50 ← percentile_ns h (literal 50 100);
    p90 ← percentile_ns h (literal 90 100);
    p99 ← percentile_ns h (literal 99 100);
    p999 ← percentile_ns h (literal 999 1000);
    p9999 ← percentile_ns h (literal 9999 10000);
    let rows := print_rows h in
    let rmax := foldl (fun m r => if m <? r then r else m) 1 rows in
    Some (inr (mkPrinted (count_ h) [p50; p90; p99; p999; p9999] (max_ns_ h) (sum_ns_ h / count_ h) rows
                 ((fun r => i32 (u64 (r * 40) / rmax)) <$> rows))).

(** ** Buckets *)

Ltac bucket :=
  unfold ns_to_bucket, bucket_lo_ns, bucket_step_ns, kR0, kR1, kR2, kR3, kOverflow, kNumBuckets in *;
  repeat (case_match; try lia); rewrite ?Z.ltb_lt, ?Z.ltb_ge in *; try dmlia.

Lemma bucket_range ns : 0 <= ns -> 0 <= ns_to_bucket ns < kNumBuckets.
Proof. intros. bucket. Qed.

Lemma bucket_mono ns ns' : 0 <= ns <= ns' -> ns_to_bucket ns <= ns_to_bucket ns'.
Proof. intros. bucket. Qed.

Lemma bucket_lo ns : 0 <= ns -> bucket_lo_ns (ns_to_bucket ns) <= ns.
Proof. intros. bucket. Qed.

Lemma bucket_hi ns :
  0 <= ns < 1000000 -> ns < bucket_lo_ns (ns_to_bucket ns) + bucket_step_ns (ns_to_bucket ns).
Proof. intros. bucket. Qed.

(** The middle of the bucket of [ns] is within half a per cent of it. *)
Lemma bucket_middle ns :
  0 <= ns < 1000000 ->
  200 * Z.abs (bucket_lo_ns (ns_to_bucket ns) + bucket_step_ns (ns_to_bucket ns) / 2 - ns) <= ns.
Proof. intros. bucket. Qed.

Lemma bucket_middle_u64 i :
  0 <= i < kNumBuckets -> u64 (bucket_lo_ns i + bucket_step_ns i / 2) = bucket_lo_ns i + bucket_step_ns i / 2.
Proof. intros. apply u64_id. unfold is_u64. bucket. Qed.

(** ** Rows *)

(** The row of a value: the first whose upper edge is above it, the last one
    taking everything from its lower edge on. *)
Definition row_of (x : Z) : nat := foldr (fun e r => if x <? e then O else S r) O (take 13 edges).

(** A bucket lies on one side of every edge of the printed rows. *)
Lemma bucket_edge ns e : 0 <= ns -> e ∈ take 13 edges -> (bucket_lo_ns (ns_to_bucket ns) <? e) = (ns <? e).
Proof.
  intros Hns He. cbn [take edges] in He.
  repeat (apply elem_of_cons in He as [->|He]; [apply Bool.eq_iff_eq_true; rewrite !Z.ltb_lt; bucket|]).
  by apply elem_of_nil in He.
Qed.

Lemma row_of_bucket ns : 0 <= ns -> row_of (bucket_lo_ns (ns_to_bucket ns)) = row_of ns.
Proof.
  intros Hns. unfold row_of. assert (forall e, e ∈ take 13 edges ->
    (bucket_lo_ns (ns_to_bucket ns) <? e) = (ns <? e)) as He by (intros; by apply bucket_edge).
  revert He. generalize (take 13 edges) as es. induction es as [|e es IH]; intros He; [done|].
  cbn [foldr]. rewrite (He e), IH by set_solver. done.
Qed.

Lemma add_row_alter lo b rows :
  lo < 2 ^ 64 - 1 -> length rows = length edges ->
  add_row lo b edges rows = alter (fun r => u64 (r + b)) (row_of lo) rows.
Proof.
  intros Hlo Hlen. unfold row_of, edges in *. cbn [take foldr length] in *.
  do 14 (destruct rows as [|? rows]; [discriminate Hlen|]). destruct rows; [|discriminate Hlen].
  cbn [add_row]. rewrite (proj2 (Z.ltb_lt lo (2 ^ 64 - 1))) by done.
  repeat match goal with |- context [lo <? ?e] => destruct (lo <? e); [reflexivity|] end. reflexivity.
Qed.

(** ** Counting samples *)

Definition count (f : Z -> bool) (ss : list Z) : Z := foldr (fun x a => Z.b2z (f x) + a) 0 ss.

Lemma count_range f ss : 0 <= count f ss <= Z.of_nat (length ss).
Proof. induction ss as [|x ss IH]; simpl; [lia|]. destruct (f x); simpl; lia. Qed.

Lemma count_split f g k ss :
  (forall x, x ∈ ss -> Z.b2z (k x) = Z.b2z (f x) + Z.b2z (g x)) -> count k ss = count f ss + count g ss.
Proof.
  induction ss as [|x ss IH]; intros Hx; simpl; [done|]. rewrite IH, Hx by set_solver. lia.
Qed.

Lemma count_ext f g ss : (forall x, x ∈ ss -> f x = g x) -> count f ss = count g ss.
Proof. induction ss as [|x ss IH]; intros Hx; simpl; [done|]. by rewrite IH, Hx by set_solver. Qed.

Lemma count_perm f ss ss' : ss ≡ₚ ss' -> count f ss = count f ss'.
Proof. induction 1; simpl; lia. Qed.

Lemma count_zero f ss : (forall x, x ∈ ss -> f x = false) -> count f ss = 0.
Proof. induction ss as [|x ss IH]; intros Hx; simpl; [done|]. by rewrite IH, Hx by set_solver. Qed.

Lemma count_const_r f c ss : count (fun s => f s && c) ss = if c then count f ss else 0.
Proof. induction ss as [|x ss IH]; simpl; [by destruct c|]. rewrite IH. by destruct c, (f x). Qed.

Lemma count_mono f g ss : (forall x, f x = true -> g x = true) -> count f ss <= count g ss.
Proof.
  intros Hfg. induction ss as [|x ss IH]; simpl; [done|].
  pose proof (Hfg x) as Hx. destruct (f x), (g x); simpl; lia.
Qed.

Lemma count_app f a b : count f (a ++ b) = count f a + count f b.
Proof. induction a as [|x a IH]; simpl; [done|]. rewrite IH. lia. Qed.

Lemma count_all f ss : (forall x, x ∈ ss -> f x = true) -> count f ss = Z.of_nat (length ss).
Proof. induction ss as [|x ss IH]; intros Hx; simpl; [done|]. rewrite IH, Hx by set_solver. simpl. lia. Qed.

Record hist_ok (h : LatencyHistogram) (ss : list Z) : Prop := {
  ho_nonneg : Forall (fun x => 0 <= x) ss;
  ho_few : Z.of_nat (length ss) < 2 ^ 64;
  ho_len : length (buckets_ h) = Z.to_nat kNumBuckets;
  ho_buckets : forall i x, buckets_ h !! i = Some x -> x = count (fun s => ns_to_bucket s =? Z.of_nat i) ss;
  ho_count : count_ h = Z.of_nat (length ss);
  ho_sum : sum_ns_ h = u64 (foldr Z.add 0 ss);
  ho_max : max_ns_ h = foldr Z.max 0 ss
}.

Lemma new_hist_ok : hist_ok new_LatencyHistogram [].
Proof.
  split; try done. intros i x Hx. apply lookup_replicate in Hx as [-> _]. done.
Qed.

Lemma record_ok ghz t0 t1 h ss h' :
  hist_ok h ss -> Z.of_nat (length ss) + 1 < 2 ^ 64 -> record ghz t0 t1 h = Some h' ->
  (t1 <= t0 /\ h' = h) \/
  (t0 < t1 /\ exists ns, double_to_u64 (cycles_to_ns ghz (u64 (t1 - t0))) = Some ns /\ hist_ok h' (ns :: ss)).
Proof.
  intros Hok Hfew Hrec. unfold record in Hrec.
  destruct (Z.leb_spec t1 t0); [injection Hrec as <-; by left|right]. split; [done|]. apply bind_Some in Hrec as (ns & Hns & Hrec). exists ns. split; [done|].
  pose proof (double_to_u64_range _ _ Hns) as Hr. pose proof (bucket_range ns ltac:(lia)) as Hb.
  apply bind_Some in Hrec as (b & Eb & Hrec). apply bind_Some in Hrec as (bs & Ebs & Hrec). injection Hrec as <-.
  apply aget_Some in Eb as [_ Eb]. apply (ho_buckets _ _ Hok) in Eb. rewrite Z2Nat.id in Eb by lia.
  apply aset_inv in Ebs as (_ & ->). pose proof (count_range (fun s => ns_to_bucket s =? ns_to_bucket ns) ss).
  split; simpl.
  - constructor; [lia|apply Hok].
  - lia.
  - rewrite length_insert. apply Hok.
  - intros i x. rewrite list_lookup_insert. intros Hx. case_decide as Hi.
    + destruct Hi as [<- _]. injection Hx as <-. rewrite Z2Nat.id, Z.eqb_refl by lia. simpl.
      rewrite Eb, u64_id by (unfold is_u64; lia). lia.
    + pose proof (lookup_lt_Some _ _ _ Hx). rewrite (proj2 (Z.eqb_neq _ _)) by lia. simpl.
      by apply (ho_buckets _ _ Hok).
  - rewrite (ho_count _ _ Hok), u64_id by (unfold is_u64; lia). lia.
  - rewrite (ho_sum _ _ Hok), u64_add_l. f_equal. lia.
  - rewrite (ho_max _ _ Hok). destruct (Z.ltb_spec (foldr Z.max 0 ss) ns); lia.
Qed.

(** ** Percentiles and rows *)

Definition below (i : Z) (s : Z) : bool := ns_to_bucket s <? i.

Lemma count_below_S i ss :
  count (below (i + 1)) ss = count (below i) ss + count (fun s => ns_to_bucket s =? i) ss.
Proof.
  apply count_split. intros x _. unfold below.
  destruct (Z.ltb_spec (ns_to_bucket x) (i + 1)), (Z.ltb_spec (ns_to_bucket x) i), (Z.eqb_spec (ns_to_bucket x) i);
    simpl; lia.
Qed.

(** Buckets [bs], starting with number [i], hold the counts of [ss]. *)
Definition counts_from (bs : list Z) (i : Z) (ss : list Z) : Prop :=
  forall j x, bs !! j = Some x -> x = count (fun s => ns_to_bucket s =? i + Z.of_nat j) ss.

Lemma counts_from_cons b bs i ss :
  counts_from (b :: bs) i ss -> b = count (fun s => ns_to_bucket s =? i) ss /\ counts_from bs (i + 1) ss.
Proof.
  intros Hc. split; [rewrite (Hc 0%nat b eq_refl); by rewrite Z.add_0_r|].
  intros j x Hx. rewrite (Hc (S j) x Hx). apply count_ext. intros. f_equal. lia.
Qed.

Lemma percentile_loop_ok bs i B ss k :
  counts_from bs i ss -> Z.of_nat (length ss) < 2 ^ 64 -> 0 <= k < Z.of_nat (length ss) ->
  0 <= i <= B -> B < i + Z.of_nat (length bs) -> B < kNumBuckets ->
  count (below B) ss <= k -> k + 1 <= count (below (B + 1)) ss ->
  percentile_loop bs i (count (below i) ss) k = Some (bucket_lo_ns B + bucket_step_ns B / 2).
Proof.
  revert i. induction bs as [|b bs IH]; intros i Hc Hfew Hk Hi HB HBn Hlo Hhi; simpl in HB; [lia|].
  apply counts_from_cons in Hc as [-> Hc]. cbn [percentile_loop]. rewrite <-count_below_S.
  pose proof (count_range (below (i + 1)) ss).
  rewrite (u64_id (count _ _)), (u64_id (k + 1)) by (unfold is_u64; lia).
  destruct (decide (i = B)) as [->|Hne].
  - rewrite (proj2 (Z.leb_le _ _)) by lia. by rewrite bucket_middle_u64 by lia.
  - rewrite (proj2 (Z.leb_gt _ _)); [apply IH; lia || done|].
    enough (count (below (i + 1)) ss <= count (below B) ss) by lia.
    apply count_mono. unfold below. intros x. rewrite !Z.ltb_lt. lia.
Qed.

(** In a sorted list the samples up to position [k] are in buckets up to the one
    of the [k]-th, the ones from it on are not in earlier buckets. *)
Lemma sorted_rank s k x :
  StronglySorted Z.le s -> Forall (fun x => 0 <= x) s -> s !! k = Some x ->
  count (below (ns_to_bucket x)) s <= Z.of_nat k /\ Z.of_nat k + 1 <= count (below (ns_to_bucket x + 1)) s.
Proof.
  intros Hs Hnn Hx. pose proof (lookup_lt_Some _ _ _ Hx) as Hlt.
  rewrite <-(take_drop_middle s k x Hx) in Hs, Hnn |- *.
  assert (length (take k s) = k) as Hk by (rewrite length_take; lia).
  set (a := take k s) in *. set (c := drop (S k) s) in *. clearbody a c.
  assert (forall y, y ∈ a -> 0 <= y <= x) as Ha.
  { intros y Hy. split; [|by apply (StronglySorted_app_1_elem_of _ _ _ _ _ Hs); set_solver].
    by apply (proj1 (Forall_forall _ _) Hnn); set_solver. }
  apply StronglySorted_app_1_r, StronglySorted_cons in Hs as [Hc _].
  assert (0 <= x) by (apply (proj1 (Forall_forall _ _) Hnn); set_solver).
  assert (forall y, y ∈ x :: c -> x <= y) as Hc'.
  { intros y [->|Hy]%elem_of_cons; [lia|]. by apply (proj1 (Forall_forall _ _) Hc). }
  rewrite !count_app. split.
  - rewrite (count_zero _ (x :: c)); [pose proof (count_range (below (ns_to_bucket x)) a); lia|].
    intros y Hy. apply Z.ltb_ge, bucket_mono. split; [done|by apply Hc'].
  - rewrite (count_all _ a).
    + cbn [count foldr]. fold (count (below (ns_to_bucket x + 1)) c).
      pose proof (count_range (below (ns_to_bucket x + 1)) c). unfold below at 1.
      rewrite (proj2 (Z.ltb_lt _ _)) by lia. simpl. lia.
    + intros y Hy. apply Z.ltb_lt. pose proof (bucket_mono y x (Ha y Hy)). lia.
Qed.

Lemma rows_loop_ok bs i rows ss :
  counts_from bs i ss -> Z.of_nat (length ss) < 2 ^ 64 -> Forall (fun x => 0 <= x) ss -> 0 <= i ->
  length rows = length edges ->
  (forall r x, rows !! r = Some x -> x = count (fun s => below i s && (row_of s =? r)%nat) ss) ->
  length (rows_loop bs i rows) = length edges /\
  forall r x, rows_loop bs i rows !! r = Some x ->
    x = count (fun s => below (i + Z.of_nat (length bs)) s && (row_of s =? r)%nat) ss.
Proof.
  revert i rows. induction bs as [|b bs IH]; intros i rows Hc Hfew Hnn Hi Hl Hrows.
  { simpl. split; [done|]. by rewrite Z.add_0_r. }
  apply counts_from_cons in Hc as [Hb Hc]. cbn [rows_loop].
  replace (i + Z.of_nat (length (b :: bs))) with (i + 1 + Z.of_nat (length bs)) by (simpl; lia).
  assert (bucket_lo_ns i < 2 ^ 64 - 1) as Hlo by bucket.
  apply IH; [done|done|done|lia|..].
  { destruct (b =? 0); [done|]. rewrite add_row_alter by done. by rewrite length_alter. }
  intros r x Hx.
  assert (forall y, y ∈ ss -> ns_to_bucket y = i -> row_of y = row_of (bucket_lo_ns i)) as Hrow.
  { intros y Hy <-. symmetry. apply row_of_bucket. by apply (proj1 (Forall_forall _ _) Hnn). }
  rewrite (count_split (fun s => below i s && (row_of s =? r)%nat)
    (fun s => (ns_to_bucket s =? i) && (row_of (bucket_lo_ns i) =? r)%nat)).
  2:{ intros y Hy. unfold below. pose proof (Hrow y Hy) as Hr.
      destruct (Z.eqb_spec (ns_to_bucket y) i) as [E|E].
      - rewrite <-Hr by done. rewrite (proj2 (Z.ltb_lt _ (i + 1))), (proj2 (Z.ltb_ge _ i)) by lia.
        by destruct (row_of y =? r)%nat.
      - replace (ns_to_bucket y <? i + 1) with (ns_to_bucket y <? i) by lia. simpl. lia. }
  rewrite count_const_r, <-Hb. destruct (Z.eqb_spec b 0) as [Hb0|Hb0].
  { rewrite (Hrows r x Hx), Hb0. destruct (_ =? r)%nat; lia. }
  rewrite add_row_alter, list_lookup_alter in Hx by done. case_decide as Hr.
  - subst r. set (r := row_of (bucket_lo_ns i)) in *.
    destruct (rows !! r) as [y|] eqn:Hy; [|done]. injection Hx as <-. apply Hrows in Hy as ->.
    rewrite Nat.eqb_refl. pose proof (count_range (below (i + 1)) ss) as Hcr. rewrite count_below_S, <-Hb in Hcr.
    pose proof (count_mono (fun s => below i s && (row_of s =? r)%nat) (below i) ss) as Hm.
    pose proof (count_range (fun s => below i s && (row_of s =? r)%nat) ss).
    pose proof (count_range (fun s => ns_to_bucket s =? i) ss).
    apply u64_id. unfold is_u64. split; [lia|]. enough (count (fun s => below i s && (row_of s =? r)%nat) ss <= count (below i) ss) by lia.
    apply Hm. intros ? [? _]%andb_prop. done.
  - rewrite (Hrows r x Hx), (proj2 (Nat.eqb_neq _ _)) by done. lia.
Qed.

Lemma hist_counts h ss : hist_ok h ss -> counts_from (buckets_ h) 0 ss.
Proof. intros Hok j x Hx. by apply (ho_buckets _ _ Hok). Qed.

Lemma percentile_ok h ss p k s x :
  hist_ok h ss -> double_to_u64 (dmul p (u64_to_double (count_ h))) = Some (Z.of_nat k) ->
  StronglySorted Z.le s -> s ≡ₚ ss -> s !! k = Some x ->
  percentile_ns h p = Some (bucket_lo_ns (ns_to_bucket x) + bucket_step_ns (ns_to_bucket x) / 2).
Proof.
  intros Hok Hk Hs Hp Hx. pose proof (lookup_lt_Some _ _ _ Hx) as Hlt. pose proof (Permutation_length Hp) as Hl.
  assert (Forall (fun x => 0 <= x) s) as Hnn by (rewrite Hp; apply Hok).
  destruct (sorted_rank s k x Hs Hnn Hx) as [Hlo Hhi]. rewrite !(count_perm _ _ _ Hp) in *.
  pose proof (ho_few _ _ Hok). pose proof (ho_len _ _ Hok) as Hlen.
  assert (0 <= x) as Hx0 by (by eapply Forall_lookup_1 in Hx). pose proof (bucket_range x Hx0) as Hr.
  unfold percentile_ns. rewrite (ho_count _ _ Hok) in *. rewrite (proj2 (Z.eqb_neq _ _)), Hk by lia. cbn [mbind option_bind].
  assert (count (below 0) ss = 0) as H0.
  { apply count_zero. intros y Hy. apply Z.ltb_ge, bucket_range.
    by apply (proj1 (Forall_forall _ _) (ho_nonneg _ _ Hok)). }
  pose proof (percentile_loop_ok (buckets_ h) 0 (ns_to_bucket x) ss (Z.of_nat k)) as Hloop. rewrite H0 in Hloop.
  rewrite Hloop; [done|by apply hist_counts|lia..].
Qed.

Lemma rows_ok h ss :
  hist_ok h ss ->
  length (print_rows h) = length edges /\
  forall r x, print_rows h !! r = Some x -> x = count (fun s => (row_of s =? r)%nat) ss.
Proof.
  intros Hok. assert (Forall (fun x => 0 <= x) ss) as Hnn by apply Hok.
  assert (forall y, y ∈ ss -> 0 <= ns_to_bucket y < kNumBuckets) as Hb.
  { intros y Hy. apply bucket_range. by apply (proj1 (Forall_forall _ _) Hnn). }
  destruct (rows_loop_ok (buckets_ h) 0 (replicate (length edges) 0) ss) as [Hl Hr];
    [by apply hist_counts|apply Hok|done|done|done|..].
  { intros r x [-> _]%lookup_replicate. symmetry. apply count_zero. intros y Hy.
    unfold below. rewrite (proj2 (Z.ltb_ge _ _)) by (by apply Hb). done. }
  split; [done|]. intros r x Hx. rewrite (Hr r x Hx), (ho_len _ _ Hok). apply count_ext. intros y Hy.
  unfold below. rewrite (proj2 (Z.ltb_lt _ _)); [done|]. pose proof (Hb y Hy). lia.
Qed.

Lemma sum_perm (a b : list Z) : a ≡ₚ b -> foldr Z.add 0 a = foldr Z.add 0 b.
Proof. induction 1; simpl; lia. Qed.

Lemma max_perm (a b : list Z) : a ≡ₚ b -> foldr Z.max 0 a = foldr Z.max 0 b.
Proof. induction 1; simpl; lia. Qed.

Lemma sorted_max s : StronglySorted Z.le s -> Forall (fun x => 0 <= x) s -> foldr Z.max 0 s = default 0 (last s).
Proof.
  induction s as [|x s IH]; [done|]. intros [Hx Hs]%StronglySorted_cons [Hx0 Hnn]%Forall_cons.
  simpl foldr. rewrite IH by done. destruct s as [|y s]; simpl in *; [lia|].
  change (last (x :: y :: s)) with (last (y :: s)). destruct (last (y :: s)) as [z|] eqn:E; [|by apply last_None in E].
  assert (x <= z); [|simpl; lia]. apply (proj1 (Forall_forall _ _) Hx). by apply last_Some_elem_of in E.
Qed.

(** ** Runs of a program that measures latencies *)

Fixpoint record_all (ghz : double) (ts : list (Z * Z)) (h : LatencyHistogram) : option LatencyHistogram :=
  match ts with
  | [] => Some h
  | (t0, t1) :: ts => h ← record ghz t0 t1 h; record_all ghz ts h
  end.

(** The samples a run records: intervals that go forward, in nanoseconds. *)
Definition samples (ghz : double) (ts : list (Z * Z)) : list Z :=
  omap (fun '(t0, t1) => if t1 <=? t0 then None else double_to_u64 (cycles_to_ns ghz (u64 (t1 - t0)))) ts.

Lemma record_all_ok ghz ts h ss h' :
  hist_ok h ss -> Z.of_nat (length ss + length ts) < 2 ^ 64 -> record_all ghz ts h = Some h' ->
  exists ss', hist_ok h' ss' /\ ss' ≡ₚ samples ghz ts ++ ss.
Proof.
  revert h ss. induction ts as [|[t0 t1] ts IH]; intros h ss Hok Hfew; simpl in *.
  { intros [= <-]. by exists ss. }
  intros Hrec. apply bind_Some in Hrec as (h1 & H1 & Hrec).
  apply (record_ok _ _ _ _ _ _ Hok) in H1 as [[Hle ->]|(Hlt & ns & Hns & Hok1)]; [..|lia].
  - rewrite (proj2 (Z.leb_le _ _)) by done. apply (IH h ss Hok); [lia|done].
  - rewrite (proj2 (Z.leb_gt _ _)), Hns by done.
    destruct (IH h1 _ Hok1) as (ss' & Hok' & Hp); [simpl; lia|done|].
    exists ss'. split; [done|]. rewrite Hp. simpl. by rewrite Permutation_middle.
Qed.

(** ** Properties *)

(** C26: after any run the histogram has counted every sample; a percentile it
    reports is, for samples below a millisecond, within half a per cent of the
    sample of that rank in sorted order (and exact below a microsecond), and the
    one-millisecond mark for samples above; each row it prints counts exactly the
    samples between its edges; the maximum is the largest sample. *)
Theorem histogram_correct (ghz : double) (ts : list (Z * Z)) (h : LatencyHistogram) (s : list Z) :
  Z.of_nat (length ts) < 2 ^ 64 -> record_all ghz ts new_LatencyHistogram = Some h ->
  StronglySorted Z.le s -> s ≡ₚ samples ghz ts ->
  count_ h = Z.of_nat (length s) /\ max_ns_ h = default 0 (last s) /\ sum_ns_ h = u64 (foldr Z.add 0 s) /\
  (forall p k x, double_to_u64 (dmul p (u64_to_double (count_ h))) = Some (Z.of_nat k) -> s !! k = Some x ->
     exists v, percentile_ns h p = Some v /\
       (x < 1000 -> v = x) /\ (x < 1000000 -> 200 * Z.abs (v - x) <= x) /\ (1000000 <= x -> v = 1000000)) /\
  (forall r c, print_rows h !! r = Some c -> c = count (fun x => (row_of x =? r)%nat) s).
Proof.
  intros Hfew Hrec Hs Hp.
  destruct (record_all_ok ghz ts _ [] h new_hist_ok ltac:(simpl; lia) Hrec) as (ss & Hok & Hss).
  rewrite app_nil_r, <-Hp in Hss. pose proof (Permutation_length Hss) as Hl.
  assert (Forall (fun x => 0 <= x) s) as Hnn by (rewrite <-Hss; apply Hok).
  split; [rewrite <-Hl; apply Hok|]. split; [|split; [|split]].
  - by rewrite (ho_max _ _ Hok), (max_perm _ _ Hss), sorted_max.
  - by rewrite (ho_sum _ _ Hok), (sum_perm _ _ Hss).
  - intros p k x Hk Hx. eexists. split; [by eapply percentile_ok|].
    assert (0 <= x) as Hx0 by (by eapply Forall_lookup_1 in Hx).
    split; [|split]; intros; [bucket|apply bucket_middle; lia|bucket].
  - intros r c Hc. rewrite <-(count_perm _ _ _ Hss). by apply (rows_ok h ss Hok).
Qed.

(** ** Witnesses *)

Lemma histogram_correct_witness :
  exists h, record_all (literal 2 1) [(0, 400); (10, 5); (100, 3100); (0, 4000000)] new_LatencyHistogram = Some h /\
    count_ h = 3 /\ max_ns_ h = 2000000 /\
    exists v, percentile_ns h (literal 50 100) = Some v /\ 200 * Z.abs (v - 1500) <= 1500.
Proof.
  destruct (record_all (literal 2 1) [(0, 400); (10, 5); (100, 3100); (0, 4000000)] new_LatencyHistogram) as [h|] eqn:E;
    [|vm_compute in E; discriminate E].
  destruct (histogram_correct (literal 2 1) [(0, 400); (10, 5); (100, 3100); (0, 4000000)] h [200; 1500; 2000000])
    as (Hc & Hm & _ & Hp & _).
  - vm_compute. reflexivity.
  - exact E.
  - repeat constructor; discriminate.
  - vm_compute. reflexivity.
  - exists h. split; [reflexivity|]. split; [exact Hc|]. split; [exact Hm|].
    destruct (Hp (literal 50 100) 1%nat 1500) as (v & Hv & _ & Hb & _).
    + rewrite Hc. vm_compute. reflexivity.
    + reflexivity.
    + exists v. split; [exact Hv|]. apply Hb. reflexivity.
Defined.
