(* ===== verification/PacketRing.v ===== *)
(** * The packet ring (include/packet_ring.h, src/packet_ring.cpp)

    The constructor is modelled over the system calls it makes, which are
    parameters ([RingOs], with their documented effect on descriptors and
    mappings in [RingOsSpec]).  [receive] and [release] work on the frame slots
    the ring shares with the kernel; the values of the [TP_STATUS_] flags are
    parameters too.  [None] is undefined behaviour. *)

From S2P Require Import Prelude.
From stdpp Require Import base list_numbers gmap option list.
#[local] Open Scope Z_scope.

Definition kBlockSize : Z := 2 ^ 22.
Definition kFrameSize : Z := 2048.
Definition kFramesPerBlock : Z := kBlockSize / kFrameSize.
Definition IFNAMSIZ : Z := 16.

Record RxFrame := mkRxFrame { data : Z; len : Z; captured_len : Z }.

Record PacketRing := mkPacketRing {
  fd_ : Z;
  ring_ : Z;
  ring_bytes_ : Z;
  frames_ : list Z;
  total_frames_ : Z;
  current_frame_ : Z;
  drops_ : Z
}.

(** ** Construction *)

Class RingOs (Os : Type) := {
  (** The open descriptors, and the lengths of the live mappings by address. *)
  open_fds : Os -> gset Z;
  live_maps : Os -> gmap Z Z;
  sys_socket : Os -> Z * Os;
  (** [ioctl(fd, SIOCGIFINDEX)] for an interface name: the index, if it has one *)
  sys_ifindex : Z -> list Z -> Os -> option Z * Os;
  sys_set_version : Z -> Os -> Z * Os;
  (** [setsockopt(fd, PACKET_RX_RING)]: block size and number, frame size and number *)
  sys_set_rx_ring : Z -> Z * Z * Z * Z -> Os -> Z * Os;
  sys_mmap : Z -> Z -> Os -> option Z * Os;
  sys_bind : Z -> Z -> Os -> Z * Os;
  sys_busy_poll : Z -> Z -> Os -> Z * Os;
  sys_munmap : Z -> Z -> Os -> Os;
  sys_close : Z -> Os -> Os
}.

Definition same_resources {Os} `{RingOs Os} (o o' : Os) : Prop :=
  open_fds o' = open_fds o /\ live_maps o' = live_maps o.

Class RingOsSpec (Os : Type) `{RingOs Os} := {
  sys_socket_ok o fd o' : sys_socket o = (fd, o') ->
    live_maps o' = live_maps o /\
    if 0 <=? fd then fd ∉ open_fds o /\ open_fds o' = {[fd]} ∪ open_fds o else open_fds o' = open_fds o;
  sys_ifindex_ok fd name o r o' : sys_ifindex fd name o = (r, o') -> same_resources o o';
  sys_set_version_ok fd o r o' : sys_set_version fd o = (r, o') -> same_resources o o';
  sys_set_rx_ring_ok fd req o r o' : sys_set_rx_ring fd req o = (r, o') -> same_resources o o';
  sys_bind_ok fd i o r o' : sys_bind fd i o = (r, o') -> same_resources o o';
  sys_busy_poll_ok fd us o r o' : sys_busy_poll fd us o = (r, o') -> same_resources o o';
  sys_mmap_ok fd n o r o' : sys_mmap fd n o = (r, o') ->
    open_fds o' = open_fds o /\
    match r with
    | None => live_maps o' = live_maps o
    | Some base => base <> 0 /\ live_maps o !! base = None /\ live_maps o' = <[base := n]> (live_maps o)
    end;
  sys_munmap_ok base n o : live_maps o !! base = Some n ->
    open_fds (sys_munmap base n o) = open_fds o /\ live_maps (sys_munmap base n o) = delete base (live_maps o);
  sys_close_ok fd o :
    open_fds (sys_close fd o) = open_fds o ∖ {[fd]} /\ live_maps (sys_close fd o) = live_maps o
}.

Inductive ring_error :=
  NotPositive | NameTooLong | SocketFailed | IfindexFailed | VersionFailed | RxRingFailed | MmapFailed | BindFailed
  | BusyPollFailed.

Section constructor.
Context {Os : Type} `{RingOs Os}.

Definition cleanup (r : PacketRing) (o : Os) : PacketRing * Os :=
  let '(ring, o) := if negb (ring_ r =? 0) then (0, sys_munmap (ring_ r) (ring_bytes_ r) o) else (ring_ r, o) in
  let '(fd, o) := if 0 <=? fd_ r then (-1, sys_close (fd_ r) o) else (fd_ r, o) in
  (mkPacketRing fd ring (ring_bytes_ r) (frames_ r) (total_frames_ r) (current_frame_ r) (drops_ r), o).

(** The pointers of step 6: every frame of block [b], for every block.
    [frames_from] is the inner loop with [todo] iterations to go. *)
Fixpoint frames_from (todo : nat) (block f : Z) : list Z :=
  match todo with
  | O => []
  | S todo => (block + u32 (f * kFrameSize)) :: frames_from todo block (f + 1)
  end.

Definition block_frames (base b : Z) : list Z :=
  frames_from (Z.to_nat kFramesPerBlock) (base + b * kBlockSize) 0.

Definition all_frames (base num_blocks : Z) : list Z :=
  seqZ 0 num_blocks ≫= block_frames base.

Definition fresh_ring : PacketRing := mkPacketRing (-1) 0 0 [] 0 0 0.

(** The body of the [try] block: the ring as far as it was built, and the
    exception that was thrown, if any. *)
Definition build_ring (iface : list Z) (num_blocks : Z) (o : Os) : option ring_error * PacketRing * Os :=
  let '(fd, o) := sys_socket o in
  let r := mkPacketRing fd 0 0 [] 0 0 0 in
  if fd <? 0 then (Some SocketFailed, r, o) else
  let '(ifindex, o) := sys_ifindex fd iface o in
  match ifindex with
  | None => (Some IfindexFailed, r, o)
  | Some ifindex =>
      let '(rc, o) := sys_set_version fd o in
      if rc <? 0 then (Some VersionFailed, r, o) else
      let total := u64 (num_blocks * kFramesPerBlock) in
      let r := mkPacketRing fd 0 0 [] total 0 0 in
      let '(rc, o) := sys_set_rx_ring fd (kBlockSize, num_blocks, kFrameSize, u32 total) o in
      if rc <? 0 then (Some RxRingFailed, r, o) else
      let bytes := u64 (num_blocks * kBlockSize) in
      let r := mkPacketRing fd 0 bytes [] total 0 0 in
      let '(base, o) := sys_mmap fd bytes o in
      match base with
      | None => (Some MmapFailed, r, o)
      | Some base =>
          let r := mkPacketRing fd base bytes (all_frames base num_blocks) total 0 0 in
          let '(rc, o) := sys_bind fd ifindex o in
          if rc <? 0 then (Some BindFailed, r, o) else (None, r, o)
      end
  end.

Definition new_PacketRing (iface : list Z) (num_blocks : Z) (o : Os) : (ring_error + PacketRing) * Os :=
  if num_blocks <=? 0 then (inl NotPositive, o)
  else if IFNAMSIZ <=? Z.of_nat (length iface) then (inl NameTooLong, o)
  else
    match build_ring iface num_blocks o with
    | (Some e, r, o) => (inl e, (cleanup r o).2)
    | (None, r, o) => (inr r, o)
    end.

Definition delete_PacketRing (r : PacketRing) (o : Os) : Os := (cleanup r o).2.

Definition set_busy_poll (r : PacketRing) (micros : Z) (o : Os) : option ring_error * Os :=
  let '(rc, o) := sys_busy_poll (fd_ r) micros o in
  (if rc <? 0 then Some BusyPollFailed else None, o).
End constructor.

(** ** Receiving *)

(** One frame slot: the fields of its [tpacket2_hdr] that are used, and its
    memory from the header on. *)
Record slot := mkSlot { tp_status : Z; tp_len : Z; tp_snaplen : Z; tp_mac : Z; slot_mem : list Z }.

Section receiving.
Context (TP_STATUS_KERNEL TP_STATUS_USER TP_STATUS_LOSING : Z).

(** The slot at an address of the mapping. *)
Definition slot_at (r : PacketRing) (addr : Z) : option Z :=
  if (addr - ring_ r) mod kFrameSize =? 0 then Some ((addr - ring_ r) / kFrameSize) else None.

Definition receive (r : PacketRing) (shm : list slot) : option (option RxFrame * PacketRing) :=
  hdr ← aget (frames_ r) (current_frame_ r);
  i ← slot_at r hdr;
  s ← aget shm i;
  if Z.land (tp_status s) TP_STATUS_USER =? 0 then Some (None, r)
  else
    let drops := if Z.land (tp_status s) TP_STATUS_LOSING =? 0 then drops_ r else u64 (drops_ r + 1) in
    Some (Some (mkRxFrame (hdr + tp_mac s) (tp_len s) (tp_snaplen s)),
          mkPacketRing (fd_ r) (ring_ r) (ring_bytes_ r) (frames_ r) (total_frames_ r) (current_frame_ r) drops).

Definition release (r : PacketRing) (shm : list slot) : option (PacketRing * list slot) :=
  hdr ← aget (frames_ r) (current_frame_ r);
  i ← slot_at r hdr;
  s ← aget shm i;
  shm ← aset shm i (mkSlot TP_STATUS_KERNEL (tp_len s) (tp_snaplen s) (tp_mac s) (slot_mem s));
  Some (mkPacketRing (fd_ r) (ring_ r) (ring_bytes_ r) (frames_ r) (total_frames_ r)
          (u64 (current_frame_ r + 1) mod total_frames_ r) (drops_ r), shm).

(** The memory a frame's [data] points to, up to the end of its slot. *)
Definition rx_mem (r : PacketRing) (shm : list slot) (addr : Z) : option (list Z) :=
  let off := addr - ring_ r in
  s ← aget shm (off / kFrameSize);
  Some (drop (Z.to_nat (off mod kFrameSize)) (slot_mem s)).
End receiving.

(** ** The frame pointers tile the mapping *)

Lemma frames_per_block : kFramesPerBlock = 2048.
Proof. reflexivity. Qed.

Lemma frames_from_spec k block f :
  frames_from k block f = (fun i => block + u32 (i * kFrameSize)) <$> seqZ f (Z.of_nat k).
Proof.
  revert f. induction k as [|k IH]; intros f; [done|]. rewrite seqZ_cons by lia. cbn [frames_from fmap list_fmap].
  by rewrite IH, Nat2Z.inj_succ, Z.pred_succ.
Qed.

Lemma block_frames_spec base b :
  block_frames base b = (fun i => base + i * kFrameSize) <$> seqZ (b * kFramesPerBlock) kFramesPerBlock.
Proof.
  unfold block_frames. rewrite frames_from_spec, Z2Nat.id by done. rewrite <-(Z.add_0_r (b * kFramesPerBlock)), <-fmap_add_seqZ, <-list_fmap_compose.
  apply list_fmap_ext. intros i f Hf. apply lookup_seqZ in Hf as [-> Hi]. rewrite frames_per_block in *. unfold compose.
  rewrite u32_id; unfold kFrameSize, kBlockSize, is_u32; lia.
Qed.

Lemma all_frames_spec base n :
  0 <= n -> all_frames base n = (fun i => base + i * kFrameSize) <$> seqZ 0 (n * kFramesPerBlock).
Proof.
  intros Hn. unfold all_frames. rewrite <-(Z2Nat.id n) by done. induction (Z.to_nat n) as [|k IH]; [done|].
  rewrite seqZ_S, bind_app, IH, Z.add_0_l.
  change ([Z.of_nat k] ≫= block_frames base) with (block_frames base (Z.of_nat k) ++ []).
  rewrite app_nil_r, block_frames_spec, <-fmap_app. f_equal.
  replace (Z.of_nat (S k) * kFramesPerBlock) with (Z.of_nat k * kFramesPerBlock + kFramesPerBlock) by lia.
  rewrite seqZ_app by (rewrite frames_per_block; lia). done.
Qed.

(** A ring over [N] slots of a mapping at [ring_]. *)
Record ring_ok (r : PacketRing) (N : Z) : Prop := {
  ro_total : total_frames_ r = N;
  ro_size : 0 < N < 2 ^ 63;
  ro_frames : frames_ r = (fun i => ring_ r + i * kFrameSize) <$> seqZ 0 N;
  ro_current : 0 <= current_frame_ r < N
}.

Lemma ring_slot r N :
  ring_ok r N ->
  aget (frames_ r) (current_frame_ r) = Some (ring_ r + current_frame_ r * kFrameSize) /\
  slot_at r (ring_ r + current_frame_ r * kFrameSize) = Some (current_frame_ r).
Proof.
  intros Hr. pose proof (ro_current _ _ Hr) as Hc. split.
  - apply aget_Some. split; [lia|]. rewrite (ro_frames _ _ Hr), list_lookup_fmap, lookup_seqZ_lt by lia.
    cbn [fmap option_fmap option_map]. by rewrite Z2Nat.id, Z.add_0_l by lia.
  - unfold slot_at. replace (ring_ r + current_frame_ r * kFrameSize - ring_ r) with (current_frame_ r * kFrameSize) by lia.
    rewrite Z.mod_mul, Z.div_mul by done. done.
Qed.

(** ** The ring as a queue of frames

    [rx_rep r shm K q]: the frames the kernel has published and the program has
    not released yet are [q], in the slots from [current_frame_] on; [K] is the
    slot the kernel fills next. *)

Section queue.
Context (TP_STATUS_KERNEL TP_STATUS_USER TP_STATUS_LOSING : Z).

Definition user_owned (s : slot) : Prop := Z.land (tp_status s) TP_STATUS_USER <> 0.

(** What the kernel writes into a slot: a frame inside of the slot. *)
Definition slot_ok (s : slot) : Prop :=
  user_owned s /\ Z.of_nat (length (slot_mem s)) = kFrameSize /\
  0 <= tp_mac s < kFrameSize /\ 0 <= tp_snaplen s /\ tp_mac s + tp_snaplen s <= kFrameSize.

Record rx_rep (N : Z) (r : PacketRing) (shm : list slot) (K : Z) (q : list slot) : Prop := {
  rx_ok : ring_ok r N;
  rx_slots : Z.of_nat (length shm) = N;
  rx_len : Z.of_nat (length q) <= N;
  rx_kernel : K = (current_frame_ r + Z.of_nat (length q)) mod N;
  rx_frames : forall j s, q !! j = Some s ->
    shm !! Z.to_nat ((current_frame_ r + Z.of_nat j) mod N) = Some s /\ slot_ok s;
  rx_free : forall j s, Z.of_nat (length q) <= j < N ->
    shm !! Z.to_nat ((current_frame_ r + j) mod N) = Some s -> Z.land (tp_status s) TP_STATUS_USER = 0
}.

(** The kernel publishes a frame in the next slot if it owns it. *)
Definition publish (K : Z) (s : slot) (shm : list slot) : option (list slot) :=
  old ← aget shm K;
  if Z.land (tp_status old) TP_STATUS_USER =? 0 then aset shm K s else None.

(** What the program sees of a frame. *)
Definition view (s : slot) : Z * Z * list Z := (tp_len s, tp_snaplen s, drop (Z.to_nat (tp_mac s)) (slot_mem s)).

Lemma rx_current N r shm K q :
  rx_rep N r shm K q -> exists s, aget shm (current_frame_ r) = Some s /\
    match q with
    | [] => Z.land (tp_status s) TP_STATUS_USER = 0
    | s' :: _ => s' = s /\ slot_ok s
    end.
Proof.
  intros R. pose proof (ro_current _ _ (rx_ok _ _ _ _ _ R)) as Hc. pose proof (rx_slots _ _ _ _ _ R) as Hl.
  destruct (aget_is_Some shm (current_frame_ r)) as [s Hs]; [lia|]. exists s. split; [done|].
  apply aget_Some in Hs as [_ Hs]. destruct q as [|s' q].
  - apply (rx_free _ _ _ _ _ R 0); [simpl; lia|]. rewrite Z.add_0_r, Z.mod_small by lia. done.
  - destruct (rx_frames _ _ _ _ _ R 0%nat s' eq_refl) as [Hs' Hf]. rewrite Z.add_0_r, Z.mod_small in Hs' by lia.
    assert (s' = s) as -> by congruence. done.
Qed.

Lemma rx_drops N r shm K q d :
  rx_rep N r shm K q ->
  rx_rep N (mkPacketRing (fd_ r) (ring_ r) (ring_bytes_ r) (frames_ r) (total_frames_ r) (current_frame_ r) d) shm K q.
Proof. intros []. split; try done. destruct rx_ok0. by split. Qed.

Lemma receive_ok N r shm K q :
  rx_rep N r shm K q ->
  exists r', receive TP_STATUS_USER TP_STATUS_LOSING r shm =
      Some ((fun s => mkRxFrame (ring_ r + current_frame_ r * kFrameSize + tp_mac s) (tp_len s) (tp_snaplen s)) <$> head q, r') /\
    rx_rep N r' shm K q /\ ring_ r' = ring_ r /\ current_frame_ r' = current_frame_ r /\
    drops_ r' = match head q with
                | Some s => if Z.land (tp_status s) TP_STATUS_LOSING =? 0 then drops_ r else u64 (drops_ r + 1)
                | None => drops_ r
                end.
Proof.
  intros R. destruct (ring_slot _ _ (rx_ok _ _ _ _ _ R)) as [H1 H2].
  destruct (rx_current _ _ _ _ _ R) as (s & Hs & Hq).
  unfold receive. rewrite H1. simpl. rewrite H2. simpl. rewrite Hs. simpl. destruct q as [|s' q].
  - rewrite Hq. simpl. by exists r.
  - destruct Hq as [-> Hf]. rewrite (proj2 (Z.eqb_neq _ _)) by apply Hf.
    eexists. split; [done|]. split; [by apply rx_drops|done].
Qed.

Lemma rx_mem_ok N r shm K s q :
  rx_rep N r shm K (s :: q) ->
  rx_mem r shm (ring_ r + current_frame_ r * kFrameSize + tp_mac s) = Some (drop (Z.to_nat (tp_mac s)) (slot_mem s)).
Proof.
  intros R. destruct (rx_current _ _ _ _ _ R) as (s' & Hs & <- & Hf). destruct Hf as (_ & _ & Hm & _).
  unfold rx_mem. replace (ring_ r + current_frame_ r * kFrameSize + tp_mac s - ring_ r)
    with (tp_mac s + current_frame_ r * kFrameSize) by lia.
  rewrite Z.div_add, (Z.div_small (tp_mac s)), Z.add_0_l, Hs by (unfold kFrameSize in *; lia). simpl.
  by rewrite Z.mod_add, Z.mod_small by (unfold kFrameSize in *; lia).
Qed.
(** Slots of the window are distinct. *)
Lemma window_ne N c i j :
  0 < N -> 0 <= i < N -> 0 <= j < N -> i <> j -> Z.to_nat ((c + i) mod N) <> Z.to_nat ((c + j) mod N).
Proof.
  intros HN Hi Hj Hne He. apply Hne. pose proof (Z.mod_pos_bound (c + i) N HN). pose proof (Z.mod_pos_bound (c + j) N HN).
  apply (mod_window_inj N c); [lia..|]. lia.
Qed.

Lemma window_shift N c j : 0 < N -> ((c + 1) mod N + j) mod N = (c + (j + 1)) mod N.
Proof. intros. rewrite Z.add_mod_idemp_l by lia. f_equal. lia. Qed.

Lemma release_ok N r shm K s q :
  Z.land TP_STATUS_KERNEL TP_STATUS_USER = 0 -> rx_rep N r shm K (s :: q) ->
  exists r' shm', release TP_STATUS_KERNEL r shm = Some (r', shm') /\ rx_rep N r' shm' K q /\
    ring_ r' = ring_ r /\ drops_ r' = drops_ r.
Proof.
  intros HK R. pose proof (rx_ok _ _ _ _ _ R) as Hok. destruct (ring_slot _ _ Hok) as [H1 H2].
  pose proof (ro_size _ _ Hok) as HN. pose proof (ro_current _ _ Hok) as Hc. pose proof (rx_slots _ _ _ _ _ R) as Hl.
  pose proof (rx_len _ _ _ _ _ R) as Hq. simpl in Hq.
  destruct (rx_current _ _ _ _ _ R) as (s' & Hs & <- & _).
  unfold release. rewrite H1. simpl. rewrite H2. simpl. rewrite Hs. simpl.
  rewrite aset_Some by lia. simpl. eexists _, _. split; [done|]. split; [|done].
  set (c := current_frame_ r) in *. rewrite (ro_total _ _ Hok), u64_id by (unfold is_u64; lia).
  assert (Z.to_nat c = Z.to_nat ((c + 0) mod N)) as Hc0 by (rewrite Z.add_0_r, Z.mod_small by lia; done).
  split; cbn [current_frame_].
  - split; [done|done|apply Hok|]. cbn [current_frame_]. apply Z.mod_pos_bound. lia.
  - by rewrite length_insert.
  - lia.
  - rewrite window_shift by lia. rewrite (rx_kernel _ _ _ _ _ R). f_equal. simpl. lia.
  - intros j x Hx. pose proof (lookup_lt_Some _ _ _ Hx). rewrite window_shift by lia.
    rewrite Hc0, list_lookup_insert_ne by (apply window_ne; lia).
    destruct (rx_frames _ _ _ _ _ R (S j) x Hx) as [? ?]. split; [|done].
    by replace (Z.of_nat j + 1) with (Z.of_nat (S j)) by lia.
  - intros j x Hj. rewrite window_shift by lia. destruct (decide (j = N - 1)) as [->|].
    + replace (c + (N - 1 + 1)) with (c + 1 * N) by lia. rewrite Z.mod_add, Z.mod_small by lia.
      rewrite list_lookup_insert_eq by lia. intros [= <-]. exact HK.
    + rewrite Hc0, list_lookup_insert_ne by (apply window_ne; lia). apply (rx_free _ _ _ _ _ R). simpl. lia.
Qed.

Lemma publish_ok N r shm K q s shm' :
  rx_rep N r shm K q -> slot_ok s -> publish K s shm = Some shm' ->
  rx_rep N r shm' ((K + 1) mod N) (q ++ [s]).
Proof.
  intros R Hf. pose proof (rx_ok _ _ _ _ _ R) as Hok.
  pose proof (ro_size _ _ Hok) as HN. pose proof (ro_current _ _ Hok) as Hc. pose proof (rx_slots _ _ _ _ _ R) as Hl.
  pose proof (rx_len _ _ _ _ _ R) as Hq. unfold publish. rewrite (rx_kernel _ _ _ _ _ R). set (c := current_frame_ r) in *.
  intros Hp. apply bind_Some in Hp as (old & Ho & Hp). destruct (Z.eqb_spec (Z.land (tp_status old) TP_STATUS_USER) 0) as [E|]; [|done].
  assert (Z.of_nat (length q) < N) as Hlt.
  { destruct (decide (Z.of_nat (length q) = N)) as [Hfull|]; [|lia]. exfalso.
    destruct q as [|s0 q0]; [simpl in Hfull; lia|].
    destruct (rx_frames _ _ _ _ _ R 0%nat s0 eq_refl) as [Hs0 [Hu _]]. fold c in Hs0.
    rewrite Hfull in Ho. replace (c + N) with (c + Z.of_nat 0 + 1 * N) in Ho by lia.
    rewrite Z.mod_add in Ho by lia. apply aget_Some in Ho as [_ Ho]. apply Hu. congruence. }
  apply aset_inv in Hp as [_ ->]. split; rewrite ?length_app; simpl; try done.
  - by rewrite length_insert.
  - lia.
  - rewrite Z.add_mod_idemp_l by lia. f_equal. lia.
  - intros j x. rewrite lookup_snoc. case_decide as Hj.
    + intros [= <-]. split; [|done]. rewrite Hj. apply list_lookup_insert_eq.
      pose proof (Z.mod_pos_bound (c + Z.of_nat (length q)) N). lia.
    + intros Hx. pose proof (lookup_lt_Some _ _ _ Hx). rewrite list_lookup_insert_ne by (apply window_ne; lia).
      by apply (rx_frames _ _ _ _ _ R).
  - intros j x Hj. rewrite list_lookup_insert_ne by (apply window_ne; lia).
    apply (rx_free _ _ _ _ _ R). lia.
Qed.

Lemma start_rep N r shm :
  ring_ok r N -> current_frame_ r = 0 -> Z.of_nat (length shm) = N ->
  Forall (fun s => Z.land (tp_status s) TP_STATUS_USER = 0) shm -> rx_rep N r shm 0 [].
Proof.
  intros Hok Hc Hl Hs. pose proof (ro_size _ _ Hok). split; simpl; try done; try lia.
  - rewrite Hc. symmetry. apply Z.mod_small. lia.
  - intros j s _ Hj. exact (Forall_lookup_1 _ _ _ _ Hs Hj).
Qed.

(** ** Polling *)

(** The state of a capture: the ring and what was received through it, the
    memory it shares with the kernel, and the kernel's cursor and history. *)
Record rx_state := mkRx {
  rx_ring : PacketRing; rx_shm : list slot; rx_cursor : Z;
  published : list slot; received : list (Z * Z * list Z) }.

(** One round of the polling loop of a client: [receive], use of the frame,
    [release]. *)
Definition poll (s : rx_state) : option rx_state :=
  '(fr, r) ← receive TP_STATUS_USER TP_STATUS_LOSING (rx_ring s) (rx_shm s);
  match fr with
  | None => Some (mkRx r (rx_shm s) (rx_cursor s) (published s) (received s))
  | Some fr =>
      m ← rx_mem r (rx_shm s) (data fr);
      '(r, shm) ← release TP_STATUS_KERNEL r (rx_shm s);
      Some (mkRx r shm (rx_cursor s) (published s) (received s ++ [(len fr, captured_len fr, m)]))
  end.

(** The kernel and the client in any interleaving. *)
Inductive rx_step (N : Z) : rx_state -> rx_state -> Prop :=
| rx_publish r shm K pub got f shm' : slot_ok f -> publish K f shm = Some shm' ->
    rx_step N (mkRx r shm K pub got) (mkRx r shm' ((K + 1) mod N) (pub ++ [f]) got)
| rx_poll s s' : poll s = Some s' -> rx_step N s s'.

Definition rx_inv (N : Z) (s : rx_state) : Prop :=
  exists q, rx_rep N (rx_ring s) (rx_shm s) (rx_cursor s) q /\ (view <$> published s) = received s ++ (view <$> q).

Lemma poll_ok N s :
  Z.land TP_STATUS_KERNEL TP_STATUS_USER = 0 -> rx_inv N s ->
  exists s', poll s = Some s' /\ rx_inv N s' /\ published s' = published s /\
    (length (received s) < length (published s) -> length (received s') = S (length (received s)))%nat.
Proof.
  intros HK (q & R & Hv). destruct (receive_ok _ _ _ _ _ R) as (r & Hr & R' & Hbase & Hcur & _).
  unfold poll. rewrite Hr. destruct q as [|f q]; cbn [head fmap option_fmap option_map mbind option_bind].
  - eexists. split; [done|]. split; [exists []; split; [exact R'|exact Hv]|]. split; [done|]. simpl.
    apply (f_equal length) in Hv. rewrite length_app, !length_fmap in Hv. simpl in Hv. lia.
  - cbn [data]. rewrite <-Hbase, <-Hcur, (rx_mem_ok _ _ _ _ _ _ R'). cbn [mbind option_bind].
    destruct (release_ok _ _ _ _ _ _ HK R') as (r2 & shm2 & Hrel & R2 & _). rewrite Hrel. cbn [mbind option_bind].
    eexists. split; [done|]. split; [|split; [done|simpl; rewrite length_app; simpl; lia]].
    exists q. split; [done|]. simpl. rewrite Hv, <-app_assoc. done.
Qed.

Lemma rx_step_inv N s s' :
  Z.land TP_STATUS_KERNEL TP_STATUS_USER = 0 -> rx_inv N s -> rx_step N s s' -> rx_inv N s'.
Proof.
  intros HK Hinv Hst. revert Hinv. destruct Hst as [r shm K pub got f shm' Hf Hp|s1 s1' Hp]; intros Hinv.
  - destruct Hinv as (q & R & Hv). exists (q ++ [f]). cbn [rx_ring rx_shm rx_cursor published received] in *.
    split; [by apply (publish_ok N r shm K q f shm')|]. by rewrite !fmap_app, Hv, <-app_assoc.
  - destruct (poll_ok N s1 HK Hinv) as (s2 & Hp2 & Hinv2 & _). assert (s2 = s1') as -> by congruence. done.
Qed.
End queue.

(** ** Construction leaves nothing behind when it fails *)

Section constructor_lemmas.
Context {Os : Type} `{RingOsSpec Os}.

(** [cleanup] gives back what a partly built ring holds. *)
Lemma cleanup_ok r (o o0 : Os) :
  (0 <= fd_ r -> fd_ r ∉ open_fds o0 /\ open_fds o = {[fd_ r]} ∪ open_fds o0) ->
  (fd_ r < 0 -> open_fds o = open_fds o0) ->
  (ring_ r <> 0 -> live_maps o0 !! ring_ r = None /\ live_maps o = <[ring_ r := ring_bytes_ r]> (live_maps o0)) ->
  (ring_ r = 0 -> live_maps o = live_maps o0) ->
  same_resources o0 (cleanup r o).2 /\ fd_ (cleanup r o).1 < 0 /\ ring_ (cleanup r o).1 = 0.
Proof.
  intros Hfd Hnofd Hmap Hnomap. unfold cleanup, same_resources.
  assert (exists o1, (if negb (ring_ r =? 0) then (0, sys_munmap (ring_ r) (ring_bytes_ r) o) else (ring_ r, o)) = (0, o1) /\
    open_fds o1 = open_fds o /\ live_maps o1 = live_maps o0) as (o1 & -> & Hf1 & Hm1).
  { destruct (Z.eqb_spec (ring_ r) 0) as [Hz|Hz]; simpl.
    - rewrite Hz. exists o. auto.
    - destruct (Hmap Hz) as [Hfresh Hm]. eexists. split; [done|].
      destruct (sys_munmap_ok (ring_ r) (ring_bytes_ r) o) as [-> ->]; [by rewrite Hm, lookup_insert_eq|].
      by rewrite Hm, delete_insert_id. }
  destruct (Z.leb_spec 0 (fd_ r)) as [Hle|Hlt]; simpl.
  - destruct (Hfd Hle) as [Hfresh Hf]. destruct (sys_close_ok (fd_ r) o1) as [-> ->].
    split; [split; [rewrite Hf1, Hf; set_solver|done]|lia].
  - rewrite Hf1. auto.
Qed.

(** The system [o'] is [o] with the descriptor and the mapping of [r] added. *)
Definition holds_ring r (o o' : Os) : Prop :=
  0 <= fd_ r /\ ring_ r <> 0 /\
  fd_ r ∉ open_fds o /\ open_fds o' = {[fd_ r]} ∪ open_fds o /\
  live_maps o !! ring_ r = None /\ live_maps o' = <[ring_ r := ring_bytes_ r]> (live_maps o).

Lemma delete_ring_ok r (o o' : Os) : holds_ring r o o' -> same_resources o (delete_PacketRing r o').
Proof. intros (Hfd & Hz & Hff & Hf & Hmf & Hm). apply cleanup_ok; [done|lia|done|done]. Qed.

Lemma build_ring_ok iface n (o : Os) e r o' :
  0 < n < 2 ^ 31 -> build_ring iface n o = (e, r, o') ->
  match e with
  | Some _ => same_resources o (cleanup r o').2
  | None => ring_ok r (n * kFramesPerBlock) /\ current_frame_ r = 0 /\ ring_bytes_ r = n * kBlockSize /\ holds_ring r o o'
  end.
Proof.
  intros Hn. unfold build_ring. rewrite frames_per_block.
  assert (u64 (n * 2048) = n * 2048 /\ u64 (n * kBlockSize) = n * kBlockSize) as [Hu1 Hu2].
  { unfold kBlockSize. split; apply u64_id; unfold is_u64; lia. }
  destruct (sys_socket o) as [fd o1] eqn:E1. apply sys_socket_ok in E1 as [M1 F1].
  destruct (Z.ltb_spec fd 0) as [Hfd|Hfd].
  { intros [= <- <- <-]. rewrite (proj2 (Z.leb_gt _ _)) in F1 by lia.
    apply cleanup_ok; simpl; try done; lia. }
  rewrite (proj2 (Z.leb_le _ _)) in F1 by lia. destruct F1 as [Ffresh F1].
  assert (forall o2 r, fd_ r = fd -> ring_ r = 0 -> same_resources o1 o2 -> same_resources o (cleanup r o2).2) as Hclean.
  { intros o2 r2 Hr2 Hz [Hf2 Hm2]. apply cleanup_ok; rewrite ?Hr2; [split; congruence|lia|done|congruence]. }
  assert (forall a b c : Os, same_resources a b -> same_resources b c -> same_resources a c) as Htrans.
  { unfold same_resources. intros a b c [] []. split; congruence. }
  destruct (sys_ifindex fd iface o1) as [ix o2] eqn:E2. apply sys_ifindex_ok in E2.
  destruct ix as [ix|]; [|intros [= <- <- <-]; by apply Hclean].
  destruct (sys_set_version fd o2) as [rc o3] eqn:E3. apply sys_set_version_ok in E3.
  destruct (rc <? 0); [intros [= <- <- <-]; apply Hclean; eauto|].
  destruct (sys_set_rx_ring fd _ o3) as [rc2 o4] eqn:E4. apply sys_set_rx_ring_ok in E4.
  destruct (rc2 <? 0); [intros [= <- <- <-]; apply Hclean; eauto|].
  assert (same_resources o1 o4) as [Hf4 Hm4] by eauto. rewrite Hu1, Hu2.
  destruct (sys_mmap fd _ o4) as [base o5] eqn:E5. apply sys_mmap_ok in E5 as [F5 M5].
  destruct base as [base|]; [|intros [= <- <- <-]; apply Hclean; [done..|]; split; congruence].
  destruct M5 as (Hb & Hfresh & M5). destruct (sys_bind fd ix o5) as [rc3 o6] eqn:E6. apply sys_bind_ok in E6 as [F6 M6].
  rewrite Hm4, M1 in Hfresh. assert (live_maps o6 = <[base := n * kBlockSize]> (live_maps o)) as Hm6 by congruence.
  assert (open_fds o6 = {[fd]} ∪ open_fds o) as Hf6 by congruence.
  destruct (rc3 <? 0); intros [= <- <- <-].
  - apply cleanup_ok; simpl; [done|lia|done|done].
  - unfold holds_ring. simpl. split_and!; try done; try lia. split; simpl; try lia. rewrite all_frames_spec by lia. by rewrite frames_per_block.
Qed.

Lemma new_PacketRing_ok iface n (o : Os) res o' :
  n < 2 ^ 31 -> new_PacketRing iface n o = (res, o') ->
  match res with
  | inl _ => same_resources o o'
  | inr r => ring_ok r (n * kFramesPerBlock) /\ current_frame_ r = 0 /\ ring_bytes_ r = n * kBlockSize /\ holds_ring r o o'
  end.
Proof.
  intros Hn. unfold new_PacketRing. destruct (Z.leb_spec n 0); [by intros [= <- <-]|].
  destruct (_ <=? _); [by intros [= <- <-]|].
  destruct (build_ring iface n o) as [[e r] o1] eqn:E. apply build_ring_ok in E; [|lia].
  by destruct e as [e|]; intros [= <- <-].
Qed.
End constructor_lemmas.

(** ** Properties *)

(** Whatever system call fails, a constructor that throws has closed the
    socket and removed the mapping, and opened nothing else; one that succeeds
    owns one descriptor and one mapping, its frame pointers tile the mapping
    exactly, and destroying the ring gives both back. *)
Theorem new_PacketRing_resources {Os : Type} `{RingOsSpec Os} (iface : list Z) (n : Z) (o : Os) res o' :
  n < 2 ^ 31 -> new_PacketRing iface n o = (res, o') ->
  match res with
  | inl _ => same_resources o o'
  | inr r => ring_ok r (n * kFramesPerBlock) /\ ring_bytes_ r = n * kFramesPerBlock * kFrameSize /\
      open_fds o' = {[fd_ r]} ∪ open_fds o /\ live_maps o' = <[ring_ r := ring_bytes_ r]> (live_maps o) /\
      same_resources o (delete_PacketRing r o')
  end.
Proof.
  intros Hn E. apply new_PacketRing_ok in E; [|done]. destruct res as [e|r]; [done|]. destruct E as (Hok & _ & Hb & Hh).
  split_and!; [done|rewrite Hb, frames_per_block; unfold kBlockSize, kFrameSize; lia|apply Hh|apply Hh|by apply delete_ring_ok].
Qed.

(** C7: however the kernel and the capture thread interleave, the frames the
    thread has received are a prefix of the frames the kernel has published, in
    order and with the lengths and bytes the kernel wrote; a poll never leaves
    the ring, and receives the next frame whenever there is one. *)
Theorem packet_ring_fifo (KERNEL USER LOSING N : Z) (r : PacketRing) (shm : list slot) (s : rx_state) :
  Z.land KERNEL USER = 0 -> ring_ok r N -> current_frame_ r = 0 -> Z.of_nat (length shm) = N ->
  Forall (fun s => Z.land (tp_status s) USER = 0) shm ->
  rtc (rx_step KERNEL USER LOSING N) (mkRx r shm 0 [] []) s ->
  received s `prefix_of` (view <$> published s) /\
  exists s', poll KERNEL USER LOSING s = Some s' /\
    (length (received s) < length (published s) -> length (received s') = S (length (received s)))%nat.
Proof.
  intros HK Hok Hc Hl Hs Hex.
  assert (rx_inv USER N (mkRx r shm 0 [] [])) as Hinv by (exists []; split; [by apply start_rep|done]).
  induction Hex as [s|s s1 s2 Hst _ IH].
  - destruct (poll_ok KERNEL USER LOSING N s HK Hinv) as (s' & Hp & _ & _ & Hprog).
    destruct Hinv as (q & _ & Hv). split; [rewrite Hv; by exists (view <$> q)|eauto].
  - apply IH. by eapply rx_step_inv.
Qed.

(** ** Witnesses *)

(** A kernel whose socket is descriptor 3 and whose mapping lies at 2^30;
    binding fails when [refuse_bind]. *)
Record toy_net := mkToyNet { tn_fds : gset Z; tn_maps : gmap Z Z; refuse_bind : bool }.

#[export] Instance toy_net_os : RingOs toy_net := {|
  open_fds := tn_fds; live_maps := tn_maps;
  sys_socket o := if decide (3 ∈ tn_fds o) then (-1, o) else (3, mkToyNet ({[3]} ∪ tn_fds o) (tn_maps o) (refuse_bind o));
  sys_ifindex _ _ o := (Some 1, o);
  sys_set_version _ o := (0, o);
  sys_set_rx_ring _ _ o := (0, o);
  sys_mmap _ n o := match tn_maps o !! (2 ^ 30) with
                    | Some _ => (None, o)
                    | None => (Some (2 ^ 30), mkToyNet (tn_fds o) (<[2 ^ 30 := n]> (tn_maps o)) (refuse_bind o))
                    end;
  sys_bind _ _ o := (if refuse_bind o then -1 else 0, o);
  sys_busy_poll _ _ o := (0, o);
  sys_munmap base n o := mkToyNet (tn_fds o) (delete base (tn_maps o)) (refuse_bind o);
  sys_close fd o := mkToyNet (tn_fds o ∖ {[fd]}) (tn_maps o) (refuse_bind o)
|}.

#[export] Instance toy_net_spec : RingOsSpec toy_net.
Proof.
  split; simpl.
  - intros o fd o'. case_decide; intros [= <- <-]; simpl; auto.
  - by intros fd name o r o' [= <- <-].
  - by intros fd o r o' [= <- <-].
  - by intros fd req o r o' [= <- <-].
  - by intros fd i o r o' [= <- <-].
  - by intros fd us o r o' [= <- <-].
  - intros fd n o r o'. destruct (tn_maps o !! (2 ^ 30)) eqn:E; intros [= <- <-]; simpl; auto.
  - intros base n o _. auto.
  - auto.
Qed.

Lemma new_PacketRing_resources_witness :
  (exists e o', new_PacketRing [101; 116; 104] 2 (mkToyNet ∅ ∅ true) = (inl e, o') /\ open_fds o' = ∅ /\ live_maps o' = ∅) /\
  (exists r o', new_PacketRing [101; 116; 104] 2 (mkToyNet ∅ ∅ false) = (inr r, o') /\ ring_ok r 4096).
Proof.
  split.
  - destruct (new_PacketRing [101; 116; 104] 2 (mkToyNet ∅ ∅ true)) as [[e|r] o'] eqn:E; [|vm_compute in E; discriminate E].
    pose proof (new_PacketRing_resources [101; 116; 104] 2 (mkToyNet ∅ ∅ true) (inl e) o' eq_refl E) as [Hf Hm].
    exists e, o'. split; [reflexivity|]. split; [exact Hf|exact Hm].
  - destruct (new_PacketRing [101; 116; 104] 2 (mkToyNet ∅ ∅ false)) as [[e|r] o'] eqn:E; [vm_compute in E; discriminate E|].
    pose proof (new_PacketRing_resources [101; 116; 104] 2 (mkToyNet ∅ ∅ false) (inr r) o' eq_refl E) as [Hok _].
    exists r, o'. split; [reflexivity|exact Hok].
Defined.

(** A ring of two slots; the kernel publishes one frame. *)
Definition demo_ring : PacketRing := mkPacketRing 3 4096 4096 [4096; 6144] 2 0 0.
Definition demo_slot (status : Z) : slot := mkSlot status 60 60 66 (replicate 2048 0).

Lemma demo_ring_ok : ring_ok demo_ring 2.
Proof. split; simpl; try done; lia. Qed.

Lemma packet_ring_fifo_witness :
  exists s, rtc (rx_step 0 1 4 2) (mkRx demo_ring [demo_slot 0; demo_slot 0] 0 [] []) s /\
    exists s', poll 0 1 4 s = Some s' /\ length (received s') = 1%nat.
Proof.
  set (s := mkRx demo_ring [demo_slot 5; demo_slot 0] 1 [demo_slot 5] []).
  assert (rtc (rx_step 0 1 4 2) (mkRx demo_ring [demo_slot 0; demo_slot 0] 0 [] []) s) as Hex.
  { eapply rtc_l; [|apply rtc_refl].
    apply (rx_publish 0 1 4 2 demo_ring [demo_slot 0; demo_slot 0] 0 [] [] (demo_slot 5)); [|reflexivity].
    vm_compute. repeat split; discriminate. }
  exists s. split; [exact Hex|].
  destruct (packet_ring_fifo 0 1 4 2 demo_ring [demo_slot 0; demo_slot 0] s) as (_ & s' & Hp & Hl).
  - reflexivity.
  - exact demo_ring_ok.
  - reflexivity.
  - reflexivity.
  - repeat constructor.
  - exact Hex.
  - exists s'. split; [exact Hp|]. apply Hl. simpl. lia.
Defined.
