(* ===== verification/PerfCounters.v ===== *)
(** * Hardware counters (include/perf_counters.h, src/perf_counters.cpp)

    [PerfCounter] and [PerfScope] over the kernel's counter descriptors.  The
    system calls are parameters ([PerfOs], with their documented effect on the
    descriptors in [PerfOsSpec]), and so are the numbers of
    <linux/perf_event.h> ([PerfAbi]). *)

From S2P Require Import Prelude Rdtsc.
From stdpp Require Import base list_numbers gmap option list strings.
#[local] Open Scope Z_scope.

Inductive PerfEvent :=
  L1_CACHE_MISSES | LLC_CACHE_MISSES | BRANCH_MISSES | INSTRUCTIONS | CYCLES | TLB_LOAD_MISSES | TLB_STORE_MISSES.

#[export] Instance PerfEvent_eq_dec : EqDecision PerfEvent.
Proof. solve_decision. Defined.

Definition perf_event_name (event : PerfEvent) : string :=
  match event with
  | L1_CACHE_MISSES => "L1_CACHE_MISSES"
  | LLC_CACHE_MISSES => "LLC_CACHE_MISSES"
  | BRANCH_MISSES => "BRANCH_MISSES"
  | INSTRUCTIONS => "INSTRUCTIONS"
  | CYCLES => "CYCLES"
  | TLB_LOAD_MISSES => "TLB_LOAD_MISSES"
  | TLB_STORE_MISSES => "TLB_STORE_MISSES"
  end.

(** The constants of the kernel's header. *)
Class PerfAbi := {
  PERF_TYPE_HARDWARE : Z; PERF_TYPE_HW_CACHE : Z;
  PERF_COUNT_HW_CPU_CYCLES : Z; PERF_COUNT_HW_INSTRUCTIONS : Z;
  PERF_COUNT_HW_CACHE_MISSES : Z; PERF_COUNT_HW_BRANCH_MISSES : Z;
  PERF_COUNT_HW_CACHE_L1D : Z; PERF_COUNT_HW_CACHE_DTLB : Z;
  PERF_COUNT_HW_CACHE_OP_READ : Z; PERF_COUNT_HW_CACHE_OP_WRITE : Z;
  PERF_COUNT_HW_CACHE_RESULT_MISS : Z
}.

(** The fields of [perf_event_attr] that are set. *)
Record perf_event_attr := mkAttr {
  attr_type : Z; attr_config : Z; exclude_kernel : bool; exclude_hv : bool; disabled : bool; inherit : bool }.

Definition cache_config (id op result : Z) : Z := Z.lor (Z.lor id (u64 (Z.shiftl op 8))) (u64 (Z.shiftl result 16)).

Definition fill_attr `{PerfAbi} (event : PerfEvent) : perf_event_attr :=
  let '(ty, config) :=
    match event with
    | LLC_CACHE_MISSES => (PERF_TYPE_HARDWARE, PERF_COUNT_HW_CACHE_MISSES)
    | BRANCH_MISSES => (PERF_TYPE_HARDWARE, PERF_COUNT_HW_BRANCH_MISSES)
    | INSTRUCTIONS => (PERF_TYPE_HARDWARE, PERF_COUNT_HW_INSTRUCTIONS)
    | CYCLES => (PERF_TYPE_HARDWARE, PERF_COUNT_HW_CPU_CYCLES)
    | L1_CACHE_MISSES =>
        (PERF_TYPE_HW_CACHE,
         cache_config PERF_COUNT_HW_CACHE_L1D PERF_COUNT_HW_CACHE_OP_READ PERF_COUNT_HW_CACHE_RESULT_MISS)
    | TLB_LOAD_MISSES =>
        (PERF_TYPE_HW_CACHE,
         cache_config PERF_COUNT_HW_CACHE_DTLB PERF_COUNT_HW_CACHE_OP_READ PERF_COUNT_HW_CACHE_RESULT_MISS)
    | TLB_STORE_MISSES =>
        (PERF_TYPE_HW_CACHE,
         cache_config PERF_COUNT_HW_CACHE_DTLB PERF_COUNT_HW_CACHE_OP_WRITE PERF_COUNT_HW_CACHE_RESULT_MISS)
    end in
  mkAttr ty config false true true true.

(** What the kernel keeps of an open counter: what it counts, whether it is
    running, and its value. *)
Record counter := mkCounter { c_attr : perf_event_attr; c_on : bool; c_value : Z }.

Class PerfOs (Os : Type) := {
  (** The open counters, by descriptor. *)
  counters : Os -> gmap Z counter;
  perf_event_open : perf_event_attr -> Z -> Z -> Os -> Z * Os;
  ioc_reset : Z -> Os -> Os;
  ioc_enable : Z -> Os -> Os;
  ioc_disable : Z -> Os -> Os;
  perf_close : Z -> Os -> Os;
  (** [read] of eight bytes: [None] when fewer were read *)
  perf_read : Z -> Os -> option Z
}.

Class PerfOsSpec (Os : Type) `{PerfOs Os} := {
  perf_event_open_ok a pid cpu o fd o' : perf_event_open a pid cpu o = (fd, o') ->
    if 0 <=? fd then counters o !! fd = None /\
                     exists v, counters o' = <[fd := mkCounter a (negb (disabled a)) v]> (counters o)
    else counters o' = counters o;
  ioc_reset_ok fd o :
    counters (ioc_reset fd o) = alter (fun c => mkCounter (c_attr c) (c_on c) 0) fd (counters o);
  ioc_enable_ok fd o :
    counters (ioc_enable fd o) = alter (fun c => mkCounter (c_attr c) true (c_value c)) fd (counters o);
  ioc_disable_ok fd o :
    counters (ioc_disable fd o) = alter (fun c => mkCounter (c_attr c) false (c_value c)) fd (counters o);
  perf_close_ok fd o : counters (perf_close fd o) = delete fd (counters o);
  perf_read_ok fd o : perf_read fd o = c_value <$> counters o !! fd
}.

Record PerfCounter := mkPerfCounter { event_ : PerfEvent; fd_ : Z }.

Section counters.
Context `{PerfAbi} {Os : Type} `{PerfOs Os}.

Definition new_PerfCounter (event : PerfEvent) (cpu pid : Z) (o : Os) : PerfCounter * Os :=
  let '(fd, o) := perf_event_open (fill_attr event) pid cpu o in
  if fd <? 0 then (mkPerfCounter event fd, o) else (mkPerfCounter event fd, ioc_reset fd o).

Definition delete_PerfCounter (c : PerfCounter) (o : Os) : Os := if 0 <=? fd_ c then perf_close (fd_ c) o else o.
Definition start (c : PerfCounter) (o : Os) : Os := if 0 <=? fd_ c then ioc_enable (fd_ c) o else o.
Definition stop (c : PerfCounter) (o : Os) : Os := if 0 <=? fd_ c then ioc_disable (fd_ c) o else o.
Definition read (c : PerfCounter) (o : Os) : Z := if fd_ c <? 0 then 0 else default 0 (perf_read (fd_ c) o).
Definition valid (c : PerfCounter) : bool := 0 <=? fd_ c.

(** [PerfScope] is its [counters_]. *)
Fixpoint open_counters (events : list PerfEvent) (cpu pid : Z) (o : Os) : list PerfCounter * Os :=
  match events with
  | [] => ([], o)
  | e :: events =>
      let '(c, o) := new_PerfCounter e cpu pid o in
      let '(cs, o) := open_counters events cpu pid o in
      (c :: cs, o)
  end.

Definition new_PerfScope (events : list PerfEvent) (cpu pid : Z) (o : Os) : list PerfCounter * Os :=
  let '(cs, o) := open_counters events cpu pid o in
  (cs, foldl (fun o c => start c o) o cs).

(** The destructor stops the counters; destroying [counters_] then closes them. *)
Definition delete_PerfScope (cs : list PerfCounter) (o : Os) : Os :=
  foldl (fun o c => delete_PerfCounter c o) (foldl (fun o c => stop c o) o cs) cs.

Fixpoint count (cs : list PerfCounter) (event : PerfEvent) (o : Os) : Z :=
  match cs with
  | [] => 0
  | c :: cs => if decide (event_ c = event) then read c o else count cs event o
  end.

(** [report]: the lines it prints, and the instructions per cycle if it prints
    them. *)
Definition report (cs : list PerfCounter) (o : Os) : list (string * Z * bool) * option double * Os :=
  let o := foldl (fun o c => stop c o) o cs in
  let lines := (fun c => (perf_event_name (event_ c), read c o, valid c)) <$> cs in
  let last_of e := foldl (fun r c => if decide (event_ c = e) then Some (read c o) else r) None cs in
  let ipc :=
    match last_of INSTRUCTIONS, last_of CYCLES with
    | Some ins, Some cyc => if 0 <? cyc then Some (ddiv (u64_to_double ins) (u64_to_double cyc)) else None
    | _, _ => None
    end in
  (lines, ipc, o).
End counters.

(** ** The life of a scope *)

Section scope.
Context `{PerfAbi} {Os : Type} `{PerfOsSpec Os}.
Implicit Types (o : Os) (c : PerfCounter) (cs : list PerfCounter).

(** The descriptors that were opened. *)
Definition fds cs : list Z := filter (fun fd => 0 <= fd) (fd_ <$> cs).

Lemma elem_of_fds fd cs : fd ∈ fds cs <-> 0 <= fd /\ exists c, c ∈ cs /\ fd_ c = fd.
Proof. unfold fds. rewrite list_elem_of_filter, list_elem_of_fmap. naive_solver. Qed.

Lemma new_PerfCounter_ok e cpu pid o c o' :
  new_PerfCounter e cpu pid o = (c, o') ->
  event_ c = e /\
  if 0 <=? fd_ c then counters o !! fd_ c = None /\ counters o' = <[fd_ c := mkCounter (fill_attr e) false 0]> (counters o)
  else counters o' = counters o.
Proof.
  unfold new_PerfCounter. destruct (perf_event_open _ _ _ o) as [fd o1] eqn:E. apply perf_event_open_ok in E.
  destruct (Z.ltb_spec fd 0) as [Hlt|Hle]; intros [= <- <-]; simpl; (split; [done|]).
  - by rewrite (proj2 (Z.leb_gt _ _)) in E |- * by lia.
  - rewrite (proj2 (Z.leb_le _ _)) in E |- * by lia. destruct E as (Hf & v & Hc). split; [done|].
    rewrite ioc_reset_ok, Hc, alter_insert_eq. by destruct e.
Qed.

(** Opening counters adds fresh ones, stopped and at zero. *)
Lemma open_counters_ok es cpu pid o cs o' :
  open_counters es cpu pid o = (cs, o') ->
  event_ <$> cs = es /\ NoDup (fds cs) /\
  (forall fd, fd ∉ fds cs -> counters o' !! fd = counters o !! fd) /\
  (forall c, c ∈ cs -> 0 <= fd_ c ->
    counters o !! fd_ c = None /\ counters o' !! fd_ c = Some (mkCounter (fill_attr (event_ c)) false 0)).
Proof.
  revert o cs o'. induction es as [|e es IH]; intros o cs o'; simpl.
  { intros [= <- <-]. split_and!; [done|constructor|done|set_solver]. }
  destruct (new_PerfCounter e cpu pid o) as [c o1] eqn:E1. destruct (open_counters es cpu pid o1) as [cs1 o2] eqn:E2.
  intros [= <- <-]. apply new_PerfCounter_ok in E1 as [He E1]. apply IH in E2 as (Hev & Hnd & Hsame & Hfresh).
  assert (fd_ c ∉ fds cs1) as Hc.
  { rewrite elem_of_fds. intros (Hge & c' & Hin & Heq). rewrite (proj2 (Z.leb_le _ _)) in E1 by done.
    destruct (Hfresh c' Hin ltac:(lia)) as [Hf _]. rewrite Heq, (proj2 E1), lookup_insert_eq in Hf. done. }
  assert (fds (c :: cs1) = if 0 <=? fd_ c then fd_ c :: fds cs1 else fds cs1) as Hfds.
  { unfold fds. rewrite fmap_cons, filter_cons. destruct (Z.leb_spec 0 (fd_ c)); case_decide; done || lia. }
  rewrite Hfds. destruct (Z.leb_spec 0 (fd_ c)) as [Hge|Hlt].
  - destruct E1 as [Hf1 Hc1]. split_and!; [by rewrite fmap_cons, He, Hev|by constructor| |].
    + intros fd Hfd. rewrite Hsame, Hc1, lookup_insert_ne by set_solver. done.
    + intros c' [->|Hin]%elem_of_cons Hge'.
      * split; [done|]. by rewrite Hsame, Hc1, lookup_insert_eq, He.
      * destruct (Hfresh c' Hin Hge') as [Hf Hs]. split; [|done].
        rewrite Hc1, lookup_insert_ne in Hf; [done|]. intros Heq. apply Hc, elem_of_fds. eauto.
  - split_and!; [by rewrite fmap_cons, He, Hev|done| |].
    + intros fd Hfd. by rewrite Hsame, E1.
    + intros c' [->|Hin]%elem_of_cons Hge'; [lia|]. rewrite <-E1. auto.
Qed.

(** Applying an operation to each open counter once. *)
Lemma foldl_counters (op : PerfCounter -> Os -> Os) (f : option counter -> option counter) cs o :
  (forall c o fd, counters (op c o) !! fd = if decide (0 <= fd_ c /\ fd = fd_ c) then f (counters o !! fd) else counters o !! fd) ->
  NoDup (fds cs) ->
  forall fd, counters (foldl (fun o c => op c o) o cs) !! fd =
    if decide (fd ∈ fds cs) then f (counters o !! fd) else counters o !! fd.
Proof.
  intros Hop. revert o. induction cs as [|c cs IH]; intros o Hnd fd; [done|].
  assert (fds (c :: cs) = if decide (0 <= fd_ c) then fd_ c :: fds cs else fds cs) as Hfds.
  { unfold fds. by rewrite fmap_cons, filter_cons. }
  rewrite Hfds in *. cbn [foldl]. destruct (decide (0 <= fd_ c)) as [Hge|Hlt].
  - apply NoDup_cons in Hnd as [Hni Hnd]. rewrite IH, Hop by done.
    destruct (decide (fd = fd_ c)) as [->|]; repeat case_decide; set_solver.
  - rewrite IH, Hop by done. repeat case_decide; naive_solver.
Qed.

Lemma start_lookup c o fd :
  counters (start c o) !! fd = if decide (0 <= fd_ c /\ fd = fd_ c)
    then (fun k => mkCounter (c_attr k) true (c_value k)) <$> counters o !! fd else counters o !! fd.
Proof.
  unfold start. destruct (Z.leb_spec 0 (fd_ c)); [|case_decide; [lia|done]].
  rewrite ioc_enable_ok, lookup_alter. repeat case_decide; naive_solver.
Qed.

Lemma stop_lookup c o fd :
  counters (stop c o) !! fd = if decide (0 <= fd_ c /\ fd = fd_ c)
    then (fun k => mkCounter (c_attr k) false (c_value k)) <$> counters o !! fd else counters o !! fd.
Proof.
  unfold stop. destruct (Z.leb_spec 0 (fd_ c)); [|case_decide; [lia|done]].
  rewrite ioc_disable_ok, lookup_alter. repeat case_decide; naive_solver.
Qed.

Lemma close_lookup c o fd :
  counters (delete_PerfCounter c o) !! fd = if decide (0 <= fd_ c /\ fd = fd_ c) then None else counters o !! fd.
Proof.
  unfold delete_PerfCounter. destruct (Z.leb_spec 0 (fd_ c)); [|case_decide; [lia|done]].
  rewrite perf_close_ok, lookup_delete. repeat case_decide; naive_solver.
Qed.

Lemma count_ok cs e o (c : option PerfCounter) :
  head (filter (fun c => event_ c = e) cs) = c ->
  count cs e o = match c with
                 | Some c => if 0 <=? fd_ c then default 0 (c_value <$> counters o !! fd_ c) else 0
                 | None => 0
                 end.
Proof.
  intros <-. induction cs as [|c cs IH]; [done|]. simpl. rewrite filter_cons. case_decide; [|done].
  simpl. unfold read. rewrite perf_read_ok. destruct (Z.ltb_spec (fd_ c) 0), (Z.leb_spec 0 (fd_ c)); done || lia.
Qed.
End scope.

(** ** Properties *)

(** C31: a scope has one counter per requested event; every one the kernel granted
    is a fresh descriptor that counts that event, runs and starts from zero, and no
    other counter is touched; [count] reads the counter of an event and is zero for an event that is absent
    or was refused; destroying the scope later closes exactly its descriptors,
    whatever they counted in between. *)
Theorem perf_scope_correct `{PerfAbi} {Os : Type} `{PerfOsSpec Os} (events : list PerfEvent) (cpu pid : Z)
    (o o1 : Os) (cs : list PerfCounter) :
  new_PerfScope events cpu pid o = (cs, o1) ->
  event_ <$> cs = events /\
  (forall c, c ∈ cs -> 0 <= fd_ c ->
     counters o !! fd_ c = None /\ counters o1 !! fd_ c = Some (mkCounter (fill_attr (event_ c)) true 0)) /\
  (forall fd, fd ∉ fds cs -> counters o1 !! fd = counters o !! fd) /\
  (forall e o2, count cs e o2 =
     match head (filter (fun c => event_ c = e) cs) with
     | Some c => if 0 <=? fd_ c then default 0 (c_value <$> counters o2 !! fd_ c) else 0
     | None => 0
     end) /\
  (forall o2, (forall fd, fd ∉ fds cs -> counters o2 !! fd = counters o !! fd) ->
     counters (delete_PerfScope cs o2) = counters o).
Proof.
  unfold new_PerfScope. destruct (open_counters events cpu pid o) as [cs' o'] eqn:E. intros [= <- <-].
  apply open_counters_ok in E as (Hev & Hnd & Hsame & Hfresh).
  assert (forall c, c ∈ cs' -> 0 <= fd_ c -> fd_ c ∈ fds cs') as Hin by (intros; apply elem_of_fds; eauto).
  split; [done|]. split; [|split; [|split]].
  - intros c Hc Hge. destruct (Hfresh c Hc Hge) as [Hf Hs]. split; [done|].
    rewrite (foldl_counters start _ _ _ start_lookup Hnd), decide_True, Hs by auto. done.
  - intros fd Hfd. rewrite (foldl_counters start _ _ _ start_lookup Hnd), decide_False by done. auto.
  - intros e o2. by apply count_ok.
  - intros o2 Ho2. apply map_eq. intros fd. unfold delete_PerfScope.
    rewrite (foldl_counters delete_PerfCounter (fun _ => None) _ _ close_lookup Hnd).
    rewrite (foldl_counters stop _ _ _ stop_lookup Hnd). case_decide as Hfd; [|by apply Ho2].
    apply elem_of_fds in Hfd as (Hge & c & Hc & <-). symmetry. by apply (Hfresh c Hc).
Qed.

(** ** Witnesses *)

#[export] Instance linux_abi : PerfAbi := {|
  PERF_TYPE_HARDWARE := 0; PERF_TYPE_HW_CACHE := 3;
  PERF_COUNT_HW_CPU_CYCLES := 0; PERF_COUNT_HW_INSTRUCTIONS := 1;
  PERF_COUNT_HW_CACHE_MISSES := 3; PERF_COUNT_HW_BRANCH_MISSES := 5;
  PERF_COUNT_HW_CACHE_L1D := 0; PERF_COUNT_HW_CACHE_DTLB := 3;
  PERF_COUNT_HW_CACHE_OP_READ := 0; PERF_COUNT_HW_CACHE_OP_WRITE := 1;
  PERF_COUNT_HW_CACHE_RESULT_MISS := 1
|}.

(** A kernel that grants counters on the lowest free descriptor from 10 on,
    except for cache events. *)
Definition toy_open (a : perf_event_attr) (m : gmap Z counter) : Z * gmap Z counter :=
  let fd := 10 + Z.of_nat (size m) in
  if (attr_type a =? 3) || bool_decide (is_Some (m !! fd)) then (-1, m)
  else (fd, <[fd := mkCounter a (negb (disabled a)) 7]> m).

#[export] Instance toy_perf : PerfOs (gmap Z counter) := {|
  counters m := m;
  perf_event_open a _ _ m := toy_open a m;
  ioc_reset fd m := alter (fun c => mkCounter (c_attr c) (c_on c) 0) fd m;
  ioc_enable fd m := alter (fun c => mkCounter (c_attr c) true (c_value c)) fd m;
  ioc_disable fd m := alter (fun c => mkCounter (c_attr c) false (c_value c)) fd m;
  perf_close fd m := delete fd m;
  perf_read fd m := c_value <$> m !! fd
|}.

#[export] Instance toy_perf_spec : PerfOsSpec (gmap Z counter).
Proof.
  split; simpl; try done. intros a _ _ m fd m'. unfold toy_open. case_match eqn:E; intros [= <- <-]; [done|].
  rewrite (proj2 (Z.leb_le _ _)) by lia. apply orb_false_iff in E as [_ E%bool_decide_eq_false].
  split; [by apply eq_None_not_Some|eauto].
Qed.

Lemma perf_scope_correct_witness :
  exists cs o, new_PerfScope [CYCLES; TLB_LOAD_MISSES; INSTRUCTIONS] (-1) 0 (∅ : gmap Z counter) = (cs, o) /\
    count cs TLB_LOAD_MISSES o = 0 /\ delete_PerfScope cs o = ∅.
Proof.
  destruct (new_PerfScope [CYCLES; TLB_LOAD_MISSES; INSTRUCTIONS] (-1) 0 (∅ : gmap Z counter)) as [cs o] eqn:E.
  destruct (perf_scope_correct [CYCLES; TLB_LOAD_MISSES; INSTRUCTIONS] (-1) 0 (∅ : gmap Z counter) o cs E)
    as (_ & _ & Hsame & Hcount & Hdel).
  exists cs, o. split; [reflexivity|]. split.
  - rewrite Hcount. vm_compute in E. injection E as <- <-. reflexivity.
  - apply Hdel. exact Hsame.
Defined.
