(* ===== verification/WorkerPool.v ===== *)
(** * The worker pool (include/worker_pool.h, src/worker_pool.cpp)

    Each worker thread polls one queue of the distributor, hands every packet to
    the callback and releases its buffer.  A worker is a program counter and its
    local iteration count; [worker_step] is one step of its loop, which touches
    the shared pool, queues and counters at most once, so that interleavings of
    steps are the interleavings of the threads.  The callback is the user's: what
    it is called with is appended to [calls].  Pinning and scheduling calls have
    no effect on this state; [worker_setup] is what they report. *)

From S2P Require Import Prelude SpscRing PoolIface PacketParser Rss BatchProcessor.
From stdpp Require Import base list_numbers gmap option list strings.
#[local] Open Scope Z_scope.

Record WorkerConfig := mkWorkerConfig { cpu_core : Z; numa_node : Z; queue_index : Z; name : string }.

Record WorkerStats := mkWorkerStats { w_processed : Z; w_dropped : Z; w_idle : Z }.

(** Before [pop]; a buffer was popped; its callback has returned; at the end of
    an iteration; after the loop. *)
Inductive worker_pc :=
  | WPop
  | WGot (b : Z)
  | WCalled (b : Z)
  | WNext
  | WExited.

Record thread := mkThread { w_pc : worker_pc; iters : Z }.

(** A call of the callback: the queue, the buffer, what was parsed and the bytes
    of the frame. *)
Record call := mkCall { c_queue : Z; c_buf : Z; c_pkt : ParsedPacket; c_bytes : list Z }.

Record WorkerPool (P : Type) := mkWorkers {
  wp_rss : RSSDistributor Z;
  wp_pool : P;
  configs_ : list WorkerConfig;
  wstats_ : list WorkerStats;
  threads_ : list thread;
  stop_ : bool;
  calls : list call
}.
Arguments mkWorkers {P}.
Arguments wp_rss {P}.
Arguments wp_pool {P}.
Arguments configs_ {P}.
Arguments wstats_ {P}.
Arguments threads_ {P}.
Arguments stop_ {P}.
Arguments calls {P}.

Section workers.
Context {P : Type} `{PoolOps P}.
Implicit Types (s : WorkerPool P).

(** The start of [worker_loop]: what it reports when the thread cannot be pinned or
    given real-time priority, and the name it gives the thread.  Neither failure
    ends it.  The arguments are the results of the two calls. *)
Inductive worker_message :=
  | PinFailed (worker : string) (core : Z)
  | FifoDenied (worker : string).

Definition worker_setup (config : WorkerConfig) (setaffinity setschedparam : Z) : list worker_message * string :=
  ((if setaffinity =? 0 then [] else [PinFailed (name config) (cpu_core config)]) ++
   (if setschedparam =? 0 then [] else [FifoDenied (name config)]),
   String.substring 0 15 (name config)).

Definition new_WorkerPool (rss : RSSDistributor Z) (pool : P) (configs : list WorkerConfig) : WorkerPool P :=
  mkWorkers rss pool configs (replicate (length configs) (mkWorkerStats 0 0 0))
    (replicate (length configs) (mkThread WPop 0)) false [].

Definition set_thread (i : Z) (pc : worker_pc) (n : Z) s : option (WorkerPool P) :=
  ts ← aset (threads_ s) i (mkThread pc n);
  Some (mkWorkers (wp_rss s) (wp_pool s) (configs_ s) (wstats_ s) ts (stop_ s) (calls s)).

Definition upd_stats (i : Z) (f : WorkerStats -> WorkerStats) s : option (WorkerPool P) :=
  st ← aget (wstats_ s) i;
  sts ← aset (wstats_ s) i (f st);
  Some (mkWorkers (wp_rss s) (wp_pool s) (configs_ s) sts (threads_ s) (stop_ s) (calls s)).

Definition set_rss (rss : RSSDistributor Z) s : WorkerPool P :=
  mkWorkers rss (wp_pool s) (configs_ s) (wstats_ s) (threads_ s) (stop_ s) (calls s).

Definition set_pool (p : P) s : WorkerPool P :=
  mkWorkers (wp_rss s) p (configs_ s) (wstats_ s) (threads_ s) (stop_ s) (calls s).

Definition add_call (c : call) s : WorkerPool P :=
  mkWorkers (wp_rss s) (wp_pool s) (configs_ s) (wstats_ s) (threads_ s) (stop_ s) (calls s ++ [c]).

(** One step of [worker_loop] of worker [i]. *)
Definition worker_step (i : Z) s : option (WorkerPool P) :=
  config ← aget (configs_ s) i;
  t ← aget (threads_ s) i;
  match w_pc t with
  | WPop =>
      '(item, rss) ← pop_from (wp_rss s) (queue_index config);
      match item with
      | Some b => set_thread i (WGot b) (iters t) (set_rss rss s)
      | None =>
          s ← upd_stats i (fun st => mkWorkerStats (w_processed st) (w_dropped st) (u64 (w_idle st + 1))) (set_rss rss s);
          set_thread i WNext (iters t) s
      end
  | WGot b =>
      m ← buf_mem b (wp_pool s);
      len ← buf_len b (wp_pool s);
      parsed ← parse m len;
      set_thread i (WCalled b) (iters t) (add_call (mkCall (queue_index config) b parsed (take (Z.to_nat len) m)) s)
  | WCalled b =>
      p ← release b (wp_pool s);
      s ← upd_stats i (fun st => mkWorkerStats (u64 (w_processed st + 1)) (w_dropped st) (w_idle st)) (set_pool p s);
      set_thread i WNext (iters t) s
  | WNext =>
      let n := u64 (iters t + 1) in
      set_thread i (if (n mod 1000 =? 0) && stop_ s then WExited else WPop) n s
  | WExited => Some s
  end.

(** The search of [record_drop], from worker [i] on. *)
Fixpoint drop_index (configs : list WorkerConfig) (queue : Z) (i : Z) : option Z :=
  match configs with
  | [] => None
  | c :: configs => if queue_index c =? queue then Some i else drop_index configs queue (i + 1)
  end.

Definition record_drop (queue : Z) s : option (WorkerPool P) :=
  match drop_index (configs_ s) queue 0 with
  | Some i => upd_stats i (fun st => mkWorkerStats (w_processed st) (u64 (w_dropped st + 1)) (w_idle st)) s
  | None => Some s
  end.

(** [stop] sets the flag; [join] returns when every thread has exited. *)
Definition request_stop s : WorkerPool P :=
  mkWorkers (wp_rss s) (wp_pool s) (configs_ s) (wstats_ s) (threads_ s) true (calls s).

Definition joined s : bool :=
  forallb (fun t => match w_pc t with WExited => true | _ => false end) (threads_ s).

(** [print_stats]: a line per worker and the totals. *)
Definition print_stats s : list (string * WorkerStats) * WorkerStats :=
  (zip (name <$> configs_ s) (wstats_ s),
   foldl (fun a st => mkWorkerStats (u64 (w_processed a + w_processed st)) (u64 (w_dropped a + w_dropped st))
                        (u64 (w_idle a + w_idle st))) (mkWorkerStats 0 0 0) (wstats_ s)).

(** The thread's name is within the 15 characters the system accepts. *)
Lemma thread_name_fits config r1 r2 : (String.length (snd (worker_setup config r1 r2)) <= 15)%nat.
Proof.
  cbn. assert (forall n (str : string), (String.length (String.substring 0 n str) <= n)%nat) as Hs; [|apply Hs].
  induction n as [|n IH]; intros [|c str]; simpl; [lia..|]. specialize (IH str). lia.
Qed.

(** ** Leaving the loop *)

(** A bound on the steps of a thread before it exits once [stop_] is set: the
    flag is read every 1000 iterations, and an iteration has up to four steps. *)
Definition loop_left (t : thread) : Z :=
  match w_pc t with
  | WPop => 4 * (999 - iters t mod 1000) + 4
  | WGot _ => 4 * (999 - iters t mod 1000) + 3
  | WCalled _ => 4 * (999 - iters t mod 1000) + 2
  | WNext => 4 * (999 - iters t mod 1000) + 1
  | WExited => 0
  end.

Lemma loop_left_bound t : 0 <= loop_left t <= 4000.
Proof. unfold loop_left. pose proof (Z.mod_pos_bound (iters t) 1000 ltac:(lia)). destruct (w_pc t); lia. Qed.

Lemma loop_left_0 t : loop_left t = 0 -> w_pc t = WExited.
Proof. unfold loop_left. pose proof (Z.mod_pos_bound (iters t) 1000 ltac:(lia)). destruct (w_pc t); (done || lia). Qed.

(** The end of an iteration with [stop_] set: the thread exits or gets nearer. *)
Lemma loop_left_next m :
  is_u64 m ->
  let n := u64 (m + 1) in
  loop_left (mkThread (if (n mod 1000 =? 0) && true then WExited else WPop) n) < 4 * (999 - m mod 1000) + 1.
Proof.
  intros Hm n. pose proof (Z.mod_pos_bound m 1000 ltac:(lia)). rewrite andb_true_r. unfold loop_left. simpl.
  destruct (Z.eqb_spec (n mod 1000) 0) as [|Hn]; [lia|]. unfold n in *.
  destruct (decide (m + 1 = 2 ^ 64)) as [E|]; [rewrite E in Hn; by destruct Hn|].
  rewrite u64_id in Hn |- * by (unfold is_u64 in *; lia). rewrite Z.add_mod in Hn |- * by lia. change (1 mod 1000) with 1 in *.
  destruct (decide (m mod 1000 = 999)) as [E|]; [by rewrite E in Hn|]. rewrite Z.mod_small by lia. lia.
Qed.

Lemma set_thread_inv i pc m s s' :
  set_thread i pc m s = Some s' ->
  threads_ s' = <[Z.to_nat i := mkThread pc m]> (threads_ s) /\ stop_ s' = stop_ s.
Proof. unfold set_thread. intros Hs. apply bind_Some in Hs as (ts & Ht & Hs). injection Hs as <-. by apply aset_inv in Ht as [_ ->]. Qed.

Lemma upd_stats_inv i f s s' : upd_stats i f s = Some s' -> threads_ s' = threads_ s /\ stop_ s' = stop_ s.
Proof.
  unfold upd_stats. intros Hs. apply bind_Some in Hs as (st & _ & Hs). apply bind_Some in Hs as (sts & _ & Hs). by injection Hs as <-.
Qed.

Lemma record_drop_inv q s s' : record_drop q s = Some s' -> threads_ s' = threads_ s /\ stop_ s' = stop_ s.
Proof. unfold record_drop. case_match; [apply upd_stats_inv|by intros [= <-]]. Qed.

(** A step of worker [i] changes its own thread only, and with [stop_] set
    brings it nearer to its exit. *)
Lemma worker_step_left i s s' :
  worker_step i s = Some s' ->
  exists t t', threads_ s !! Z.to_nat i = Some t /\ threads_ s' = <[Z.to_nat i := t']> (threads_ s) /\ stop_ s' = stop_ s /\
    (is_u64 (iters t) -> is_u64 (iters t') /\ (stop_ s = true -> loop_left t' <= Z.max 0 (loop_left t - 1))).
Proof.
  unfold worker_step. intros Hs. apply bind_Some in Hs as (c & _ & Hs). apply bind_Some in Hs as (t & Ht & Hs).
  apply aget_Some in Ht as [_ Ht]. exists t. unfold loop_left at 2. destruct (w_pc t) as [|b|b| |] eqn:E.
  - apply bind_Some in Hs as ([[b|] rss] & _ & Hs).
    + apply set_thread_inv in Hs as [-> ->]. eexists. split_and!; try done. intros ?. split; [done|]. unfold loop_left; simpl. lia.
    + apply bind_Some in Hs as (s1 & Hu & Hs). apply upd_stats_inv in Hu as [H1 H2]. apply set_thread_inv in Hs as [-> ->].
      rewrite H1, H2. eexists. split_and!; try done. intros ?. split; [done|]. unfold loop_left; simpl. lia.
  - do 3 (apply bind_Some in Hs as (? & _ & Hs)). apply set_thread_inv in Hs as [-> ->].
    eexists. split_and!; try done. intros ?. split; [done|]. unfold loop_left; simpl. lia.
  - apply bind_Some in Hs as (p & _ & Hs). apply bind_Some in Hs as (s1 & Hu & Hs).
    apply upd_stats_inv in Hu as [H1 H2]. apply set_thread_inv in Hs as [-> ->].
    rewrite H1, H2. eexists. split_and!; try done. intros ?. split; [done|]. unfold loop_left; simpl. lia.
  - apply set_thread_inv in Hs as [-> ->]. eexists. split_and!; try done. intros Hm. split; [apply u64_range|].
    intros ->. pose proof (loop_left_next _ Hm) as Hl. cbv zeta in Hl |- *. lia.
  - injection Hs as <-. exists t. split_and!; try done; [by rewrite list_insert_id|]. intros ?. split; [done|].
    intros _. unfold loop_left. rewrite E. lia.
Qed.
End workers.
