(* ===== verification/Pipeline.v ===== *)
(** * The multi-queue capture program (src/multiqueue_capture.cpp)

    The capture thread takes frames off the packet ring, copies each into a pool
    buffer and pushes it to the queue of its flow; the workers drain the queues.
    [capture_step] is one step of the capture loop and [worker_step]
    (WorkerPool.v) one of a worker; every step performs at most one operation on
    the queues, the free stack or the frame ring, which the theorems about those
    components show to be atomic.  [pipe_step] interleaves the capture thread, the
    workers and the kernel in every possible way.  The clock, the periodic
    output and the signal that ends the loop are left out. *)

From S2P Require Import Prelude SpscRing OsMem HugeAlloc NumaUtil PoolIface BufferPool PacketParser Rss BatchProcessor PacketRing WorkerPool.
From stdpp Require Import base list_numbers gmap option strings list.
#[local] Open Scope Z_scope.

Definition kQueues : Z := 4.

(** Before [receive]; a frame was received; a buffer was acquired for it; its
    queue is known; the queue was full; the frame is to be released.  [bs] are
    the bytes that were copied. *)
Inductive capture_pc :=
  | CPoll
  | CFrame (fr : RxFrame)
  | CCopy (b : Z) (fr : RxFrame)
  | CPush (b q : Z) (bs : list Z)
  | CFull (b q : Z)
  | CRelease.

(** [pl_cursor] is the kernel's position in the ring; [pl_published] and
    [pl_accepted] record the frames it published and those pushed, with their
    queue. *)
Record pipeline (P : Type) := mkPipeline {
  pl_workers : WorkerPool P;
  pl_ring : PacketRing;
  pl_shm : list slot;
  pl_capture : capture_pc;
  pl_cursor : Z;
  pl_published : list slot;
  pl_accepted : list (Z * list Z)
}.
Arguments mkPipeline {P}.
Arguments pl_workers {P}.
Arguments pl_ring {P}.
Arguments pl_shm {P}.
Arguments pl_capture {P}.
Arguments pl_cursor {P}.
Arguments pl_published {P}.
Arguments pl_accepted {P}.

Section pipeline.
Context {P : Type} `{PoolOps P}.
Context (TP_STATUS_KERNEL TP_STATUS_USER TP_STATUS_LOSING : Z).
Implicit Types (s : pipeline P) (w : WorkerPool P).

Definition queue_for (rss : RSSDistributor Z) (m : list Z) (p : ParsedPacket) : option Z :=
  if has_udp p then
    si ← src_ip m (ip p); di ← dst_ip m (ip p);
    sp ← src_port m (udp p); dp ← dst_port m (udp p);
    hash rss si di sp dp
  else if has_ip p then
    si ← src_ip m (ip p); di ← dst_ip m (ip p);
    hash rss si di 0 0
  else Some 0.

(** [memcpy] from the ring slot to the buffer, the parse and the choice of the
    queue: the pool, the queue and the bytes copied. *)
Definition fill_buffer (rss : RSSDistributor Z) (r : PacketRing) (shm : list slot) (b : Z) (fr : RxFrame) (p : P) :
    option (P * Z * list Z) :=
  capacity ← buf_capacity b p;
  let n := if captured_len fr <? capacity then captured_len fr else capacity in
  src ← rx_mem r shm (PacketRing.data fr);
  bs ← rd_bytes src 0 n;
  p ← buf_store b 0 bs p;
  p ← buf_set_len b n p;
  m ← buf_mem b p;
  len ← buf_len b p;
  parsed ← parse m len;
  q ← queue_for rss m parsed;
  Some (p, q, bs).

Definition capture_step s : option (pipeline P) :=
  let w := pl_workers s in
  let upd w r shm pc acc := mkPipeline w r shm pc (pl_cursor s) (pl_published s) acc in
  match pl_capture s with
  | CPoll =>
      '(fr, r) ← receive TP_STATUS_USER TP_STATUS_LOSING (pl_ring s) (pl_shm s);
      Some (upd w r (pl_shm s) (match fr with Some fr => CFrame fr | None => CPoll end) (pl_accepted s))
  | CFrame fr =>
      '(b, p) ← acquire (wp_pool w);
      Some (upd (set_pool p w) (pl_ring s) (pl_shm s)
              (match b with Some b => CCopy b fr | None => CRelease end) (pl_accepted s))
  | CCopy b fr =>
      '(p, q, bs) ← fill_buffer (wp_rss w) (pl_ring s) (pl_shm s) b fr (wp_pool w);
      Some (upd (set_pool p w) (pl_ring s) (pl_shm s) (CPush b q bs) (pl_accepted s))
  | CPush b q bs =>
      '(ok, rss) ← push_to (wp_rss w) q b;
      Some (upd (set_rss rss w) (pl_ring s) (pl_shm s) (if ok : bool then CRelease else CFull b q)
              (if ok then pl_accepted s ++ [(q, bs)] else pl_accepted s))
  | CFull b q =>
      w ← record_drop q w;
      p ← PoolIface.release b (wp_pool w);
      Some (upd (set_pool p w) (pl_ring s) (pl_shm s) CRelease (pl_accepted s))
  | CRelease =>
      '(r, shm) ← PacketRing.release TP_STATUS_KERNEL (pl_ring s) (pl_shm s);
      Some (upd w r shm CPoll (pl_accepted s))
  end.

(** The start of [main]: the ring and the workers have been constructed. *)
Definition start_pipeline (w : WorkerPool P) (r : PacketRing) (shm : list slot) : pipeline P :=
  mkPipeline w r shm CPoll 0 [] [].

(** The configuration [main] builds. *)
Definition main_configs : list WorkerConfig :=
  [mkWorkerConfig 0 (-1) 0 "worker0"; mkWorkerConfig 2 (-1) 1 "worker1";
   mkWorkerConfig 4 (-1) 2 "worker2"; mkWorkerConfig 6 (-1) 3 "worker3"].

Definition set_workers s w : pipeline P :=
  mkPipeline w (pl_ring s) (pl_shm s) (pl_capture s) (pl_cursor s) (pl_published s) (pl_accepted s).

Inductive pipe_step : pipeline P -> pipeline P -> Prop :=
| step_kernel w r shm pc K pub acc f shm' :
    slot_ok TP_STATUS_USER f -> bytes_ok (slot_mem f) -> publish TP_STATUS_USER K f shm = Some shm' ->
    pipe_step (mkPipeline w r shm pc K pub acc)
              (mkPipeline w r shm' pc ((K + 1) mod total_frames_ r) (pub ++ [f]) acc)
| step_capture s s' : capture_step s = Some s' -> pipe_step s s'
| step_worker i s w' : worker_step i (pl_workers s) = Some w' -> pipe_step s (set_workers s w')
| step_stop s : pipe_step s (set_workers s (request_stop (pl_workers s))).
End pipeline.

(** ** The invariant *)

Definition capture_bufs (pc : capture_pc) : list Z :=
  match pc with CCopy b _ | CPush b _ _ | CFull b _ => [b] | _ => [] end.

Definition thread_bufs (t : thread) : list Z :=
  match w_pc t with WGot b | WCalled b => [b] | _ => [] end.

(** A worker that has popped a buffer but not called the callback yet. *)
Definition thread_pending (t : thread) : list Z :=
  match w_pc t with WGot b => [b] | _ => [] end.

(** The bytes of a published frame that fit into a buffer of [sz] bytes. *)
Definition clip (sz : Z) (f : slot) : list Z :=
  take (Z.to_nat (Z.min (tp_snaplen f) sz)) (drop (Z.to_nat (tp_mac f)) (slot_mem f)).

(** [fl] is the flow of the frame [bs] when [rest] follows it in memory. *)
Definition frame_flow (bs rest : list Z) (fl : option (Z * Z * Z * Z)) : Prop :=
  exists pkt, parse (bs ++ rest) (Z.of_nat (length bs)) = Some pkt /\ flow_of (bs ++ rest) pkt = Some fl.

(** A frame is in the queue of its flow.  Every frame whose headers, as the
    parser reads them, lie in the frame is in the queue its own bytes say, and
    those of [MAX_HEADERS] bytes or more always are such frames.  The parser
    reads behind the end of a shorter one, into what the buffer held before:
    its queue is that of the flow it then sees. *)
Definition assigned (n : Z) (x : Z * list Z) : Prop :=
  0 <= x.1 < n /\
  (forall fl, frame_flow x.2 [] fl -> x.1 = flow_queue n fl) /\
  (MAX_HEADERS <= Z.of_nat (length x.2) -> exists fl, frame_flow x.2 [] fl) /\
  exists rest fl, frame_flow x.2 rest fl /\ x.1 = flow_queue n fl.

(** The frames accepted for queue [i], and those its callback has seen. *)
Definition accepted_by (i : Z) (acc : list (Z * list Z)) : list (list Z) := snd <$> filter (fun x => x.1 = i) acc.
Definition called_by (i : Z) (cs : list call) : list (list Z) := c_bytes <$> filter (fun c => c_queue c = i) cs.

Section invariant.
Context {P : Type} `{PoolBytes P}.
Context (USER n N sz : Z).
Implicit Types (s : pipeline P) (w : WorkerPool P) (p : P).

Definition frame_at p (b : Z) : list Z :=
  match buf_len b p with Some l => take (Z.to_nat l) (content p b) | None => [] end.

Definition framed p (b : Z) : Prop := exists l, buf_len b p = Some l /\ 0 <= l <= buf_size p.

Definition in_use (pc : capture_pc) (qs : list (list Z)) (ts : list thread) : list Z :=
  capture_bufs pc ++ concat qs ++ concat (thread_bufs <$> ts).

(** What the capture thread has in hand: the frame at the head of the ring, and
    its bytes once they are copied. *)
Definition capture_inv (pc : capture_pc) p (r : PacketRing) (q : list slot) : Prop :=
  match pc with
  | CPoll => True
  | CFrame fr | CCopy _ fr =>
      exists f, head q = Some f /\
        fr = mkRxFrame (ring_ r + current_frame_ r * kFrameSize + tp_mac f) (tp_len f) (tp_snaplen f)
  | CPush b i bs => (exists f, head q = Some f /\ bs = clip sz f) /\ frame_at p b = bs /\ framed p b /\ assigned n (i, bs)
  | CFull b i => is_Some (head q) /\ 0 <= i < n
  | CRelease => is_Some (head q)
  end.

(** The frames the capture thread is done with. *)
Definition taken (pc : capture_pc) (done : list slot) (q : list slot) : list slot :=
  done ++ match pc with CRelease => take 1 q | _ => [] end.

Record workers_inv w (pc : capture_pc) (qs : list (list Z)) (acc : list (Z * list Z)) : Prop := {
  wi_rss : rss_ok n (wp_rss w) qs;
  wi_configs : length (configs_ w) = length qs;
  wi_queue : forall i c, configs_ w !! i = Some c -> queue_index c = Z.of_nat i;
  wi_threads : length (threads_ w) = length qs;
  wi_stats : length (wstats_ w) = length qs;
  wi_nodup : NoDup (in_use pc qs (threads_ w));
  wi_pool : pool_ok (wp_pool w) (list_to_set (in_use pc qs (threads_ w)));
  wi_bytes : pool_bytes (wp_pool w);
  wi_size : buf_size (wp_pool w) = sz;
  wi_fifo : forall i q t, qs !! i = Some q -> threads_ w !! i = Some t ->
    Forall (framed (wp_pool w)) (thread_pending t ++ q) /\
    called_by (Z.of_nat i) (calls w) ++ (frame_at (wp_pool w) <$> (thread_pending t ++ q)) = accepted_by (Z.of_nat i) acc
}.

Record pipe_inv s : Prop := {
  pi_sz : MAX_HEADERS <= sz;
  pi_workers : exists qs, workers_inv (pl_workers s) (pl_capture s) qs (pl_accepted s);
  pi_ring : exists done q,
    rx_rep USER N (pl_ring s) (pl_shm s) (pl_cursor s) q /\ pl_published s = done ++ q /\
    capture_inv (pl_capture s) (wp_pool (pl_workers s)) (pl_ring s) q /\
    Forall (fun f => bytes_ok (slot_mem f)) q /\
    (snd <$> pl_accepted s) `sublist_of` (clip sz <$> taken (pl_capture s) done q);
  pi_assigned : Forall (assigned n) (pl_accepted s)
}.

(** ** Bookkeeping *)

Lemma elem_of_queue (qs : list (list Z)) i q b : qs !! i = Some q -> b ∈ q -> b ∈ concat qs.
Proof. intros Hi Hb. apply list_elem_of_In, in_concat. exists q. split; apply list_elem_of_In; [|done]. by eapply list_elem_of_lookup_2. Qed.

Lemma pending_in_use pc qs ts i q t b :
  qs !! i = Some q -> ts !! i = Some t -> b ∈ thread_pending t ++ q -> b ∈ in_use pc qs ts.
Proof.
  intros Hq Ht Hb. unfold in_use. rewrite !elem_of_app. right. apply elem_of_app in Hb as [Hb|Hb].
  - right. apply (elem_of_queue _ i (thread_bufs t)); [by rewrite list_lookup_fmap, Ht|].
    unfold thread_pending, thread_bufs in *. destruct (w_pc t); set_solver.
  - left. by eapply elem_of_queue.
Qed.

Lemma frame_at_same p p' X b : pool_frame p p' X -> b ∈ X -> frame_at p' b = frame_at p b /\ (framed p b -> framed p' b).
Proof.
  intros [Hs _ Hf] Hb. destruct (Hf b Hb) as [Hc Hl]. unfold frame_at, framed. rewrite Hc, Hl, Hs. done.
Qed.

Lemma frames_same p p' X bs :
  pool_frame p p' X -> (forall b, b ∈ bs -> b ∈ X) ->
  (frame_at p' <$> bs) = (frame_at p <$> bs) /\ (Forall (framed p) bs -> Forall (framed p') bs).
Proof.
  intros F Hbs. split.
  - apply list_fmap_ext. intros i b Hb. apply (frame_at_same p p' X); [done|]. by eapply Hbs, list_elem_of_lookup_2.
  - intros Hf. apply Forall_forall. intros b Hb. apply (frame_at_same p p' X); [done|by apply Hbs|].
    by eapply Forall_forall in Hf.
Qed.

Lemma called_by_app i cs c : called_by i (cs ++ [c]) = called_by i cs ++ (if decide (c_queue c = i) then [c_bytes c] else []).
Proof. unfold called_by. rewrite filter_app, fmap_app. f_equal. rewrite filter_cons. by case_decide. Qed.

Lemma accepted_by_app i acc x : accepted_by i (acc ++ [x]) = accepted_by i acc ++ (if decide (x.1 = i) then [x.2] else []).
Proof. unfold accepted_by. rewrite filter_app, fmap_app. f_equal. rewrite filter_cons. by case_decide. Qed.

(** A step of worker [i] that moves its own queue and thread only. *)
Lemma workers_inv_update w w' pc qs acc i q' t' :
  workers_inv w pc qs acc -> (i < length qs)%nat ->
  rss_ok n (wp_rss w') (<[i := q']> qs) -> configs_ w' = configs_ w -> threads_ w' = <[i := t']> (threads_ w) ->
  length (wstats_ w') = length (wstats_ w) ->
  NoDup (in_use pc (<[i := q']> qs) (threads_ w')) ->
  pool_ok (wp_pool w') (list_to_set (in_use pc (<[i := q']> qs) (threads_ w'))) -> pool_bytes (wp_pool w') ->
  pool_frame (wp_pool w) (wp_pool w') (list_to_set (in_use pc (<[i := q']> qs) (threads_ w'))) ->
  (forall j, j <> i -> called_by (Z.of_nat j) (calls w') = called_by (Z.of_nat j) (calls w)) ->
  Forall (framed (wp_pool w')) (thread_pending t' ++ q') /\
    called_by (Z.of_nat i) (calls w') ++ (frame_at (wp_pool w') <$> (thread_pending t' ++ q')) = accepted_by (Z.of_nat i) acc ->
  workers_inv w' pc (<[i := q']> qs) acc.
Proof.
  intros I Hi Hrss Hcfg Hts Hst Hnd Hpool Hbytes Hframe Hother Hown. split; try done.
  - rewrite Hcfg, length_insert. apply I.
  - rewrite Hcfg. apply I.
  - rewrite Hts, !length_insert. apply I.
  - rewrite Hst, length_insert. apply I.
  - rewrite (pf_size _ _ _ Hframe). apply I.
  - intros j q t Hq Ht. rewrite Hts, list_lookup_insert in Ht. rewrite list_lookup_insert in Hq. pose proof (wi_threads _ _ _ _ I).
    destruct (decide (i = j)) as [<-|Hne].
    + rewrite decide_True in Hq by lia. rewrite decide_True in Ht by lia. simplify_eq. done.
    + rewrite decide_False in Hq by lia. rewrite decide_False in Ht by lia. rewrite Hother by done.
      destruct (wi_fifo _ _ _ _ I j q t Hq Ht) as [Hf He].
      destruct (frames_same _ _ _ (thread_pending t ++ q) Hframe) as [-> Hfr]; [|auto].
      intros b Hb. apply elem_of_list_to_set. rewrite Hts.
      eapply (pending_in_use _ _ _ j); [| |exact Hb]; rewrite list_lookup_insert, decide_False by lia; done.
Qed.

Lemma in_use_update pc qs ts k q t :
  qs !! k = Some q -> ts !! k = Some t ->
  exists R, in_use pc qs ts ≡ₚ (q ++ thread_bufs t) ++ R /\
    forall q' t', in_use pc (<[k := q']> qs) (<[k := t']> ts) ≡ₚ (q' ++ thread_bufs t') ++ R.
Proof.
  intros Hq Ht. destruct (concat_insert _ _ _ Hq) as (RQ & HQ & HQ').
  destruct (concat_insert (thread_bufs <$> ts) k (thread_bufs t)) as (RT & HT & HT'); [by rewrite list_lookup_fmap, Ht|].
  exists (capture_bufs pc ++ RQ ++ RT). unfold in_use.
  assert (forall a b, capture_bufs pc ++ (a ++ RQ) ++ b ++ RT ≡ₚ (a ++ b) ++ capture_bufs pc ++ RQ ++ RT) as Hmove.
  { intros a b. rewrite (Permutation_app_comm a RQ), (Permutation_app_comm (a ++ b)), <-!app_assoc. do 2 f_equiv.
    rewrite !app_assoc, (Permutation_app_comm (a ++ b)). by rewrite app_assoc. }
  split; [by rewrite HQ, HT|]. intros q' t'. by rewrite list_fmap_insert, HQ', HT'.
Qed.

Section worker.
Context (w : WorkerPool P) (pc : capture_pc) (qs : list (list Z)) (acc : list (Z * list Z)).
Context (I : workers_inv w pc qs acc).
Context (k : nat) (q : list Z) (t : thread) (c : WorkerConfig).
Context (Hq : qs !! k = Some q) (Ht : threads_ w !! k = Some t) (Hc : configs_ w !! k = Some c).

Lemma worker_index : (k < length qs)%nat /\ queue_index c = Z.of_nat k /\ 0 <= Z.of_nat k < n.
Proof.
  pose proof (lookup_lt_Some _ _ _ Hq). split; [done|]. split; [by apply (wi_queue _ _ _ _ I)|].
  rewrite <-(rss_len _ _ _ (wi_rss _ _ _ _ I)). lia.
Qed.

Lemma set_thread_ok pc' m (w' : WorkerPool P) :
  threads_ w' = threads_ w ->
  set_thread (Z.of_nat k) pc' m w' =
    Some (mkWorkers (wp_rss w') (wp_pool w') (configs_ w') (wstats_ w') (<[k := mkThread pc' m]> (threads_ w)) (stop_ w') (calls w')).
Proof.
  intros Hts. unfold set_thread. pose proof (lookup_lt_Some _ _ _ Ht). rewrite Hts, aset_Some by lia. by rewrite Nat2Z.id.
Qed.

Lemma upd_stats_ok f (w' : WorkerPool P) :
  wstats_ w' = wstats_ w -> exists sts, length sts = length (wstats_ w) /\
    upd_stats (Z.of_nat k) f w' =
      Some (mkWorkers (wp_rss w') (wp_pool w') (configs_ w') sts (threads_ w') (stop_ w') (calls w')).
Proof.
  intros Hst. pose proof (wi_stats _ _ _ _ I). destruct worker_index as [Hk _]. unfold upd_stats. rewrite Hst.
  destruct (aget_is_Some (wstats_ w) (Z.of_nat k)) as [st Hs]; [lia|]. rewrite Hs. simpl. rewrite aset_Some by lia. simpl.
  eexists. split; [|done]. by rewrite length_insert.
Qed.

(** The worker goes from [t] to [t'] and its queue from [q] to [q'], the buffers
    moving between them at most. *)
Lemma worker_moves w' q' t' :
  rss_ok n (wp_rss w') (<[k := q']> qs) -> wp_pool w' = wp_pool w -> configs_ w' = configs_ w -> calls w' = calls w ->
  length (wstats_ w') = length (wstats_ w) -> threads_ w' = <[k := t']> (threads_ w) ->
  q' ++ thread_bufs t' ≡ₚ q ++ thread_bufs t -> thread_pending t' ++ q' = thread_pending t ++ q ->
  exists qs', workers_inv w' pc qs' acc /\ pool_frame (wp_pool w) (wp_pool w') (list_to_set (capture_bufs pc)).
Proof.
  intros Hrss Hp Hcf Hcl Hst Hts Hb Hpend. destruct worker_index as (Hk & _). exists (<[k := q']> qs).
  destruct (in_use_update pc qs (threads_ w) k q t Hq Ht) as (R & HR & HR').
  assert (in_use pc (<[k := q']> qs) (threads_ w') ≡ₚ in_use pc qs (threads_ w)) as Hperm.
  { by rewrite Hts, HR', HR, Hb. }
  split; [|rewrite Hp; apply pool_frame_refl].
  apply (workers_inv_update w w' pc qs acc k q' t'); try done.
  - rewrite Hperm. apply I.
  - rewrite Hp, (list_to_set_perm_L _ _ Hperm). apply I.
  - rewrite Hp. apply I.
  - rewrite Hp. apply pool_frame_refl.
  - intros j _. by rewrite Hcl.
  - rewrite Hp, Hcl, Hpend. by apply (wi_fifo _ _ _ _ I).
Qed.

Lemma worker_pop_ok :
  w_pc t = WPop ->
  exists w' qs', worker_step (Z.of_nat k) w = Some w' /\ workers_inv w' pc qs' acc /\
    pool_frame (wp_pool w) (wp_pool w') (list_to_set (capture_bufs pc)).
Proof.
  intros Hpc. destruct worker_index as (Hk & Hqi & Hi).
  assert (thread_bufs t = [] /\ thread_pending t = []) as [Htb Htp] by (unfold thread_bufs, thread_pending; by rewrite Hpc).
  destruct (pop_from_spec n (wp_rss w) qs (wi_rss _ _ _ _ I) (Z.of_nat k) Hi) as (q1 & rss' & Hq1 & Hpop & Hrss').
  rewrite Nat2Z.id in Hq1, Hrss'. assert (q1 = q) as -> by congruence.
  unfold worker_step. rewrite (bind_red _ _ c), (bind_red _ _ t) by (apply aget_Some; split; [lia|by rewrite Nat2Z.id]).
  rewrite Hpc, Hqi. bind_with Hpop. destruct (head q) as [b|] eqn:Eh.
  - assert (q = b :: tail q) as Hqb by (clear - Eh; destruct q; by simplify_eq/=).
    rewrite set_thread_ok by done. eexists.
    destruct (worker_moves (mkWorkers rss' (wp_pool w) (configs_ w) (wstats_ w)
      (<[k := mkThread (WGot b) (iters t)]> (threads_ w)) (stop_ w) (calls w)) (tail q) (mkThread (WGot b) (iters t)))
      as (qs' & Hw & Hf); try done.
    + rewrite Htb, app_nil_r, Hqb at 1. cbn. by rewrite <-Permutation_cons_append, <-Hqb.
    + rewrite Htp, Hqb at 1. cbn. by rewrite <-Hqb.
    + by exists qs'.
  - assert (q = [] /\ tail q = q) as [Hq0 Hqt] by (clear - Eh; by destruct q).
    destruct (upd_stats_ok (fun st => mkWorkerStats (w_processed st) (w_dropped st) (u64 (w_idle st + 1))) (set_rss rss' w) eq_refl)
      as (sts & Hl & Hu). rewrite (bind_red _ _ _ Hu). rewrite set_thread_ok by done. eexists.
    destruct (worker_moves (mkWorkers rss' (wp_pool w) (configs_ w) sts
      (<[k := mkThread WNext (iters t)]> (threads_ w)) (stop_ w) (calls w)) q (mkThread WNext (iters t)))
      as (qs' & Hw & Hf); try done; [by rewrite Hqt in Hrss'|by rewrite Htb|by rewrite Htp|by exists qs'].
Qed.

Lemma worker_next_ok :
  w_pc t = WNext ->
  exists w' qs', worker_step (Z.of_nat k) w = Some w' /\ workers_inv w' pc qs' acc /\
    pool_frame (wp_pool w) (wp_pool w') (list_to_set (capture_bufs pc)).
Proof.
  intros Hpc.
  assert (thread_bufs t = [] /\ thread_pending t = []) as [Htb Htp] by (unfold thread_bufs, thread_pending; by rewrite Hpc).
  unfold worker_step. rewrite (bind_red _ _ c), (bind_red _ _ t) by (apply aget_Some; split; [lia|by rewrite Nat2Z.id]).
  rewrite Hpc. cbv zeta. rewrite set_thread_ok by done.
  set (pc' := if (u64 (iters t + 1) mod 1000 =? 0) && stop_ w then WExited else WPop).
  assert (thread_bufs (mkThread pc' (u64 (iters t + 1))) = [] /\ thread_pending (mkThread pc' (u64 (iters t + 1))) = []) as [Hb' Hp']
    by (unfold thread_bufs, thread_pending, pc'; simpl; by destruct (_ && _)).
  eexists. edestruct (worker_moves) as (qs' & Hw & Hf); [..|exists qs'; split; [done|split; [exact Hw|exact Hf]]]; try done.
  - simpl. rewrite list_insert_id by done. apply I.
  - by rewrite Htb, Hb'.
  - by rewrite Htp, Hp'.
Qed.

Lemma worker_call_ok b :
  MAX_HEADERS <= sz -> w_pc t = WGot b ->
  exists w' qs', worker_step (Z.of_nat k) w = Some w' /\ workers_inv w' pc qs' acc /\
    pool_frame (wp_pool w) (wp_pool w') (list_to_set (capture_bufs pc)).
Proof.
  intros Hsz Hpc. destruct worker_index as (Hk & Hqi & Hi). set (p := wp_pool w) in *.
  assert (thread_bufs t = [b] /\ thread_pending t = [b]) as [Htb Htp] by (unfold thread_bufs, thread_pending; by rewrite Hpc).
  assert (b ∈ in_use pc qs (threads_ w)) as Hb.
  { eapply pending_in_use; [exact Hq|exact Ht|]. rewrite Htp. set_solver. }
  assert (b ∈ (list_to_set (in_use pc qs (threads_ w)) : gset Z)) as Hbs by (by apply elem_of_list_to_set).
  destruct (mem_split p _ b (wi_pool _ _ _ _ I) Hbs) as [r Hm].
  destruct (wi_fifo _ _ _ _ I k q t Hq Ht) as [Hfr Hfifo]. rewrite Htp in Hfr, Hfifo.
  apply Forall_cons in Hfr as [(l & Hl & Hlr) Hfr]. fold p in Hl, Hlr, Hfr, Hfifo.
  assert (Z.of_nat (length (content p b)) = buf_size p) as Hcl by (destruct (buf_mem_ok p _ b (wi_pool _ _ _ _ I) Hbs) as (_ & _ & _ & ?); done).
  assert (readable (content p b)) as Hread.
  { split; [by apply content_bytes, I|]. rewrite Hcl. unfold p. by rewrite (wi_size _ _ _ _ I). }
  destruct (parse_readable (content p b) l Hread) as (pkt & Hparse & _). apply (parse_mono _ r) in Hparse.
  unfold worker_step. rewrite (bind_red _ _ c), (bind_red _ _ t) by (apply aget_Some; split; [lia|by rewrite Nat2Z.id]).
  rewrite Hpc. fold p. bind_with Hm. bind_with Hl. bind_with Hparse. rewrite set_thread_ok by done.
  set (w' := mkWorkers _ _ _ _ _ _ _). exists w', (<[k := q]> qs). split; [done|]. split; [|apply pool_frame_refl].
  destruct (in_use_update pc qs (threads_ w) k q t Hq Ht) as (R & HR & HR').
  assert (in_use pc (<[k := q]> qs) (threads_ w') ≡ₚ in_use pc qs (threads_ w)) as Hperm by (rewrite HR; simpl; by rewrite HR', Htb).
  apply (workers_inv_update w w' pc qs acc k q (mkThread (WCalled b) (iters t))); try done.
  - rewrite list_insert_id by done. apply I.
  - rewrite Hperm. apply I.
  - rewrite (list_to_set_perm_L _ _ Hperm). apply I.
  - apply I.
  - intros j Hj. simpl. rewrite called_by_app. simpl. rewrite decide_False by lia. by rewrite app_nil_r.
  - simpl. split; [done|]. rewrite called_by_app. simpl. rewrite decide_True by done. rewrite <-Hfifo, <-app_assoc. f_equal. simpl.
    f_equal. unfold frame_at. rewrite Hl. rewrite take_app_le by lia. done.
Qed.

Lemma worker_release_ok b :
  w_pc t = WCalled b ->
  exists w' qs', worker_step (Z.of_nat k) w = Some w' /\ workers_inv w' pc qs' acc /\
    pool_frame (wp_pool w) (wp_pool w') (list_to_set (capture_bufs pc)).
Proof.
  intros Hpc. destruct worker_index as (Hk & Hqi & Hi). set (p := wp_pool w) in *.
  assert (thread_bufs t = [b] /\ thread_pending t = []) as [Htb Htp] by (unfold thread_bufs, thread_pending; by rewrite Hpc).
  destruct (in_use_update pc qs (threads_ w) k q t Hq Ht) as (R & HR & HR'). rewrite Htb in HR.
  assert (in_use pc qs (threads_ w) ≡ₚ b :: (q ++ R)) as Hperm by (rewrite HR, <-app_assoc, Permutation_middle; done).
  pose proof (wi_nodup _ _ _ _ I) as Hnd. rewrite Hperm in Hnd. apply NoDup_cons in Hnd as [Hbn Hnd].
  destruct (release_frame p _ b (wi_pool _ _ _ _ I)) as (p' & Hrel & Hok' & Hf').
  { apply elem_of_list_to_set. rewrite Hperm. set_solver. }
  rewrite (list_to_set_perm_L _ _ Hperm), list_to_set_cons in Hok', Hf'.
  replace ((({[b]} : gset Z) ∪ list_to_set (q ++ R)) ∖ {[b]}) with (list_to_set (q ++ R) : gset Z) in Hok', Hf' by set_solver.
  unfold worker_step. rewrite (bind_red _ _ c), (bind_red _ _ t) by (apply aget_Some; split; [lia|by rewrite Nat2Z.id]).
  rewrite Hpc. fold p. bind_with Hrel.
  destruct (upd_stats_ok (fun st => mkWorkerStats (u64 (w_processed st + 1)) (w_dropped st) (w_idle st)) (set_pool p' w) eq_refl)
    as (sts & Hl & Hu). rewrite (bind_red _ _ _ Hu). rewrite set_thread_ok by done.
  set (w' := mkWorkers _ _ _ _ _ _ _). exists w', (<[k := q]> qs). split; [done|].
  assert (in_use pc (<[k := q]> qs) (threads_ w') ≡ₚ q ++ R) as Hperm' by (simpl; rewrite HR'; simpl; by rewrite app_nil_r).
  assert (list_to_set (in_use pc (<[k := q]> qs) (threads_ w')) = (list_to_set (q ++ R) : gset Z)) as Hset by (by apply list_to_set_perm_L).
  split.
  - apply (workers_inv_update w w' pc qs acc k q (mkThread WNext (iters t))); try done.
    + rewrite list_insert_id by done. apply I.
    + by rewrite Hperm'.
    + by rewrite Hset.
    + simpl. eapply release_bytes; [apply I|exact Hrel].
    + by rewrite Hset.
    + simpl. destruct (wi_fifo _ _ _ _ I k q t Hq Ht) as [Hfr Hfifo]. rewrite Htp in Hfr, Hfifo.
      destruct (frames_same p p' _ q Hf') as [-> Hff]; [set_solver|]. split; [by apply Hff|done].
  - eapply pool_frame_mono; [exact Hf'|]. rewrite <-Hset. intros x. rewrite !elem_of_list_to_set. unfold in_use. set_solver.
Qed.
End worker.

Lemma worker_step_ok w pc qs acc i :
  MAX_HEADERS <= sz -> workers_inv w pc qs acc -> 0 <= i < n ->
  exists w' qs', worker_step i w = Some w' /\ workers_inv w' pc qs' acc /\
    pool_frame (wp_pool w) (wp_pool w') (list_to_set (capture_bufs pc)).
Proof.
  intros Hsz I Hi. pose proof (rss_len _ _ _ (wi_rss _ _ _ _ I)) as Hl. rewrite <-(Z2Nat.id i) by lia.
  set (k := Z.to_nat i). assert (k < length qs)%nat as Hk by lia.
  destruct (lookup_lt_is_Some_2 qs k Hk) as [q Hq].
  destruct (lookup_lt_is_Some_2 (threads_ w) k) as [t Ht]; [rewrite (wi_threads _ _ _ _ I); done|].
  destruct (lookup_lt_is_Some_2 (configs_ w) k) as [c Hc]; [rewrite (wi_configs _ _ _ _ I); done|].
  destruct (w_pc t) as [|b|b| |] eqn:E; eauto using worker_pop_ok, worker_call_ok, worker_release_ok, worker_next_ok.
  exists w, qs. split; [|split; [done|apply pool_frame_refl]].
  unfold worker_step. rewrite (bind_red _ _ c), (bind_red _ _ t) by (apply aget_Some; split; [lia|by rewrite Nat2Z.id]).
  by rewrite E.
Qed.

(** ** The capture thread *)

(** A step of the capture thread that leaves the queues as they are. *)
Lemma workers_inv_capture w w' pc pc' qs acc :
  workers_inv w pc qs acc -> rss_ok n (wp_rss w') qs -> configs_ w' = configs_ w -> threads_ w' = threads_ w ->
  length (wstats_ w') = length (wstats_ w) -> calls w' = calls w ->
  NoDup (in_use pc' qs (threads_ w)) -> pool_ok (wp_pool w') (list_to_set (in_use pc' qs (threads_ w))) ->
  pool_bytes (wp_pool w') -> pool_frame (wp_pool w) (wp_pool w') (list_to_set (in_use CPoll qs (threads_ w))) ->
  workers_inv w' pc' qs acc.
Proof.
  intros I Hrss Hcf Hts Hst Hcl Hnd Hok Hby Hfr. split; rewrite ?Hcf, ?Hts, ?Hst, ?Hcl; try done; try apply I.
  - rewrite (pf_size _ _ _ Hfr). apply I.
  - intros j q t Hq Ht. destruct (wi_fifo _ _ _ _ I j q t Hq Ht) as [Hf He].
    destruct (frames_same _ _ _ (thread_pending t ++ q) Hfr) as [-> Hff]; [|auto].
    intros b Hb. apply elem_of_list_to_set. by eapply pending_in_use.
Qed.

Lemma submit_index_mono rss c r pkt (i : Z) :
  submit_index (B := Z) rss c pkt = Some i -> submit_index rss (c ++ r) pkt = Some i.
Proof.
  unfold submit_index, src_ip, dst_ip, src_port, dst_port. destruct (has_udp pkt), (has_ip pkt); [..|done].
  all: intros Hx; apply bind_Some in Hx as (s & Hs & Hx); bind_with (rd32_mono _ r _ _ Hs).
  all: apply bind_Some in Hx as (d & Hd & Hx); bind_with (rd32_mono _ r _ _ Hd); try done.
  all: apply bind_Some in Hx as (sp & Hsp & Hx); bind_with (rd16_mono _ r _ _ Hsp).
  all: apply bind_Some in Hx as (dp & Hdp & Hx); by bind_with (rd16_mono _ r _ _ Hdp).
Qed.

(** Classifying the frame in a buffer: the content starts with the frame. *)
Lemma classify_ok (rss : RSSDistributor Z) qs c bs r :
  rss_ok n rss qs -> readable c -> bs `prefix_of` c ->
  exists pkt i, parse (c ++ r) (Z.of_nat (length bs)) = Some pkt /\ queue_for rss (c ++ r) pkt = Some i /\ assigned n (i, bs).
Proof.
  intros Hrss Hc [c' ->]. destruct (parse_readable _ (Z.of_nat (length bs)) Hc) as (pkt & Hp & _).
  destruct (flow_of_readable _ _ _ Hc Hp) as (fl & Hfl & _). exists pkt, (flow_queue n fl).
  split; [by apply parse_mono|]. split.
  { apply submit_index_mono. eapply submit_index_spec; [exact Hrss|apply Hc|done]. }
  split; [by eapply flow_queue_range|]. unfold frame_flow. simpl. rewrite app_nil_r. split_and!.
  - intros fl' (pkt' & Hp' & Hfl'). apply (parse_mono _ c') in Hp'. assert (pkt' = pkt) as -> by congruence.
    apply (flow_of_mono _ c') in Hfl'. congruence.
  - intros Hlen. assert (readable bs) as Hbs by (split; [destruct Hc as [Hb _]; by apply Forall_app in Hb as [? _]|done]).
    destruct (parse_readable bs (Z.of_nat (length bs)) Hbs) as (pkt' & Hp' & _).
    destruct (flow_of_readable _ _ _ Hbs Hp') as (fl' & Hfl' & _). eauto.
  - exists c', fl. eauto.
Qed.

Lemma fill_buffer_ok (rss : RSSDistributor Z) qs r shm K f q b p held :
  MAX_HEADERS <= sz -> rss_ok n rss qs -> rx_rep USER N r shm K (f :: q) -> bytes_ok (slot_mem f) ->
  pool_ok p held -> pool_bytes p -> buf_size p = sz -> b ∈ held ->
  exists p' i, fill_buffer rss r shm b
      (mkRxFrame (ring_ r + current_frame_ r * kFrameSize + tp_mac f) (tp_len f) (tp_snaplen f)) p = Some (p', i, clip sz f) /\
    pool_ok p' held /\ pool_bytes p' /\ pool_frame p p' (held ∖ {[b]}) /\
    frame_at p' b = clip sz f /\ framed p' b /\ assigned n (i, clip sz f).
Proof.
  intros Hsz Hrss R Hf Hok Hby Hs Hb. unfold MAX_HEADERS in Hsz.
  destruct (rx_frames _ _ _ _ _ _ R 0%nat f eq_refl) as [_ (_ & Hlen & Hmac & Hsn & Hfit)].
  set (src := drop (Z.to_nat (tp_mac f)) (slot_mem f)).
  assert (length src = Z.to_nat (kFrameSize - tp_mac f)) as Hsrc by (unfold src; rewrite length_drop; lia).
  set (l := Z.min (tp_snaplen f) sz). assert (clip sz f = take (Z.to_nat l) src) as Hclip by done.
  assert (length (clip sz f) = Z.to_nat l) as Hcl by (rewrite Hclip, length_take; lia).
  assert (bytes_ok (clip sz f)) as Hcb by (rewrite Hclip; by apply Forall_take, Forall_drop).
  unfold fill_buffer. bind_with (buf_capacity_ok p held b Hok Hb). cbn [captured_len PacketRing.data]. rewrite Hs.
  replace (if tp_snaplen f <? sz then tp_snaplen f else sz) with l by (unfold l; destruct (Z.ltb_spec (tp_snaplen f) sz); lia).
  bind_with (rx_mem_ok _ _ _ _ _ _ _ R). fold src.
  rewrite (bind_red _ _ (clip sz f)) by (rewrite rd_bytes_Some by lia; by rewrite Hclip).
  destruct (store_frame p held b 0 (clip sz f) Hok Hb) as (p1 & Hst & Hok1 & F1 & Hc1 & _); [lia..|]. bind_with Hst.
  destruct (set_len_frame p1 held b l Hok1 Hb) as (p2 & Hsl & Hok2 & F2 & Hc2 & Hl2). bind_with Hsl.
  assert (pool_frame p p2 (held ∖ {[b]})) as F by (by eapply pool_frame_trans).
  destruct (mem_split p2 held b Hok2 Hb) as [rest Hm]. bind_with Hm. bind_with Hl2.
  destruct (buf_mem_ok p held b Hok Hb) as (_ & _ & _ & Hcp). rewrite Hs in Hcp.
  assert (content p2 b = clip sz f ++ drop (Z.to_nat l) (content p b)) as Hcont.
  { rewrite Hc2, Hc1. change (Z.to_nat 0) with 0%nat. rewrite inserts_middle by lia. simpl. by rewrite Hcl. }
  assert (pool_bytes p2) as Hby2 by (eapply set_len_bytes; [|exact Hsl]; by eapply store_bytes).
  assert (length (content p2 b) = Z.to_nat sz) as Hl2' by (rewrite Hcont, length_app, length_drop; lia).
  destruct (classify_ok rss qs (content p2 b) (clip sz f) rest Hrss) as (pkt & i & Hp & Hq & Ha).
  { split; [by apply content_bytes|unfold MAX_HEADERS; lia]. }
  { rewrite Hcont. by exists (drop (Z.to_nat l) (content p b)). }
  rewrite Hcl, Z2Nat.id in Hp by lia. bind_with Hp. bind_with Hq. exists p2, i. split_and!; try done.
  - unfold frame_at. rewrite Hl2, Hcont. by rewrite take_app_length' by lia.
  - exists l. split; [done|]. rewrite (pf_size _ _ _ F), Hs. lia.
Qed.

Section capture.
Context (KERNEL LOSING : Z) (HK : Z.land KERNEL USER = 0).

Lemma workers_inv_pc w pc pc' qs acc :
  workers_inv w pc qs acc -> capture_bufs pc' = capture_bufs pc -> workers_inv w pc' qs acc.
Proof.
  intros I Hpc. assert (forall ts, in_use pc' qs ts = in_use pc qs ts) as Hu by (intros; unfold in_use; by rewrite Hpc).
  split; rewrite ?Hu; apply I.
Qed.

Lemma in_use_cons pc qs ts b : capture_bufs pc = [b] -> in_use pc qs ts = b :: in_use CPoll qs ts.
Proof. intros Hpc. unfold in_use. by rewrite Hpc. Qed.

Lemma in_use_poll pc qs ts : capture_bufs pc = [] -> in_use pc qs ts = in_use CPoll qs ts.
Proof. intros Hpc. unfold in_use. by rewrite Hpc. Qed.

(** Giving back the capture thread's buffer. *)
Lemma capture_release_ok w pc pc' qs acc b :
  workers_inv w pc qs acc -> capture_bufs pc = [b] -> capture_bufs pc' = [] ->
  exists p', PoolIface.release b (wp_pool w) = Some p' /\ workers_inv (set_pool p' w) pc' qs acc.
Proof.
  intros I Hpc Hpc'. pose proof (wi_pool _ _ _ _ I) as Hok. pose proof (wi_nodup _ _ _ _ I) as Hnd.
  rewrite (in_use_cons pc _ _ b Hpc) in Hok, Hnd. apply NoDup_cons in Hnd as [Hb Hnd].
  destruct (release_frame _ _ b Hok) as (p' & Hr & Hok' & Hf); [set_solver|]. exists p'. split; [done|].
  replace (list_to_set (b :: in_use CPoll qs (threads_ w)) ∖ {[b]}) with (list_to_set (in_use CPoll qs (threads_ w)) : gset Z)
    in Hok', Hf by (rewrite list_to_set_cons; set_solver).
  eapply workers_inv_capture; try done; rewrite ?(in_use_poll pc' _ _ Hpc'); try done; simpl; [apply I|].
  eapply release_bytes; [apply I|exact Hr].
Qed.

(** Acquiring one. *)
Lemma capture_acquire_ok w pc qs acc :
  workers_inv w pc qs acc -> capture_bufs pc = [] ->
  exists r p', acquire (wp_pool w) = Some (r, p') /\
    forall pc', capture_bufs pc' = match r with Some b => [b] | None => [] end -> workers_inv (set_pool p' w) pc' qs acc.
Proof.
  intros I Hpc. pose proof (wi_pool _ _ _ _ I) as Hok. pose proof (wi_nodup _ _ _ _ I) as Hnd.
  rewrite (in_use_poll pc _ _ Hpc) in Hok, Hnd.
  destruct (acquire_frame _ _ Hok) as [(p' & Ha & Hok' & Hf & _)|(b & p' & Ha & Hb & Hok' & Hf & _)].
  - exists None, p'. split; [done|]. intros pc' Hpc'.
    eapply workers_inv_capture; try done; rewrite ?(in_use_poll pc' _ _ Hpc'); try done; simpl; [apply I|].
    eapply acquire_bytes; [apply I|exact Ha].
  - exists (Some b), p'. split; [done|]. intros pc' Hpc'.
    eapply workers_inv_capture; try done; rewrite ?(in_use_cons pc' _ _ b Hpc'); try done; simpl; [apply I| |].
    + constructor; [|done]. intros Hin. apply Hb. by apply elem_of_list_to_set.
    + eapply acquire_bytes; [apply I|exact Ha].
Qed.

(** Pushing the buffer to queue [i]. *)
Lemma capture_push_ok w b i bs qs acc :
  workers_inv w (CPush b i bs) qs acc -> frame_at (wp_pool w) b = bs -> framed (wp_pool w) b -> 0 <= i < n ->
  exists ok rss, push_to (wp_rss w) i b = Some (ok, rss) /\
    exists qs', workers_inv (set_rss rss w) (if ok : bool then CRelease else CFull b i) qs'
      (if ok then acc ++ [(i, bs)] else acc).
Proof.
  intros I Hfr Hfd Hi. destruct (push_to_spec n _ _ (wi_rss _ _ _ _ I) i b Hi) as (q & rss & Hq & Hp & Hrss).
  eexists _, rss. split; [exact Hp|]. destruct (_ <? QUEUE_SIZE).
  2:{ exists qs. eapply workers_inv_capture; try done; try apply I. }
  set (k := Z.to_nat i) in *. pose proof (lookup_lt_Some _ _ _ Hq) as Hk. exists (<[k := q ++ [b]]> qs).
  destruct (concat_insert _ _ _ Hq) as (R & HR & HR').
  assert (in_use CRelease (<[k := q ++ [b]]> qs) (threads_ w) ≡ₚ in_use (CPush b i bs) qs (threads_ w)) as Hperm.
  { unfold in_use. simpl. rewrite HR', HR. by rewrite <-Permutation_cons_append. }
  split; simpl; try apply I; try done.
  - rewrite length_insert. apply I.
  - rewrite length_insert. apply I.
  - rewrite length_insert. apply I.
  - rewrite Hperm. apply I.
  - rewrite (list_to_set_perm_L _ _ Hperm). apply I.
  - intros j q' t Hq' Ht. rewrite list_lookup_insert in Hq'. rewrite accepted_by_app. simpl.
    destruct (decide (k = j)) as [<-|Hne].
    + rewrite decide_True in Hq' by lia. injection Hq' as <-. rewrite decide_True by lia.
      destruct (wi_fifo _ _ _ _ I k q t Hq Ht) as [Hff He]. rewrite app_assoc. split; [by apply Forall_app; split; [|constructor]|].
      rewrite fmap_app, app_assoc, He. simpl. by rewrite Hfr.
    + rewrite decide_False in Hq' by lia. rewrite decide_False by lia. rewrite app_nil_r. by apply (wi_fifo _ _ _ _ I).
Qed.

Lemma record_drop_ok w pc qs acc i :
  workers_inv w pc qs acc -> exists sts, length sts = length (wstats_ w) /\
    record_drop i w = Some (mkWorkers (wp_rss w) (wp_pool w) (configs_ w) sts (threads_ w) (stop_ w) (calls w)).
Proof.
  intros I. unfold record_drop. destruct (drop_index (configs_ w) i 0) as [j|] eqn:E; [|by exists (wstats_ w); destruct w].
  assert (forall cs a, drop_index cs i a = Some j -> a <= j < a + Z.of_nat (length cs)) as Hr.
  { induction cs as [|c cs IH]; intros a; simpl; [done|]. case_match; [intros [= <-]; lia|]. intros Hd%IH. lia. }
  apply Hr in E. rewrite (wi_configs _ _ _ _ I), <-(wi_stats _ _ _ _ I) in E. unfold upd_stats.
  destruct (aget_is_Some (wstats_ w) j) as [st ->]; [lia|]. simpl. rewrite aset_Some by lia. simpl.
  eexists. split; [|done]. by rewrite length_insert.
Qed.

Notation cstep := (capture_step KERNEL USER LOSING).

Section step.
Context (s : pipeline P) (I : pipe_inv s).

Lemma capture_poll_ok : pl_capture s = CPoll -> exists s', cstep s = Some s' /\ pipe_inv s'.
Proof.
  intros Hpc. destruct I as [Hsz [qs W] (dn & q & R & Hpub & Hcap & Hby & Hsub) Ha]. rewrite Hpc in *.
  destruct (receive_ok USER LOSING _ _ _ _ _ R) as (r' & Hr & R' & Hbase & Hcur & _).
  unfold capture_step. rewrite Hpc. bind_with Hr. eexists. split; [done|].
  destruct q as [|f q]; split; simpl; try done; try (exists qs; by eapply workers_inv_pc).
  - by exists dn, [].
  - exists dn, (f :: q). split_and!; try done. exists f. by rewrite Hbase, Hcur.
Qed.

Lemma capture_frame_ok fr : pl_capture s = CFrame fr -> exists s', cstep s = Some s' /\ pipe_inv s'.
Proof.
  intros Hpc. destruct I as [Hsz [qs W] (dn & q & R & Hpub & Hcap & Hby & Hsub) Ha]. rewrite Hpc in *.
  destruct (capture_acquire_ok _ _ _ _ W eq_refl) as (ob & p' & Hacq & HW).
  unfold capture_step. rewrite Hpc. bind_with Hacq. eexists. split; [done|].
  split; simpl; try done; [exists qs; apply HW; by destruct ob|]. exists dn, q. split_and!; try done.
  - destruct ob; [done|]. destruct Hcap as (f & Hf & _). by exists f.
  - destruct ob; [done|]. unfold taken in *. rewrite app_nil_r in Hsub. rewrite Hsub, fmap_app. by apply sublist_inserts_r.
Qed.

Lemma capture_copy_ok b fr : pl_capture s = CCopy b fr -> exists s', cstep s = Some s' /\ pipe_inv s'.
Proof.
  intros Hpc. destruct I as [Hsz [qs W] (dn & q & R & Hpub & Hcap & Hby & Hsub) Ha]. rewrite Hpc in *.
  destruct Hcap as (f & Hf & ->). destruct q as [|f' q]; [done|]. injection Hf as ->.
  pose proof (wi_nodup _ _ _ _ W) as Hnd. rewrite (in_use_cons _ _ _ b) in Hnd by done. apply NoDup_cons in Hnd as [Hb Hnd].
  destruct (fill_buffer_ok _ _ _ _ _ _ _ b _ _ Hsz (wi_rss _ _ _ _ W) R (Forall_inv Hby) (wi_pool _ _ _ _ W)
    (wi_bytes _ _ _ _ W) (wi_size _ _ _ _ W)) as (p' & i & Hfill & Hok & Hby' & HF & Hfr & Hfd & Has).
  { apply elem_of_list_to_set. rewrite (in_use_cons _ _ _ b) by done. set_solver. }
  unfold capture_step. rewrite Hpc. bind_with Hfill. eexists. split; [done|].
  split; simpl; try done.
  - exists qs. eapply workers_inv_capture; try done; try apply W. simpl. eapply pool_frame_mono; [exact HF|].
    rewrite (in_use_cons (CCopy b _) _ _ b eq_refl). set_solver.
  - exists dn, (f :: q). split_and!; try done. by exists f.
Qed.

Lemma capture_push_step b i bs : pl_capture s = CPush b i bs -> exists s', cstep s = Some s' /\ pipe_inv s'.
Proof.
  intros Hpc. destruct I as [Hsz [qs W] (dn & q & R & Hpub & Hcap & Hby & Hsub) Ha]. rewrite Hpc in *.
  destruct Hcap as ((f & Hf & Hbs) & Hfr & Hfd & Has). destruct q as [|f' q]; [done|]. injection Hf as ->.
  destruct (capture_push_ok _ _ _ _ _ _ W Hfr Hfd (proj1 Has)) as (ok & rss & Hp & qs' & W').
  unfold capture_step. rewrite Hpc. bind_with Hp. eexists. split; [done|].
  split; simpl; try done; [by exists qs'| |].
  - exists dn, (f :: q). split_and!; try done; destruct ok; try done.
    + by exists f.
    + split; [by exists f|apply Has].
    + unfold taken in *. rewrite !fmap_app in *. rewrite app_nil_r in Hsub. rewrite Hbs. by apply sublist_app.
  - destruct ok; [|done]. apply Forall_app. split; [done|by apply Forall_singleton].
Qed.

Lemma capture_full_ok b i : pl_capture s = CFull b i -> exists s', cstep s = Some s' /\ pipe_inv s'.
Proof.
  intros Hpc. destruct I as [Hsz [qs W] (dn & q & R & Hpub & Hcap & Hby & Hsub) Ha]. rewrite Hpc in *.
  destruct (record_drop_ok _ _ _ _ i W) as (sts & Hl & Hd).
  set (w1 := mkWorkers _ _ _ _ _ _ _) in Hd.
  assert (workers_inv w1 (CFull b i) qs (pl_accepted s)) as W1 by (eapply workers_inv_capture; try done; try apply W; apply pool_frame_refl).
  destruct (capture_release_ok _ _ CRelease _ _ b W1 eq_refl eq_refl) as (p' & Hr & W2).
  unfold capture_step. rewrite Hpc. bind_with Hd. bind_with Hr. eexists. split; [done|].
  split; simpl; try done; [by exists qs|]. exists dn, q. split_and!; try done; [apply Hcap|].
  unfold taken in *. rewrite app_nil_r in Hsub. rewrite Hsub, fmap_app. by apply sublist_inserts_r.
Qed.

Lemma capture_done_ok : pl_capture s = CRelease -> exists s', cstep s = Some s' /\ pipe_inv s'.
Proof.
  intros Hpc. destruct I as [Hsz [qs W] (dn & q & R & Hpub & Hcap & Hby & Hsub) Ha]. rewrite Hpc in *.
  destruct q as [|f q]; [by destruct Hcap|].
  destruct (PacketRing.release_ok KERNEL USER _ _ _ _ _ _ HK R) as (r' & shm' & Hr & R' & _).
  unfold capture_step. rewrite Hpc. bind_with Hr. eexists. split; [done|].
  split; simpl; try done; [exists qs; by eapply workers_inv_pc|].
  exists (dn ++ [f]), q. split_and!; try done; [by rewrite Hpub, <-app_assoc|by apply Forall_inv_tail in Hby|].
  unfold taken in *. by rewrite app_nil_r.
Qed.

Lemma capture_step_ok : exists s', cstep s = Some s' /\ pipe_inv s'.
Proof.
  destruct (pl_capture s) eqn:E;
    eauto using capture_poll_ok, capture_frame_ok, capture_copy_ok, capture_push_step, capture_full_ok, capture_done_ok.
Qed.

Lemma pipe_worker_ok i : 0 <= i < n -> exists w', worker_step i (pl_workers s) = Some w' /\ pipe_inv (set_workers s w').
Proof.
  intros Hi. destruct I as [Hsz [qs W] (dn & q & R & Hpub & Hcap & Hby & Hsub) Ha].
  destruct (worker_step_ok _ _ _ _ i Hsz W Hi) as (w' & qs' & Hw & W' & HF). exists w'. split; [done|].
  split; simpl; try done; [by exists qs'|]. exists dn, q. split_and!; try done.
  destruct (pl_capture s) as [| |b fr|b j bs| |]; try done. destruct Hcap as (Hf & Hfr & Hfd & Has).
  destruct (frame_at_same _ _ _ b HF) as [Heq Hfd']; [simpl; set_solver|]. split_and!; auto. congruence.
Qed.
End step.

Lemma pipe_step_inv s s' : pipe_inv s -> pipe_step KERNEL USER LOSING s s' -> pipe_inv s'.
Proof.
  intros I Hst. revert I. destruct Hst as [w r shm pc K pub acc f shm' Hf Hb Hp|s s' Hs|i s w' Hw|s]; intros I.
  - destruct I as [Hsz W (dn & q & R & Hpub & Hcap & Hby & Hsub) Ha]. simpl in *. split; simpl; try done.
    pose proof (publish_ok USER _ _ _ _ _ _ _ R Hf Hp) as R'.
    rewrite (ro_total _ _ (rx_ok _ _ _ _ _ _ R)). exists dn, (q ++ [f]). split_and!; try done.
    + by rewrite Hpub, app_assoc.
    + destruct pc, q; simpl in *; naive_solver.
    + apply Forall_app. split; [done|by apply Forall_singleton].
    + destruct pc; try done. destruct q; [by destruct Hcap|done].
  - destruct (capture_step_ok s I) as (s2 & H2 & I2). congruence.
  - assert (0 <= i < n) as Hi.
    { destruct I as [_ [qs W] _ _]. rewrite <-(rss_len _ _ _ (wi_rss _ _ _ _ W)).
      unfold worker_step in Hw. apply bind_Some in Hw as (c & Hc & _). apply aget_Some in Hc as [? Hc].
      apply lookup_lt_Some in Hc. pose proof (wi_configs _ _ _ _ W). lia. }
    destruct (pipe_worker_ok s I i Hi) as (w2 & H2 & I2). congruence.
  - destruct I as [Hsz [qs W] Hr Ha]. split; try done. exists qs. split; apply W.
Qed.
End capture.
End invariant.

(** ** From the start of the program *)

(** What [main] has set up when the loop starts: the dimensions of the ring, the
    queues and the workers agree, worker [i] serves queue [i], every buffer is
    free and the kernel owns every slot. *)
Record boot_ok {P : Type} `{PoolBytes P} (KERNEL USER n N : Z) (p : P) (rss : RSSDistributor Z)
    (cs : list WorkerConfig) (r : PacketRing) (shm : list slot) : Prop := {
  bo_status : Z.land KERNEL USER = 0;
  bo_rss : rss_ok n rss (replicate (Z.to_nat n) []);
  bo_workers : Z.of_nat (length cs) = n;
  bo_queues : forall i c, cs !! i = Some c -> queue_index c = Z.of_nat i;
  bo_pool : pool_ok p ∅;
  bo_bytes : pool_bytes p;
  bo_size : MAX_HEADERS <= buf_size p;
  bo_ring : ring_ok r N;
  bo_first : current_frame_ r = 0;
  bo_slots : Z.of_nat (length shm) = N;
  bo_kernel : Forall (fun f => Z.land (tp_status f) USER = 0) shm
}.

Lemma start_pipe_inv {P : Type} `{PoolBytes P} (USER n N : Z) (p : P) rss cs r shm :
  rss_ok n rss (replicate (Z.to_nat n) []) -> Z.of_nat (length cs) = n ->
  (forall i c, cs !! i = Some c -> queue_index c = Z.of_nat i) ->
  pool_ok p ∅ -> pool_bytes p -> MAX_HEADERS <= buf_size p -> rx_rep USER N r shm 0 [] ->
  pipe_inv USER n N (buf_size p) (start_pipeline (new_WorkerPool rss p cs) r shm).
Proof.
  intros Hrss Hl Hqi Hok Hby Hsz R. set (k := Z.to_nat n) in *.
  assert (forall m, concat (replicate m ([] : list Z)) = []) as Hnil by (induction m; done).
  assert (in_use CPoll (replicate k []) (replicate (length cs) (mkThread WPop 0)) = []) as Hu.
  { unfold in_use. rewrite fmap_replicate, !Hnil. done. }
  split; simpl; try done; [|by exists [], []].
  exists (replicate k []). split; simpl; rewrite ?length_replicate, ?Hu; try done; try lia; [apply NoDup_nil_2|].
  intros i q t Hq Ht. apply lookup_replicate in Hq as [-> _]. apply lookup_replicate in Ht as [-> _]. done.
Qed.

(** ** Shutdown *)

Section shutdown.
Context {P : Type} `{PoolOps P} (KERNEL USER LOSING : Z).
Implicit Types (s : pipeline P).

(** An execution, and how many of its steps are known to be steps of worker [i]. *)
Inductive pipe_exec (i : Z) : nat -> pipeline P -> pipeline P -> Prop :=
| exec_nil s : pipe_exec i 0 s s
| exec_own k s w s' :
    worker_step i (pl_workers s) = Some w -> pipe_exec i k (set_workers s w) s' -> pipe_exec i (S k) s s'
| exec_any k s s1 s' : pipe_step KERNEL USER LOSING s s1 -> pipe_exec i k s1 s' -> pipe_exec i k s s'.

Definition pl_threads s : list thread := threads_ (pl_workers s).
Definition pl_stop s : bool := stop_ (pl_workers s).
Definition iters_ok s : Prop := Forall (fun t => is_u64 (iters t)) (pl_threads s).

(** Once [stop_] is set no thread gets farther from its exit. *)
Definition nearer s s' : Prop :=
  iters_ok s' /\ (pl_stop s = true -> pl_stop s' = true) /\
  (pl_stop s = true -> forall i t, pl_threads s !! i = Some t ->
     exists t', pl_threads s' !! i = Some t' /\ loop_left t' <= loop_left t).

Lemma nearer_same s s' : iters_ok s -> pl_threads s' = pl_threads s -> (pl_stop s = true -> pl_stop s' = true) -> nearer s s'.
Proof. intros Hok Ht Hst. unfold nearer, iters_ok. rewrite Ht. split_and!; eauto with lia. Qed.

Lemma nearer_trans s1 s2 s3 : nearer s1 s2 -> nearer s2 s3 -> nearer s1 s3.
Proof.
  intros (_ & A & B) (C & D & E). split_and!; auto. intros Hs i t Ht.
  destruct (B Hs i t Ht) as (t2 & Ht2 & ?). destruct (E (A Hs) i t2 Ht2) as (t3 & ? & ?). eauto with lia.
Qed.

Lemma worker_nearer i s w :
  iters_ok s -> worker_step i (pl_workers s) = Some w ->
  nearer s (set_workers s w) /\
  (pl_stop s = true -> forall t, pl_threads s !! Z.to_nat i = Some t -> exists t', pl_threads (set_workers s w) !! Z.to_nat i = Some t' /\
     loop_left t' <= Z.max 0 (loop_left t - 1)).
Proof.
  intros Hok Hw. destruct (worker_step_left _ _ _ Hw) as (t & t' & Ht & Hts & Hst & Hl).
  pose proof (Forall_lookup_1 _ _ _ _ Hok Ht) as Hit. destruct (Hl Hit) as [Hit' Hl'].
  unfold nearer, iters_ok, pl_threads, pl_stop in *. simpl. rewrite Hts, Hst. pose proof (lookup_lt_Some _ _ _ Ht) as Hlt.
  split; [|intros Hs t0 Ht0; simplify_eq; exists t'; split; [by apply list_lookup_insert_eq|auto]].
  split; [by apply Forall_insert|]. split; [done|]. intros Hs j t0 Ht0. rewrite list_lookup_insert.
  destruct (decide (Z.to_nat i = j)) as [<-|]; [|rewrite decide_False by lia; eauto with lia].
  rewrite decide_True by done. assert (t0 = t) as -> by congruence. exists t'. split; [done|]. specialize (Hl' Hs). pose proof (loop_left_bound t). lia.
Qed.

Lemma capture_threads s s' :
  capture_step KERNEL USER LOSING s = Some s' -> pl_threads s' = pl_threads s /\ pl_stop s' = pl_stop s.
Proof.
  unfold capture_step, pl_threads, pl_stop. destruct (pl_capture s); intros Hs; apply bind_Some in Hs as (x & Hx & Hs).
  5: { apply bind_Some in Hs as (p & _ & Hs). injection Hs as <-. simpl. by apply record_drop_inv in Hx. }
  all: repeat case_match; by simplify_eq.
Qed.

Lemma step_nearer s s' : iters_ok s -> pipe_step KERNEL USER LOSING s s' -> nearer s s'.
Proof.
  intros Hok Hst. revert Hok. destruct Hst as [| s s' Hc|i s w Hw|s]; intros Hok; try by apply nearer_same.
  - destruct (capture_threads _ _ Hc) as [? Hs]. apply nearer_same; [done..|congruence].
  - by eapply worker_nearer.
Qed.

Lemma start_iters_ok rss (p : P) cs r shm : iters_ok (start_pipeline (new_WorkerPool rss p cs) r shm).
Proof. apply Forall_replicate. unfold is_u64. simpl. lia. Qed.

Lemma rtc_nearer s s' : iters_ok s -> rtc (pipe_step KERNEL USER LOSING) s s' -> nearer s s'.
Proof.
  intros Hok Hex. induction Hex as [s|s s1 s2 Hst _ IH]; [by apply nearer_same|].
  pose proof (step_nearer _ _ Hok Hst) as H1. eapply nearer_trans; [exact H1|]. apply IH, H1.
Qed.

Lemma exec_left i k s s' t :
  pipe_exec i k s s' -> iters_ok s -> pl_stop s = true -> pl_threads s !! Z.to_nat i = Some t ->
  exists t', pl_threads s' !! Z.to_nat i = Some t' /\ loop_left t' <= Z.max 0 (loop_left t - Z.of_nat k).
Proof.
  intros Hex. revert t. induction Hex as [s|k s w s' Hw _ IH|k s s1 s' Hst _ IH]; intros t Hok Hs Ht.
  - exists t. split; [done|]. lia.
  - destruct (worker_nearer _ _ _ Hok Hw) as [(Hok1 & Hs1 & _) Hl]. destruct (Hl Hs t Ht) as (t1 & Ht1 & ?).
    destruct (IH t1 Hok1 (Hs1 Hs) Ht1) as (t' & ? & ?). exists t'. split; [done|]. lia.
  - destruct (step_nearer _ _ Hok Hst) as (Hok1 & Hs1 & Hl). destruct (Hl Hs _ t Ht) as (t1 & Ht1 & ?).
    destruct (IH t1 Hok1 (Hs1 Hs) Ht1) as (t' & ? & ?). exists t'. split; [done|]. lia.
Qed.

Lemma exec_rtc i k s s' : pipe_exec i k s s' -> rtc (pipe_step KERNEL USER LOSING) s s'.
Proof.
  induction 1 as [s|k s w s' Hw _ IH|k s s1 s' Hst _ IH]; [done| |by eapply rtc_l].
  eapply rtc_l; [by eapply step_worker|done].
Qed.
End shutdown.

Section reach.
Context {P : Type} `{PoolBytes P} {KERNEL USER LOSING n N : Z}.
Context {p : P} {rss : RSSDistributor Z} {cs : list WorkerConfig} {r : PacketRing} {shm : list slot}.
Context (B : boot_ok KERNEL USER n N p rss cs r shm).
Notation inv := (pipe_inv USER n N (buf_size p)).

Lemma reach_inv s :
  rtc (pipe_step KERNEL USER LOSING) (start_pipeline (new_WorkerPool rss p cs) r shm) s -> inv s.
Proof.
  intros Hex. assert (inv (start_pipeline (new_WorkerPool rss p cs) r shm)) as I0.
  { apply start_pipe_inv; try apply B. by apply start_rep; apply B. }
  induction Hex as [|s0 s1 s2 Hst _ IH]; [done|]. apply IH. eapply pipe_step_inv; [apply B|exact I0|exact Hst].
Qed.

(** Worker [i] can be run for any number of steps. *)
Lemma exec_run i m s : 0 <= i < n -> inv s -> exists s', pipe_exec KERNEL USER LOSING i m s s' /\ inv s'.
Proof.
  intros Hi. revert s. induction m as [|m IH]; intros s I; [exists s; split; [constructor|done]|].
  destruct (pipe_worker_ok USER n N _ KERNEL (bo_status _ _ _ _ _ _ _ _ _ B) s I i Hi) as (w & Hw & I1).
  destruct (IH _ I1) as (s' & Hex & I'). exists s'. split; [|done]. by eapply exec_own.
Qed.

(** Running the first [m] workers until they exit. *)
Lemma drive_workers m s :
  Z.of_nat m <= n -> inv s -> iters_ok s -> pl_stop s = true ->
  exists s', rtc (pipe_step KERNEL USER LOSING) s s' /\ inv s' /\
    forall j t, (j < m)%nat -> pl_threads s' !! j = Some t -> w_pc t = WExited.
Proof.
  intros Hm I Hok Hs. induction m as [|m IH]; [exists s; split_and!; [done..|lia]|].
  destruct IH as (s1 & Hex1 & I1 & Hx1); [lia|]. destruct (rtc_nearer _ _ _ _ _ Hok Hex1) as (Hok1 & Hs1 & _).
  specialize (Hs1 Hs). destruct (exec_run (Z.of_nat m) 4000 s1) as (s2 & Hex2 & I2); [lia|done|].
  pose proof (exec_rtc _ _ _ _ _ _ _ Hex2) as Hr2. exists s2. split; [by etrans|]. split; [done|].
  assert (length (pl_threads s1) = length (pl_threads s2)) as Hlen.
  { destruct I1 as [_ [q1 W1] _ _], I2 as [_ [q2 W2] _ _]. unfold pl_threads. rewrite (wi_threads _ _ _ _ _ _ W1), (wi_threads _ _ _ _ _ _ W2).
    pose proof (rss_len _ _ _ (wi_rss _ _ _ _ _ _ W1)). pose proof (rss_len _ _ _ (wi_rss _ _ _ _ _ _ W2)). lia. }
  intros j t Hj Ht. pose proof (lookup_lt_Some _ _ _ Ht). destruct (lookup_lt_is_Some_2 (pl_threads s1) j) as [t1 Ht1]; [lia|].
  apply loop_left_0. pose proof (loop_left_bound t). destruct (decide (j = m)) as [->|].
  - destruct (exec_left _ _ _ _ _ _ _ t1 Hex2 Hok1 Hs1) as (t' & Ht' & Hl); [by rewrite Nat2Z.id|].
    rewrite Nat2Z.id in Ht'. assert (t' = t) as -> by congruence. pose proof (loop_left_bound t1). lia.
  - destruct (rtc_nearer _ _ _ _ _ Hok1 Hr2) as (_ & _ & Hl). destruct (Hl Hs1 j t1 Ht1) as (t' & Ht' & ?).
    assert (t' = t) as -> by congruence. 
    assert (loop_left t1 = 0) by (unfold loop_left; by rewrite (Hx1 j t1) by (done || lia)). lia.
Qed.
End reach.

(** ** The theorems *)

(** C2: in every interleaving of the kernel, the capture thread and the workers,
    no step of the capture thread or of a worker reads or writes out of bounds;
    the frames pushed to the queues are a subsequence of the frames the kernel
    published, with their bytes up to the buffer size, each in the queue of its
    flow (the one its own bytes say whenever its headers lie in it, else the one
    the parser sees in the frame and the stale bytes behind it); what the callback of a queue has seen is what was pushed to that queue,
    in order, up to what is still queued or in the worker's hand; and every
    acquired buffer is in exactly one place, so none is lost or freed twice. *)
Theorem pipeline_correct {P : Type} `{PoolBytes P} (KERNEL USER LOSING n N : Z) (p : P) rss cs r shm s :
  boot_ok KERNEL USER n N p rss cs r shm ->
  rtc (pipe_step KERNEL USER LOSING) (start_pipeline (new_WorkerPool rss p cs) r shm) s ->
  is_Some (capture_step KERNEL USER LOSING s) /\
  (forall i, 0 <= i < n -> is_Some (worker_step i (pl_workers s))) /\
  (snd <$> pl_accepted s) `sublist_of` (clip (buf_size p) <$> pl_published s) /\
  Forall (assigned n) (pl_accepted s) /\
  exists qs, rss_ok n (wp_rss (pl_workers s)) qs /\
    (forall i q t, qs !! i = Some q -> threads_ (pl_workers s) !! i = Some t ->
       accepted_by (Z.of_nat i) (pl_accepted s) =
       called_by (Z.of_nat i) (calls (pl_workers s)) ++ (frame_at (wp_pool (pl_workers s)) <$> (thread_pending t ++ q))) /\
    let used := in_use (pl_capture s) qs (threads_ (pl_workers s)) in
    NoDup used /\ pool_ok (wp_pool (pl_workers s)) (list_to_set used).
Proof.
  intros B Hex. pose proof (reach_inv B s Hex) as I. pose proof (bo_status _ _ _ _ _ _ _ _ _ B) as HK.
  split; [destruct (capture_step_ok USER n N _ KERNEL LOSING HK s I) as (s' & -> & _); done|].
  split; [intros i Hi; destruct (pipe_worker_ok USER n N _ KERNEL HK s I i Hi) as (w' & -> & _); done|].
  destruct I as [_ [qs W] (dn & q & _ & Hpub & _ & _ & Hsub) Ha]. split; [|split; [done|]].
  - rewrite Hsub, Hpub. unfold taken. rewrite !fmap_app. apply sublist_app; [done|].
    destruct (pl_capture s); simpl; try apply sublist_nil_l. destruct q; simpl; [done|]. apply sublist_skip, sublist_nil_l.
  - exists qs. split; [apply W|]. split; [|split; apply W].
    intros i q' t Hq Ht. symmetry. by apply (wi_fifo _ _ _ _ _ _ W).
Qed.

(** C14: once [stop] has set the flag, a worker that takes 4000 more steps has
    left its loop, whatever the other threads do meanwhile and however many
    packets are queued; so the workers can be run until [join] returns for
    every thread. *)
Theorem workers_stop {P : Type} `{PoolBytes P} (KERNEL USER LOSING n N : Z) (p : P) rss cs r shm s :
  boot_ok KERNEL USER n N p rss cs r shm ->
  rtc (pipe_step KERNEL USER LOSING) (start_pipeline (new_WorkerPool rss p cs) r shm) s ->
  stop_ (pl_workers s) = true ->
  (forall i k s' t, 0 <= i < n -> pipe_exec KERNEL USER LOSING i k s s' -> 4000 <= Z.of_nat k ->
     threads_ (pl_workers s') !! Z.to_nat i = Some t -> w_pc t = WExited) /\
  exists s', rtc (pipe_step KERNEL USER LOSING) s s' /\ joined (pl_workers s') = true.
Proof.
  intros B Hex Hs. pose proof (reach_inv B s Hex) as I.
  destruct (rtc_nearer _ _ _ _ _ (start_iters_ok rss p cs r shm) Hex) as (Hok & _).
  assert (length (pl_threads s) = Z.to_nat n) as Hlen.
  { destruct I as [_ [qs W] _ _]. unfold pl_threads. rewrite (wi_threads _ _ _ _ _ _ W).
    pose proof (rss_len _ _ _ (wi_rss _ _ _ _ _ _ W)). lia. }
  split.
  - intros i k s' t Hi He Hk Ht. destruct (lookup_lt_is_Some_2 (pl_threads s) (Z.to_nat i)) as [t0 Ht0]; [lia|].
    destruct (exec_left _ _ _ _ _ _ _ t0 He Hok Hs Ht0) as (t' & Ht' & Hl). unfold pl_threads in Ht'.
    assert (t' = t) as -> by congruence. apply loop_left_0. pose proof (loop_left_bound t). pose proof (loop_left_bound t0). lia.
  - destruct (drive_workers (LOSING := LOSING) B (Z.to_nat n) s) as (s' & Hex' & I' & Hx); [pose proof (bo_workers _ _ _ _ _ _ _ _ _ B); lia|done..|].
    exists s'. split; [done|]. destruct I' as [_ [qs W] _ _]. pose proof (rss_len _ _ _ (wi_rss _ _ _ _ _ _ W)) as Hq.
    apply Is_true_true, forallb_True, Forall_lookup. intros j t Ht. rewrite (Hx j t); [done| |done].
    apply lookup_lt_Some in Ht. rewrite (wi_threads _ _ _ _ _ _ W) in Ht. lia.
Qed.

(** ** A run *)

Inductive action := AKernel (f : slot) | ACapture | AWorker (i : Z) | AStop.

Definition act (a : action) (s : pipeline BufferPool) : option (pipeline BufferPool) :=
  match a with
  | AKernel f =>
      shm ← publish 1 (pl_cursor s) f (pl_shm s);
      Some (mkPipeline (pl_workers s) (pl_ring s) shm (pl_capture s) ((pl_cursor s + 1) mod total_frames_ (pl_ring s))
              (pl_published s ++ [f]) (pl_accepted s))
  | ACapture => capture_step 0 1 4 s
  | AWorker i => w ← worker_step i (pl_workers s); Some (set_workers s w)
  | AStop => Some (set_workers s (request_stop (pl_workers s)))
  end.

Fixpoint run (l : list action) (s : pipeline BufferPool) : option (pipeline BufferPool) :=
  match l with [] => Some s | a :: l => s ← act a s; run l s end.

Lemma run_rtc l s s' :
  Forall (fun a => match a with AKernel f => slot_ok 1 f /\ bytes_ok (slot_mem f) | _ => True end) l ->
  run l s = Some s' -> rtc (pipe_step 0 1 4) s s'.
Proof.
  revert s. induction l as [|a l IH]; intros s Hl; simpl; [by intros [= <-]|].
  apply Forall_cons in Hl as [Ha Hl]. intros Hr. apply bind_Some in Hr as (s1 & Hs1 & Hr).
  eapply rtc_l; [|by apply IH]. destruct a; simpl in Hs1.
  - apply bind_Some in Hs1 as (shm & Hp & Hs1). injection Hs1 as <-. destruct s. by apply step_kernel; [apply Ha..|].
  - by apply step_capture.
  - apply bind_Some in Hs1 as (w & Hw & Hs1). injection Hs1 as <-. by eapply step_worker.
  - injection Hs1 as <-. apply step_stop.
Qed.

(** One frame goes from the kernel to the callback of its queue. *)
Definition demo_rx : slot := mkSlot 1 48 48 66 (replicate 66 0 ++ demo_mem ++ replicate (Z.to_nat (2048 - 66 - Z.of_nat (length demo_mem))) 0).

Definition demo_actions (i : Z) : list action :=
  [AKernel demo_rx; ACapture; ACapture; ACapture; ACapture; AWorker i; AWorker i; AStop; AWorker i].

Definition demo_setup : option (BufferPool * RSSDistributor Z) :=
  match new_BufferPool no_mbind 128 4 (-1) (mkHeap (toy_boot 4 0) ∅),
        new_RSSDistributor kQueues (replicate 4 (replicate (Z.to_nat QUEUE_SIZE) 0)) with
  | Some (inr p, _), Some rss => Some (p, rss)
  | _, _ => None
  end.

Definition demo_idle : slot := mkSlot 0 0 0 66 (replicate 2048 0).

Definition demo_queue : Z := flow_queue 4 (Some (0x0A000001, 0x0A000002, 5353, 9000)).

Lemma demo_setup_ok p rss :
  demo_setup = Some (p, rss) ->
  pool_ok p ∅ /\ pool_bytes p /\ MAX_HEADERS <= buf_size p /\ rss_ok kQueues rss (replicate (Z.to_nat kQueues) []).
Proof.
  intros E. assert (pool_bytes p) as Hby.
  { assert (match demo_setup with Some (p, _) => bool_decide (bytes_ok (backing_ p)) | None => false end) as Hb
      by (vm_compute; exact I).
    rewrite E in Hb. exact (bool_decide_unpack _ Hb). }
  destruct (new_rss_ok kQueues (replicate 4 (replicate (Z.to_nat QUEUE_SIZE) 0))) as (rss' & Hn & Hrss).
  { unfold kQueues. lia. } { reflexivity. } { reflexivity. }
  { apply Forall_replicate. by rewrite length_replicate. }
  unfold demo_setup in E. rewrite Hn in E.
  destruct (new_BufferPool no_mbind 128 4 (-1) (mkHeap (toy_boot 4 0) ∅)) as [[[e|p'] h]|] eqn:Ep;
    [discriminate E| |discriminate E].
  injection E as -> ->. apply new_BufferPool_cases in Ep as (Hok & _ & Hs & _); [|lia|unfold kEmpty; lia|lia].
  split_and!; try done. change (buf_size p) with (buffer_size_ p). rewrite Hs. unfold MAX_HEADERS. lia.
Qed.

Lemma demo_boot_ok p rss :
  demo_setup = Some (p, rss) -> boot_ok 0 1 kQueues 2 p rss main_configs demo_ring [demo_idle; demo_idle].
Proof.
  intros E. destruct (demo_setup_ok p rss E) as (Hok & Hby & Hsz & Hrss). clear E.
  split; [reflexivity|exact Hrss|reflexivity| |exact Hok|exact Hby|exact Hsz|exact demo_ring_ok|reflexivity|reflexivity|].
  - intros [|[|[|[|i]]]] c; simpl; intros Hc; by simplify_eq.
  - repeat (apply Forall_cons; split; [reflexivity|]). apply Forall_nil_2.
Qed.

Definition demo_start (p : BufferPool) (rss : RSSDistributor Z) : pipeline BufferPool :=
  start_pipeline (new_WorkerPool rss p main_configs) demo_ring [demo_idle; demo_idle].

(** The run, and what its last state is like. *)
Lemma demo_run :
  exists p rss s, demo_setup = Some (p, rss) /\ rtc (pipe_step 0 1 4) (demo_start p rss) s /\
    called_by 1 (calls (pl_workers s)) = [demo_mem] /\ stop_ (pl_workers s) = true /\ pl_accepted s = [(1, demo_mem)].
Proof.
  assert (match demo_setup ≫= fun '(p, rss) => run (demo_actions demo_queue) (demo_start p rss) with
    | Some s => called_by 1 (calls (pl_workers s)) = [demo_mem] /\ stop_ (pl_workers s) = true /\ pl_accepted s = [(1, demo_mem)]
    | None => False end) as Hrun by (vm_compute; split_and!; reflexivity).
  destruct demo_setup as [[p rss]|] eqn:E; [|destruct Hrun]. cbn [mbind option_bind] in Hrun.
  destruct (run (demo_actions demo_queue) (demo_start p rss)) as [s|] eqn:Er; [|destruct Hrun].
  exists p, rss, s. split; [reflexivity|]. split; [|exact Hrun].
  eapply run_rtc; [|exact Er]. repeat (apply Forall_cons; split; [exact I || idtac|]); [|apply Forall_nil_2].
  split; [vm_compute; repeat split; discriminate|apply (bool_decide_unpack _); vm_compute; exact I].
Qed.

(** The 48-byte frame of the run is in the queue its bytes say. *)
Lemma demo_flow : frame_flow demo_mem [] (Some (0x0A000001, 0x0A000002, 5353, 9000)).
Proof. eexists. split; vm_compute; reflexivity. Qed.

Lemma pipeline_correct_witness :
  exists p rss s qs, demo_setup = Some (p, rss) /\ rtc (pipe_step 0 1 4) (demo_start p rss) s /\
    called_by 1 (calls (pl_workers s)) = [demo_mem] /\ is_Some (capture_step 0 1 4 s) /\
    rss_ok kQueues (wp_rss (pl_workers s)) qs /\
    pl_accepted s = [(1, demo_mem)] /\ 1 = flow_queue kQueues (Some (0x0A000001, 0x0A000002, 5353, 9000)).
Proof.
  destruct demo_run as (p & rss & s & E & Hex & Hc & _ & Hacc).
  destruct (pipeline_correct 0 1 4 kQueues 2 p rss main_configs demo_ring [demo_idle; demo_idle] s (demo_boot_ok p rss E) Hex)
    as (Hs & _ & _ & Ha & qs & Hqs & _).
  exists p, rss, s, qs. split; [exact E|]. split; [exact Hex|]. split; [exact Hc|]. split; [exact Hs|]. split; [exact Hqs|].
  split; [exact Hacc|]. rewrite Hacc in Ha. apply (proj1 (Forall_singleton _ _) Ha). exact demo_flow.
Defined.

Lemma workers_stop_witness :
  exists (s s' : pipeline BufferPool), stop_ (pl_workers s) = true /\
    called_by 1 (calls (pl_workers s)) = [demo_mem] /\ joined (pl_workers s') = true.
Proof.
  destruct demo_run as (p & rss & s & E & Hex & Hc & Hst & _).
  destruct (workers_stop 0 1 4 kQueues 2 p rss main_configs demo_ring [demo_idle; demo_idle] s (demo_boot_ok p rss E) Hex Hst)
    as (_ & s' & _ & Hj).
  exists s, s'. split; [exact Hst|]. split; [exact Hc|exact Hj].
Defined.
