(* ===== verification/Capture.v ===== *)
(** * The single-threaded capture program (src/capture.cpp)

    [capture_iter] is one iteration of the loop of [main]: the clock check, the
    poll of the packet ring, the line printed for a UDP frame and the line of
    counters printed every second.  The clock readings are arguments, the output
    is a list of lines, and an address is printed as the octets [inet_ntop]
    separates by dots.  [cap_step] interleaves the iterations with the kernel.
    [capture_main] is what precedes the loop and [program_step] the whole program:
    kernel, iterations, the signal, the end of the loop and the way out of [main]. *)

From S2P Require Import Prelude CString PacketParser Rss PacketRing.
From Stdlib Require Import Ascii String.
From stdpp Require Import base list_numbers gmap option list.
#[local] Open Scope Z_scope.

Definition now_ns (tv_sec tv_nsec : Z) : Z := u64 (u64 (u64 tv_sec * 1000000000) + tv_nsec).

(** The bytes of [htonl(host_ip)] in memory. *)
Definition ip_str (host_ip : Z) : list Z :=
  [Z.shiftr host_ip 24; Z.land (Z.shiftr host_ip 16) 255; Z.land (Z.shiftr host_ip 8) 255; Z.land host_ip 255].

Inductive line :=
  | LPacket (time : Z) (s_ip : list Z) (src_port : Z) (d_ip : list Z) (dst_port payload_len : Z)
  | LRate (rate total drops : Z)
  | LSummary (total drops : Z).

(** [cap_ring] to [last_tick] are the locals of [main]; [cap_shm] is the memory
    shared with the kernel, whose cursor and history are [cap_cursor] and
    [cap_published]. *)
Record capture := mkCapture {
  cap_ring : PacketRing; cap_total : Z; cap_last_total : Z; cap_last_tick : Z; cap_out : list line;
  cap_shm : list slot; cap_cursor : Z; cap_published : list slot }.

(** The line for a received frame, if it is a valid UDP packet. *)
Definition packet_line (m : list Z) (captured_len real_ns : Z) : option (list line) :=
  p ← parse m captured_len;
  if PacketParser.valid p && has_udp p then
    si ← src_ip m (ip p); di ← dst_ip m (ip p);
    sp ← src_port m (udp p); dp ← dst_port m (udp p); n ← udp_payload_len m (udp p);
    Some [LPacket real_ns (ip_str si) sp (ip_str di) dp n]
  else Some [].

Section loop.
Context (TP_STATUS_KERNEL TP_STATUS_USER TP_STATUS_LOSING : Z).

(** The branch that handles a frame. *)
Definition handle_frame (real_ns : Z) (s : capture) : option capture :=
  '(fr, r) ← receive TP_STATUS_USER TP_STATUS_LOSING (cap_ring s) (cap_shm s);
  match fr with
  | None => Some (mkCapture r (cap_total s) (cap_last_total s) (cap_last_tick s) (cap_out s) (cap_shm s) (cap_cursor s) (cap_published s))
  | Some fr =>
      m ← rx_mem r (cap_shm s) (PacketRing.data fr);
      out ← packet_line m (captured_len fr) real_ns;
      '(r, shm) ← PacketRing.release TP_STATUS_KERNEL r (cap_shm s);
      Some (mkCapture r (u64 (cap_total s + 1)) (cap_last_total s) (cap_last_tick s) (cap_out s ++ out) shm (cap_cursor s) (cap_published s))
  end.

(** The line of counters, once a second. *)
Definition tick_line (now : Z) (s : capture) : capture :=
  if 1000000000 <=? u64 (now - cap_last_tick s) then
    mkCapture (cap_ring s) (cap_total s) (cap_total s) now
      (cap_out s ++ [LRate (u64 (cap_total s - cap_last_total s)) (cap_total s) (drops_ (cap_ring s))])
      (cap_shm s) (cap_cursor s) (cap_published s)
  else s.

(** One iteration; [None] inside is the [break]. *)
Definition capture_iter (duration start now real_ns : Z) (s : capture) : option (option capture) :=
  if u64 (u64 duration * 1000000000) <=? u64 (now - start) then Some None
  else s ← handle_frame real_ns s; Some (Some (tick_line now s)).

(** After the loop. *)
Definition summary (s : capture) : line := LSummary (cap_total s) (drops_ (cap_ring s)).

Definition start_capture (r : PacketRing) (shm : list slot) (start : Z) : capture :=
  mkCapture r 0 0 start [] shm 0 [].

(** The kernel publishes a frame. *)
Inductive kernel_step : capture -> capture -> Prop :=
| kernel_publishes r t lt tick out shm K pub f shm' :
    slot_ok TP_STATUS_USER f -> bytes_ok (slot_mem f) -> tp_mac f + 80 <= kFrameSize ->
    publish TP_STATUS_USER K f shm = Some shm' ->
    kernel_step (mkCapture r t lt tick out shm K pub)
      (mkCapture r t lt tick out shm' ((K + 1) mod total_frames_ r) (pub ++ [f])).

Inductive cap_step (duration start : Z) : capture -> capture -> Prop :=
| cap_kernel s s' : kernel_step s s' -> cap_step duration start s s'
| cap_iter now real_ns s s' :
    capture_iter duration start now real_ns s = Some (Some s') -> cap_step duration start s s'.

(** ** What the program prints *)

(** The big-endian number of [n] bytes at [p]. *)
Definition field (m : list Z) (p n : Z) : Z := be_num (take (Z.to_nat n) (drop (Z.to_nat p) m)).

(** The fields of the line due to [len] bytes of frame at the start of [m],
    without its time: one line for an Ethernet frame of type IPv4 that is long
    enough for an IP header of version 4 and at least five words, whose words
    add up to a multiple of 65535 (the ones' complement sum of RFC 1071), with
    protocol UDP and a total length that leaves eight bytes (or, the difference
    being unsigned, is less than the header length); none for any other. *)
Definition due_line (m : list Z) (len : Z) : list (list Z * Z * list Z * Z * Z) :=
  let hl := field m 14 1 mod 16 * 4 in
  if decide (34 <= len /\ field m 12 2 = 0x0800 /\ field m 14 1 / 16 = 4 /\ 20 <= hl /\ field m 14 hl mod 65535 = 0 /\
             field m 23 1 = 17 /\ (field m 16 2 < hl \/ hl + 8 <= field m 16 2))
  then [(take 4 (drop 26 m), field m (14 + hl) 2, take 4 (drop 30 m), field m (16 + hl) 2, u64 (field m (18 + hl) 2 - 8))]
  else [].

Definition due (f : slot) : list (list Z * Z * list Z * Z * Z) :=
  due_line (drop (Z.to_nat (tp_mac f)) (slot_mem f)) (tp_snaplen f).

Definition packet_lines (out : list line) : list (list Z * Z * list Z * Z * Z) :=
  out ≫= fun l => match l with LPacket _ si sp di dp n => [(si, sp, di, dp, n)] | _ => [] end.

Definition rates (out : list line) : list Z := out ≫= fun l => match l with LRate r _ _ => [r] | _ => [] end.

(** The frames [dn] have been handled and [q] are waiting. *)
Record cap_inv (N : Z) (s : capture) (dn q : list slot) : Prop := {
  ci_rep : rx_rep TP_STATUS_USER N (cap_ring s) (cap_shm s) (cap_cursor s) q;
  ci_pub : cap_published s = dn ++ q;
  ci_mem : Forall (fun f => bytes_ok (slot_mem f) /\ tp_mac f + 80 <= kFrameSize) q;
  ci_total : cap_total s = u64 (Z.of_nat (length dn));
  ci_lines : packet_lines (cap_out s) = dn ≫= due;
  ci_rates : u64 (foldr Z.add 0 (rates (cap_out s))) = cap_last_total s
}.

Lemma aget_field m p b : aget m p = Some b -> field m p 1 = b.
Proof.
  intros [? Hb]%aget_Some. unfold field. change (Z.to_nat 1) with 1%nat.
  by rewrite (drop_S _ _ _ Hb).
Qed.

Lemma rd16_field m p w : bytes_ok m -> rd16 m p = Some w -> field m p 2 = w.
Proof.
  intros Hm Hr. unfold rd16 in Hr. apply bind_Some in Hr as (b0 & H0 & Hr). apply bind_Some in Hr as (b1 & H1 & [= <-]).
  pose proof (aget_byte _ _ _ Hm H1) as Hb1. pose proof (aget_byte _ _ _ Hm H0) as Hb0.
  apply aget_Some in H0 as [? H0]. apply aget_Some in H1 as [? H1]. unfold is_u8 in *.
  replace (Z.to_nat (p + 1)) with (S (Z.to_nat p)) in H1 by lia.
  unfold field. change (Z.to_nat 2) with 2%nat. rewrite (drop_S _ _ _ H0), (drop_S _ _ _ H1), lor_bytes by lia.
  unfold be_num. simpl. lia.
Qed.

(** The octets of an address are the bytes it was read from. *)
Lemma rd32_octets m p x : bytes_ok m -> rd32 m p = Some x -> ip_str x = take 4 (drop (Z.to_nat p) m).
Proof.
  intros Hm Hr. unfold rd32 in Hr. apply bind_Some in Hr as (b0 & H0 & Hr). apply bind_Some in Hr as (b1 & H1 & Hr).
  apply bind_Some in Hr as (b2 & H2 & Hr). apply bind_Some in Hr as (b3 & H3 & [= <-]).
  pose proof (aget_byte _ _ _ Hm H0). pose proof (aget_byte _ _ _ Hm H1).
  pose proof (aget_byte _ _ _ Hm H2). pose proof (aget_byte _ _ _ Hm H3). unfold is_u8 in *.
  apply aget_Some in H0 as [? H0]. apply aget_Some in H1 as [_ H1]. apply aget_Some in H2 as [_ H2]. apply aget_Some in H3 as [_ H3].
  replace (Z.to_nat (p + 1)) with (S (Z.to_nat p)) in H1 by lia. replace (Z.to_nat (p + 2)) with (S (S (Z.to_nat p))) in H2 by lia.
  replace (Z.to_nat (p + 3)) with (S (S (S (Z.to_nat p)))) in H3 by lia.
  rewrite (drop_S _ _ _ H0), (drop_S _ _ _ H1), (drop_S _ _ _ H2), (drop_S _ _ _ H3). cbn [take].
  assert (Z.lor (Z.lor (Z.lor (Z.shiftl b0 24) (Z.shiftl b1 16)) (Z.shiftl b2 8)) b3 =
          ((b0 * 256 + b1) * 256 + b2) * 256 + b3) as ->.
  { replace (Z.shiftl b0 24) with (Z.shiftl (Z.shiftl b0 8) 16) by (by rewrite Z.shiftl_shiftl by lia).
    rewrite <-Z.shiftl_lor, (lor_bytes b0 b1) by lia.
    replace (Z.shiftl (b0 * 2 ^ 8 + b1) 16) with (Z.shiftl (Z.shiftl (b0 * 2 ^ 8 + b1) 8) 8) by (by rewrite Z.shiftl_shiftl by lia).
    rewrite <-Z.shiftl_lor, (lor_bytes _ b2), (lor_bytes _ b3) by lia. lia. }
  unfold ip_str. change 255 with (2 ^ 8 - 1). rewrite !(land_mask 8), !Z.shiftr_div_pow2 by lia. repeat f_equal; dmlia.
Qed.

(** A header of version 4 is not all zeroes. *)
Lemma header_number_pos m b n : bytes_ok m -> aget m 14 = Some b -> b / 16 = 4 -> 1 <= n -> field m 14 n <> 0.
Proof.
  intros Hm Hb H4 Hn. pose proof (aget_byte _ _ _ Hm Hb) as Hu. unfold is_u8 in Hu. apply aget_Some in Hb as [_ Hb].
  change (Z.to_nat 14) with 14%nat in Hb. unfold field. change (Z.to_nat 14) with 14%nat. rewrite (drop_S _ _ _ Hb).
  replace (Z.to_nat n) with (S (Z.to_nat (n - 1))) by lia. cbn [take]. unfold be_num. cbn [fold_left].
  rewrite be_num_acc. set (l := take _ _). assert (0 <= be_num l) by (by apply be_num_nonneg, Forall_take, Forall_drop).
  assert (0 < 256 ^ Z.of_nat (length l)) by (apply Z.pow_pos_nonneg; lia). assert (0 < b) by dmlia. nia.
Qed.

(** The program prints for a frame the line due to it. *)
Lemma packet_line_due m n t :
  bytes_ok m -> 80 <= Z.of_nat (length m) -> 0 <= n < 2 ^ 64 ->
  packet_line m n t = Some ((fun '(si, sp, di, dp, k) => LPacket t si sp di dp k) <$> due_line m n).
Proof.
  intros Hm Hl Hn.
  destruct (aget_is_Some m 14) as [b Hb]; [lia|]. destruct (rd16_is_Some m 12) as [et Het]; [lia..|].
  destruct (rd16_is_Some m 16) as [tl Htl]; [lia..|]. destruct (aget_is_Some m 23) as [pr Hpr]; [lia|].
  pose proof (rd16_u16 _ _ _ Hm Htl) as Hut. unfold is_u16 in Hut.
  unfold packet_line. rewrite (bind_red _ _ _ (parse_spec m n b et tl pr Hm Hb Het Htl Hpr ltac:(dmlia))).
  unfold due_line. rewrite (aget_field _ _ _ Hb), (aget_field _ _ _ Hpr), (rd16_field _ _ _ Hm Het), (rd16_field _ _ _ Hm Htl).
  set (hl := b mod 16 * 4). assert (0 <= hl <= 60) as Hhl by (unfold hl; dmlia).
  match goal with |- (if ?c then _ else _) = _ => set (printed := c) end.
  assert (printed = true <-> 34 <= n /\ et = 0x0800 /\ b / 16 = 4 /\ 20 <= hl /\ field m 14 hl mod 65535 = 0 /\
    pr = 17 /\ (tl < hl \/ hl + 8 <= tl)) as Hprint.
  { unfold printed, parsed. fold hl. cbn [PacketParser.valid has_udp].
    change (be_num (take (Z.to_nat hl) (drop 14 m))) with (field m 14 hl).
    pose proof (header_number_pos m b hl Hm Hb) as Hpos.
    assert (14 <= n -> u64 (n - 14) = n - 14) as Hn14 by (intros; apply u64_id; unfold is_u64; lia).
    assert (8 <= u64 (tl - hl) <-> tl < hl \/ hl + 8 <= tl) as Htl8 by (unfold u64; dmlia).
    rewrite !andb_true_iff, orb_true_iff, negb_true_iff, !Z.leb_le, !Z.eqb_eq, bool_decide_eq_true, Htl8.
    split.
    - intros ((_ & Hc) & (((H14 & He) & ((H4 & H20) & Hh)) & Hp) & Ht). rewrite Hn14 in H20 by done.
      split_and!; try done; [lia|]. destruct Hc as [Hc|[_ Hc]]; [|done]. exfalso. revert Hc.
      rewrite Hn14 by done. apply not_false_iff_true. rewrite !andb_true_iff, !Z.leb_le, !Z.eqb_eq. lia.
    - intros (H34 & He & H4 & Hh & Hc & Hp & Ht). rewrite Hn14 by lia. split_and!; try done; lia. }
  destruct (decide _) as [Hd|Hd].
  - rewrite (proj2 Hprint Hd).
    unfold src_ip, dst_ip, src_port, dst_port, udp_payload_len, udp_length, parsed. cbn [ip udp v_buf].
    destruct (rd32_is_Some m (14 + 12)) as [si Hsi]; [lia..|]. destruct (rd32_is_Some m (14 + 16)) as [di Hdi]; [lia..|].
    fold hl. destruct (rd16_is_Some m (14 + hl)) as [sp Hsp]; [lia..|]. destruct (rd16_is_Some m (14 + hl + 2)) as [dp Hdp]; [lia..|].
    destruct (rd16_is_Some m (14 + hl + 4)) as [ln Hln]; [lia..|].
    rewrite Hsi, Hdi, Hsp, Hdp, Hln. cbn [mbind option_bind]. cbn [fmap list_fmap].
    rewrite (rd32_octets _ _ _ Hm Hsi), (rd32_octets _ _ _ Hm Hdi).
    replace (16 + hl) with (14 + hl + 2) by lia. replace (18 + hl) with (14 + hl + 4) by lia.
    by rewrite (rd16_field _ _ _ Hm Hsp), (rd16_field _ _ _ Hm Hdp), (rd16_field _ _ _ Hm Hln).
  - destruct printed; [|done]. destruct Hd. by apply Hprint.
Qed.

Lemma handle_frame_ok N s dn q t :
  Z.land TP_STATUS_KERNEL TP_STATUS_USER = 0 -> cap_inv N s dn q ->
  exists s', handle_frame t s = Some s' /\ cap_inv N s' (dn ++ take 1 q) (drop 1 q) /\ cap_last_total s' = cap_last_total s.
Proof.
  intros HK [R Hpub Hm Ht Hl Hr]. destruct (receive_ok TP_STATUS_USER TP_STATUS_LOSING _ _ _ _ _ R) as (r & Hrec & R' & Hbase & Hcur & _).
  unfold handle_frame. bind_with Hrec. destruct q as [|f q]; cbn [head fmap option_fmap option_map].
  { eexists. split; [done|]. split; [|done]. simpl. rewrite app_nil_r. by split. }
  cbn [PacketRing.data captured_len]. rewrite <-Hbase, <-Hcur. bind_with (rx_mem_ok _ _ _ _ _ _ _ R').
  apply Forall_cons in Hm as [[Hb Hmac] Hm].
  destruct (rx_frames _ _ _ _ _ _ R 0%nat f eq_refl) as [_ (_ & Hlen & Hmac0 & Hsn & Hfit)].
  rewrite (bind_red _ _ _ (packet_line_due (drop (Z.to_nat (tp_mac f)) (slot_mem f)) (tp_snaplen f) t
    (Forall_drop _ _ _ Hb) ltac:(rewrite length_drop; lia) ltac:(unfold kFrameSize in *; lia))). fold (due f). destruct (PacketRing.release_ok _ _ _ _ _ _ _ _ HK R') as (r2 & shm2 & Hrel & R2 & _).
  bind_with Hrel. eexists. split; [done|]. split; [|done]. simpl take. simpl drop. split; cbn; try done.
  - by rewrite Hpub, <-app_assoc.
  - rewrite Ht, u64_add_l, length_app. simpl. f_equal. lia.
  - unfold packet_lines in *. rewrite !bind_app, Hl. f_equal. simpl. rewrite app_nil_r. unfold due, due_line. by case_decide.
  - unfold rates in *. rewrite bind_app. unfold due, due_line. case_decide; simpl; by rewrite app_nil_r.
Qed.

Lemma tick_line_ok N s dn q now : cap_inv N s dn q -> cap_inv N (tick_line now s) dn q.
Proof.
  intros [R Hpub Hm Ht Hl Hr]. unfold tick_line. case_match; [|by split]. split; cbn; try done.
  - unfold packet_lines in *. by rewrite bind_app, Hl, app_nil_r.
  - unfold rates in *. rewrite bind_app. simpl. rewrite (sum_deltas _ _ _ Hr), Ht. apply u64_id, u64_range.
Qed.

Lemma capture_iter_ok N s dn q duration start now t :
  Z.land TP_STATUS_KERNEL TP_STATUS_USER = 0 -> cap_inv N s dn q ->
  exists o, capture_iter duration start now t s = Some o /\
    (o = None <-> u64 (u64 duration * 1000000000) <= u64 (now - start)) /\
    forall s', o = Some s' -> cap_inv N s' (dn ++ take 1 q) (drop 1 q).
Proof.
  intros HK I. unfold capture_iter. destruct (Z.leb_spec (u64 (u64 duration * 1000000000)) (u64 (now - start))).
  { exists None. by split. }
  destruct (handle_frame_ok N s dn q t HK I) as (s' & -> & I' & _). simpl.
  eexists. split; [done|]. split; [split; [done|lia]|]. intros s2 [= <-]. by apply tick_line_ok.
Qed.

Lemma cap_step_inv N duration start s s' dn q :
  Z.land TP_STATUS_KERNEL TP_STATUS_USER = 0 -> cap_inv N s dn q -> cap_step duration start s s' ->
  exists dn' q', cap_inv N s' dn' q'.
Proof.
  intros HK I Hst. revert I. destruct Hst as [s s' [r t lt tick out shm K pub f shm' Hf Hb Hmac Hp]|now t s s' Hi]; intros I.
  - exists dn, (q ++ [f]). destruct I as [R Hpub Hm Ht Hl Hr]. cbn in *. split; cbn; try done.
    + rewrite (ro_total _ _ (rx_ok _ _ _ _ _ _ R)). exact (publish_ok _ _ _ _ _ _ _ _ R Hf Hp).
    + by rewrite Hpub, app_assoc.
    + apply Forall_app. split; [done|]. by apply Forall_singleton.
  - destruct (capture_iter_ok N s dn q duration start now t HK I) as (o & Ho & _ & Hinv).
    rewrite Hi in Ho. injection Ho as <-. eauto.
Qed.

Lemma start_cap_inv N r shm start :
  rx_rep TP_STATUS_USER N r shm 0 [] -> cap_inv N (start_capture r shm start) [] [].
Proof. intros R. split; try done. Qed.
End loop.

(** Whatever frames the kernel publishes while the program runs, as long as
    80 bytes from the start of each lie in its slot, no iteration leaves the
    ring; the frames handled are the first ones published, in order; the packet
    lines are those due to the valid UDP frames among them; the total is their
    number, and the printed rates add up to the total at the last tick; an
    iteration ends the loop exactly when the duration is over, and otherwise
    handles the next frame if there is one. *)
Theorem capture_correct (KERNEL USER LOSING N duration start : Z) (r : PacketRing) (shm : list slot) (s : capture) :
  Z.land KERNEL USER = 0 -> ring_ok r N -> current_frame_ r = 0 -> Z.of_nat (length shm) = N ->
  Forall (fun s => Z.land (tp_status s) USER = 0) shm ->
  rtc (cap_step KERNEL USER LOSING duration start) (start_capture r shm start) s ->
  exists dn q, cap_published s = dn ++ q /\ packet_lines (cap_out s) = dn ≫= due /\
    cap_total s = u64 (Z.of_nat (length dn)) /\ u64 (foldr Z.add 0 (rates (cap_out s))) = cap_last_total s /\
    forall now t, exists o, capture_iter KERNEL USER LOSING duration start now t s = Some o /\
      (o = None <-> u64 (u64 duration * 1000000000) <= u64 (now - start)) /\
      forall s', o = Some s' -> cap_published s' = cap_published s /\
        packet_lines (cap_out s') = (dn ++ take 1 q) ≫= due /\ cap_total s' = u64 (Z.of_nat (length (dn ++ take 1 q))).
Proof.
  intros HK Hok Hc Hl Hs Hex.
  assert (exists dn q, cap_inv USER N s dn q) as (dn & q & I).
  { pose proof (start_cap_inv USER N r shm start (start_rep USER N r shm Hok Hc Hl Hs)) as I0.
    assert (exists dn q, cap_inv USER N (start_capture r shm start) dn q) as I by eauto. clear I0.
    induction Hex as [|s0 s1 s2 Hst _ IH]; [done|]. destruct I as (dn & q & I). eapply IH, cap_step_inv; [exact HK|exact I|exact Hst]. }
  exists dn, q. split_and!; try apply I. intros now t.
  destruct (capture_iter_ok KERNEL USER LOSING N s dn q duration start now t HK I) as (o & Ho & Hend & Hinv).
  exists o. split_and!; [done..|]. intros s' Hs'. pose proof (Hinv s' Hs') as I'. split_and!; try apply I'.
  rewrite (ci_pub _ _ _ _ _ I'), (ci_pub _ _ _ _ _ I), <-app_assoc. by rewrite take_drop.
Qed.

(** ** The program *)

(** How [main] ends; [ODone] has the state at the end of the loop and the
    summary. *)
Inductive outcome :=
  | OUsage
  | OError (e : ring_error)
  | ODone (s : capture) (summary : line).

Definition exit_code (r : outcome) : Z := match r with OUsage | OError _ => 1 | ODone _ _ => 0 end.

(** In the loop, with [g_stop]; or after [main]. *)
Inductive program (Os : Type) :=
  | PRun (duration start : Z) (g_stop : bool) (o : Os) (s : capture)
  | PExit (r : outcome) (o : Os).
Arguments PRun {Os}.
Arguments PExit {Os}.

Section program.
Context {Os : Type} `{RingOs Os}.

(** The ring of a [try] block: an exception of [set_busy_poll] destroys it. *)
Definition open_ring (iface : list Z) (num_blocks micros : Z) (o : Os) : (ring_error + PacketRing) * Os :=
  let '(res, o) := new_PacketRing iface num_blocks o in
  match res with
  | inl e => (inl e, o)
  | inr r =>
      let '(e, o) := set_busy_poll r micros o in
      match e with
      | Some e => (inl e, delete_PacketRing r o)
      | None => (inr r, o)
      end
  end.

(** Both programs take [<iface> [duration_secs]]. *)
Definition duration_arg (rest : list (list ascii)) : option Z :=
  match rest with d :: _ => atoi d | [] => Some 10 end.

(** [main] up to the loop; [start] is the clock then, [shm] the slots the kernel
    shares through the mapping. *)
Definition capture_main (argv : list (list ascii)) (shm : list slot) (start : Z) (o : Os) : option (program Os) :=
  match argv with
  | _ :: iface :: rest =>
      duration ← duration_arg rest;
      match open_ring (CString.code <$> iface) 128 50 o with
      | (inl e, o) => Some (PExit (OError e) o)
      | (inr r, o) => Some (PRun duration start false o (start_capture r shm start))
      end
  | _ => Some (PExit OUsage o)
  end.

(** After the loop: the summary and the destructor of the ring. *)
Definition finish (s : capture) (o : Os) : program Os :=
  PExit (ODone s (summary s)) (delete_PacketRing (cap_ring s) o).

Context (TP_STATUS_KERNEL TP_STATUS_USER TP_STATUS_LOSING : Z).

Inductive program_step : program Os -> program Os -> Prop :=
| pr_kernel d st b o s s' : kernel_step TP_STATUS_USER s s' -> program_step (PRun d st b o s) (PRun d st b o s')
| pr_signal d st b o s : program_step (PRun d st b o s) (PRun d st true o s)
| pr_iter d st o s now t s' :
    capture_iter TP_STATUS_KERNEL TP_STATUS_USER TP_STATUS_LOSING d st now t s = Some (Some s') ->
    program_step (PRun d st false o s) (PRun d st false o s')
| pr_break d st o s now t :
    capture_iter TP_STATUS_KERNEL TP_STATUS_USER TP_STATUS_LOSING d st now t s = Some None ->
    program_step (PRun d st false o s) (finish s o)
| pr_stop d st o s : program_step (PRun d st true o s) (finish s o).
End program.

Section program_lemmas.
Context {Os : Type} `{RingOsSpec Os} (KERNEL USER LOSING : Z).
Implicit Types (r : PacketRing) (s : capture) (o : Os).

(** What the destructor of a ring depends on. *)
Definition same_handle r r' : Prop := fd_ r' = fd_ r /\ ring_ r' = ring_ r /\ ring_bytes_ r' = ring_bytes_ r.

Lemma holds_same r r' o o' o'' : holds_ring r o o' -> same_handle r r' -> same_resources o' o'' -> holds_ring r' o o''.
Proof.
  unfold holds_ring. intros Hh (E1 & E2 & E3) [F1 F2]. rewrite E1, E2, E3, F1, F2. done.
Qed.

Lemma open_ring_ok iface n us o res o' :
  n < 2 ^ 31 -> open_ring iface n us o = (res, o') ->
  match res with
  | inl _ => same_resources o o'
  | inr r => ring_ok r (n * kFramesPerBlock) /\ current_frame_ r = 0 /\ holds_ring r o o'
  end.
Proof.
  intros Hn. unfold open_ring. destruct (new_PacketRing iface n o) as [[e|r] o1] eqn:E; (apply new_PacketRing_ok in E; [|done]).
  { by intros [= <- <-]. }
  destruct E as (Hok & Hc & _ & Hh). unfold set_busy_poll.
  destruct (sys_busy_poll (fd_ r) us o1) as [rc o2] eqn:Eb. apply sys_busy_poll_ok in Eb.
  pose proof (holds_same _ r _ _ o2 Hh ltac:(done) Eb) as Hh2.
  destruct (rc <? 0); intros [= <- <-]; [by apply delete_ring_ok|done].
Qed.

Lemma receive_handle r shm fr r' : receive USER LOSING r shm = Some (fr, r') -> same_handle r r'.
Proof.
  unfold receive. intros Hr. do 3 (apply bind_Some in Hr as (? & _ & Hr)). by case_match; simplify_eq.
Qed.

Lemma release_handle r shm r' shm' : PacketRing.release KERNEL r shm = Some (r', shm') -> same_handle r r'.
Proof. unfold PacketRing.release. intros Hr. do 4 (apply bind_Some in Hr as (? & _ & Hr)). by simplify_eq. Qed.

Lemma capture_iter_handle d st now t s s' :
  capture_iter KERNEL USER LOSING d st now t s = Some (Some s') -> same_handle (cap_ring s) (cap_ring s').
Proof.
  unfold capture_iter. case_match; [done|]. intros Hi. apply bind_Some in Hi as (s1 & Hh & [= <-]).
  assert (cap_ring (tick_line now s1) = cap_ring s1) as -> by (unfold tick_line; by case_match).
  unfold handle_frame in Hh. apply bind_Some in Hh as ([fr r] & Hr & Hh). apply receive_handle in Hr.
  destruct fr as [fr|]; [|by simplify_eq]. do 2 (apply bind_Some in Hh as (? & _ & Hh)).
  apply bind_Some in Hh as ([r2 shm2] & Hrel & Hh). apply release_handle in Hrel. simplify_eq. cbn.
  unfold same_handle in *. intuition congruence.
Qed.

(** While the program runs its loop has made the steps of [cap_step], and it holds
    the ring it opened. *)
Definition runs (o0 : Os) (shm : list slot) (d st : Z) o s : Prop :=
  exists r, ring_ok r (128 * kFramesPerBlock) /\ current_frame_ r = 0 /\
    rtc (cap_step KERNEL USER LOSING d st) (start_capture r shm st) s /\ holds_ring (cap_ring s) o0 o.

Definition program_inv (argv : list (list ascii)) (shm : list slot) (o0 : Os) (x : program Os) : Prop :=
  match x with
  | PRun d st _ o s => runs o0 shm d st o s
  | PExit OUsage o => (length argv < 2)%nat /\ o = o0
  | PExit (OError e) o => same_resources o0 o
  | PExit (ODone s l) o => same_resources o0 o /\ l = summary s /\ exists d st o', runs o0 shm d st o' s
  end.

Lemma main_inv argv shm start o x : capture_main argv shm start o = Some x -> program_inv argv shm o x.
Proof.
  unfold capture_main. destruct argv as [|a [|iface rest]]; [intros [= <-]; simpl; split; (done || lia)..|].
  destruct (duration_arg rest) as [d|]; simpl; [|done].
  destruct (open_ring _ 128 50 o) as [[e|r] o'] eqn:E; (apply open_ring_ok in E; [|done]); intros [= <-]; [done|].
  destruct E as (Hok & Hc & Hh). exists r. by split_and!; [..|apply rtc_refl|].
Qed.

Lemma program_step_inv argv shm o0 x x' :
  program_inv argv shm o0 x -> program_step KERNEL USER LOSING x x' -> program_inv argv shm o0 x'.
Proof.
  intros I Hst. destruct Hst as [d st b o s s' Hk|d st b o s|d st o s now t s' Hi|d st o s now t Hi|d st o s].
  - destruct I as (r & Hok & Hc & Hex & Hh). exists r. split_and!; [done..| |].
    + eapply rtc_r; [exact Hex|by apply cap_kernel].
    + by destruct Hk.
  - exact I.
  - destruct I as (r & Hok & Hc & Hex & Hh). exists r. split_and!; [done..| |].
    + eapply rtc_r; [exact Hex|by eapply cap_iter].
    + eapply holds_same; [exact Hh|by eapply capture_iter_handle|done].
  - split_and!; [|done|by exists d, st, o]. destruct I as (r & _ & _ & _ & Hh). by apply delete_ring_ok.
  - split_and!; [|done|by exists d, st, o]. destruct I as (r & _ & _ & _ & Hh). by apply delete_ring_ok.
Qed.
End program_lemmas.

(** The frames [dn] handled so far and the figures printed for them. *)
Definition handled (s : capture) : Prop :=
  exists dn q, cap_published s = dn ++ q /\ packet_lines (cap_out s) = dn ≫= due /\
    cap_total s = u64 (Z.of_nat (length dn)) /\ u64 (foldr Z.add 0 (rates (cap_out s))) = cap_last_total s.

(** C29: the program on any command line, whatever system call fails, whatever the
    kernel publishes and whenever the signal comes.  Without an interface it only
    prints the usage; when the ring cannot be opened or set up it reports the error
    and has given back every descriptor and mapping; otherwise it runs, and as long
    as it runs no iteration is undefined, one ends the loop exactly when the
    duration is over, and the lines printed are those due to the bytes of the first
    frames published ([due_line]), in order, with rates that add up (80 bytes from
    the start of each frame lie in its slot); when it ends, the summary has the
    total and the ring's resources have been given back. *)
Theorem capture_program {Os : Type} `{RingOsSpec Os} (KERNEL USER LOSING : Z) (argv : list (list ascii)) (shm : list slot)
    (start : Z) (o : Os) (x0 x : program Os) :
  Z.land KERNEL USER = 0 -> Z.of_nat (length shm) = 128 * kFramesPerBlock ->
  Forall (fun s => Z.land (tp_status s) USER = 0) shm ->
  capture_main argv shm start o = Some x0 -> rtc (program_step KERNEL USER LOSING) x0 x ->
  match x with
  | PExit OUsage o' => (length argv < 2)%nat /\ o' = o
  | PExit (OError e) o' => same_resources o o'
  | PExit (ODone s sum) o' => same_resources o o' /\ handled s /\ sum = LSummary (cap_total s) (drops_ (cap_ring s))
  | PRun d st _ o' s => handled s /\ forall now t, exists next, capture_iter KERNEL USER LOSING d st now t s = Some next /\
      (next = None <-> u64 (u64 d * 1000000000) <= u64 (now - st))
  end.
Proof.
  intros HK Hl Hs Hm Hex. apply (main_inv KERNEL USER LOSING) in Hm. assert (program_inv KERNEL USER LOSING argv shm o x) as I.
  { induction Hex as [|x0 x1 x2 Hst _ IH]; [done|]. apply IH. by eapply program_step_inv. }
  assert (forall d st o' s, runs KERNEL USER LOSING o shm d st o' s -> handled s /\ forall now t,
    exists next, capture_iter KERNEL USER LOSING d st now t s = Some next /\
      (next = None <-> u64 (u64 d * 1000000000) <= u64 (now - st))) as Hruns.
  { intros d st o' s (r & Hok & Hc & Hr & _).
    destruct (capture_correct KERNEL USER LOSING _ d st r shm s HK Hok Hc Hl Hs Hr) as (dn & q & H1 & H2 & H3 & H4 & H5).
    split; [by exists dn, q|]. intros now t. destruct (H5 now t) as (next & ? & ? & _). by exists next. }
  destruct x as [d st b o' s|[|e|s l] o']; [by eapply Hruns|done..|].
  destruct I as (Hr & -> & d & st & o'' & I). split; [done|]. split; [|done]. by eapply Hruns.
Qed.

(** The slots the kernel shares at first, and a command line. *)
Definition idle_slot : slot := mkSlot 0 0 0 66 (replicate 2048 0).
Definition idle_slots : list slot := replicate (Z.to_nat (128 * kFramesPerBlock)) idle_slot.
Definition demo_argv : list (list ascii) := [lit "capture"; lit "eth0"; lit "3"].

Lemma idle_slots_ok :
  Z.of_nat (length idle_slots) = 128 * kFramesPerBlock /\ Forall (fun s => Z.land (tp_status s) 1 = 0) idle_slots.
Proof.
  unfold idle_slots. rewrite length_replicate, frames_per_block. split; [lia|]. by apply Forall_replicate.
Qed.

Lemma demo_open (refuse : bool) :
  exists res o', open_ring (code <$> lit "eth0") 128 50 (mkToyNet ∅ ∅ refuse) = (res, o') /\
    if refuse then exists e, res = inl e else exists r, res = inr r.
Proof.
  unfold open_ring, new_PacketRing. change (128 <=? 0) with false. change (IFNAMSIZ <=? _) with false. cbv iota.
  unfold build_ring. cbn [sys_socket toy_net_os tn_fds]. rewrite decide_False by set_solver.
  cbn [sys_ifindex sys_set_version sys_set_rx_ring sys_mmap toy_net_os tn_maps]. rewrite lookup_empty.
  cbn [sys_bind toy_net_os refuse_bind]. destruct refuse; cbn; eauto.
Qed.

(** A ring whose socket cannot be bound, and a run that a signal ends. *)
Lemma capture_program_witness :
  (exists e o', capture_main demo_argv idle_slots 7 (mkToyNet ∅ ∅ true) = Some (PExit (OError e) o') /\ open_fds o' = ∅) /\
  (exists x0 s l o', capture_main demo_argv idle_slots 7 (mkToyNet ∅ ∅ false) = Some x0 /\
     rtc (program_step 0 1 4) x0 (PExit (ODone s l) o') /\ open_fds o' = ∅ /\ live_maps o' = ∅ /\ l = LSummary (cap_total s) (drops_ (cap_ring s))).
Proof.
  destruct idle_slots_ok as [Hl Hs]. split.
  - destruct (demo_open true) as (res & o' & E & e & ->).
    assert (capture_main demo_argv idle_slots 7 (mkToyNet ∅ ∅ true) = Some (PExit (OError e) o')) as Hm.
    { unfold capture_main. cbn [demo_argv]. rewrite E. reflexivity. }
    exists e, o'. split; [exact Hm|].
    exact (proj1 (capture_program 0 1 4 demo_argv idle_slots 7 _ _ _ eq_refl Hl Hs Hm (rtc_refl _ _))).
  - destruct (demo_open false) as (res & o' & E & r & ->).
    set (s := start_capture r idle_slots 7).
    assert (capture_main demo_argv idle_slots 7 (mkToyNet ∅ ∅ false) = Some (PRun 3 7 false o' s)) as Hm.
    { unfold capture_main. cbn [demo_argv]. rewrite E. reflexivity. }
    assert (rtc (program_step 0 1 4) (PRun 3 7 false o' s) (finish s o')) as Hr.
    { eapply rtc_l; [apply pr_signal|]. apply rtc_once, pr_stop. }
    destruct (capture_program 0 1 4 demo_argv idle_slots 7 _ _ _ eq_refl Hl Hs Hm Hr) as ([Hf Hm'] & _ & Hsum).
    eexists _, _, _, _. split; [exact Hm|]. split; [exact Hr|]. split; [exact Hf|]. split; [exact Hm'|exact Hsum].
Defined.

(** A ring of two slots; the kernel publishes a UDP frame. *)
Definition udp_slot : slot :=
  mkSlot 1 48 48 66 (replicate 66 0 ++ demo_mem ++ replicate (Z.to_nat (2048 - 66 - Z.of_nat (length demo_mem))) 0).

Lemma capture_prints_frame :
  exists s o, rtc (cap_step 0 1 4 10 7) (start_capture demo_ring [idle_slot; idle_slot] 7) s /\
    capture_iter 0 1 4 10 7 8 9 s = Some (Some o) /\
    packet_lines (cap_out o) = [([10; 0; 0; 1], 5353, [10; 0; 0; 2], 9000, 2)] /\ cap_total o = 1.
Proof.
  set (s := mkCapture demo_ring 0 0 7 [] [udp_slot; idle_slot] 1 [udp_slot]).
  assert (rtc (cap_step 0 1 4 10 7) (start_capture demo_ring [idle_slot; idle_slot] 7) s) as Hex.
  { eapply rtc_l; [|apply rtc_refl].
    apply cap_kernel, (kernel_publishes 1 demo_ring 0 0 7 [] [idle_slot; idle_slot] 0 [] udp_slot);
      [vm_compute; repeat split; discriminate|apply (bool_decide_unpack _); vm_compute; exact I|vm_compute; discriminate|reflexivity]. }
  destruct (capture_correct 0 1 4 2 10 7 demo_ring [idle_slot; idle_slot] s) as (dn & q & Hp & Hpl & Ht & _ & Hit).
  - reflexivity.
  - exact demo_ring_ok.
  - reflexivity.
  - reflexivity.
  - repeat (apply Forall_cons; split; [reflexivity|]). apply Forall_nil_2.
  - exact Hex.
  - destruct dn as [|f [|f' dn]]; [|exfalso; vm_compute in Ht; discriminate Ht|exfalso; apply (f_equal length) in Hp; simpl in Hp; lia].
    simpl in Hp. subst q. destruct (Hit 8 9) as (o & Ho & Hend & Hnext). destruct o as [o|]; [|exfalso; apply Hend; vm_compute; auto].
    destruct (Hnext o eq_refl) as (_ & H1 & H2). exists s, o. split; [exact Hex|]. split; [exact Ho|].
    split; [rewrite H1; vm_compute; reflexivity|rewrite H2; reflexivity].
Qed.
