(* ===== verification/MultiQueue.v ===== *)
(** * The multi-queue program as a whole (src/multiqueue_capture.cpp)

    Pipeline.v follows the packets.  Here is the rest of [main]: the clock that
    ends the loop, the signal, the counters the callback keeps, the line printed
    every second, the statistics at the end, and construction and destruction.
    [main_step] is a step of the main thread, [worker_turn] one of a worker with
    the callback [main] installs; [mq_step] interleaves them with the kernel and
    the signal.  The order in which [printf]'s arguments are loaded is left open,
    as in the language. *)

From S2P Require Import Prelude CString SpscRing OsMem HugeAlloc NumaUtil PoolIface BufferPool PacketParser Rss BatchProcessor PacketRing WorkerPool Pipeline Capture.
From Stdlib Require Import Ascii String.
From stdpp Require Import base list_numbers gmap option strings list.
#[local] Open Scope Z_scope.

(** At the head of the loop; handling the ring, from [receive] on; at the test of
    the tick; loading the counters for the line; the loop is left; in [join];
    the statistics are printed. *)
Inductive main_pc :=
  | MHead
  | MFrame (now : Z)
  | MTick (now : Z)
  | MLoad (now : Z) (got : list (option Z))
  | MLeave
  | MJoin
  | MDone.

(** [mq_counts] is [g_queue_counts], [mq_out] the lines of figures printed.  The
    queues of the frames dropped, the number of frames received and of those that
    found no buffer are recorded. *)
Record multiqueue (P : Type) := mkMq {
  mq_pipe : pipeline P;
  mq_pc : main_pc;
  mq_stop : bool;
  mq_last_tick : Z;
  mq_counts : list Z;
  mq_out : list (list Z);
  mq_summary : option (list (string * WorkerStats) * WorkerStats);
  mq_received : Z;
  mq_drops : list Z;
  mq_skipped : Z
}.
Arguments mkMq {P}.
Arguments mq_pipe {P}.
Arguments mq_pc {P}.
Arguments mq_stop {P}.
Arguments mq_last_tick {P}.
Arguments mq_counts {P}.
Arguments mq_out {P}.
Arguments mq_summary {P}.
Arguments mq_received {P}.
Arguments mq_drops {P}.
Arguments mq_skipped {P}.

(** The callback: [g_queue_counts[queue_id].fetch_add(1)]. *)
Definition callback (queue_id : Z) (counts : list Z) : option (list Z) :=
  n ← aget counts queue_id;
  aset counts queue_id (u64 (n + 1)).

Fixpoint callbacks (cs : list call) (counts : list Z) : option (list Z) :=
  match cs with
  | [] => Some counts
  | c :: cs => counts ← callback (c_queue c) counts; callbacks cs counts
  end.

Section program.
Context {P : Type} `{PoolOps P}.
Context (TP_STATUS_KERNEL TP_STATUS_USER TP_STATUS_LOSING : Z) (duration start : Z).
Implicit Types (s : multiqueue P).

Definition set_pc (pc : main_pc) s : multiqueue P :=
  mkMq (mq_pipe s) pc (mq_stop s) (mq_last_tick s) (mq_counts s) (mq_out s) (mq_summary s)
    (mq_received s) (mq_drops s) (mq_skipped s).

(** What a step of the capture thread adds to the record. *)
Definition tally (pc pc' : capture_pc) s : Z * list Z * Z :=
  match pc, pc' with
  | CPoll, CFrame _ => (mq_received s + 1, mq_drops s, mq_skipped s)
  | CFrame _, CRelease => (mq_received s, mq_drops s, mq_skipped s + 1)
  | CFull _ q, _ => (mq_received s, mq_drops s ++ [q], mq_skipped s)
  | _, _ => (mq_received s, mq_drops s, mq_skipped s)
  end.

(** A step of the main thread; [now] is the clock, which only [MHead] reads. *)
Definition main_step (now : Z) s : option (multiqueue P) :=
  match mq_pc s with
  | MHead =>
      Some (set_pc (if mq_stop s then MLeave
                    else if u64 (u64 duration * 1000000000) <=? u64 (now - start) then MLeave
                    else MFrame now) s)
  | MFrame now =>
      p ← capture_step TP_STATUS_KERNEL TP_STATUS_USER TP_STATUS_LOSING (mq_pipe s);
      let '(received, drops, skipped) := tally (pl_capture (mq_pipe s)) (pl_capture p) s in
      Some (mkMq p (match pl_capture p with CPoll => MTick now | _ => MFrame now end) (mq_stop s) (mq_last_tick s)
              (mq_counts s) (mq_out s) (mq_summary s) received drops skipped)
  | MTick now =>
      Some (set_pc (if 1000000000 <=? u64 (now - mq_last_tick s) then MLoad now [None; None; None; None] else MHead) s)
  | MLoad now got =>
      match mapM id got with
      | None => Some s
      | Some figures =>
          Some (mkMq (mq_pipe s) MHead (mq_stop s) now (mq_counts s) (mq_out s ++ [figures]) (mq_summary s)
                  (mq_received s) (mq_drops s) (mq_skipped s))
      end
  | MLeave =>
      Some (mkMq (set_workers (mq_pipe s) (request_stop (pl_workers (mq_pipe s)))) MJoin (mq_stop s) (mq_last_tick s)
              (mq_counts s) (mq_out s) (mq_summary s) (mq_received s) (mq_drops s) (mq_skipped s))
  | MJoin =>
      let w := pl_workers (mq_pipe s) in
      if joined w then
        Some (mkMq (mq_pipe s) MDone (mq_stop s) (mq_last_tick s) (mq_counts s) (mq_out s) (Some (print_stats w))
                (mq_received s) (mq_drops s) (mq_skipped s))
      else Some s
  | MDone => Some s
  end.

(** [g_queue_counts[i].load()], for any [i] not loaded yet. *)
Definition load_step (i : nat) s : option (multiqueue P) :=
  match mq_pc s with
  | MLoad now got =>
      match got !! i with
      | Some None => v ← aget (mq_counts s) (Z.of_nat i); Some (set_pc (MLoad now (<[i := Some v]> got)) s)
      | _ => None
      end
  | _ => None
  end.

(** A step of worker [i], with the callbacks it makes. *)
Definition worker_turn (i : Z) s : option (multiqueue P) :=
  let w := pl_workers (mq_pipe s) in
  w' ← worker_step i w;
  counts ← callbacks (drop (length (calls w)) (calls w')) (mq_counts s);
  Some (mkMq (set_workers (mq_pipe s) w') (mq_pc s) (mq_stop s) (mq_last_tick s) counts (mq_out s) (mq_summary s)
          (mq_received s) (mq_drops s) (mq_skipped s)).

(** [on_sigint] *)
Definition on_sigint s : multiqueue P :=
  mkMq (mq_pipe s) (mq_pc s) true (mq_last_tick s) (mq_counts s) (mq_out s) (mq_summary s)
    (mq_received s) (mq_drops s) (mq_skipped s).

Definition set_pipe (p : pipeline P) s : multiqueue P :=
  mkMq p (mq_pc s) (mq_stop s) (mq_last_tick s) (mq_counts s) (mq_out s) (mq_summary s)
    (mq_received s) (mq_drops s) (mq_skipped s).

(** The kernel fills the next slot. *)
Definition kernel_turn (f : slot) s : option (multiqueue P) :=
  let p := mq_pipe s in
  shm ← publish TP_STATUS_USER (pl_cursor p) f (pl_shm p);
  Some (set_pipe (mkPipeline (pl_workers p) (pl_ring p) shm (pl_capture p) ((pl_cursor p + 1) mod total_frames_ (pl_ring p))
                    (pl_published p ++ [f]) (pl_accepted p)) s).

Inductive mq_step : multiqueue P -> multiqueue P -> Prop :=
| mq_kernel f s s' : slot_ok TP_STATUS_USER f -> bytes_ok (slot_mem f) -> kernel_turn f s = Some s' -> mq_step s s'
| mq_main now s s' : main_step now s = Some s' -> mq_step s s'
| mq_load i s s' : load_step i s = Some s' -> mq_step s s'
| mq_worker i s s' : worker_turn i s = Some s' -> mq_step s s'
| mq_signal s : mq_step s (on_sigint s).

Definition start_multiqueue (p : pipeline P) : multiqueue P :=
  mkMq p MHead false start (replicate (Z.to_nat kQueues) 0) [] None 0 [] 0.
End program.

(** ** What a step does to the counters *)

(** The calls made for queue [i], and a call whose packet is not counted yet. *)
Definition ncalls (cs : list call) (i : Z) : Z := Z.of_nat (length (called_by i cs)).
Definition uncounted (t : thread) : Z := match w_pc t with WCalled _ => 1 | _ => 0 end.

Definition in_hand (pc : capture_pc) : Z :=
  match pc with CFrame _ | CCopy _ _ | CPush _ _ _ | CFull _ _ => 1 | _ => 0 end.

Section effects.
Context {P : Type} `{PoolOps P}.
Implicit Types (w : WorkerPool P) (s : pipeline P).

(** A worker step makes at most one call, for the worker's queue, and counts the
    packet of the call in a later step. *)
Record worker_effect w w' (c : WorkerConfig) (t t' : thread) (st st' : WorkerStats) (new : list call) : Prop := {
  we_configs : configs_ w' = configs_ w;
  we_calls : calls w' = calls w ++ new;
  we_dropped : w_dropped st' = w_dropped st;
  we_kind :
    new = [] /\ uncounted t' = uncounted t /\ w_processed st' = w_processed st \/
    (exists c', new = [c'] /\ c_queue c' = queue_index c) /\ uncounted t = 0 /\ uncounted t' = 1 /\ w_processed st' = w_processed st \/
    new = [] /\ uncounted t = 1 /\ uncounted t' = 0 /\ w_processed st' = u64 (w_processed st + 1)
}.

Lemma set_thread_eq i pc m w w' :
  set_thread i pc m w = Some w' ->
  w' = mkWorkers (wp_rss w) (wp_pool w) (configs_ w) (wstats_ w) (<[Z.to_nat i := mkThread pc m]> (threads_ w)) (stop_ w) (calls w).
Proof. unfold set_thread. intros Hs. apply bind_Some in Hs as (ts & Ht & [= <-]). by apply aset_inv in Ht as [_ ->]. Qed.

Lemma upd_stats_eq i f w w' :
  upd_stats i f w = Some w' -> exists st, wstats_ w !! Z.to_nat i = Some st /\
  w' = mkWorkers (wp_rss w) (wp_pool w) (configs_ w) (<[Z.to_nat i := f st]> (wstats_ w)) (threads_ w) (stop_ w) (calls w).
Proof.
  unfold upd_stats. intros Hs. apply bind_Some in Hs as (st & Hg & Hs). apply bind_Some in Hs as (sts & Ht & [= <-]).
  apply aset_inv in Ht as [_ ->]. apply aget_Some in Hg as [_ Hg]. by exists st.
Qed.

Lemma worker_step_effect i w w' st :
  worker_step i w = Some w' -> wstats_ w !! Z.to_nat i = Some st ->
  exists c t t' st' new, configs_ w !! Z.to_nat i = Some c /\ threads_ w !! Z.to_nat i = Some t /\
    threads_ w' = <[Z.to_nat i := t']> (threads_ w) /\ wstats_ w' = <[Z.to_nat i := st']> (wstats_ w) /\
    worker_effect w w' c t t' st st' new.
Proof.
  unfold worker_step. intros Hs Hst. apply bind_Some in Hs as (c & Hc & Hs). apply bind_Some in Hs as (t & Ht & Hs).
  apply aget_Some in Hc as [_ Hc]. apply aget_Some in Ht as [_ Ht]. exists c, t. unfold uncounted. destruct (w_pc t) as [|b|b| |] eqn:E.
  - apply bind_Some in Hs as ([[b|] rss] & _ & Hs).
    + apply set_thread_eq in Hs as ->. eexists _, st, []. split_and!; [done..|symmetry; by apply list_insert_id|].
      split; cbn; [done|by rewrite app_nil_r|done|]. left. unfold uncounted. by rewrite E.
    + apply bind_Some in Hs as (w1 & Hu & Hs). apply upd_stats_eq in Hu as (st1 & Hs1 & ->). apply set_thread_eq in Hs as ->.
      cbn in Hs1. simplify_eq. eexists _, _, []. split_and!; [done..|].
      split; cbn; [done|by rewrite app_nil_r|done|]. left. unfold uncounted. by rewrite E.
  - do 3 (apply bind_Some in Hs as (? & _ & Hs)). apply set_thread_eq in Hs as ->.
    eexists _, st, _. split_and!; [done..|symmetry; by apply list_insert_id|]. split; cbn; [done..|].
    right; left. unfold uncounted. rewrite E. cbn. split; [by eexists|done].
  - apply bind_Some in Hs as (p & _ & Hs). apply bind_Some in Hs as (w1 & Hu & Hs).
    apply upd_stats_eq in Hu as (st1 & Hs1 & ->). apply set_thread_eq in Hs as ->. cbn in Hs1. simplify_eq.
    eexists _, _, []. split_and!; [done..|]. split; cbn; [done|by rewrite app_nil_r|done|].
    right; right. unfold uncounted. by rewrite E.
  - apply set_thread_eq in Hs as ->. eexists _, st, []. split_and!; [done..|symmetry; by apply list_insert_id|].
    split; cbn; [done|by rewrite app_nil_r|done|]. left. unfold uncounted. rewrite E. by destruct (_ && _).
  - injection Hs as <-. exists t, st, []. split_and!; [done..|symmetry; by apply list_insert_id|symmetry; by apply list_insert_id|].
    split; [done|by rewrite app_nil_r|done|]. by left.
Qed.

(** A joined worker does nothing. *)
Lemma joined_step i w w' : joined w = true -> worker_step i w = Some w' -> w' = w.
Proof.
  unfold joined, worker_step. intros Hj Hs. apply bind_Some in Hs as (c & _ & Hs). apply bind_Some in Hs as (t & Ht & Hs).
  apply aget_Some in Ht as [_ Ht]. apply Is_true_true, forallb_True in Hj. rewrite Forall_lookup in Hj. specialize (Hj _ _ Ht).
  destruct (w_pc t); try done. by simplify_eq.
Qed.

(** The worker that serves a queue. *)
Lemma drop_index_at (cs : list WorkerConfig) (q a : Z) :
  (forall i c, cs !! i = Some c -> queue_index c = a + Z.of_nat i) -> a <= q < a + Z.of_nat (length cs) ->
  drop_index cs q a = Some q.
Proof.
  revert a. induction cs as [|c cs IH]; intros a Hc Hq; simpl in *; [lia|]. pose proof (Hc 0%nat c eq_refl) as H0.
  destruct (Z.eqb_spec (queue_index c) q); [f_equal; lia|]. apply IH; [|lia].
  intros i c' Hi. rewrite (Hc (S i) c' Hi). lia.
Qed.

Context (KERNEL USER LOSING : Z).

(** A step of the capture thread leaves the workers' side alone, but for a drop,
    and the record accounts for the frame in hand. *)
Lemma capture_step_effect s s' :
  capture_step KERNEL USER LOSING s = Some s' ->
  configs_ (pl_workers s') = configs_ (pl_workers s) /\ calls (pl_workers s') = calls (pl_workers s) /\
  threads_ (pl_workers s') = threads_ (pl_workers s) /\
  match pl_capture s with
  | CFull _ q => exists w, record_drop q (pl_workers s) = Some w /\ wstats_ (pl_workers s') = wstats_ w
  | _ => wstats_ (pl_workers s') = wstats_ (pl_workers s)
  end /\
  forall m : multiqueue P, let '(rc, ds, sk) := tally (pl_capture s) (pl_capture s') m in
    rc - (Z.of_nat (length (pl_accepted s')) + Z.of_nat (length ds) + sk + in_hand (pl_capture s')) =
    mq_received m -
      (Z.of_nat (length (pl_accepted s)) + Z.of_nat (length (mq_drops m)) + mq_skipped m + in_hand (pl_capture s)).
Proof.
  unfold capture_step. destruct (pl_capture s) as [|fr|b fr|b q bs|b q|] eqn:E; intros Hs; apply bind_Some in Hs as (x & Hx & Hs).
  - destruct x as [[fr|] r]; injection Hs as <-; (split_and!; [done..|]); intros m; cbn; lia.
  - destruct x as [[b|] p]; injection Hs as <-; (split_and!; [done..|]); intros m; cbn; lia.
  - destruct x as [[p q] bs]. injection Hs as <-. (split_and!; [done..|]); intros m; cbn; lia.
  - destruct x as [[] rss]; injection Hs as <-; (split_and!; [done..|]); intros m; cbn; rewrite ?length_app; simpl; lia.
  - apply bind_Some in Hs as (p & _ & Hs). injection Hs as <-.
    assert (configs_ x = configs_ (pl_workers s) /\ calls x = calls (pl_workers s) /\ threads_ x = threads_ (pl_workers s)) as (? & ? & ?).
    { unfold record_drop in Hx. case_match; [|by simplify_eq]. by apply upd_stats_eq in Hx as (st & _ & ->). }
    split_and!; [done..|by eexists|]. intros m; cbn. rewrite length_app. simpl. lia.
  - destruct x as [r shm]. injection Hs as <-. split_and!; [done..|]. intros m; cbn; lia.
Qed.
End effects.

(** ** The invariant *)

(** The numbers of calls of the four queues, and the figures printed for them. *)
Definition call_counts (cs : list call) : list nat := (fun i => length (called_by i cs)) <$> seqZ 0 kQueues.
Definition figures (ks : list nat) : list Z := (fun k => u64 (Z.of_nat k)) <$> ks.

(** [kss], newest first, rises to [ks]. *)
Fixpoint rising (kss : list (list nat)) (ks : list nat) : Prop :=
  match kss with
  | [] => True
  | k :: kss => Forall2 le k ks /\ rising kss k
  end.

Definition ndrops (ds : list Z) (i : Z) : Z := Z.of_nat (length (filter (fun q => q = i) ds)).

Section invariant.
Context {P : Type} `{PoolBytes P} {KERNEL USER LOSING N duration start : Z}.
Context {p : P} {rss : RSSDistributor Z} {r : PacketRing} {shm : list slot}.
Context (B : boot_ok KERNEL USER kQueues N p rss main_configs r shm).
Implicit Types (s : multiqueue P) (w : WorkerPool P).

Definition stats_ok w (ds : list Z) : Prop :=
  forall i st, wstats_ w !! i = Some st -> exists t, threads_ w !! i = Some t /\
    w_processed st = u64 (ncalls (calls w) (Z.of_nat i) - uncounted t) /\ w_dropped st = u64 (ndrops ds (Z.of_nat i)).

(** The lines [base] were printed before a moment when the queues had had [lo]
    calls and no figure of the next line was loaded. *)
Section lines.
Context {base : list (list Z)} {lo : list nat}.

(** The lines since have figures between [lo] and the present numbers of calls. *)
Definition lines_ok s : Prop :=
  exists kss ks, mq_out s = base ++ reverse (figures <$> kss) /\ rising kss ks /\ Forall (Forall2 le lo) (ks :: kss) /\
    Forall2 le ks (call_counts (calls (pl_workers (mq_pipe s)))) /\
    match mq_pc s with
    | MLoad _ got => Forall2 (fun g k => forall v, g = Some v -> v = u64 (Z.of_nat k)) got ks
    | _ => True
    end.

Record mq_inv s : Prop := {
  mi_pipe : rtc (pipe_step KERNEL USER LOSING) (start_pipeline (new_WorkerPool rss p main_configs) r shm) (mq_pipe s);
  mi_configs : configs_ (pl_workers (mq_pipe s)) = main_configs;
  mi_queues : Forall (fun c => 0 <= c_queue c < kQueues) (calls (pl_workers (mq_pipe s)));
  mi_counts : mq_counts s = figures (call_counts (calls (pl_workers (mq_pipe s))));
  mi_stats : stats_ok (pl_workers (mq_pipe s)) (mq_drops s);
  mi_lines : lines_ok s;
  mi_drops : Forall (fun q => 0 <= q < kQueues) (mq_drops s);
  mi_tally : mq_received s =
    Z.of_nat (length (pl_accepted (mq_pipe s))) + Z.of_nat (length (mq_drops s)) + mq_skipped s +
    in_hand (pl_capture (mq_pipe s));
  mi_idle : match mq_pc s with MFrame _ => True | _ => pl_capture (mq_pipe s) = CPoll end;
  mi_done : forall sum, mq_summary s = Some sum ->
    mq_pc s = MDone /\ joined (pl_workers (mq_pipe s)) = true /\ sum = print_stats (pl_workers (mq_pipe s))
}.

Lemma rising_le kss ks ks' : rising kss ks -> Forall2 le ks ks' -> rising kss ks'.
Proof.
  destruct kss as [|k kss]; simpl; [done|]. intros [Hk Hr] Hle. split; [|done].
  by transitivity ks.
Qed.

Lemma counts_refl (ks : list nat) : Forall2 le ks ks.
Proof. by apply Forall_Forall2_diag, Forall_true. Qed.

Lemma called_app cs new i :
  length (called_by i (cs ++ new)) = (length (called_by i cs) + length (called_by i new))%nat.
Proof. unfold called_by. by rewrite filter_app, fmap_app, length_app. Qed.

Lemma call_counts_app cs new : Forall2 le (call_counts cs) (call_counts (cs ++ new)).
Proof.
  unfold call_counts. apply Forall2_fmap, Forall_Forall2_diag, Forall_forall. intros i _. rewrite called_app. lia.
Qed.

(** The callbacks keep the counters equal to the numbers of calls. *)
Lemma callbacks_ok cs new :
  Forall (fun c => 0 <= c_queue c < kQueues) new ->
  callbacks new (figures (call_counts cs)) = Some (figures (call_counts (cs ++ new))).
Proof.
  intros Hn. revert cs. induction Hn as [|c new Hc _ IH]; intros cs; cbn [callbacks]; [by rewrite app_nil_r|].
  replace (cs ++ c :: new) with ((cs ++ [c]) ++ new) by (by rewrite <-app_assoc). rewrite <-IH.
  assert (forall cs i, 0 <= i < kQueues -> aget (figures (call_counts cs)) i = Some (u64 (ncalls cs i))) as Hget.
  { intros cs' i Hi. apply aget_Some. split; [lia|]. unfold figures, call_counts. rewrite !list_lookup_fmap, lookup_seqZ_lt by lia.
    simpl. by rewrite Z2Nat.id by lia. }
  unfold callback. rewrite (bind_red _ _ _ (Hget cs (c_queue c) Hc)).
  rewrite aset_Some; [|unfold figures, call_counts; rewrite !length_fmap, length_seqZ; unfold kQueues in *; lia].
  cbn [mbind option_bind]. f_equal. apply list_eq. intros j. unfold figures, call_counts.
  assert (forall A (f : Z -> A) j, (f <$> seqZ 0 kQueues) !! j = if decide (Z.of_nat j < kQueues) then Some (f (Z.of_nat j)) else None) as Hlk.
  { intros A f k. rewrite list_lookup_fmap. case_decide; [rewrite lookup_seqZ_lt by lia; done|rewrite lookup_seqZ_ge by lia; done]. }
  rewrite <-!list_fmap_compose. destruct (decide (j = Z.to_nat (c_queue c))) as [->|Hne].
  - rewrite list_lookup_insert_eq by (rewrite length_fmap, length_seqZ; unfold kQueues in *; lia).
    rewrite Hlk, decide_True by lia. unfold compose. rewrite called_app, Z2Nat.id by lia. f_equal. unfold ncalls. rewrite u64_add_l.
    unfold called_by at 3. rewrite filter_cons_True by done. f_equal. simpl. lia.
  - rewrite list_lookup_insert_ne by done. rewrite !Hlk. case_decide; [|done]. f_equal. unfold compose. rewrite called_app.
    unfold called_by at 3. rewrite filter_cons_False by lia. f_equal. simpl. lia.
Qed.

Lemma ncalls_snoc cs c i : ncalls (cs ++ [c]) i = ncalls cs i + (if decide (c_queue c = i) then 1 else 0).
Proof.
  unfold ncalls. rewrite called_app. unfold called_by at 2. rewrite filter_cons, filter_nil. case_decide; simpl; lia.
Qed.

Lemma ndrops_snoc ds q i : ndrops (ds ++ [q]) i = ndrops ds i + (if decide (q = i) then 1 else 0).
Proof. unfold ndrops. rewrite filter_app, length_app, filter_cons, filter_nil. case_decide; simpl; lia. Qed.

Lemma stats_worker w w' ds k c t t' st st' new :
  stats_ok w ds -> wstats_ w !! k = Some st -> threads_ w !! k = Some t -> queue_index c = Z.of_nat k ->
  threads_ w' = <[k := t']> (threads_ w) -> wstats_ w' = <[k := st']> (wstats_ w) ->
  worker_effect w w' c t t' st st' new -> stats_ok w' ds.
Proof.
  intros Hok Hst Ht Hq Hts Hsts [_ Hcalls Hd Hk] j st0 Hj. rewrite Hsts in Hj.
  pose proof (lookup_lt_Some _ _ _ Hst). pose proof (lookup_lt_Some _ _ _ Ht). rewrite Hts, Hcalls.
  destruct (decide (j = k)) as [->|Hne].
  - rewrite list_lookup_insert_eq in Hj by done. injection Hj as <-. exists t'. split; [by rewrite list_lookup_insert_eq|].
    destruct (Hok k st Hst) as (t0 & Ht0 & Hp & Hdr). simplify_eq. split; [|congruence].
    destruct Hk as [(-> & -> & ->)|[((c' & -> & Hc) & U0 & -> & ->)|(-> & U1 & -> & ->)]].
    + by rewrite app_nil_r.
    + rewrite ncalls_snoc, decide_True by congruence. rewrite Hp, U0. f_equal. lia.
    + rewrite app_nil_r, Hp, U1, u64_add_l. f_equal. lia.
  - rewrite list_lookup_insert_ne in Hj by done. destruct (Hok j st0 Hj) as (t0 & Ht0 & Hp & Hdr).
    exists t0. split; [by rewrite list_lookup_insert_ne|]. split; [|done].
    destruct Hk as [(-> & _)|[((c' & -> & Hc) & _)|(-> & _)]]; rewrite ?app_nil_r; try done.
    rewrite ncalls_snoc, decide_False, Z.add_0_r by lia. done.
Qed.

Lemma main_config i c : main_configs !! i = Some c -> queue_index c = Z.of_nat i /\ (i < 4)%nat.
Proof. intros Hc. pose proof (lookup_lt_Some _ _ _ Hc). split; [by apply (bo_queues _ _ _ _ _ _ _ _ _ B)|done]. Qed.

(** What the pipeline's invariant says of the counters. *)
Lemma stats_at s k :
  mq_inv s -> (k < 4)%nat -> is_Some (wstats_ (pl_workers (mq_pipe s)) !! k).
Proof.
  intros I Hk. destruct (reach_inv B _ (mi_pipe _ I)) as [_ [qs W] _ _]. apply lookup_lt_is_Some.
  rewrite (wi_stats _ _ _ _ _ _ W). pose proof (rss_len _ _ _ (wi_rss _ _ _ _ _ _ W)). unfold kQueues in *. lia.
Qed.

Lemma lines_calls s s' new :
  lines_ok s -> mq_out s' = mq_out s -> mq_pc s' = mq_pc s ->
  calls (pl_workers (mq_pipe s')) = calls (pl_workers (mq_pipe s)) ++ new -> lines_ok s'.
Proof.
  intros (kss & ks & Ho & Hr & Hlo & Hle & Hg) E1 E2 E3. exists kss, ks. rewrite E1, E2, E3. split_and!; try done.
  etransitivity; [exact Hle|apply call_counts_app].
Qed.

Lemma worker_turn_ok i s : mq_inv s -> 0 <= i < kQueues -> exists s', worker_turn i s = Some s' /\ mq_inv s'.
Proof.
  intros I Hi. pose proof (reach_inv B _ (mi_pipe _ I)) as Ip.
  destruct (pipe_worker_ok USER kQueues N _ KERNEL (bo_status _ _ _ _ _ _ _ _ _ B) _ Ip i Hi) as (w' & Hw & _).
  destruct (stats_at s (Z.to_nat i) I) as [st Hst]; [unfold kQueues in *; lia|].
  destruct (worker_step_effect i _ w' st Hw Hst) as (c & t & t' & st' & new & Hc & Ht & Hts & Hsts & E).
  rewrite (mi_configs _ I) in Hc. apply main_config in Hc as [Hq _].
  assert (Forall (fun c => 0 <= c_queue c < kQueues) new) as Hnew.
  { destruct (we_kind _ _ _ _ _ _ _ _ E) as [(-> & _)|[((c' & -> & Hc') & _)|(-> & _)]]; [apply Forall_nil_2| |apply Forall_nil_2].
    apply Forall_singleton. lia. }
  unfold worker_turn. cbv zeta. bind_with Hw. rewrite (we_calls _ _ _ _ _ _ _ _ E), drop_app_length, (mi_counts _ I).
  rewrite (bind_red _ _ _ (callbacks_ok _ _ Hnew)). eexists. split; [done|]. destruct I. split; cbn; try done.
  - eapply rtc_r; [done|]. by eapply step_worker.
  - by rewrite (we_configs _ _ _ _ _ _ _ _ E).
  - rewrite (we_calls _ _ _ _ _ _ _ _ E). by apply Forall_app.
  - by rewrite (we_calls _ _ _ _ _ _ _ _ E).
  - eapply stats_worker; [done|exact Hst|exact Ht|exact Hq|exact Hts|exact Hsts|exact E].
  - eapply lines_calls; [done..|]. apply (we_calls _ _ _ _ _ _ _ _ E).
  - intros sum Hsum. destruct (mi_done0 sum Hsum) as (? & Hj & ?). by rewrite (joined_step _ _ _ Hj Hw).
Qed.

(** A drop is counted for the worker of its queue. *)
Lemma stats_drop w w1 ds q :
  stats_ok w ds -> configs_ w = main_configs -> 0 <= q < kQueues -> record_drop q w = Some w1 ->
  threads_ w1 = threads_ w -> calls w1 = calls w -> stats_ok w1 (ds ++ [q]).
Proof.
  intros Hok Hc Hq Hr Ht Hcl. unfold record_drop in Hr.
  rewrite Hc, (drop_index_at main_configs q 0) in Hr; [|intros i c Hi; by apply main_config in Hi as [-> _]|done].
  apply upd_stats_eq in Hr as (st & Hst & ->). intros j st0 Hj. cbn in *. pose proof (lookup_lt_Some _ _ _ Hst). rewrite ndrops_snoc.
  destruct (decide (j = Z.to_nat q)) as [->|Hne].
  - rewrite list_lookup_insert_eq in Hj by done. injection Hj as <-. destruct (Hok _ _ Hst) as (t & Htt & Hp & Hd).
    exists t. split_and!; [done..|]. cbn. rewrite decide_True, Hd, u64_add_l by lia. done.
  - rewrite list_lookup_insert_ne in Hj by done. destruct (Hok _ _ Hj) as (t & Htt & Hp & Hd). exists t.
    rewrite decide_False, Z.add_0_r by lia. done.
Qed.

Lemma frame_turn_ok now s :
  mq_inv s -> mq_pc s = MFrame now ->
  exists s', main_step KERNEL USER LOSING duration start now s = Some s' /\ mq_inv s'.
Proof.
  intros I Hpc. pose proof (reach_inv B _ (mi_pipe _ I)) as Ip.
  destruct (capture_step_ok USER kQueues N _ KERNEL LOSING (bo_status _ _ _ _ _ _ _ _ _ B) _ Ip) as (p' & Hp & _).
  destruct (capture_step_effect _ _ _ _ _ Hp) as (Hc & Hcl & Ht & Hst & Htally). specialize (Htally s).
  assert (forall b q, pl_capture (mq_pipe s) = CFull b q -> 0 <= q < kQueues) as Hq.
  { intros b q E. destruct Ip as [_ _ (dn & qq & _ & _ & Hcap & _) _]. rewrite E in Hcap. apply Hcap. }
  unfold main_step. rewrite Hpc. bind_with Hp.
  destruct (tally (pl_capture (mq_pipe s)) (pl_capture p') s) as [[rc ds] sk] eqn:E. eexists. split; [done|].
  assert (ds = mq_drops s /\ wstats_ (pl_workers p') = wstats_ (pl_workers (mq_pipe s)) \/
    exists b q w, pl_capture (mq_pipe s) = CFull b q /\ ds = mq_drops s ++ [q] /\
      record_drop q (pl_workers (mq_pipe s)) = Some w /\ wstats_ (pl_workers p') = wstats_ w) as Hcase.
  { destruct (pl_capture (mq_pipe s)) as [| | | |b q|]; try (left; split; [by destruct (pl_capture p'); simplify_eq/=|done]).
    right. destruct Hst as (w & Hr & Hw). exists b, q, w. by simplify_eq/=. }
  destruct I. split; cbn; try done.
  - eapply rtc_r; [done|]. by apply step_capture.
  - congruence.
  - by rewrite Hcl.
  - by rewrite Hcl.
  - destruct Hcase as [[-> Hw]|(b & q & w & Eq & -> & Hr & Hw)].
    + intros j st Hj. rewrite Hw in Hj. rewrite Ht, Hcl. by apply mi_stats0.
    + assert (threads_ w = threads_ (pl_workers (mq_pipe s)) /\ calls w = calls (pl_workers (mq_pipe s))) as [Htw Hcw].
      { unfold record_drop in Hr. case_match; [|by simplify_eq]. by apply upd_stats_eq in Hr as (st & _ & ->). }
      pose proof (stats_drop _ w _ q mi_stats0 mi_configs0 (Hq _ _ Eq) Hr Htw Hcw) as Hok.
      intros j st Hj. rewrite Hw in Hj. destruct (Hok j st Hj) as (t & ? & ? & ?). exists t. rewrite Ht, Hcl, <-Htw, <-Hcw. done.
  - destruct mi_lines0 as (kss & ks & Ho & Hr & Hlo & Hle & _). exists kss, ks. cbn. rewrite Hcl. by destruct (pl_capture p').
  - destruct Hcase as [[-> _]|(b & q & w & Eq & -> & _)]; [done|]. apply Forall_app. split; [done|]. apply Forall_singleton. eauto.
  - lia.
  - by destruct (pl_capture p').
  - intros sum Hsum. destruct (mi_done0 sum Hsum). congruence.
Qed.

(** A step that moves the program counter between frames. *)
Lemma inv_set_pc pc s :
  mq_inv s -> match mq_pc s with MFrame _ | MDone => False | _ => True end ->
  (forall now got, pc <> MLoad now got) -> mq_inv (set_pc pc s).
Proof.
  intros [] Hpc Hl. split; cbn; try done.
  - destruct mi_lines0 as (kss & ks & Ho & Hr & Hlo & Hle & _). exists kss, ks. cbn. split_and!; try done.
    destruct pc; try done. by destruct (Hl now got).
  - destruct (mq_pc s); try done; by destruct pc.
  - intros sum Hsum. destruct (mi_done0 sum Hsum) as [E _]. by rewrite E in Hpc.
Qed.

Lemma figures_loaded (got : list (option Z)) ks fs :
  Forall2 (fun g k => forall v, g = Some v -> v = u64 (Z.of_nat k)) got ks -> mapM id got = Some fs -> fs = figures ks.
Proof.
  intros Hg Hm. apply mapM_Some in Hm. revert fs Hm. induction Hg as [|g k got ks Hv _ IH]; intros fs Hm.
  - by apply Forall2_nil_inv_l in Hm as ->.
  - apply Forall2_cons_inv_l in Hm as (f & fs' & Hf & Hm & ->). cbn. f_equal; [by apply Hv|by apply IH].
Qed.

Lemma main_step_ok now s :
  mq_inv s -> exists s', main_step KERNEL USER LOSING duration start now s = Some s' /\ mq_inv s'.
Proof.
  intros I. destruct (mq_pc s) as [|t|t|t got| | |] eqn:E; [| |..].
  2: { destruct (frame_turn_ok t s I E) as (s' & Hs & I'). exists s'. split; [|done]. unfold main_step in *. by rewrite E in *. }
  all: unfold main_step; rewrite E.
  - eexists. split; [done|]. apply inv_set_pc; [done|by rewrite E|]. intros; by repeat case_match.
  - case_match; [|eexists; split; [done|]; apply inv_set_pc; [done|by rewrite E|done]]. eexists. split; [done|].
    destruct I. split; cbn; try done; [|by rewrite E in mi_idle0|intros sum Hs; destruct (mi_done0 sum Hs); congruence].
    destruct mi_lines0 as (kss & ks & Ho & Hr & [Hk Hlo]%Forall_cons & Hle & _).
    exists kss, (call_counts (calls (pl_workers (mq_pipe s)))).
    split_and!; [done|by eapply rising_le|constructor; [by transitivity ks|done]|apply counts_refl|]. cbn. by repeat constructor.
  - destruct (mapM id got) as [fs|] eqn:Em; [|by exists s]. eexists. split; [done|].
    destruct I. split; cbn; try done; [|by rewrite E in mi_idle0|intros sum Hs; destruct (mi_done0 sum Hs); congruence].
    destruct mi_lines0 as (kss & ks & Ho & Hr & Hlo & Hle & Hg). rewrite E in Hg. apply (figures_loaded _ _ _ Hg) in Em as ->.
    exists (ks :: kss), (call_counts (calls (pl_workers (mq_pipe s)))). split_and!; try done.
    + cbn [mq_out]. by rewrite Ho, fmap_cons, reverse_cons, app_assoc.
    + constructor; [|done]. apply Forall_cons in Hlo as [Hk _]. by transitivity ks.
  - eexists. split; [done|]. destruct I. split; cbn; try done; [eapply rtc_r; [done|apply step_stop]| | |].
    + destruct mi_lines0 as (kss & ks & ? & ? & ? & ? & _). by exists kss, ks.
    + by rewrite E in mi_idle0.
    + intros sum Hs. destruct (mi_done0 sum Hs). congruence.
  - destruct (joined _) eqn:Ej; [|by exists s]. eexists. split; [done|]. destruct I. split; cbn; try done.
    + destruct mi_lines0 as (kss & ks & ? & ? & ? & ? & _). by exists kss, ks.
    + by rewrite E in mi_idle0.
    + intros sum [= <-]. done.
  - by exists s.
Qed.

Lemma load_step_ok i s :
  mq_inv s -> match mq_pc s with MLoad _ got => got !! i = Some None | _ => False end ->
  exists s', load_step i s = Some s' /\ mq_inv s'.
Proof.
  intros I Hl. unfold load_step. destruct (mq_pc s) as [| | |now got| | |] eqn:E; try done. rewrite Hl.
  destruct (mi_lines _ I) as (kss & ks & Ho & Hr & [Hlk Hlo]%Forall_cons & Hle & Hg). rewrite E in Hg.
  set (cur := call_counts (calls (pl_workers (mq_pipe s)))) in *.
  destruct (Forall2_lookup_l _ _ _ _ _ Hg Hl) as (k & Hk & _). destruct (Forall2_lookup_l _ _ _ _ _ Hle Hk) as (k' & Hk' & Hkk).
  assert (aget (mq_counts s) (Z.of_nat i) = Some (u64 (Z.of_nat k'))) as Ha.
  { apply aget_Some. split; [lia|]. rewrite (mi_counts _ I), Nat2Z.id. unfold figures. rewrite list_lookup_fmap. fold cur. by rewrite Hk'. }
  bind_with Ha. eexists. split; [done|]. destruct I. split; cbn; try done; [|by rewrite E in mi_idle0|intros sum Hs; destruct (mi_done0 sum Hs); congruence].
  assert (Forall2 le ks (<[i := k']> ks)) as Hup.
  { rewrite <-(list_insert_id ks i k Hk) at 1. apply Forall2_insert; [apply counts_refl|done]. }
  exists kss, (<[i := k']> ks). cbn. fold cur. split_and!; [done| | | |].
  - by eapply rising_le.
  - constructor; [by transitivity ks|done].
  - rewrite <-(list_insert_id cur i k' Hk'). by apply Forall2_insert.
  - apply Forall2_insert; [done|]. by intros v [= <-].
Qed.

Lemma load_step_inv i s s' :
  mq_inv s -> load_step i s = Some s' -> exists now got,
    mq_pc s = MLoad now got /\ got !! i = Some None /\
    s' = set_pc (MLoad now (<[i := Some (u64 (ncalls (calls (pl_workers (mq_pipe s))) (Z.of_nat i)))]> got)) s.
Proof.
  intros I Hl. unfold load_step in Hl. destruct (mq_pc s) as [| | |now got| | |] eqn:E; try done.
  destruct (got !! i) as [[v|]|] eqn:Ei; try done. apply bind_Some in Hl as (v & Hv & Hl). injection Hl as <-.
  exists now, got. split_and!; [done..|]. do 4 f_equal. rewrite (mi_counts _ I) in Hv. apply aget_Some in Hv as [_ Hv].
  rewrite Nat2Z.id in Hv. unfold figures, call_counts in Hv. rewrite !list_lookup_fmap in Hv.
  destruct (seqZ 0 kQueues !! i) as [j|] eqn:Ej; [|done]. apply lookup_seqZ in Ej as [-> _]. cbn in Hv. by injection Hv as <-.
Qed.

Lemma kernel_turn_inv f s s' :
  mq_inv s -> slot_ok USER f -> bytes_ok (slot_mem f) -> kernel_turn USER f s = Some s' -> mq_inv s'.
Proof.
  intros [] Hf Hb Hk. unfold kernel_turn in Hk. apply bind_Some in Hk as (shm' & Hp & [= <-]).
  destruct (mq_pipe s) as [w r0 shm0 pc K pub acc] eqn:Ep. cbn in *. split; cbn; try done.
  - eapply rtc_r; [done|]. by apply step_kernel.
  - destruct mi_lines0 as (kss & ks & ? & ? & ? & Hle & ?). exists kss, ks. by rewrite Ep in Hle.
Qed.

Lemma mq_step_inv s s' : mq_inv s -> mq_step KERNEL USER LOSING duration start s s' -> mq_inv s'.
Proof.
  intros I Hst. destruct Hst as [f s s' Hf Hb Hk|now s s' Hm|i s s' Hl|i s s' Hw|s].
  - by eapply kernel_turn_inv.
  - destruct (main_step_ok now s I) as (s2 & ? & ?). congruence.
  - destruct (load_step_ok i s I) as (s2 & ? & ?); [|congruence]. unfold load_step in Hl. by repeat case_match.
  - destruct (worker_turn_ok i s I) as (s2 & ? & ?); [|congruence]. unfold worker_turn, worker_step in Hw.
    apply bind_Some in Hw as (w & Hw & _). apply bind_Some in Hw as (c & Hc & _). apply aget_range in Hc.
    rewrite (mi_configs _ I) in Hc. exact Hc.
  - destruct I. by split.
Qed.

Lemma mq_exec_lines s s' : mq_inv s -> rtc (mq_step KERNEL USER LOSING duration start) s s' -> mq_inv s'.
Proof. intros I Hex. induction Hex as [|s0 s1 s2 Hst _ IH]; [done|]. by apply IH, (mq_step_inv s0). Qed.
End lines.

(** From a moment when no line is being loaded. *)
Lemma mq_inv_since base lo s :
  mq_inv (base := base) (lo := lo) s -> (forall now got, mq_pc s <> MLoad now got) ->
  mq_inv (base := mq_out s) (lo := call_counts (calls (pl_workers (mq_pipe s)))) s.
Proof.
  intros [] Hpc. split; try done. exists [], (call_counts (calls (pl_workers (mq_pipe s)))).
  split_and!; [by rewrite app_nil_r|done| |apply counts_refl|].
  - constructor; [apply counts_refl|constructor].
  - destruct (mq_pc s); try done. by destruct (Hpc now got).
Qed.

Lemma start_mq_inv :
  mq_inv (base := []) (lo := call_counts []) (start_multiqueue start (start_pipeline (new_WorkerPool rss p main_configs) r shm)).
Proof.
  split; cbn; try done.
  - intros i st Hi. apply (lookup_replicate_1 4) in Hi as [-> Hi]. exists (mkThread WPop 0). split; [by apply (lookup_replicate_2 4)|done].
  - exists [], (call_counts []). split_and!; try done; apply counts_refl || (constructor; [apply counts_refl|constructor]).
Qed.

Lemma mq_exec_inv s :
  rtc (mq_step KERNEL USER LOSING duration start) (start_multiqueue start (start_pipeline (new_WorkerPool rss p main_configs) r shm)) s ->
  mq_inv (base := []) (lo := call_counts []) s.
Proof. apply mq_exec_lines, start_mq_inv. Qed.

(** ** The totals *)

Lemma ncalls_total cs : Forall (fun c => 0 <= c_queue c < kQueues) cs -> foldr Z.add 0 (ncalls cs <$> seqZ 0 kQueues) = Z.of_nat (length cs).
Proof.
  change (seqZ 0 kQueues) with [0; 1; 2; 3]. induction cs as [|c cs IH] using rev_ind; [done|]. intros [Hcs Hc]%Forall_app.
  rewrite Forall_singleton in Hc. specialize (IH Hcs). cbn [fmap list_fmap foldr] in *. rewrite !ncalls_snoc, length_app. simpl length.
  unfold kQueues in Hc. repeat case_decide; lia.
Qed.

Lemma ndrops_total ds : Forall (fun q => 0 <= q < kQueues) ds -> foldr Z.add 0 (ndrops ds <$> seqZ 0 kQueues) = Z.of_nat (length ds).
Proof.
  change (seqZ 0 kQueues) with [0; 1; 2; 3]. induction ds as [|q ds IH] using rev_ind; [done|]. intros [Hds Hq]%Forall_app.
  rewrite Forall_singleton in Hq. specialize (IH Hds). cbn [fmap list_fmap foldr] in *. rewrite !ndrops_snoc, length_app. simpl length.
  unfold kQueues in Hq. repeat case_decide; lia.
Qed.

Lemma u64_sum4 a b c d : u64 (u64 (u64 (u64 (0 + u64 a) + u64 b) + u64 c) + u64 d) = u64 (a + (b + (c + (d + 0)))).
Proof.
  assert (forall x y, u64 (x + u64 y) = u64 (x + y)) as Hr by (intros x y; rewrite Z.add_comm, u64_add_l; f_equal; lia).
  rewrite !Hr, (u64_add_l (0 + a)), (u64_add_l (0 + a + b)), (u64_add_l (0 + a + b + c)). f_equal. lia.
Qed.

(** The row of worker [i] in the final statistics. *)
Definition row_ok s (i : nat) (row : string * WorkerStats) : Prop :=
  name <$> main_configs !! i = Some row.1 /\
  w_processed row.2 = u64 (ncalls (calls (pl_workers (mq_pipe s))) (Z.of_nat i)) /\
  w_dropped row.2 = u64 (ndrops (mq_drops s) (Z.of_nat i)).

Lemma summary_ok base lo s rows total :
  mq_inv (base := base) (lo := lo) s -> mq_summary s = Some (rows, total) ->
  length rows = 4%nat /\ (forall i row, rows !! i = Some row -> row_ok s i row) /\
  w_processed total = u64 (Z.of_nat (length (calls (pl_workers (mq_pipe s))))) /\
  w_dropped total = u64 (Z.of_nat (length (mq_drops s))).
Proof.
  intros I Hs. destruct (mi_done _ I _ Hs) as (_ & Hj & Hp). set (w := pl_workers (mq_pipe s)) in *.
  assert (configs_ w = main_configs) as Hcf by apply I. unfold print_stats in Hp. rewrite Hcf in Hp.
  pose proof (f_equal fst Hp) as Hr. pose proof (f_equal snd Hp) as Ht. cbn [fst snd] in Hr, Ht. subst rows total. clear Hp.
  assert (forall i st, wstats_ w !! i = Some st ->
    w_processed st = u64 (ncalls (calls w) (Z.of_nat i)) /\ w_dropped st = u64 (ndrops (mq_drops s) (Z.of_nat i))) as Hrow.
  { intros i st Hi. destruct (mi_stats _ I i st Hi) as (t & Ht & Hp & Hd). split; [|done]. rewrite Hp. f_equal.
    apply Is_true_true, forallb_True in Hj. rewrite Forall_lookup in Hj. specialize (Hj _ _ Ht). unfold uncounted.
    destruct (w_pc t); cbn in Hj; try done. apply Z.sub_0_r. }
  assert (length (wstats_ w) = 4%nat) as Hl.
  { destruct (reach_inv B _ (mi_pipe _ I)) as [_ [qs W] _ _]. fold w in W. rewrite (wi_stats _ _ _ _ _ _ W).
    pose proof (rss_len _ _ _ (wi_rss _ _ _ _ _ _ W)). unfold kQueues in *. lia. }
  split; [by rewrite length_zip_with, Hl|]. split.
  - intros i [nm st] Hi. apply lookup_zip_with_Some in Hi as (nm' & st' & [= -> ->] & Hn & Hst). rewrite list_lookup_fmap in Hn.
    unfold row_ok. destruct (Hrow i st' Hst). done.
  - rewrite <-(ncalls_total (calls w) (mi_queues _ I)), <-(ndrops_total _ (mi_drops _ I)). change (seqZ 0 kQueues) with [0; 1; 2; 3].
    destruct (wstats_ w) as [|s0 [|s1 [|s2 [|s3 []]]]]; try done.
    destruct (Hrow 0%nat s0 eq_refl) as [E0 D0], (Hrow 1%nat s1 eq_refl) as [E1 D1], (Hrow 2%nat s2 eq_refl) as [E2 D2],
      (Hrow 3%nat s3 eq_refl) as [E3 D3]. cbn -[u64 ncalls ndrops]. rewrite E0, E1, E2, E3, D0, D1, D2, D3.
    split; apply u64_sum4.
Qed.
End invariant.

(** C4: the program around the pipeline, in every interleaving of the kernel, the
    main thread, the four workers and the signal.  Its pipeline moves as in
    Pipeline.v, so that what is proved there holds here.  No step of the main
    thread or of a worker is undefined.  [g_queue_counts] always has the numbers of
    callbacks of the queues; a load of a counter yields the number at that moment,
    whichever of the four is loaded first; the lines printed are such figures, no
    figure falls from a line to the next, and each line printed after a moment
    when none was being loaded has figures between the numbers of callbacks of
    that moment and the present ones.  Every frame received was pushed,
    dropped at a full queue, left for lack of a buffer, or is in hand.  When the
    statistics are printed all workers have exited, no frame is in hand, the row of
    a worker has the callbacks and the drops of its queue, and the totals are those
    of all callbacks and all drops. *)
Theorem multiqueue_correct {P : Type} `{PoolBytes P} (KERNEL USER LOSING N duration start : Z) (p : P) rss r shm s :
  boot_ok KERNEL USER kQueues N p rss main_configs r shm ->
  rtc (mq_step KERNEL USER LOSING duration start)
    (start_multiqueue start (start_pipeline (new_WorkerPool rss p main_configs) r shm)) s ->
  let w := pl_workers (mq_pipe s) in
  rtc (pipe_step KERNEL USER LOSING) (start_pipeline (new_WorkerPool rss p main_configs) r shm) (mq_pipe s) /\
  (forall now, is_Some (main_step KERNEL USER LOSING duration start now s)) /\
  (forall i, 0 <= i < kQueues -> is_Some (worker_turn i s)) /\
  mq_counts s = figures (call_counts (calls w)) /\
  (forall i s', load_step i s = Some s' -> exists now got,
     mq_pc s = MLoad now got /\ got !! i = Some None /\
     s' = set_pc (MLoad now (<[i := Some (u64 (ncalls (calls w) (Z.of_nat i)))]> got)) s) /\
  (exists kss, mq_out s = reverse (figures <$> kss) /\ rising kss (call_counts (calls w))) /\
  (forall s', rtc (mq_step KERNEL USER LOSING duration start) s s' -> (forall now got, mq_pc s <> MLoad now got) ->
     exists kss, mq_out s' = mq_out s ++ reverse (figures <$> kss) /\
       rising kss (call_counts (calls (pl_workers (mq_pipe s')))) /\ Forall (Forall2 le (call_counts (calls w))) kss) /\
  mq_received s = Z.of_nat (length (pl_accepted (mq_pipe s))) + Z.of_nat (length (mq_drops s)) + mq_skipped s + in_hand (pl_capture (mq_pipe s)) /\
  forall rows total, mq_summary s = Some (rows, total) ->
    joined w = true /\ pl_capture (mq_pipe s) = CPoll /\ length rows = 4%nat /\
    (forall i row, rows !! i = Some row -> row_ok s i row) /\
    w_processed total = u64 (Z.of_nat (length (calls w))) /\ w_dropped total = u64 (Z.of_nat (length (mq_drops s))).
Proof.
  intros B Hex w. pose proof (mq_exec_inv B s Hex) as I. split; [apply I|]. split.
  { intros now. destruct (main_step_ok (duration := duration) (start := start) B now s I) as (s' & -> & _). by exists s'. }
  split. { intros i Hi. destruct (worker_turn_ok B i s I Hi) as (s' & -> & _). by exists s'. }
  split; [apply I|]. split; [intros i s' Hl; by eapply load_step_inv|]. split.
  { destruct (mi_lines _ I) as (kss & ks & Ho & Hr & _ & Hle & _). exists kss. split; [done|by eapply rising_le]. }
  split.
  { intros s' Hex' Hpc. destruct (mi_lines _ (mq_exec_lines B s s' (mq_inv_since _ _ s I Hpc) Hex')) as (kss & ks & Ho & Hr & Hlo & Hle & _).
    exists kss. split; [done|]. split; [by eapply rising_le|by apply Forall_inv_tail in Hlo]. }
  split; [apply I|]. intros rows total Hs. destruct (mi_done _ I _ Hs) as (Hpc & Hj & _).
  split; [done|]. split; [|exact (summary_ok B _ _ s rows total I Hs)]. pose proof (mi_idle _ I) as Hi. by rewrite Hpc in Hi.
Qed.

(** ** From the command line to the exit *)

(** How [main] ends. *)
Inductive mq_outcome :=
  | QUsage
  | QPool (e : pool_error)
  | QRing (e : ring_error)
  | QDone (s : multiqueue BufferPool).

Definition mq_exit_code (r : mq_outcome) : Z := match r with QDone _ => 0 | _ => 1 end.

Inductive mq_program (M Os : Type) :=
  | QRun (duration start : Z) (h : heap M) (o : Os) (s : multiqueue BufferPool)
  | QExit (r : mq_outcome) (h : heap M) (o : Os).
Arguments QRun {M Os}.
Arguments QExit {M Os}.

Section startup.
Context {M Os : Type} `{OsMem M} `{RingOs Os} (mbind : Z -> Z -> Z -> M -> M).

(** [main] up to the loop.  An exception leaves the [try] block and destroys what
    was built in it.  [queues] is the storage of the queues before construction. *)
Definition multiqueue_main (argv : list (list ascii)) (queues : list (list Z)) (shm : list slot) (start : Z)
    (h : heap M) (o : Os) : option (mq_program M Os) :=
  match argv with
  | _ :: iface :: rest =>
      duration ← duration_arg rest;
      '(res, h) ← new_BufferPool mbind 2048 8192 (-1) h;
      match res with
      | inl e => Some (QExit (QPool e) h o)
      | inr pool =>
          match open_ring (CString.code <$> iface) 128 50 o with
          | (inl e, o) => h ← delete_BufferPool pool h; Some (QExit (QRing e) h o)
          | (inr ring, o) =>
              rss ← new_RSSDistributor kQueues queues;
              Some (QRun duration start h o
                      (start_multiqueue start (start_pipeline (new_WorkerPool rss pool main_configs) ring shm)))
          end
      end
  | _ => Some (QExit QUsage h o)
  end.

(** The destructors at the end of the [try] block; the workers have been joined. *)
Definition teardown (h : heap M) (o : Os) (s : multiqueue BufferPool) : option (mq_program M Os) :=
  let o := delete_PacketRing (pl_ring (mq_pipe s)) o in
  h ← delete_BufferPool (wp_pool (pl_workers (mq_pipe s))) h;
  Some (QExit (QDone s) h o).

Context (TP_STATUS_KERNEL TP_STATUS_USER TP_STATUS_LOSING : Z).

Inductive main_step_to : mq_program M Os -> mq_program M Os -> Prop :=
| qs_run d st h o s s' :
    mq_step TP_STATUS_KERNEL TP_STATUS_USER TP_STATUS_LOSING d st s s' -> main_step_to (QRun d st h o s) (QRun d st h o s')
| qs_end d st h o s x : mq_pc s = MDone -> teardown h o s = Some x -> main_step_to (QRun d st h o s) x.
End startup.

(** What no step changes: the regions of the pool and the handle of the ring. *)
Section handles.
Context (KERNEL USER LOSING duration start : Z).
Implicit Types (s : multiqueue BufferPool) (p : pipeline BufferPool) (w : WorkerPool BufferPool).

Definition handles p : (Z * Z * Z * Z * Z) * (Z * Z * Z) :=
  (regions (wp_pool (pl_workers p)), (fd_ (pl_ring p), ring_ (pl_ring p), ring_bytes_ (pl_ring p))).

Lemma handle_eq r r' : same_handle r r' -> (fd_ r', ring_ r', ring_bytes_ r') = (fd_ r, ring_ r, ring_bytes_ r).
Proof. by intros (-> & -> & ->). Qed.

Lemma fill_regions rss r shm b fr (q q' : BufferPool) i bs :
  fill_buffer rss r shm b fr q = Some (q', i, bs) -> regions q' = regions q.
Proof.
  unfold fill_buffer. intros Hf. do 3 (apply bind_Some in Hf as (? & _ & Hf)).
  apply bind_Some in Hf as (q1 & H1 & Hf). apply bind_Some in Hf as (q2 & H2 & Hf).
  do 4 (apply bind_Some in Hf as (? & _ & Hf)). simplify_eq.
  by rewrite (set_len_regions _ _ _ _ H2), (store_regions _ _ _ _ _ H1).
Qed.

Lemma capture_handles p p' : capture_step KERNEL USER LOSING p = Some p' -> handles p' = handles p.
Proof.
  unfold capture_step, handles. destruct (pl_capture p) as [|fr|b fr|b q bs|b q|]; intros Hs; apply bind_Some in Hs as (x & Hx & Hs).
  - destruct x as [fr r]. apply receive_handle, handle_eq in Hx. injection Hs as <-. cbn. by rewrite Hx.
  - destruct x as [b q]. apply acquire_regions in Hx. injection Hs as <-. cbn. by rewrite Hx.
  - destruct x as [[q i] bs]. apply fill_regions in Hx. injection Hs as <-. cbn. by rewrite Hx.
  - destruct x as [[] rss]; by simplify_eq.
  - apply bind_Some in Hs as (q' & Hr & Hs). apply release_regions in Hr. injection Hs as <-. cbn. rewrite Hr.
    unfold record_drop in Hx. case_match; [|by simplify_eq]. by apply upd_stats_eq in Hx as (st & _ & ->).
  - destruct x as [r shm]. apply release_handle, handle_eq in Hx. injection Hs as <-. cbn. by rewrite Hx.
Qed.

Lemma worker_regions i w w' : worker_step i w = Some w' -> regions (wp_pool w') = regions (wp_pool w).
Proof.
  unfold worker_step. intros Hs. apply bind_Some in Hs as (c & _ & Hs). apply bind_Some in Hs as (t & _ & Hs). destruct (w_pc t).
  - apply bind_Some in Hs as ([[b|] rss] & _ & Hs); [by apply set_thread_eq in Hs as ->|].
    apply bind_Some in Hs as (w1 & Hu & Hs). apply upd_stats_eq in Hu as (st & _ & ->). by apply set_thread_eq in Hs as ->.
  - do 3 (apply bind_Some in Hs as (? & _ & Hs)). by apply set_thread_eq in Hs as ->.
  - apply bind_Some in Hs as (q & Hr & Hs). apply bind_Some in Hs as (w1 & Hu & Hs).
    apply upd_stats_eq in Hu as (st & _ & ->). apply set_thread_eq in Hs as ->. cbn. by eapply release_regions.
  - by apply set_thread_eq in Hs as ->.
  - by simplify_eq.
Qed.

Lemma step_handles s s' : mq_step KERNEL USER LOSING duration start s s' -> handles (mq_pipe s') = handles (mq_pipe s).
Proof.
  intros Hst. destruct Hst as [f s s' _ _ Hk|now s s' Hm|i s s' Hl|i s s' Hw|s]; [| | | |done].
  - unfold kernel_turn in Hk. apply bind_Some in Hk as (shm & _ & Hk). by simplify_eq.
  - unfold main_step in Hm. destruct (mq_pc s); try (by repeat case_match; simplify_eq).
    apply bind_Some in Hm as (p & Hp & Hm). apply capture_handles in Hp.
    destruct (tally _ _ _) as [[rc ds] sk]. injection Hm as <-. exact Hp.
  - unfold load_step in Hl. repeat case_match; try done. apply bind_Some in Hl as (v & _ & Hl). by simplify_eq.
  - unfold worker_turn in Hw. apply bind_Some in Hw as (w & Hw & Hs). apply bind_Some in Hs as (cs & _ & Hs).
    apply worker_regions in Hw. injection Hs as <-. unfold handles. cbn. by rewrite Hw.
Qed.
End handles.

Section whole.
Context {M Os : Type} `{OsMemSpec M} `{RingOsSpec Os} (mbind : Z -> Z -> Z -> M -> M).
Context (KERNEL USER LOSING : Z) (queues : list (list Z)) (shm : list slot) (h0 : heap M) (o0 : Os).
Implicit Types (s : multiqueue BufferPool).

(** What the kernel and the memory allocator give the program. *)
Record setting_ok : Prop := {
  se_heap : heap_ok h0;
  se_status : Z.land KERNEL USER = 0;
  se_slots : Z.of_nat (length shm) = 128 * kFramesPerBlock;
  se_kernel : Forall (fun f => Z.land (tp_status f) USER = 0) shm;
  se_queues : Z.of_nat (length queues) = kQueues;
  se_storage : Forall (fun g => Z.of_nat (length g) = QUEUE_SIZE) queues
}.

(** The state [s] is one [multiqueue_correct] speaks about. *)
Definition running (d st : Z) s : Prop :=
  exists pool ring rss, boot_ok KERNEL USER kQueues (128 * kFramesPerBlock) pool rss main_configs ring shm /\
    rtc (mq_step KERNEL USER LOSING d st) (start_multiqueue st (start_pipeline (new_WorkerPool rss pool main_configs) ring shm)) s.

(** Everything mapped or opened has been given back. *)
Definition given_back (h : heap M) (o : Os) : Prop :=
  registry h = registry h0 /\ live (os h) = live (os h0) /\ same_resources o0 o.

(** Exactly the backing region of the pool, 16 MiB, stays mapped and registered. *)
Definition region_left (h : heap M) : Prop :=
  exists p huge, live (os h0) !! p = None /\ registry h = <[p := mkInfo (16 * 1024 * 1024) huge]> (registry h0) /\
    live (os h) = <[p := mkMapping (16 * 1024 * 1024) huge]> (live (os h0)).

(** The program holds one pool and one ring. *)
Definition holding (h : heap M) (o : Os) s : Prop :=
  exists pool ring, new_BufferPool mbind 2048 8192 (-1) h0 = Some (inr pool, h) /\ holds_ring ring o0 o /\
    handles (mq_pipe s) = (regions pool, (fd_ ring, ring_ ring, ring_bytes_ ring)).

Definition mq_program_ok (argv : list (list ascii)) (x : mq_program M Os) : Prop :=
  match x with
  | QRun d st h o s => running d st s /\ holding h o s
  | QExit QUsage h o => (length argv < 2)%nat /\ h = h0 /\ o = o0
  | QExit (QPool e) h o =>
      e = AllocateThrew FallbackMmapFailed /\ o = o0 /\
      (registry h = registry h0 /\ live (os h) = live (os h0) \/ region_left h)
  | QExit (QRing e) h o => given_back h o
  | QExit (QDone s) h o => given_back h o /\ mq_pc s = MDone /\ exists d st, running d st s
  end.

Lemma teardown_ok h o s : heap_ok h0 -> holding h o s -> exists h' o', teardown h o s = Some (QExit (QDone s) h' o') /\ given_back h' o'.
Proof.
  intros Hh (pool & ring & Hn & Hr & E). pose proof (f_equal fst E) as E1. pose proof (f_equal snd E) as E2. cbn in E1, E2.
  injection E2 as E2 E3 E4.
  destruct (new_pool_delete _ _ _ _ _ _ (wp_pool (pl_workers (mq_pipe s))) Hh Hn E1) as (h' & Hd & Hreg & Hl).
  assert (holds_ring (pl_ring (mq_pipe s)) o0 o) as Hr' by (by eapply (holds_same ring); [exact Hr|split_and!; done|]).
  unfold teardown. rewrite Hd. cbn. eexists _, _. split; [done|]. split_and!; try done; by apply delete_ring_ok.
Qed.

Lemma startup_ok argv start :
  setting_ok -> match argv with _ :: _ :: d :: _ => is_Some (atoi d) | _ => True end ->
  exists x, multiqueue_main mbind argv queues shm start h0 o0 = Some x /\ mq_program_ok argv x.
Proof.
  intros S Ha. unfold multiqueue_main. destruct argv as [|a [|iface rest]]; [eexists; split; [done|]; simpl; split_and!; (done || lia)..|].
  assert (exists d, duration_arg rest = Some d) as [d Hd] by (destruct rest; [by eexists|exact Ha]). bind_with Hd.
  destruct (new_pool_total mbind 2048 8192 h0) as [[res h] Hn]; [lia|unfold kEmpty; lia|lia|]. bind_with Hn.
  destruct res as [e|pool].
  { eexists. split; [done|]. apply new_pool_throws in Hn as [-> [?|(pb & huge & ?)]]; [| |lia..].
    - split_and!; auto.
    - split_and!; [done..|]. right. by exists pb, huge. }
  pose proof (new_pool_bytes _ _ _ _ _ _ _ Hn) as Hby. pose proof Hn as Hc.
  apply new_BufferPool_cases in Hc as (Hok & _ & Hsz & _); [|lia|unfold kEmpty; lia|lia].
  destruct (open_ring (code <$> iface) 128 50 o0) as [[e|ring] o] eqn:E; (apply open_ring_ok in E; [|lia]).
  - destruct (new_pool_delete _ _ _ _ _ _ pool (se_heap S) Hn eq_refl) as (h' & Hdel & Hreg & Hl). bind_with Hdel. by eexists.
  - destruct E as (Hring & Hcur & Hh).
    destruct (new_rss_ok kQueues queues) as (rss & Hrss & Hrok); [unfold kQueues; lia|done|apply S|apply S|]. bind_with Hrss.
    eexists. split; [done|]. split; [|by exists pool, ring]. exists pool, ring, rss. split; [|apply rtc_refl].
    split; try done; try apply S.
    + intros [|[|[|[|i]]]] c; simpl; intros Hi; by simplify_eq.
    + change (buf_size pool) with (buffer_size_ pool). rewrite Hsz. by vm_compute.
Qed.

Lemma main_step_to_ok argv x x' :
  setting_ok -> mq_program_ok argv x -> main_step_to KERNEL USER LOSING x x' -> mq_program_ok argv x'.
Proof.
  intros S I Hst. destruct Hst as [d st h o s s' Hs|d st h o s x Hpc Ht].
  - destruct I as [(pool & ring & rss & B & Hex) (q & r & Hn & Hr & E)]. split.
    + exists pool, ring, rss. split; [done|]. by eapply rtc_r.
    + exists q, r. split_and!; [done..|]. by rewrite (step_handles _ _ _ _ _ _ _ Hs).
  - destruct I as [Hrun Hhold]. destruct (teardown_ok h o s (se_heap S) Hhold) as (h' & o' & Ht' & Hback). rewrite Ht in Ht'.
    injection Ht' as ->. split_and!; [done..|by exists d, st].
Qed.
End whole.

(** C15: the program from the command line to its exit, whatever system call fails.
    It is defined on every command line whose duration is an [int].  Without an
    interface it changes nothing.  When the pool cannot be built no descriptor is
    open, and the memory is as before if its first region was refused; if the
    second one was, exactly the first, 16 MiB, stays mapped and registered, since
    no destructor runs for the half-built pool.  When the ring cannot be opened
    the pool is destroyed again and nothing stays open or mapped; otherwise the
    state it runs in is one set up as [multiqueue_correct] assumes, the destructors never throw,
    and after them every descriptor, mapping and registry entry is as before. *)
Theorem multiqueue_program {M Os : Type} `{OsMemSpec M} `{RingOsSpec Os} mbind (KERNEL USER LOSING : Z)
    (argv : list (list ascii)) (queues : list (list Z)) (shm : list slot) (start : Z) (h0 : heap M) (o0 : Os) :
  setting_ok KERNEL USER queues shm h0 -> match argv with _ :: _ :: d :: _ => is_Some (atoi d) | _ => True end ->
  exists x0, multiqueue_main mbind argv queues shm start h0 o0 = Some x0 /\
    forall x, rtc (main_step_to KERNEL USER LOSING) x0 x ->
      match x with
      | QRun d st h o s => running KERNEL USER LOSING shm d st s /\ is_Some (teardown h o s)
      | QExit QUsage h o => (length argv < 2)%nat /\ h = h0 /\ o = o0
      | QExit (QPool e) h o =>
          e = AllocateThrew FallbackMmapFailed /\ o = o0 /\
          (registry h = registry h0 /\ live (os h) = live (os h0) \/ region_left h0 h)
      | QExit (QRing e) h o => given_back h0 o0 h o
      | QExit (QDone s) h o => given_back h0 o0 h o /\ mq_pc s = MDone /\ exists d st, running KERNEL USER LOSING shm d st s
      end.
Proof.
  intros S Ha. destruct (startup_ok mbind KERNEL USER LOSING queues shm h0 o0 argv start S Ha) as (x0 & Hm & I).
  exists x0. split; [done|]. intros x Hex. clear Hm Ha.
  assert (mq_program_ok mbind KERNEL USER LOSING shm h0 o0 argv x) as Ix.
  { induction Hex as [|x0 x1 x2 Hst _ IH]; [done|]. by eapply IH, main_step_to_ok. }
  destruct x as [d st h o s|[|e|e|s] h o]; try done. destruct Ix as [Hr Hh]. split; [done|].
  destruct (teardown_ok mbind h0 o0 h o s (se_heap _ _ _ _ _ S) Hh) as (h' & o' & -> & _). done.
Qed.

(** ** A run *)

Inductive mq_action := KFrame (f : slot) | KMain (now : Z) | KLoad (i : nat) | KWorker (i : Z) | KSignal.

Definition mq_act (a : mq_action) (s : multiqueue BufferPool) : option (multiqueue BufferPool) :=
  match a with
  | KFrame f => kernel_turn 1 f s
  | KMain now => main_step 0 1 4 10 0 now s
  | KLoad i => load_step i s
  | KWorker i => worker_turn i s
  | KSignal => Some (on_sigint s)
  end.

Fixpoint mq_run (l : list mq_action) (s : multiqueue BufferPool) : option (multiqueue BufferPool) :=
  match l with [] => Some s | a :: l => s ← mq_act a s; mq_run l s end.

Lemma mq_run_rtc l s s' :
  Forall (fun a => match a with KFrame f => slot_ok 1 f /\ bytes_ok (slot_mem f) | _ => True end) l ->
  mq_run l s = Some s' -> rtc (mq_step 0 1 4 10 0) s s'.
Proof.
  revert s. induction l as [|a l IH]; intros s Hl; simpl; [by intros [= <-]|].
  apply Forall_cons in Hl as [Ha Hl]. intros Hr. apply bind_Some in Hr as (s1 & Hs1 & Hr).
  eapply rtc_l; [|by apply IH]. destruct a; simpl in Hs1; [eapply mq_kernel; [apply Ha..|done]|by eapply mq_main|by eapply mq_load|by eapply mq_worker|].
  injection Hs1 as <-. apply mq_signal.
Qed.

(** A frame goes to its queue and its callback is called when two seconds have
    passed; then the figures are printed, the last queue first, and the signal
    comes. *)
Definition mq_demo_call : list mq_action :=
  [KFrame demo_rx; KMain 2000000000; KMain 0; KMain 0; KMain 0; KMain 0; KMain 0; KWorker 1; KWorker 1; KWorker 1].
Definition mq_demo_line : list mq_action :=
  [KMain 0; KLoad 3; KLoad 2; KLoad 1; KLoad 0; KMain 0; KSignal; KMain 0].

Lemma mq_demo_run :
  exists p rss s s', demo_setup = Some (p, rss) /\
    rtc (mq_step 0 1 4 10 0) (start_multiqueue 0 (demo_start p rss)) s /\ rtc (mq_step 0 1 4 10 0) s s' /\
    mq_pc s = MTick 2000000000 /\ mq_out s = [] /\ call_counts (calls (pl_workers (mq_pipe s))) = [0; 1; 0; 0]%nat /\
    mq_out s' = [[0; 1; 0; 0]] /\ mq_pc s' = MLeave.
Proof.
  assert (match demo_setup ≫= fun '(p, rss) => mq_run mq_demo_call (start_multiqueue 0 (demo_start p rss)) with
    | Some s => mq_pc s = MTick 2000000000 /\ mq_out s = [] /\ call_counts (calls (pl_workers (mq_pipe s))) = [0; 1; 0; 0]%nat /\
        match mq_run mq_demo_line s with Some s' => mq_out s' = [[0; 1; 0; 0]] /\ mq_pc s' = MLeave | None => False end
    | None => False end) as Hrun by (vm_compute; split_and!; reflexivity).
  destruct demo_setup as [[p rss]|] eqn:E; [|destruct Hrun]. cbn [mbind option_bind] in Hrun.
  destruct (mq_run mq_demo_call (start_multiqueue 0 (demo_start p rss))) as [s|] eqn:Er; [|destruct Hrun].
  destruct Hrun as (Hpc & Ho & Hcc & Hrun). destruct (mq_run mq_demo_line s) as [s'|] eqn:Er'; [|destruct Hrun].
  exists p, rss, s, s'. split; [reflexivity|]. split; [|split; [|destruct Hrun; by split_and!]]; [eapply mq_run_rtc; [|exact Er]|eapply mq_run_rtc; [|exact Er']].
  all: repeat (apply Forall_cons; split; [exact I || idtac|]); try apply Forall_nil_2.
  split; [vm_compute; repeat split; discriminate|apply (bool_decide_unpack _); vm_compute; exact I].
Qed.

Lemma multiqueue_correct_witness :
  exists s s' kss, mq_pc (P := BufferPool) s = MTick 2000000000 /\ mq_out (P := BufferPool) s' = [[0; 1; 0; 0]] /\
    mq_out s' = reverse (figures <$> kss) /\ Forall (Forall2 le [0; 1; 0; 0]%nat) kss /\
    mq_received s = Z.of_nat (length (pl_accepted (mq_pipe s))) + Z.of_nat (length (mq_drops s)) + mq_skipped s +
      in_hand (pl_capture (mq_pipe s)).
Proof.
  destruct mq_demo_run as (p & rss & s & s' & E & Hex & Hex' & Hpc & Ho & Hcc & Ho' & _).
  destruct (multiqueue_correct 0 1 4 2 10 0 p rss demo_ring [demo_idle; demo_idle] s (demo_boot_ok p rss E) Hex)
    as (_ & _ & _ & _ & _ & _ & Hline & Ht & _).
  destruct (Hline s' Hex') as (kss & Hk & _ & Hlo); [intros now got; rewrite Hpc; discriminate|].
  rewrite Ho in Hk. rewrite Hcc in Hlo.
  exists s, s', kss. split; [exact Hpc|]. split; [exact Ho'|]. split; [exact Hk|]. split; [exact Hlo|exact Ht].
Defined.

Definition demo_memory : heap toy_os := mkHeap (toy_boot 16 0) ∅.
Definition demo_storage : list (list Z) := replicate 4 (replicate (Z.to_nat QUEUE_SIZE) 0).

Lemma demo_setting : setting_ok 0 1 demo_storage idle_slots demo_memory.
Proof.
  destruct idle_slots_ok as [Hl Hs]. split; [done|reflexivity|exact Hl|exact Hs|reflexivity|].
  apply Forall_replicate. by rewrite length_replicate.
Qed.

Lemma demo_new_pool : exists p h, new_BufferPool no_mbind 2048 8192 (-1) demo_memory = Some (inr p, h).
Proof.
  destruct (allocate (u64 (2048 * 8192)) false demo_memory) as [[e1|pb] h1] eqn:E1; [vm_compute in E1; discriminate E1|].
  destruct (allocate (u64 (8192 * 64)) false h1) as [[e2|pd] h2] eqn:E2.
  { vm_compute in E1. injection E1 as <- <-. vm_compute in E2. discriminate E2. }
  destruct (new_pool_allocates no_mbind 2048 8192 demo_memory h1 h2 pb pd) as [p Hp]; [lia|unfold kEmpty; lia|lia|done..|]. by exists p, h2.
Qed.

(** Eight huge pages are enough for the buffers and not for the descriptors. *)
Definition demo_scarce : heap toy_os := mkHeap (toy_boot 8 0) ∅.

Lemma demo_no_pool : exists e h, new_BufferPool no_mbind 2048 8192 (-1) demo_scarce = Some (inl e, h) /\ registry h <> ∅.
Proof.
  destruct (allocate (u64 (2048 * 8192)) false demo_scarce) as [[e1|pb] h1] eqn:E1; [vm_compute in E1; discriminate E1|].
  destruct (allocate (u64 (8192 * 64)) false h1) as [[e2|pd] h2] eqn:E2.
  - exists (AllocateThrew e2), h2. split; [|vm_compute in E1; injection E1 as <- <-; vm_compute in E2; injection E2 as _ <-; done].
    unfold new_BufferPool. cbn [Z.eqb orb]. rewrite alloc_region_heap, E1. cbn [mbind option_bind].
    by rewrite alloc_region_heap, E2.
  - vm_compute in E1. injection E1 as <- <-. vm_compute in E2. discriminate E2.
Qed.

(** The program runs and can be torn down; when the socket cannot be bound the
    pool is destroyed again; when the descriptors find no memory the buffers
    stay mapped. *)
Lemma multiqueue_program_witness :
  (exists d st h o s, multiqueue_main no_mbind demo_argv demo_storage idle_slots 7 demo_memory (mkToyNet ∅ ∅ false) = Some (QRun d st h o s) /\
     running 0 1 4 idle_slots d st s /\ is_Some (teardown h o s)) /\
  (exists e h o, multiqueue_main no_mbind demo_argv demo_storage idle_slots 7 demo_memory (mkToyNet ∅ ∅ true) = Some (QExit (QRing e) h o) /\
     given_back demo_memory (mkToyNet ∅ ∅ true) h o) /\
  (exists e h o, multiqueue_main no_mbind demo_argv demo_storage idle_slots 7 demo_scarce (mkToyNet ∅ ∅ false) = Some (QExit (QPool e) h o) /\
     region_left demo_scarce h).
Proof.
  destruct demo_new_pool as (p & h & Hn). assert (is_Some (atoi (lit "3"))) as Ha by (eexists; reflexivity). split_and!.
  - destruct (multiqueue_program no_mbind 0 1 4 demo_argv demo_storage idle_slots 7 demo_memory (mkToyNet ∅ ∅ false) demo_setting Ha)
      as (x0 & Hm & Hx).
    specialize (Hx x0 (rtc_refl _ _)). destruct (demo_open false) as (res & o & E & r & ->).
    assert (multiqueue_main no_mbind demo_argv demo_storage idle_slots 7 demo_memory (mkToyNet ∅ ∅ false) = Some x0) as Hm' by exact Hm.
    unfold multiqueue_main in Hm. cbn [demo_argv] in Hm. rewrite (bind_red _ _ 3) in Hm by reflexivity.
    rewrite (bind_red _ _ _ Hn), E in Hm. apply bind_Some in Hm as (rss & _ & Hm). injection Hm as <-.
    eexists _, _, _, _, _. split; [exact Hm'|exact Hx].
  - destruct (multiqueue_program no_mbind 0 1 4 demo_argv demo_storage idle_slots 7 demo_memory (mkToyNet ∅ ∅ true) demo_setting Ha)
      as (x0 & Hm & Hx).
    specialize (Hx x0 (rtc_refl _ _)). destruct (demo_open true) as (res & o & E & e & ->).
    assert (multiqueue_main no_mbind demo_argv demo_storage idle_slots 7 demo_memory (mkToyNet ∅ ∅ true) = Some x0) as Hm' by exact Hm.
    unfold multiqueue_main in Hm. cbn [demo_argv] in Hm. rewrite (bind_red _ _ 3) in Hm by reflexivity.
    rewrite (bind_red _ _ _ Hn), E in Hm. apply bind_Some in Hm as (h' & _ & Hm). injection Hm as <-.
    eexists _, _, _. split; [exact Hm'|exact Hx].
  - destruct demo_no_pool as (e & h1 & Hn1 & Hreg). assert (setting_ok 0 1 demo_storage idle_slots demo_scarce) as S
      by (destruct demo_setting; split; done).
    destruct (multiqueue_program no_mbind 0 1 4 demo_argv demo_storage idle_slots 7 demo_scarce (mkToyNet ∅ ∅ false) S Ha)
      as (x0 & Hm & Hx).
    specialize (Hx x0 (rtc_refl _ _)).
    assert (multiqueue_main no_mbind demo_argv demo_storage idle_slots 7 demo_scarce (mkToyNet ∅ ∅ false) = Some x0) as Hm' by exact Hm.
    unfold multiqueue_main in Hm. cbn [demo_argv] in Hm. rewrite (bind_red _ _ 3) in Hm by reflexivity.
    rewrite (bind_red _ _ _ Hn1) in Hm. injection Hm as <-.
    eexists _, _, _. split; [exact Hm'|]. destruct Hx as (_ & _ & [[Hr _]|Hl]); [by destruct Hreg|exact Hl].
Defined.
