(* ===== verification/PktGen.v ===== *)
(** * The packet generator (tools/pkt_gen.cpp)

    The readings of the time-stamp counter and of the clock are infinite
    sequences, of which the program has consumed the first [g_reads].  The UDP
    socket is a parameter ([UdpOs]) with its documented effect on descriptors,
    and so is [inet_pton].  The trace of the loop has its readings and its calls
    of [sendto] in the order in which they are made.  A loop that polls takes a
    number of polls as fuel; [wait_ok] and [calibrate_wait_ok] show how many are
    enough when the counter and the clock advance.  The signal ends the loop
    after [n] iterations. *)

From S2P Require Import Prelude CString.
From Stdlib Require Import Ascii String.
From stdpp Require Import base list_numbers gmap option list.
#[local] Open Scope Z_scope.

(** [while (now_ns() - t0 < 100000000ull) cpu_pause()]: the reading after it. *)
Fixpoint calibrate_wait (fuel : nat) (clock : nat -> Z) (t0 : Z) (k : nat) : option nat :=
  match fuel with
  | O => None
  | S fuel => if u64 (clock k - t0) <? 100000000 then calibrate_wait fuel clock t0 (S k) else Some (S k)
  end.

(** Both sequences from their first reading on; division by zero is [None]. *)
Definition calibrate_tsc (fuel : nat) (clock tsc : nat -> Z) : option Z :=
  let t0 := clock 0%nat in
  let c0 := tsc 0%nat in
  k ← calibrate_wait fuel clock t0 1;
  let c1 := tsc 1%nat in
  let t1 := clock k in
  if u64 (t1 - t0) =? 0 then None else Some (u64 (u64 (c1 - c0) * 1000000000) / u64 (t1 - t0)).

Definition send_interval (tsc_hz pps : Z) : Z := if pps =? 0 then 0 else tsc_hz / pps.

(** [sin_port] and [sin_addr] are in network order. *)
Record sockaddr_in := mkAddr { sin_port : list Z; sin_addr : list Z }.

(** The bytes of [htons(port)] in memory. *)
Definition htons_bytes (port : Z) : list Z := [Z.shiftr port 8; Z.land port 255].

Class UdpOs (Os : Type) := {
  udp_fds : Os -> gset Z;
  udp_socket : Os -> Z * Os;
  udp_bind_device : Z -> list Z -> Os -> Z * Os;
  (** [sendto(fd, buf, len, 0, dst)]; [None] is the null pointer *)
  udp_sendto : Z -> option (list Z) -> Z -> sockaddr_in -> Os -> Z * Os;
  udp_close : Z -> Os -> Os
}.

Class UdpOsSpec (Os : Type) `{UdpOs Os} := {
  udp_socket_ok o fd o' : udp_socket o = (fd, o') ->
    if 0 <=? fd then fd ∉ udp_fds o /\ udp_fds o' = {[fd]} ∪ udp_fds o else udp_fds o' = udp_fds o;
  udp_bind_device_ok fd name o r o' : udp_bind_device fd name o = (r, o') -> udp_fds o' = udp_fds o;
  udp_sendto_ok fd buf len dst o r o' : udp_sendto fd buf len dst o = (r, o') -> udp_fds o' = udp_fds o;
  udp_close_ok fd o : udp_fds (udp_close fd o) = udp_fds o ∖ {[fd]}
}.

(** A call of [sendto]. *)
Record datagram := mkDatagram { d_fd : Z; d_buf : option (list Z); d_len : Z; d_dst : sockaddr_in; d_ok : bool }.

Inductive event :=
  | ERead (t : Z)
  | ESend (d : datagram).

(** The locals of [main]'s loop, what it has done and the rates it has printed. *)
Record gen := mkGen {
  g_next : Z; g_sent : Z; g_last_sent : Z; g_sec_mark : Z; g_reads : nat; g_trace : list event; g_rates : list Z }.

Definition start_gen (tsc : nat -> Z) : gen := mkGen (tsc 0%nat) 0 0 (tsc 0%nat) 1 [] [].

(** [while (rdtsc() < next) cpu_pause()]: how many readings have been consumed. *)
Fixpoint wait_until (fuel : nat) (tsc : nat -> Z) (next : Z) (k : nat) (tr : list event) : option (nat * list event) :=
  match fuel with
  | O => None
  | S fuel =>
      let t := tsc k in
      let tr := tr ++ [ERead t] in
      if t <? next then wait_until fuel tsc next (S k) tr else Some (S k, tr)
  end.

Inductive gen_outcome :=
  | GUsage
  | GSocket
  | GBadIp
  | GDone (s : gen).

Section main.
Context {Os : Type} `{UdpOs Os}.

(** One iteration. *)
Definition gen_iter (fuel : nat) (tsc : nat -> Z) (tsc_hz interval fd : Z) (buf : option (list Z)) (size : Z)
    (dst : sockaddr_in) (s : gen) (o : Os) : option (gen * Os) :=
  let next := u64 (g_next s + interval) in
  '(k, tr) ← wait_until fuel tsc next (g_reads s) (g_trace s);
  let '(rc, o) := udp_sendto fd buf size dst o in
  let tr := tr ++ [ESend (mkDatagram fd buf size dst (0 <=? rc))] in
  let sent := if 0 <=? rc then u64 (g_sent s + 1) else g_sent s in
  let t := tsc k in
  let tr := tr ++ [ERead t] in
  if tsc_hz <=? u64 (t - g_sec_mark s) then
    Some (mkGen next sent sent (u64 (g_sec_mark s + tsc_hz)) (S k) tr (g_rates s ++ [u64 (sent - g_last_sent s)]), o)
  else Some (mkGen next sent (g_last_sent s) (g_sec_mark s) (S k) tr (g_rates s), o).

(** The loop for [n] iterations. *)
Fixpoint gen_run (n fuel : nat) (tsc : nat -> Z) (tsc_hz interval fd : Z) (buf : option (list Z)) (size : Z)
    (dst : sockaddr_in) (s : gen) (o : Os) : option (gen * Os) :=
  match n with
  | O => Some (s, o)
  | S n =>
      '(s, o) ← gen_iter fuel tsc tsc_hz interval fd buf size dst s o;
      gen_run n fuel tsc tsc_hz interval fd buf size dst s o
  end.

(** [calloc_ok] is whether [calloc] succeeds; its result is not tested. *)
Definition pkt_gen_main (argv : list (list ascii)) (inet_pton : list ascii -> option (list Z)) (calloc_ok : bool)
    (n fuel : nat) (clock tsc : nat -> Z) (o : Os) : option (gen_outcome * Os) :=
  match argv with
  | _ :: iface :: dst_ip :: port :: size :: rate :: _ =>
      port ← atoi port; size ← atoi size; rate ← atoll rate;
      let dst_port := u16 port in
      let pkt_size := u64 size in
      let pps := u64 rate in
      let '(fd, o) := udp_socket o in
      if fd <? 0 then Some (GSocket, o) else
      let '(_, o) := udp_bind_device fd (code <$> iface) o in
      match inet_pton dst_ip with
      | None => Some (GBadIp, o)
      | Some addr =>
          let dst := mkAddr (htons_bytes dst_port) addr in
          let buf := if calloc_ok then Some (replicate (Z.to_nat (if pkt_size =? 0 then 1 else pkt_size)) 0) else None in
          tsc_hz ← calibrate_tsc fuel clock tsc;
          let interval := send_interval tsc_hz pps in
          let tsc := fun k => tsc (S (S k)) in
          '(s, o) ← gen_run n fuel tsc tsc_hz interval fd buf pkt_size dst (start_gen tsc) o;
          Some (GDone s, udp_close fd o)
      end
  | _ => Some (GUsage, o)
  end.
End main.

(** ** Properties *)

Definition count_true (l : list bool) : Z := Z.of_nat (length (filter (fun b => b = true) l)).

Lemma count_true_snoc l b : count_true (l ++ [b]) = count_true l + (if b then 1 else 0).
Proof. unfold count_true. rewrite filter_app, length_app, Nat2Z.inj_add. by destruct b. Qed.

(** A counter that advances from each reading to the next, up to [limit]. *)
Definition advances (limit : Z) (tsc : nat -> Z) : Prop :=
  (forall k, is_u64 (tsc k)) /\ forall k, tsc k < limit -> tsc k < tsc (S k).

(** The wait polls until the first reading that is not before [next]. *)
Lemma wait_ok fuel limit tsc next k tr :
  advances limit tsc -> next <= limit -> Z.max 0 (next - tsc k) < Z.of_nat fuel ->
  exists k' ts t, wait_until fuel tsc next k tr = Some (k', tr ++ (ERead <$> ts) ++ [ERead t]) /\
    Forall (fun x => x < next) ts /\ next <= t.
Proof.
  intros [Hr Ha] Hn. revert k tr. induction fuel as [|fuel IH]; intros k tr Hf; [lia|simpl; destruct (Z.ltb_spec (tsc k) next)].
  - specialize (Ha k). destruct (IH (S k) (tr ++ [ERead (tsc k)])) as (k' & ts & t & -> & ? & ?); [lia|].
    exists k', (tsc k :: ts), t. split; [by rewrite <-app_assoc|]. split; [by constructor|done].
  - exists (S k), [], (tsc k). by split_and!.
Qed.

(** The wait ends at the first reading 100 ms after [t0]. *)
Lemma calibrate_wait_ok fuel clock t0 k j :
  100000000 <= u64 (clock j - t0) -> (k <= j)%nat -> (j < k + fuel)%nat ->
  exists k', calibrate_wait fuel clock t0 k = Some (S k') /\ (k <= k' <= j)%nat /\ 100000000 <= u64 (clock k' - t0).
Proof.
  intros Hj. revert k. induction fuel as [|fuel IH]; intros k Hk Hf; [lia|]. simpl.
  destruct (Z.ltb_spec (u64 (clock k - t0)) 100000000) as [Hlt|]; [|exists k; split_and!; (done || lia)].
  assert (k <> j) by (intros ->; lia). destruct (IH (S k)) as (k' & -> & ? & ?); [lia..|]. exists k'. split_and!; (done || lia).
Qed.

(** The calibration returns the frequency, rounded down, over an interval of at
    least 100 ms, unless the interval is so long that the ticks scaled to
    nanoseconds do not fit into 64 bits. *)
Theorem calibrate_tsc_ok fuel clock tsc j :
  (forall k, is_u64 (clock k) /\ clock k <= clock (S k)) -> clock 0%nat + 100000000 <= clock j -> (j <= fuel)%nat ->
  0 <= tsc 1%nat - tsc 0%nat -> (tsc 1%nat - tsc 0%nat) * 1000000000 < 2 ^ 64 ->
  exists hz dt, calibrate_tsc fuel clock tsc = Some hz /\ 100000000 <= dt /\
    hz * dt <= (tsc 1%nat - tsc 0%nat) * 1000000000 < (hz + 1) * dt.
Proof.
  intros Hc Hj Hf H0 Hov. assert (forall k, u64 (clock k - clock 0%nat) = clock k - clock 0%nat) as Hu.
  { intros k. assert (clock 0%nat <= clock k) by (induction k as [|k IH]; [lia|]; destruct (Hc k); lia).
    pose proof (Hc k). pose proof (Hc 0%nat). unfold is_u64 in *. apply u64_id. unfold is_u64. lia. }
  assert (j <> 0%nat) by (intros ->; lia).
  destruct (calibrate_wait_ok fuel clock (clock 0%nat) 1 j) as (k & Hk & _ & Hge); [rewrite Hu; lia|lia|lia|].
  rewrite Hu in Hge. destruct (Hc k) as [_ Hmono]. unfold calibrate_tsc. bind_with Hk. cbv zeta.
  rewrite Hu, (proj2 (Z.eqb_neq _ 0)) by lia. set (dt := clock (S k) - clock 0%nat) in *.
  rewrite (u64_id (tsc 1%nat - tsc 0%nat)), u64_id by (unfold is_u64; lia).
  set (d := (tsc 1%nat - tsc 0%nat) * 1000000000) in *. exists (d / dt), dt. split; [done|]. split; [lia|].
  pose proof (Z.div_mod d dt ltac:(lia)). pose proof (Z.mod_pos_bound d dt ltac:(lia)). lia.
Qed.

(** What an iteration with the deadline [next] does: it reads the counter until
    the first reading that is not before the deadline, at once calls [sendto],
    and reads the counter once more. *)
Definition turn (next : Z) (d : datagram) (evs : list event) : Prop :=
  exists ts t r, evs = (ERead <$> ts) ++ [ERead t; ESend d; ERead r] /\ Forall (fun x => x < next) ts /\ next <= t.

(** The iterations that made the calls [ds] from [t0] on. *)
Fixpoint turns (t0 interval : Z) (ds : list datagram) (evs : list event) : Prop :=
  match ds with
  | [] => evs = []
  | d :: ds => exists a b, evs = a ++ b /\ turn (t0 + interval) d a /\ turns (t0 + interval) interval ds b
  end.

Lemma turns_snoc t0 interval ds d a b :
  turns t0 interval ds a -> turn (t0 + (Z.of_nat (length ds) + 1) * interval) d b -> turns t0 interval (ds ++ [d]) (a ++ b).
Proof.
  revert t0 a. induction ds as [|d' ds IH]; intros t0 a; cbn [turns app length].
  - intros -> Hb. exists b, []. split_and!; [by rewrite app_nil_r| |done]. by replace (t0 + interval) with (t0 + (Z.of_nat 0 + 1) * interval) by lia.
  - intros (a1 & a2 & -> & H1 & H2) Hb. exists a1, (a2 ++ b). split_and!; [by rewrite app_assoc|done|]. apply IH; [done|].
    by replace (t0 + interval + (Z.of_nat (length ds) + 1) * interval) with (t0 + (Z.of_nat (S (length ds)) + 1) * interval) by lia.
Qed.

Section loop.
Context {Os : Type} `{UdpOsSpec Os} (fuel : nat) (limit : Z) (tsc : nat -> Z) (hz interval fd : Z).
Context (buf : option (list Z)) (size : Z) (dst : sockaddr_in).
Context (Ha : advances limit tsc) (Hi : 0 <= interval) (H64 : limit < 2 ^ 64) (Hf : limit < Z.of_nat fuel).

(** The invariant of the loop after the calls [ds]. *)
Record gen_inv (ds : list datagram) (s : gen) : Prop := {
  gi_next : g_next s = tsc 0%nat + Z.of_nat (length ds) * interval;
  gi_sent : g_sent s = u64 (count_true (d_ok <$> ds));
  gi_rates : u64 (foldr Z.add 0 (g_rates s)) = g_last_sent s;
  gi_trace : turns (tsc 0%nat) interval ds (g_trace s);
  gi_calls : Forall (fun d => d_fd d = fd /\ d_buf d = buf /\ d_len d = size /\ d_dst d = dst) ds
}.

Lemma gen_iter_ok ds s (o : Os) :
  tsc 0%nat + (Z.of_nat (length ds) + 1) * interval <= limit -> gen_inv ds s ->
  exists d s' o', gen_iter fuel tsc hz interval fd buf size dst s o = Some (s', o') /\ gen_inv (ds ++ [d]) s' /\
    udp_fds o' = udp_fds o.
Proof.
  intros Hl I. pose proof (proj1 Ha (g_reads s)) as Hr. pose proof (proj1 Ha 0%nat) as Hr0. unfold is_u64 in *.
  unfold gen_iter. set (next := u64 (g_next s + interval)).
  assert (next = tsc 0%nat + (Z.of_nat (length ds) + 1) * interval) as Hd.
  { unfold next. rewrite (gi_next _ _ I), u64_id by (unfold is_u64; lia). lia. }
  destruct (wait_ok fuel limit tsc next (g_reads s) (g_trace s) Ha) as (k & ts & t & Hk & Hts & Hge); [lia..|]. bind_with Hk.
  destruct (udp_sendto fd buf size dst o) as [rc o1] eqn:E. apply udp_sendto_ok in E.
  set (d := mkDatagram fd buf size dst (0 <=? rc)). exists d.
  set (sent := if 0 <=? rc then u64 (g_sent s + 1) else g_sent s).
  assert (sent = u64 (count_true (d_ok <$> (ds ++ [d])))) as Hsent.
  { unfold sent. rewrite (gi_sent _ _ I), fmap_app. cbn [fmap list_fmap d_ok d]. rewrite count_true_snoc.
    destruct (0 <=? rc); [by rewrite u64_add_l|by rewrite Z.add_0_r]. }
  assert (turns (tsc 0%nat) interval (ds ++ [d])
    (((g_trace s ++ (ERead <$> ts) ++ [ERead t]) ++ [ESend d]) ++ [ERead (tsc k)])) as Htr.
  { rewrite <-!app_assoc. apply turns_snoc; [apply I|]. rewrite <-Hd. exists ts, t, (tsc k). by split_and!. }
  assert (next = tsc 0%nat + Z.of_nat (length (ds ++ [d])) * interval) as Hnext by (rewrite Hd, length_app; simpl; lia).
  assert (Forall (fun d => d_fd d = fd /\ d_buf d = buf /\ d_len d = size /\ d_dst d = dst) (ds ++ [d])) as Hcalls
    by (apply Forall_app; split; [apply I|by apply Forall_singleton]).
  destruct (hz <=? _); (eexists _, _; split; [done|]; split; [|done]; split; cbn [g_next g_sent g_last_sent g_rates g_trace]; try done).
  - rewrite (sum_deltas _ _ _ (gi_rates _ _ I)), Hsent. apply u64_id, u64_range.
  - apply (gi_rates _ _ I).
Qed.

(** With a counter that advances, the loop gets through any number of packets. *)
Lemma gen_run_ok n ds s (o : Os) :
  tsc 0%nat + Z.of_nat (length ds + n) * interval <= limit -> gen_inv ds s ->
  exists ds' s' o', gen_run n fuel tsc hz interval fd buf size dst s o = Some (s', o') /\ length ds' = (length ds + n)%nat /\
    gen_inv ds' s' /\ udp_fds o' = udp_fds o.
Proof.
  revert ds s o. induction n as [|n IH]; intros ds s o Hl I.
  { exists ds, s, o. rewrite Nat.add_0_r. by split_and!. }
  destruct (gen_iter_ok ds s o) as (d & s1 & o1 & E & I1 & F); [nia|done|]. cbn [gen_run]. bind_with E.
  destruct (IH (ds ++ [d]) s1 o1) as (ds' & s' & o' & -> & Hlen & I' & F'); [rewrite length_app; simpl; nia|done|].
  exists ds', s', o'. rewrite Hlen, length_app. simpl. split_and!; [done|lia|done|congruence].
Qed.
End loop.

(** C30: the generator from its command line to its exit, on a machine whose clock
    reaches 100 ms and whose counter advances.  The calibration returns the
    frequency of the counter, rounded down, over an interval of at least 100 ms.
    If there is no socket nothing stays open; if the address is bad it gives up
    with its socket still open; otherwise the loop gets through its [n] packets
    and the socket is closed.  In each turn the counter is read until the first
    reading that is not before the deadline, the j-th deadline being j+1
    intervals after the start whatever happened to the packets before, and
    [sendto] is called right after that reading, with the size and the
    destination of the command line, the port in network order, reading inside
    of the buffer.  The total is the number of calls that succeeded, and the
    printed rates add up to what had been sent at the last report. *)
Theorem pkt_gen_program {Os : Type} `{UdpOsSpec Os} (prog iface ip port size rate : list ascii) (rest : list (list ascii))
    (inet_pton : list ascii -> option (list Z)) (calloc_ok : bool) (n fuel j : nat) (clock tsc : nat -> Z) (o : Os)
    (P S R limit : Z) :
  atoi port = Some P -> atoi size = Some S -> atoll rate = Some R ->
  (forall k, is_u64 (clock k) /\ clock k <= clock (1 + k)%nat) -> clock 0%nat + 100000000 <= clock j -> (j <= fuel)%nat ->
  0 <= tsc 1%nat - tsc 0%nat -> (tsc 1%nat - tsc 0%nat) * 1000000000 < 2 ^ 64 ->
  advances limit (fun k => tsc (2 + k)%nat) -> limit < 2 ^ 64 -> limit < Z.of_nat fuel ->
  exists hz dt, calibrate_tsc fuel clock tsc = Some hz /\ 100000000 <= dt /\
    hz * dt <= (tsc 1%nat - tsc 0%nat) * 1000000000 < (hz + 1) * dt /\
    let interval := send_interval hz (u64 R) in
    (tsc 2%nat + Z.of_nat n * interval <= limit ->
     exists r o', pkt_gen_main (prog :: iface :: ip :: port :: size :: rate :: rest) inet_pton calloc_ok n fuel clock tsc o = Some (r, o') /\
       match r with
       | GUsage => False
       | GSocket => udp_fds o' = udp_fds o
       | GBadIp => inet_pton ip = None /\ exists fd, fd ∉ udp_fds o /\ udp_fds o' = {[fd]} ∪ udp_fds o
       | GDone s => exists ds, length ds = n /\ turns (tsc 2%nat) interval ds (g_trace s) /\
           Forall (fun d => d_len d = u64 S /\ sin_port (d_dst d) = [u16 P / 256; u16 P mod 256] /\
             inet_pton ip = Some (sin_addr (d_dst d)) /\ forall m, d_buf d = Some m -> d_len d <= Z.of_nat (length m)) ds /\
           g_sent s = u64 (count_true (d_ok <$> ds)) /\ u64 (foldr Z.add 0 (g_rates s)) = g_last_sent s /\
           udp_fds o' = udp_fds o
       end).
Proof.
  intros HP HS HR Hclk Hj Hjf Htsc Hov Ha H64 Hf.
  destruct (calibrate_tsc_ok fuel clock tsc j Hclk Hj Hjf Htsc Hov) as (hz & dt & Hhz & Hdt & Hb).
  exists hz, dt. split_and!; [done..|lia|lia|]. intros interval Hl.
  assert (0 <= interval) as Hi.
  { unfold interval, send_interval. destruct (Z.eqb_spec (u64 R) 0); [done|]. pose proof (u64_range R). unfold is_u64 in *.
    apply Z.div_pos; [nia|lia]. }
  unfold pkt_gen_main. bind_with HP. bind_with HS. bind_with HR.
  destruct (udp_socket o) as [fd o1] eqn:E1. apply udp_socket_ok in E1. cbv zeta.
  destruct (Z.ltb_spec fd 0) as [Hneg|Hpos].
  { rewrite (proj2 (Z.leb_gt _ _)) in E1 by lia. by eexists _, _. }
  rewrite (proj2 (Z.leb_le _ _)) in E1 by lia. destruct E1 as [Hfresh E1].
  destruct (udp_bind_device fd _ o1) as [rc o2] eqn:E2. apply udp_bind_device_ok in E2.
  destruct (inet_pton ip) as [addr|] eqn:Eip; [|eexists _, _; split; [done|]; split; [done|]; exists fd; split; congruence].
  bind_with Hhz. set (buf := if calloc_ok then _ else _).
  destruct (gen_run_ok fuel limit (fun k => tsc (2 + k)%nat) hz interval fd buf (u64 S) (mkAddr (htons_bytes (u16 P)) addr)
    Ha Hi H64 Hf n [] (start_gen (fun k => tsc (2 + k)%nat)) o2) as (ds & s & o3 & Hrun & Hlen & I & Hfds); [done|by split; cbn; try lia|].
  fold interval. bind_with Hrun. eexists _, _. split; [done|]. exists ds. split_and!; try done; try apply I.
  2: { rewrite udp_close_ok. set_solver. }
  eapply Forall_impl; [apply I|]. intros d (_ & Hbuf & -> & ->). split_and!; [done| |done|].
  - cbn. unfold htons_bytes. rewrite Z.shiftr_div_pow2 by lia. change 255 with (2 ^ 8 - 1). by rewrite land_mask.
  - intros m Hm. rewrite Hbuf in Hm. unfold buf in Hm. destruct calloc_ok; [|done]. injection Hm as <-. rewrite length_replicate.
    pose proof (u64_range S) as Hr. unfold is_u64 in Hr. destruct (Z.eqb_spec (u64 S) 0); lia.
Qed.

(** ** Witness *)

(** A socket on descriptor 3 on which every second call fails. *)
Record toy_udp := mkToyUdp { tu_fds : gset Z; tu_calls : nat }.

#[export] Instance toy_udp_os : UdpOs toy_udp := {|
  udp_fds := tu_fds;
  udp_socket o := if decide (3 ∈ tu_fds o) then (-1, o) else (3, mkToyUdp ({[3]} ∪ tu_fds o) (tu_calls o));
  udp_bind_device _ _ o := (-1, o);
  udp_sendto _ _ len _ o := (if Nat.even (tu_calls o) then len else -1, mkToyUdp (tu_fds o) (S (tu_calls o)));
  udp_close fd o := mkToyUdp (tu_fds o ∖ {[fd]}) (tu_calls o)
|}.

#[export] Instance toy_udp_spec : UdpOsSpec toy_udp.
Proof.
  split; simpl.
  - intros o fd o'. case_decide; intros [= <- <-]; simpl; auto.
  - by intros fd name o r o' [= <- <-].
  - by intros fd buf len dst o r o' [= <- <-].
  - done.
Qed.

(** A clock of 100 ms and a counter of one tick per reading; a packet every five
    ticks. *)
Definition demo_clock (k : nat) : Z := Z.min (Z.of_nat k * 100000000) 1000000000000.
Definition demo_tsc (k : nat) : Z := Z.min (Z.of_nat k) 1000.

Lemma pkt_gen_program_witness :
  exists s ds o', pkt_gen_main [lit "pkt_gen"; lit "eth0"; lit "10.0.0.2"; lit "9000"; lit "64"; lit "1"] (fun _ => Some [10; 0; 0; 2]) true
      3 200 demo_clock demo_tsc (mkToyUdp ∅ 0) = Some (GDone s, o') /\
    length ds = 3%nat /\ turns 2 5 ds (g_trace s) /\ udp_fds o' = ∅ /\
    Forall (fun d => d_len d = 64 /\ sin_port (d_dst d) = [35; 40]) ds.
Proof.
  destruct (pkt_gen_program (lit "pkt_gen") (lit "eth0") (lit "10.0.0.2") (lit "9000") (lit "64") (lit "1") [] (fun _ => Some [10; 0; 0; 2]) true
    3 200 1 demo_clock demo_tsc (mkToyUdp ∅ 0) 9000 64 1 100) as (hz & dt & Hhz & _ & _ & Hr).
  - reflexivity.
  - reflexivity.
  - reflexivity.
  - intros k. unfold demo_clock, is_u64. lia.
  - vm_compute. discriminate.
  - lia.
  - vm_compute. discriminate.
  - reflexivity.
  - split; [intros k; unfold demo_tsc, is_u64; lia|intros k; unfold demo_tsc; lia].
  - reflexivity.
  - reflexivity.
  - vm_compute in Hhz. injection Hhz as <-. destruct Hr as (r & o' & Hm & Hr); [vm_compute; discriminate|].
    destruct r as [| | |s]; [destruct Hr|exfalso; vm_compute in Hm; discriminate Hm|exfalso; vm_compute in Hm; discriminate Hm|].
    destruct Hr as (ds & Hl & Ht & Hd & _ & _ & Hf). exists s, ds, o'. split; [exact Hm|]. split; [exact Hl|].
    split; [exact Ht|]. split; [exact Hf|]. eapply Forall_impl; [exact Hd|]. intros d (E1 & E2 & _). split; [exact E1|exact E2].
Defined.
