(* ===== verification/PerfBaseline.v ===== *)
(** * The huge-page benchmark (tools/perf_baseline.cpp)

    The whole of [main]: the two regions, the workload over their memory, the
    counters around it and the figures of the table.  The kernel's mappings and
    counters are the interfaces of OsMem.v and PerfCounters.v, which here are two
    separate states; [ran] is what the hardware does to the running counters
    while a workload executes over a region, and [order] is the vector
    [std::shuffle] returns.  The memory of the regions is a store of 64-bit words,
    by their base; a fresh region is zero-filled. *)

From S2P Require Import Prelude OsMem HugeAlloc Rdtsc PerfCounters.
From Stdlib Require Import SpecFloat.
From stdpp Require Import base list_numbers gmap option strings list.
#[local] Open Scope Z_scope.

Definition kBufSize : Z := 2048.
Definition kBufCount : Z := 65536.
Definition kPasses : Z := 64.

(** A null [base] is 0. *)
Record Region := mkRegion { base : Z; r_bytes : Z; huge : bool }.

Record Metrics := mkMetrics {
  l1_miss : Z; llc_miss : Z; dtlb_load_miss : Z; dtlb_store_miss : Z; ins : Z; cyc : Z }.

Definition dsub : double -> double -> double := SFsub 53 1024.

Definition ipc (m : Metrics) : double :=
  if cyc m =? 0 then S754_zero false else ddiv (u64_to_double (ins m)) (u64_to_double (cyc m)).

Definition reduction_pct (base improved : Z) : double :=
  if base =? 0 then S754_zero false
  else dmul (ddiv (dsub (u64_to_double base) (u64_to_double improved)) (u64_to_double base)) (u64_to_double 100).

(** One pass: write and read back the first word of each buffer. *)
Fixpoint touch_all (order : list Z) (p : Z) (sum : Z) (words : list Z) : option (Z * list Z) :=
  match order with
  | [] => Some (sum, words)
  | idx :: order =>
      let slot := u64 (idx * kBufSize) / 8 in
      words ← aset words slot (u64 (idx + p));
      v ← aget words slot;
      touch_all order p (u64 (sum + v)) words
  end.

(** [n] passes from pass [p] on. *)
Fixpoint run_passes (n : nat) (order : list Z) (p : Z) (sum : Z) (words : list Z) : option (Z * list Z) :=
  match n with
  | O => Some (sum, words)
  | S n => '(sum, words) ← touch_all order p sum words; run_passes n order (p + 1) sum words
  end.

(** The words of each region, by its base. *)
Notation memory := (gmap Z (list Z)).

(** [None] is an access outside of the region. *)
Definition run_workload (r : Region) (order : list Z) (mem : memory) : option (Z * memory) :=
  words ← mem !! base r;
  '(sum, words) ← run_passes (Z.to_nat kPasses) order 0 0 words;
  Some (sum, <[base r := words]> mem).

(** The memory of a fresh region. *)
Definition fresh_words (r : Region) : list Z := replicate (Z.to_nat (r_bytes r / 8)) 0.

(** The rows of the table: name, both figures and the reduction. *)
Definition row (name : string) (a b : Z) : string * Z * Z * double := (name, a, b, reduction_pct a b).

Definition rows (a b : Metrics) : list (string * Z * Z * double) :=
  [row "L1_CACHE_MISSES" (l1_miss a) (l1_miss b); row "LLC_CACHE_MISSES" (llc_miss a) (llc_miss b);
   row "TLB_LOAD_MISSES" (dtlb_load_miss a) (dtlb_load_miss b); row "TLB_STORE_MISSES" (dtlb_store_miss a) (dtlb_store_miss b);
   row "INSTRUCTIONS" (ins a) (ins b); row "CYCLES" (cyc a) (cyc b)].

(** The last line: the reduction of all dTLB misses. *)
Definition tlb_reduction (a b : Metrics) : double :=
  reduction_pct (u64 (dtlb_load_miss a + dtlb_store_miss a)) (u64 (dtlb_load_miss b + dtlb_store_miss b)).

(** What [main] prints: whether the huge region has huge pages, whether counters
    are available, the table, the instructions per cycle and the last line; and
    the checksums of the two workloads, and the two regions with their memory when
    they are unmapped. *)
Record Report := mkReport {
  rp_huge : bool; rp_counters : bool; rp_rows : list (string * Z * Z * double);
  rp_ipc : double * double; rp_tlb : double; rp_sums : Z * Z;
  rp_regions : Region * Region; rp_memory : memory }.

Section baseline.
Context {Os : Type} `{OsMem Os} `{PerfAbi} {Ps : Type} `{PerfOs Ps}.

Definition alloc_4k (bytes : Z) (o : Os) : Region * Os :=
  match mmap bytes false o with
  | (Some p, o) => (mkRegion p bytes false, o)
  | (None, o) => (mkRegion 0 0 false, o)
  end.

Definition alloc_huge (bytes : Z) (o : Os) : Region * Os :=
  let kHuge := 2 * 1024 * 1024 in
  let rounded := u64 (u64 (u64 (bytes + kHuge) - 1) / kHuge * kHuge) in
  match mmap rounded true o with
  | (Some p, o) => (mkRegion p rounded true, o)
  | (None, o) => alloc_4k bytes o
  end.

(** The counters of the scope, and the figures [measure] returns. *)
Definition measured : list PerfEvent :=
  [L1_CACHE_MISSES; LLC_CACHE_MISSES; TLB_LOAD_MISSES; TLB_STORE_MISSES; INSTRUCTIONS; CYCLES].

Definition read_metrics (scope : list PerfCounter) (o : Ps) : Metrics :=
  mkMetrics (count scope L1_CACHE_MISSES o) (count scope LLC_CACHE_MISSES o) (count scope TLB_LOAD_MISSES o)
    (count scope TLB_STORE_MISSES o) (count scope INSTRUCTIONS o) (count scope CYCLES o).

(** The counters are read while the scope is alive, and the checksum is dropped;
    it is part of the result here. *)
Definition measure (ran : Region -> Ps -> Ps) (r : Region) (order : list Z) (mem : memory) (o : Ps) :
    option (Metrics * Z * memory * Ps) :=
  let '(scope, o) := new_PerfScope measured (-1) 0 o in
  '(sink, mem) ← run_workload r order mem;
  let o := ran r o in
  Some (read_metrics scope o, sink, mem, delete_PerfScope scope o).

(** [main]: [None] inside is the exit after a failed allocation. *)
Definition main (ran : Region -> Ps -> Ps) (order : list Z) (o : Os) (ps : Ps) :
    option (option Report * Os * Ps) :=
  let bytes := u64 (kBufSize * kBufCount) in
  let '(r4k, o) := alloc_4k bytes o in
  let '(rhuge, o) := alloc_huge bytes o in
  if (base r4k =? 0) || (base rhuge =? 0) then Some (None, o, ps)
  else
    let mem : memory := <[base r4k := fresh_words r4k]> {[base rhuge := fresh_words rhuge]} in
    let '(probe, ps) := new_PerfCounter TLB_LOAD_MISSES (-1) 0 ps in
    let ps := delete_PerfCounter probe ps in
    '(m4k, s4k, mem, ps) ← measure ran r4k order mem ps;
    '(mhuge, shuge, mem, ps) ← measure ran rhuge order mem ps;
    let '(_, o) := munmap (base r4k) (r_bytes r4k) o in
    let '(_, o) := munmap (base rhuge) (r_bytes rhuge) o in
    Some (Some (mkReport (huge rhuge) (valid probe) (rows m4k mhuge) (ipc m4k, ipc mhuge) (tlb_reduction m4k mhuge)
                  (s4k, shuge) (r4k, rhuge) mem), o, ps).
End baseline.

(** ** The workload *)

Definition sum_list (l : list Z) : Z := foldr Z.add 0 l.

(** [words'] is [words] with [i + p] in the first word of each buffer [i]. *)
Record touched (order : list Z) (p : Z) (words words' : list Z) : Prop := {
  to_length : length words' = length words;
  to_first : forall i, i ∈ order -> words' !! Z.to_nat (i * 256) = Some (i + p);
  to_other : forall k, (forall i, i ∈ order -> k <> Z.to_nat (i * 256)) -> words' !! k = words !! k
}.

Lemma touched_trans order p p' w1 w2 w3 : touched order p w1 w2 -> touched order p' w2 w3 -> touched order p' w1 w3.
Proof.
  intros [L F O] [L' F' O']. split; [congruence|done|]. intros k Hk. by rewrite O', O.
Qed.

Lemma touched_cons i order p words words' :
  (i ∈ order \/ (Z.to_nat (i * 256) < length words)%nat) -> (forall j, j ∈ i :: order -> 0 <= j) ->
  touched order p (<[Z.to_nat (i * 256) := i + p]> words) words' -> touched (i :: order) p words words'.
Proof.
  intros Hlt Hpos [L F O]. rewrite length_insert in L. split; [done| |].
  - intros j [->|Hj]%elem_of_cons; [|by apply F]. destruct (decide (i ∈ order)); [by apply F|].
    destruct Hlt as [?|Hlt]; [done|]. rewrite O; [by apply list_lookup_insert_eq|].
    intros j Hj Heq. assert (0 <= i) by (apply Hpos; set_solver). assert (0 <= j) by (apply Hpos; set_solver).
    assert (j = i) as -> by lia. done.
  - intros k Hk. rewrite O by (intros j Hj; apply Hk; set_solver). apply list_lookup_insert_ne.
    intros Heq. by apply (Hk i); [set_solver|].
Qed.

Lemma touch_all_ok order p sum words :
  0 <= p < 2 ^ 32 -> is_u64 sum -> Forall (fun i => 0 <= i < kBufCount) order -> kBufCount * 256 <= Z.of_nat (length words) ->
  exists words', touch_all order p sum words = Some (u64 (sum + sum_list ((fun i => i + p) <$> order)), words') /\
    touched order p words words'.
Proof.
  intros Hp Hsum Ho. revert sum words Hsum. induction Ho as [|idx order Hi Ho IH]; intros sum words Hsum Hl; cbn [touch_all].
  { exists words. unfold sum_list. simpl. rewrite Z.add_0_r, u64_id by done. split; [done|]. split; [done| |done]. intros i Hi. set_solver. }
  unfold kBufCount, kBufSize in *. rewrite (u64_id (idx * 2048)) by (unfold is_u64; lia).
  replace (idx * 2048) with (idx * 256 * 8) by lia. rewrite Z.div_mul by done.
  rewrite aset_Some by lia. cbn [mbind option_bind].
  rewrite (bind_red _ _ (u64 (idx + p))) by (apply aget_Some; split; [lia|]; apply list_lookup_insert_eq; lia).
  rewrite (u64_id (idx + p)) by (unfold is_u64; lia).
  destruct (IH (u64 (sum + (idx + p))) (<[Z.to_nat (idx * 256) := idx + p]> words)) as (words' & -> & Hw);
    [apply u64_range|by rewrite length_insert|].
  exists words'. rewrite u64_add_l. split; [do 2 f_equal; f_equal; rewrite fmap_cons; unfold sum_list; cbn [foldr]; lia|].
  apply touched_cons; [right; lia| |done]. intros j [->|Hj]%elem_of_cons; [lia|]. rewrite Forall_forall in Ho. apply Ho in Hj. lia.
Qed.

Lemma sum_shift order p : sum_list ((fun i => i + p) <$> order) = sum_list order + Z.of_nat (length order) * p.
Proof. induction order as [|i order IH]; [done|]. rewrite fmap_cons. unfold sum_list in *. cbn [foldr length]. rewrite IH, Nat2Z.inj_succ. lia. Qed.

(** The checksum: every pass adds the indices, and its number once per buffer. *)
Lemma run_passes_ok n order p sum words :
  0 <= p -> p + Z.of_nat n < 2 ^ 32 -> is_u64 sum -> Forall (fun i => 0 <= i < kBufCount) order ->
  kBufCount * 256 <= Z.of_nat (length words) ->
  exists words', run_passes n order p sum words =
    Some (u64 (sum + Z.of_nat n * sum_list order + Z.of_nat (length order) * sum_list (seqZ p (Z.of_nat n))), words') /\
    (if decide (n = 0%nat) then words' = words else touched order (p + Z.of_nat n - 1) words words').
Proof.
  intros Hp Hn Hsum Ho. revert p sum words Hp Hn Hsum. induction n as [|n IH]; intros p sum words Hp Hn Hsum Hl.
  { exists words. split; [|done]. simpl. unfold sum_list. simpl. do 2 f_equal. rewrite u64_id by (by rewrite !Z.mul_0_r, !Z.add_0_r). lia. }
  destruct (touch_all_ok order p sum words) as (w1 & H1 & Hw1); [lia|done..|]. cbn [run_passes]. bind_with H1.
  destruct (IH (p + 1) (u64 (sum + sum_list ((fun i => i + p) <$> order))) w1) as (w2 & -> & Hw2);
    [lia..|apply u64_range|rewrite (to_length _ _ _ _ Hw1); lia|].
  exists w2. split.
  2: { replace (p + Z.of_nat (S n) - 1) with (p + 1 + Z.of_nat n - 1) by lia. rewrite decide_False by done. case_decide; [|by eapply touched_trans].
       subst. by replace (p + 1 + Z.of_nat 0 - 1) with p by lia. }
  do 2 f_equal. rewrite <-!Z.add_assoc, u64_add_l, sum_shift. f_equal.
  rewrite (seqZ_cons p (Z.of_nat (S n))) by lia. replace (Z.pred (Z.of_nat (S n))) with (Z.of_nat n) by lia.
  replace (Z.succ p) with (p + 1) by lia. unfold sum_list at 5. cbn [foldr]. fold (sum_list (seqZ (p + 1) (Z.of_nat n))). lia.
Qed.

Definition checksum : Z := 137568976896.

Lemma sum_list_perm l l' : l ≡ₚ l' -> sum_list l = sum_list l'.
Proof. induction 1; unfold sum_list in *; simpl; lia. Qed.

Lemma sum_seqZ p (n : nat) : 2 * sum_list (seqZ p (Z.of_nat n)) = Z.of_nat n * (2 * p + Z.of_nat n - 1).
Proof.
  revert p. induction n as [|n IH]; intros p; [done|].
  rewrite (seqZ_cons p (Z.of_nat (S n))) by lia. replace (Z.pred (Z.of_nat (S n))) with (Z.of_nat n) by lia.
  unfold sum_list in *. cbn [foldr]. specialize (IH (Z.succ p)). lia.
Qed.

Lemma fresh_words_len r : kBufSize * kBufCount <= r_bytes r -> kBufCount * 256 <= Z.of_nat (length (fresh_words r)).
Proof.
  unfold fresh_words, kBufSize, kBufCount. rewrite length_replicate. intros Hb.
  assert (16777216 <= r_bytes r / 8) by (apply Z.div_le_lower_bound; lia). lia.
Qed.

(** What the workload leaves in a region: every buffer has its index plus the
    number of the last pass in its first word, and nothing else has been written. *)
Definition worked (r : Region) (mem : memory) : Prop :=
  exists words, mem !! base r = Some words /\ touched (seqZ 0 kBufCount) (kPasses - 1) (fresh_words r) words.

Lemma touched_perm order order' p w w' : order ≡ₚ order' -> touched order p w w' -> touched order' p w w'.
Proof.
  intros Ho [L F O]. split; [done| |]; intros *; [|intros Hk]; rewrite <-?Ho; [apply F|].
  apply O. intros i. rewrite Ho. apply Hk.
Qed.

Lemma run_workload_ok r order mem :
  order ≡ₚ seqZ 0 kBufCount -> kBufSize * kBufCount <= r_bytes r -> mem !! base r = Some (fresh_words r) ->
  exists mem', run_workload r order mem = Some (checksum, mem') /\ worked r mem' /\
    forall b, b <> base r -> mem' !! b = mem !! b.
Proof.
  intros Ho Hl Hm. unfold run_workload. bind_with Hm.
  destruct (run_passes_ok (Z.to_nat kPasses) order 0 0 (fresh_words r)) as (w & Hw & Ht); try done.
  - rewrite Ho. apply Forall_forall. intros i Hi%elem_of_seqZ. lia.
  - by apply fresh_words_len.
  - rewrite (bind_red _ _ _ Hw). eexists. split_and!.
    + do 2 f_equal. rewrite (sum_list_perm _ _ Ho), (Permutation_length Ho), length_seqZ.
      pose proof (sum_seqZ 0 (Z.to_nat kBufCount)) as H1. pose proof (sum_seqZ 0 (Z.to_nat kPasses)) as H2.
      rewrite !Z2Nat.id in * by done. unfold checksum, kBufCount, kPasses in *. rewrite u64_id by (unfold is_u64; lia). lia.
    + exists w. split; [apply lookup_insert_eq|]. rewrite decide_False in Ht by done. by eapply touched_perm.
    + intros b Hb. by apply lookup_insert_ne.
Qed.

(** ** The counters and the regions *)

Section program.
Context {Os : Type} `{OsMemSpec Os} `{PerfAbi} {Ps : Type} `{PerfOsSpec Ps}.
Context (ran : Region -> Ps -> Ps) (ran_dom : forall r o, dom (counters (ran r o)) = dom (counters o)).

Lemma probe_dom e cpu pid (o : Ps) c o' :
  new_PerfCounter e cpu pid o = (c, o') -> dom (counters (delete_PerfCounter c o')) = dom (counters o).
Proof.
  intros [_ Hc]%new_PerfCounter_ok. unfold delete_PerfCounter. destruct (0 <=? fd_ c); [|by rewrite Hc].
  destruct Hc as [Hf Hc]. by rewrite perf_close_ok, Hc, delete_insert_id.
Qed.

Lemma measure_ok r order mem (o : Ps) :
  order ≡ₚ seqZ 0 kBufCount -> kBufSize * kBufCount <= r_bytes r -> mem !! base r = Some (fresh_words r) ->
  exists scope o1 mem' o', measure ran r order mem o = Some (read_metrics scope (ran r o1), checksum, mem', o') /\
    event_ <$> scope = measured /\
    worked r mem' /\ (forall b, b <> base r -> mem' !! b = mem !! b) /\ dom (counters o') = dom (counters o).
Proof.
  intros Ho Hl Hm. unfold measure, new_PerfScope.
  destruct (open_counters _ (-1) 0 o) as [cs o1] eqn:E. apply open_counters_ok in E as (Hev & Hnd & Hsame & Hfresh).
  destruct (run_workload_ok r order mem Ho Hl Hm) as (mem' & Hw & Hwk & Hother). bind_with Hw. eexists _, _, _, _.
  split; [done|]. split; [done|]. split; [done|]. split; [done|].
  apply set_eq. intros fd. rewrite !elem_of_dom. unfold delete_PerfScope.
  rewrite (foldl_counters delete_PerfCounter (fun _ => None) _ _ close_lookup Hnd).
  rewrite (foldl_counters stop _ _ _ stop_lookup Hnd). case_decide as Hfd.
  - apply elem_of_fds in Hfd as (Hge & c & Hc & <-). by rewrite (proj1 (Hfresh c Hc Hge)).
  - rewrite <-!elem_of_dom, ran_dom, !elem_of_dom.
    rewrite (foldl_counters start _ _ _ start_lookup Hnd), decide_False by done. by rewrite Hsame.
Qed.

(** What a successful allocation gives, and how it is undone. *)
Definition region_ok (r : Region) (o o' : Os) : Prop :=
  base r <> 0 -> live o !! base r = None /\ kBufSize * kBufCount <= r_bytes r /\
    live o' = <[base r := mkMapping (r_bytes r) (huge r)]> (live o) /\ r_bytes r mod huge_page = 0.

Lemma alloc_4k_ok o r o' :
  alloc_4k (kBufSize * kBufCount) o = (r, o') -> region_ok r o o' /\ (base r = 0 -> live o' = live o) /\ huge r = false.
Proof.
  unfold alloc_4k. destruct (mmap _ false o) as [[p|] o1] eqn:E; intros [= <- <-].
  - apply mmap_mapped in E as (Hp & _ & Hn & Hl). by split_and!; [intros _| |].
  - apply mmap_failed in E. by split_and!; [intros ?| |].
Qed.

Lemma alloc_huge_ok o r o' : alloc_huge (kBufSize * kBufCount) o = (r, o') -> region_ok r o o' /\ (base r = 0 -> live o' = live o).
Proof.
  unfold alloc_huge. change (u64 _) with (kBufSize * kBufCount). destruct (mmap _ true o) as [[p|] o1] eqn:E.
  - intros [= <- <-]. apply mmap_mapped in E as (Hp & _ & Hn & Hl). by split; [intros _|].
  - apply mmap_failed in E. unfold region_ok. rewrite <-E. intros (? & ? & _)%alloc_4k_ok. done.
Qed.

Lemma unmap_ok o p len h :
  live o !! p = Some (mkMapping len h) -> len mod huge_page = 0 ->
  exists b o', munmap p len o = (b, o') /\ live o' = delete p (live o).
Proof.
  intros Hp Hm. destruct (munmap_done p len o _ Hp) as (o' & -> & Ho); [by apply page_len_multiple|done|eauto].
Qed.

(** A null region comes from an [mmap] of regular pages that failed. *)
Lemma alloc_null o r o' : alloc_4k (kBufSize * kBufCount) o = (r, o') -> base r = 0 -> exists o1, (mmap (kBufSize * kBufCount) false o1).1 = None.
Proof.
  unfold alloc_4k. destruct (mmap _ false o) as [[p|] o1] eqn:E; intros [= <- <-] Hb.
  - by apply mmap_mapped in E as (Hp & _).
  - exists o. by rewrite E.
Qed.

Lemma alloc_huge_null o r o' : alloc_huge (kBufSize * kBufCount) o = (r, o') -> base r = 0 -> exists o1, (mmap (kBufSize * kBufCount) false o1).1 = None.
Proof.
  unfold alloc_huge. destruct (mmap _ true o) as [[p|] o1] eqn:E; [|apply alloc_null].
  intros [= <- <-] Hb. by apply mmap_mapped in E as (Hp & _).
Qed.
End program.

(** ** Properties *)


(** A kernel with 64 huge pages free, and the counters of PerfCounters.v. *)
Lemma demo_allocates ran order (ps : gmap Z counter) o' ps' : main ran order (toy_boot 64 (2 ^ 28)) ps <> Some (None, o', ps').
Proof.
  unfold main. cbv zeta. destruct (alloc_4k _ (toy_boot 64 (2 ^ 28))) as [r1 o1] eqn:E1.
  destruct (alloc_huge _ o1) as [r2 o2] eqn:E2. vm_compute in E1. injection E1 as <- <-. vm_compute in E2. injection E2 as <- <-.
  cbn [base Z.eqb orb]. destruct (new_PerfCounter _ _ _ ps) as [c ps1]. intros Hm.
  apply bind_Some in Hm as ([[[m1 s1] mem1] ps2] & _ & Hm). apply bind_Some in Hm as ([[[m2 s2] mem2] ps3] & _ & Hm).
  by repeat case_match.
Qed.

